(* ===== verification/_CoqProject ===== *)
-Q . S2P
Prelude.v
GoStrings.v
Files.v
GoTime.v
Ttl.v
RateLimiter.v
Types.v
Prog.v
Store.v
World.v
Broker.v
Dispatch.v
Demo.v
Termination.v
BrokerInv.v
BrokerWp.v
BrokerOps.v
Lifecycle.v
Mail.v
Sessions.v
Listing.v
Base64.v
Ucan.v
DemoJwt.v
UcanSpec.v
Server.v
ServerSpec.v
Startup.v
Config.v
Listen.v
Summary.v
KeyFiles.v
Cli.v
Commands.v
Identity.v
Json.v
Client.v
ClientSpec.v
Api.v
Thread.v
Fetch.v
Http.v
Memory.v
Dream.v
Nats.v
Tools.v
StateFile.v
AtomicFile.v
Mcp.v
Transport.v
Goroutines.v
Turns.v
Fleet.v
FleetRun.v
McpSpec.v
Conversation.v
FleetSpec.v
Calls.v
FleetExit.v
FleetRaces.v
FleetInterrupt.v
Prologue.v
Console.v
Nkeys.v
Bootstrap.v
