(* ===== verification/Prelude.v ===== *)
(** * claude-peers: a verification library

    claude-peers connects running Claude Code sessions.  A broker keeps the live
    sessions, the agent names they hold and the messages between them in an
    SQLite database behind an HTTP interface; every request carries a token, a
    JWT whose capabilities are delegated from a root token of the broker; each
    session runs a server of its own that registers, sends heartbeats, pushes and
    drains messages.  This library models those parts of the Go program under
    [src/] and proves what makes them correct.

    ** How the code is modelled

    A handler of the broker is a program of atomic steps ([Prog]): each SQL
    statement, each reading of the clock and each draw of random bytes is one
    step on a shared [World].  Handlers run alone ([run]) or interleaved
    ([steps]); theorems on [steps] hold for every interleaving and for every
    failure of the database driver, theorems on [wp] for one operation that runs
    on a database that answers ([no_faults]).  Clock, random source and driver
    faults are the class [Env], indexed by how often they were consulted.  Go
    strings are byte strings, [int64] arithmetic is [Z] with its wrap-around
    written out, instants and durations are nanoseconds, and time stamps are the
    texts the code stores and compares.

    ** The files, and the code they model

    - [Prelude]: machine integers, results, list lemmas, tactics.
    - [GoStrings], [GoTime], [Base64]: what the code uses of [strings],
      [strconv], [time] (dates, RFC 3339 texts and their byte order,
      [ParseDuration] with its floating-point fractions) and [encoding/base64].
    - [Ttl]: [ttl.go].  [RateLimiter]: [rate_limiter.go], its callers reading the
      clock before they wait for the mutex.  [Types]: [types.go].
    - [Store]: the tables and one function per SQL statement of
      [broker_core.go].  [World]: the state of [Broker] with clock, randomness,
      faults and the NATS publications.
    - [Broker]: the methods of [Broker], one program each, and the sweep
      goroutine.  [Dispatch]: the request type, the statements each operation
      may issue, and the rule for properties of every step.
    - [BrokerInv]: well-formed databases and what no interleaving takes away.
      [BrokerWp], [BrokerOps]: symbolic execution, and one rule per operation
      against a pure reference function.
    - [Lifecycle]: a message as a state machine over its phases; every
      interleaving of handlers refines it.
    - [Mail]: routing, delivery, acknowledgement, queues that outlive sessions.
      [Sessions]: registration, claims, heartbeats, the sweep, the races.
      [Listing]: the scopes of a listing, the window of recent events.
    - [Ucan]: [auth_ucan.go] and the persistence of tokens in [broker_core.go], whose
      statements may fail.
      The JWT library is the class [Jwt] with the laws [JwtLaws], which state its
      documented behaviour; [DemoJwt] is an instance that satisfies them.
      [UcanSpec]: minting, validation, delegation, restart.
    - [Server]: [auth_middleware.go] and the routes of [runBroker], with rate
      limits and [/refresh-token].  [ServerSpec]: authorisation and refresh.
    - [Startup]: [newBroker]: schema migration, backfill, known tokens, fleet
      memory, the root token; [runBroker]'s initial state.
    - [Termination]: how many steps the handlers in progress have left.
    - [Config]: [config.go], [broker_tls.go], the flags of the broker, [natsURL],
      the identity functions of [fleet_git.go].  [Listen]: the certificate cache,
      the certificate manager and the choice of listener.  [Cli]: the flag
      parsers of [main.go] and [run_wrapper.go].
    - [Files]: paths and a file system with faults, modes and umask.  [KeyFiles]:
      [auth_ucan_keys.go] and the credentials of [fleet_nats_auth.go].
      [Commands]: the commands that set a machine up, with output and exit
      status; [Console]: those for a person, [run], [helpers.go].  [Bootstrap]:
      the commands and the broker put together.
    - [Nats]: the calls of [fleet_nats.go] to the NATS library.  [Nkeys]: the keys
      of [fleet_nats_auth.go].
    - [Summary]: the rest of [fleet_git.go].  [Identity]: [ensureBroker] and
      [verifyBrokerIdentity] of [fleet_server.go].  [StateFile]: the session state
      file; [AtomicFile]: its replacement as system calls on inodes, which other
      writers may come between.
    - [Client]: the session's side, [fleet_server.go] and [cliFetch]/[cliSend],
      over the interface [BrokerApi]; the instance [broker_api] is the broker of
      this library.  [ClientSpec]: recovery, sending, pushing, draining.
      [Fetch]: [cliFetch] against the HTTP surface of [Server], over a network that
      may lose a request or its reply ([Delivery]).  [Http]: the instance of
      [BrokerApi] whose calls are such requests ([brokerFetch]).
    - [Json]: JSON values, schemas and JSON-RPC messages.  [Tools], [Mcp]: the
      tools with their texts, the handshake, the notifications, the loop of
      [runServer] as a sequence of turns.  [McpSpec]: what a session writes.
      [Conversation]: two sessions and the broker.  [Transport]: the scanner of
      [fleet_mcp.go] with its buffer, lines in and lines out.
    - [Api]: the calls of [BrokerApi] as data.  [Thread]: goroutines as trees of
      local steps and calls.  [Goroutines]: every goroutine of [runServer] as such
      a tree over the memory of the process ([Mem]: session id, pushed messages,
      disk, output).  [Turns]: run one after the other they are the turns of [Mcp].
      [Prologue]: [runServer] up to the registration.
    - [Fleet]: any number of processes, their goroutines and the broker's handlers
      as one step relation ([fleet_step]): calls are sent, served, answered, lost or
      given up; processes start, crash and are interrupted; the two loops stop and
      are waited for at the end.  [FleetRun]: a scheduler that computes runs of it.
      [FleetSpec], [FleetExit], [FleetRaces], [FleetInterrupt]: what holds of all
      runs, and runs that go wrong.  [Calls]: which calls each goroutine may make,
      and what follows for the mail of the fleet.
    - [Memory], [Dream]: [fleet_dream.go], [buildFleetContext], [syncFleetMemory].
    - [Demo]: one concrete environment on which witnesses are evaluated.

    ** What is shown

    - Invariants under every interleaving and fault: [reachable_db_inv] (unique
      ids and names, message ids within the counter), [reachable_history_grows],
      [named_messages_survive], [message_lifecycle], [settled_never_polled],
      [fleet_memory_durable].
    - Each operation: [send_implements_route], [poll_delivers_once],
      [peek_predicts_poll], [poll_order_by_second], [ack_only_by_recipient],
      [register_grants_name], [register_conflict], [claim_once],
      [unregister_frees_name], [heartbeat_reports_eviction],
      [sweep_time_bounds], [dead_session_mail_returns], [list_peers_in_scope],
      [recent_events_newest].
    - Continuity of an agent: [bound_message_is_polled],
      [queued_message_reaches_next_holder], [unacked_message_reaches_next_holder],
      [restart_keeps_state], and on the session's side
      [evicted_session_returns], [send_always_stored], [push_once],
      [check_settles_what_it_shows].
    - Authority: [root_token_validates], [delegated_token_validates],
      [mint_attenuates], [validate_sound], [grace_window], [authority_confined],
      [restart_keeps_live_tokens] (after any run of the validator and whatever
      other saves failed), [changes_are_authorised],
      [refresh_preserves_grant], [refresh_renews], [root_token_is_self_issued].
    - Whole stories: [fleet_bootstrap] (from [init] on two machines to a token
      the broker accepts for exactly its role), [expired_session_recovers],
      [snapshot_reaches_fleet], [genuine_broker_verified], [http_refines_broker]
      (a call over HTTP has the effect and the answer of the broker's operation;
      or fails and leaves no trace that clients see; or its reply was lost, and then
      it fails although the operation may have been carried out, once at most),
      [message_reaches_its_reader] (from one session's tool to another's),
      [generated_key_authenticates].
    - The fleet, for every interleaving: [announcing_consumes_nothing] (a message
      is delivered only to a session that was asked for its mail),
      [session_answers_in_order], [exit_removes_state_file] (unless the operating
      system refuses), [session_comes_to_end] (by leaving, or by the panic of a
      session without a home directory), [interrupted_session_is_deaf].  Checks of
      the model itself: [fleet_refines_broker] (the broker under any number of
      sessions only takes its own steps, so its invariants carry over),
      [goroutines_take_turns] (the two models of a session agree).
    - A session: [every_request_answered], [lines_well_typed],
      [listed_tools_are_handled], [list_peers_shows_everyone],
      [send_reports_route], [push_tick_refines_push], [state_file_atomic],
      [state_file_in_sync], [single_writer_atomic], [input_comes_in_lines],
      [output_goes_out_in_lines], [identity_only_warns].
    - Termination: [handlers_terminate] (programs are finite trees; what it adds is
      the number of steps), [ensureBroker_bounded],
      [watch_keeps_up].
    - Files and keys: [key_pair_roundtrip], [token_roundtrip],
      [secrets_stay_private], [nats_auth_priority], [nats_connection_accounted],
      [only_idle_consumers_deleted], [memory_index_kept],
      [activity_is_first_fifteen], [snapshot_partitions_peers],
      [recentFiles_first_of_all].
    - Limits and parsers: [rate_limiter_refines_history] (the verdict as a function
      of the calls so far, and the sliding window when nobody was overtaken),
      [rate_limiter_bound] (in every stretch shorter than the window by the longest
      wait for the mutex),
      [ParseFlexibleDuration_bounds] and its companions, [issue_token_ttl_bounds],
      [tls_never_downgrades], [tls_config_valid_iff], [agent_file_scope],
      [run_channel_flag], [global_flag_anywhere], [kill_port_of_address],
      [cli_summary_bounded], [snippet_bounded].
    - Where the code departs from its own description, by an evaluated run or a
      theorem: [day_count_overflow_accepted], [fractional_day_misread],
      [sweep_can_be_early], [poll_can_reorder], [register_race], [claim_race],
      [anonymous_poll_takes_queues], [any_key_takes_parent_capabilities],
      [child_outlives_parent], [send_ignores_identity],
      [no_keypair_serves_nothing], [restart_blesses_typos],
      [failed_pragma_drops_messages], [run_loses_agent_name],
      [dotdot_directory_outside_home], [nats_url_ipv6],
      [save_token_never_validates], [refresh_never_reports_expiry],
      [default_llm_url_doubled], [index_lost_on_read_error], [no_home_panics],
      [sibling_home_shortened], [refused_challenge_is_skipped],
      [rebind_forgets_claimed_name], [two_writers_tear],
      [refused_claim_names_holder], [sweep_race], [id_collision_misdelivers],
      [lost_reply_costs_name], [rebound_file_is_left_behind],
      [successor_loses_its_file], [late_reading_passes_the_limit],
      [interrupted_session_is_deaf].

    ** Bounds and fuel

    [rewrite_days] and [parse_components] carry the length of their input as
    fuel; each turn consumes a byte, and the lemmas [rewrite_days_fuel] and
    [parse_components_fuel] show that more fuel changes nothing.  [utoa] uses the
    number of binary digits; [trim_left] the length of the text.  Everything else
    is structural, but for [read_turns], whose fuel is the length of the input
    ([read_turns_enough]), and the scheduler of [FleetRun], whose commands name the
    steps to take: a run that stops early is still a run ([p_run_steps]).
    Theorems on the order of time stamps hold for the years 1 to
    9999 ([in_era]).  A message or event insert is refused at the largest rowid.

    ** What is not modelled

    The bytes of JSON and HTTP (a request carries the outcome of decoding its
    body; the texts the code compares are the classes [BodyText], [StateCodec],
    [KeyCodec] and [Machine]), log output, the insides of TLS certificates, of
    the NATS and nkeys libraries and of the language model: their answers are
    arguments.  Commands that call other programs ([git], [ps], [lsof], [claude])
    take their output as an argument; the exec of [run] and the kill of processes
    are results.

    The concurrency of the HTTP server is modelled for the broker's handlers
    (interleaved steps); the middleware, the validator and the rate limiters are
    guarded by mutexes in the code and are one step each there, and a request has
    one instant.  What happens between the rate limiter's reading of the clock and
    its mutex is the subject of [RateLimiter].  A row that is lost from the table of
    known tokens is lost to a restart alone.  Within a session
    a goroutine is interrupted between any two steps: a step is a call of the file
    system, a reading or setting of the session id, a line of output, the sending
    or the answering of a call.  Two things that the code does piecemeal are one
    step of [Fleet]: storing the fetched fleet memory with its index, and marking
    a message as pushed while its notification is written, which the code does
    under a lock.  In [Fleet] a call is one request to a handler of the broker; one
    that the middleware refuses is a lost call, which returns an error and leaves
    no trace ([http_refines_broker]).  The disk of [Fleet] belongs to one process;
    writers of one file that meet are those of [AtomicFile].  Directories exist when they are needed: [MkdirAll] may fail, and
    a write into a missing directory is a fault of the write.

    ** What could be added

    The middleware with its tokens between the processes of [Fleet]
    and the broker's handlers, a disk that the processes of a machine share, and
    [dream-watch] and the commands as processes of the fleet. *)

From Stdlib Require Export ZArith Lia String Ascii.
From stdpp Require Export sorting strings gmap option base tactics list.

#[export] Set Default Goal Selector "!".
#[export] Set Warnings "-clear-no-such-hyp".

(** Strings are Go strings: finite sequences of bytes ([ascii] is eight bits). *)
Open Scope string_scope.
Open Scope list_scope.
Open Scope Z_scope.

(** ** Machine integers

    Go's [int] and [int64] on the 64-bit targets of the project wrap around
    modulo 2^64 into the signed range. *)
Definition wrap64 (z : Z) : Z := (z + 2 ^ 63) mod 2 ^ 64 - 2 ^ 63.
Definition max_int64 : Z := 2 ^ 63 - 1.
Definition min_int64 : Z := - 2 ^ 63.
Definition in_int64 (z : Z) : Prop := min_int64 ≤ z ≤ max_int64.

Lemma wrap64_range z : in_int64 (wrap64 z).
Proof.
  unfold in_int64, wrap64, min_int64, max_int64.
  pose proof (Z.mod_pos_bound (z + 2 ^ 63) (2 ^ 64)). lia.
Qed.

Lemma wrap64_id z : in_int64 z → wrap64 z = z.
Proof.
  unfold in_int64, wrap64, min_int64, max_int64. intros ?.
  rewrite Z.mod_small; lia.
Qed.

(** ** Results

    A fallible Go function returns a value or an error. *)
Inductive result (E A : Type) : Type :=
| Ok (a : A)
| Err (e : E).
Arguments Ok {E A} a.
Arguments Err {E A} e.

#[export] Instance result_ret E : MRet (result E) := λ A a, Ok a.
#[export] Instance result_bind E : MBind (result E) :=
  λ A B f r, match r with Ok a => f a | Err e => Err e end.

Definition is_ok {E A} (r : result E A) : bool :=
  match r with Ok _ => true | Err _ => false end.

#[export] Instance result_eq_dec E A `{EqDecision E, EqDecision A} : EqDecision (result E A).
Proof. solve_decision. Defined.

(** ** Tactics *)

(** Split every [match] and [if] of the goal or the hypotheses. *)
Ltac split_cases :=
  repeat (case_match || case_decide || case_bool_decide); simplify_eq/=; try done.

(** Reduce boolean integer tests to propositions. *)
Ltac zify_bool :=
  repeat match goal with
  | H : (_ <? _) = true |- _ => apply Z.ltb_lt in H
  | H : (_ <? _) = false |- _ => apply Z.ltb_ge in H
  | H : (_ <=? _) = true |- _ => apply Z.leb_le in H
  | H : (_ <=? _) = false |- _ => apply Z.leb_gt in H
  | H : (_ =? _) = true |- _ => apply Z.eqb_eq in H
  | H : (_ =? _) = false |- _ => apply Z.eqb_neq in H
  | H : (_ && _)%bool = true |- _ => apply andb_true_iff in H as [? ?]
  | H : (_ || _)%bool = false |- _ => apply orb_false_iff in H as [? ?]
  end.

(** Linear arithmetic with division and remainder by constants. *)
(** Decide a closed, decidable goal by evaluation. *)
Ltac vm_decide := apply (bool_decide_unpack _); vm_compute; exact I.
Ltac dlia := Z.to_euclidean_division_equations; lia.

(** ** Byte strings *)

Lemma string_app_cons c s t : String c s +:+ t = String c (s +:+ t).
Proof. done. Qed.

Lemma string_app_nil_r s : s +:+ "" = s.
Proof. induction s as [|c s IH]; [done|]. by rewrite string_app_cons, IH. Qed.

Lemma string_app_assoc a b c : (a +:+ b) +:+ c = a +:+ (b +:+ c).
Proof. induction a as [|x a IH]; [done|]. by rewrite !string_app_cons, IH. Qed.

(** A text is part of another. *)
Definition occurs (s t : string) : Prop := ∃ before behind, t = before +:+ s +:+ behind.

Lemma occurs_refl s : occurs s s.
Proof. exists "", "". change ("" +:+ (s +:+ "")) with (s +:+ ""). by rewrite string_app_nil_r. Qed.

Lemma occurs_nil t : occurs "" t.
Proof. by exists "", t. Qed.

Lemma occurs_right a s t : occurs s t → occurs s (a +:+ t).
Proof. intros (x & y & ->). exists (a +:+ x), y. by rewrite string_app_assoc. Qed.

Lemma occurs_left b s t : occurs s t → occurs s (t +:+ b).
Proof. intros (x & y & ->). exists x, (y +:+ b). by rewrite !string_app_assoc. Qed.

(** Looks for a part in a concatenation, piece by piece. *)
Ltac find_part :=
  first [apply occurs_refl | apply occurs_nil
        | apply occurs_left; find_part | apply occurs_right; find_part].

Lemma string_length_app a b :
  String.length (a +:+ b) = (String.length a + String.length b)%nat.
Proof. induction a as [|x a IH]; [done|]. rewrite string_app_cons. cbn. by rewrite IH. Qed.

(** ** Byte-string comparison

    SQLite compares TEXT values with [memcmp], which is [String.compare]. *)
Notation "a <s b" := (String.compare a b = Lt) (at level 70, no associativity).

Lemma ascii_compare_refl a : Ascii.compare a a = Eq.
Proof. unfold Ascii.compare. apply N.compare_refl. Qed.

Lemma string_compare_refl a : String.compare a a = Eq.
Proof. induction a as [|c a IH]; [done|]. simpl. by rewrite ascii_compare_refl. Qed.

Lemma string_compare_cons c s t :
  String.compare (String c s) (String c t) = String.compare s t.
Proof. simpl. by rewrite ascii_compare_refl. Qed.

Lemma string_compare_app_l p s t :
  String.compare (p +:+ s) (p +:+ t) = String.compare s t.
Proof.
  induction p as [|c p IH]; [done|].
  by rewrite !string_app_cons, string_compare_cons.
Qed.

(** Two strings of one length decide the comparison of their extensions,
    unless they are equal. *)
Lemma string_compare_app p q s t :
  String.length p = String.length q →
  String.compare (p +:+ s) (q +:+ t) =
  match String.compare p q with Eq => String.compare s t | c => c end.
Proof.
  revert q. induction p as [|c p IH]; intros [|d q] Hlen; try done.
  rewrite !string_app_cons. simpl in *. injection Hlen as Hlen.
  destruct (Ascii.compare c d); [|done|done]. by apply IH.
Qed.

Lemma string_lt_app p q s t :
  String.length p = String.length q → p <s q → p +:+ s <s q +:+ t.
Proof. intros Hl Hlt. by rewrite string_compare_app, Hlt. Qed.

Lemma string_lt_irrefl a : ¬ a <s a.
Proof. by rewrite string_compare_refl. Qed.

Lemma string_lt_trans a b c : a <s b → b <s c → a <s c.
Proof.
  revert b c. induction a as [|x a IH]; intros [|y b] [|z c] H1 H2;
    simpl in *; try done.
  unfold Ascii.compare in *.
  destruct (N.compare_spec (N_of_ascii x) (N_of_ascii y)) as [E1|E1|E1];
    destruct (N.compare_spec (N_of_ascii y) (N_of_ascii z)) as [E2|E2|E2];
    destruct (N.compare_spec (N_of_ascii x) (N_of_ascii z)) as [E3|E3|E3];
    try done; try lia. by eapply IH.
Qed.

Lemma string_lt_asym a b : a <s b → ¬ b <s a.
Proof. intros H1 H2. apply (string_lt_irrefl a). by eapply string_lt_trans. Qed.

Definition string_ltb (a b : string) : bool :=
  match String.compare a b with Lt => true | _ => false end.
Definition string_leb (a b : string) : bool :=
  match String.compare a b with Gt => false | _ => true end.

Lemma string_ltb_lt a b : string_ltb a b = true ↔ a <s b.
Proof. unfold string_ltb. by destruct (String.compare a b). Qed.

Lemma string_leb_total a b : string_leb a b = true ∨ string_leb b a = true.
Proof.
  unfold string_leb. rewrite (String.compare_antisym b a).
  destruct (String.compare a b); simpl; auto.
Qed.

Lemma string_leb_trans a b c :
  string_leb a b = true → string_leb b c = true → string_leb a c = true.
Proof.
  unfold string_leb.
  destruct (String.compare a b) eqn:E1; [|..]; try done;
    destruct (String.compare b c) eqn:E2; try done; intros _ _.
  - apply String.compare_eq_iff in E1 as ->. by rewrite E2.
  - apply String.compare_eq_iff in E1 as ->. by rewrite E2.
  - apply String.compare_eq_iff in E2 as <-. by rewrite E1.
  - by rewrite (string_lt_trans _ _ _ E1 E2).
Qed.

Lemma string_leb_ltb a b : string_leb a b = negb (string_ltb b a).
Proof.
  unfold string_leb, string_ltb. rewrite (String.compare_antisym b a).
  by destruct (String.compare a b).
Qed.

(** ** Shared lemmas on lists of unique keys *)
Section keyed.
Context {A K : Type}.
Implicit Types (f : A → K) (l : list A).

(** Two members of a list whose keys have no duplicates are equal when
    their keys are. *)
Lemma NoDup_fmap_inj f l x y :
  NoDup (f <$> l) → x ∈ l → y ∈ l → f x = f y → x = y.
Proof.
  induction l as [|z l IH]; simpl; [set_solver|].
  intros [Hz Hnd]%NoDup_cons Hx Hy Heq.
  apply elem_of_cons in Hx as [->|Hx]; apply elem_of_cons in Hy as [->|Hy]; auto.
  - destruct Hz. rewrite Heq. by apply list_elem_of_fmap_2.
  - destruct Hz. rewrite <-Heq. by apply list_elem_of_fmap_2.
Qed.

(** Updating rows without touching the key keeps the keys. *)
Lemma fmap_key_update f (g : A → A) l :
  (∀ x, f (g x) = f x) → f <$> (g <$> l) = f <$> l.
Proof. intros Hg. rewrite <-list_fmap_compose. apply list_fmap_ext. intros; apply Hg. Qed.
End keyed.

(** ** Boolean filters and pointwise updates *)
Section bfilter.
Context {A : Type}.
Implicit Types (P Q : A → bool) (l : list A).

Lemma elem_of_bfilter P l x : x ∈ List.filter P l ↔ P x = true ∧ x ∈ l.
Proof. rewrite !list_elem_of_In, filter_In. tauto. Qed.

Lemma bfilter_Forall P l : Forall (λ x, P x = true) (List.filter P l).
Proof. apply Forall_forall. intros x [? _]%elem_of_bfilter. done. Qed.

Lemma Forall_bfilter (R : A → Prop) P l : Forall R l → Forall R (List.filter P l).
Proof.
  rewrite !Forall_forall. intros H x [_ Hx]%elem_of_bfilter. auto.
Qed.

Lemma bfilter_all P l : Forall (λ x, P x = true) l → List.filter P l = l.
Proof. induction 1 as [|x l Hx _ IH]; [done|]. simpl. by rewrite Hx, IH. Qed.

Lemma bfilter_none P l : Forall (λ x, P x = false) l → List.filter P l = [].
Proof. induction 1 as [|x l Hx _ IH]; [done|]. simpl. by rewrite Hx. Qed.

Lemma bfilter_fmap {B} (f : B → A) P (l : list B) :
  List.filter P (f <$> l) = f <$> List.filter (λ x, P (f x)) l.
Proof. induction l as [|x l IH]; [done|]. csimpl. destruct (P (f x)); csimpl; by rewrite IH. Qed.

Lemma bfilter_ext P Q l : Forall (λ x, P x = Q x) l → List.filter P l = List.filter Q l.
Proof. induction 1 as [|x l Hx _ IH]; [done|]. simpl. by rewrite Hx, IH. Qed.

Lemma bfilter_bfilter P Q l :
  List.filter P (List.filter Q l) = List.filter (λ x, Q x && P x) l.
Proof.
  induction l as [|x l IH]; [done|]. simpl. destruct (Q x); simpl; by rewrite ?IH.
Qed.

Lemma existsb_false_iff P l : existsb P l = false ↔ Forall (λ x, P x = false) l.
Proof.
  rewrite Forall_forall. setoid_rewrite list_elem_of_In. split.
  - intros He x Hx. destruct (P x) eqn:E; [|done].
    assert (existsb P l = true) by (apply existsb_exists; eauto). congruence.
  - intros Hall. apply not_true_iff_false. intros (x & Hx & HP)%existsb_exists.
    rewrite Hall in HP; done.
Qed.

Lemma existsb_true_iff P l : existsb P l = true ↔ ∃ x, x ∈ l ∧ P x = true.
Proof. setoid_rewrite list_elem_of_In. apply existsb_exists. Qed.

Lemma find_none_iff P l : find P l = None ↔ Forall (λ x, P x = false) l.
Proof.
  rewrite Forall_forall. setoid_rewrite list_elem_of_In. split; [apply find_none|].
  intros Hall. destruct (find P l) as [x|] eqn:E; [|done].
  apply find_some in E as [Hx HP]. rewrite Hall in HP; done.
Qed.

Lemma find_some_elem P l x : find P l = Some x → x ∈ l ∧ P x = true.
Proof. rewrite list_elem_of_In. apply find_some. Qed.

Lemma find_app P l1 l2 :
  find P (l1 ++ l2) = match find P l1 with Some x => Some x | None => find P l2 end.
Proof. induction l1 as [|x l1 IH]; [done|]. simpl. by destruct (P x). Qed.

Lemma StronglySorted_bfilter {B} (R : relation B) (f : A → B) P l :
  StronglySorted R (f <$> l) → StronglySorted R (f <$> List.filter P l).
Proof.
  induction l as [|x l IH]; [done|]. csimpl. intros Hs. apply StronglySorted_inv in Hs as [Hs Hx].
  specialize (IH Hs). destruct (P x); [|done]. csimpl. constructor; [done|].
  rewrite Forall_fmap in *. by apply Forall_bfilter.
Qed.

Lemma StronglySorted_snoc {B} (R : relation B) (l : list B) x :
  StronglySorted R l → Forall (λ y, R y x) l → StronglySorted R (l ++ [x]).
Proof.
  induction 1 as [|y l Hs IH Hy]; intros Hall; simpl; [by repeat constructor|].
  apply Forall_cons in Hall as [Hyx Hall]. constructor; [auto|].
  apply Forall_app. split; [done|]. by constructor.
Qed.

Lemma NoDup_bfilter {B} (f : A → B) P l : NoDup (f <$> l) → NoDup (f <$> List.filter P l).
Proof.
  induction l as [|x l IH]; [done|]. csimpl. intros [Hx Hnd]%NoDup_cons.
  destruct (P x); csimpl; [|auto]. apply NoDup_cons. split; [|auto].
  intros (y & Hy & [_ Hin]%elem_of_bfilter)%list_elem_of_fmap.
  apply Hx. rewrite Hy. by apply list_elem_of_fmap_2.
Qed.

Lemma NoDup_snoc {B} (l : list B) x : NoDup l → x ∉ l → NoDup (l ++ [x]).
Proof.
  intros Hl Hx. apply NoDup_app. split; [done|]. split; [|apply NoDup_singleton].
  by intros y Hy ->%list_elem_of_singleton.
Qed.

(** A sorted list of integers has no duplicate. *)
Lemma StronglySorted_lt_NoDup (l : list Z) : StronglySorted Z.lt l → NoDup l.
Proof.
  induction 1 as [|x l _ IH Hx]; constructor; [|done].
  intros Hin. rewrite Forall_forall in Hx. specialize (Hx x Hin). lia.
Qed.
End bfilter.

(** ** Hint databases *)
Create HintDb broker.
Create Rewrite HintDb gostr.
#[export] Hint Rewrite string_app_assoc string_app_nil_r string_length_app : gostr.
#[export] Hint Rewrite string_compare_refl string_compare_cons string_compare_app_l : gostr.
