(* ===== verification/GoStrings.v ===== *)
(** * Byte-string operations of Go's [strings] and [strconv]

    Only what the repository uses: prefixes, substrings, splitting on one
    byte, [TrimSpace], decimal printing ([%d], [strconv.Itoa]) and
    [strconv.Atoi].  Everything is executable on [string]. *)

From S2P Require Import Prelude.

(** ** Bytes *)
Definition byte_val (c : ascii) : Z := Z.of_N (N_of_ascii c).
Definition is_digit (c : ascii) : bool := (48 <=? byte_val c) && (byte_val c <=? 57).
Definition digit_val (c : ascii) : Z := byte_val c - 48.
Definition digit_ascii (n : Z) : ascii := ascii_of_N (Z.to_N (48 + n)).
(** Printable ASCII other than the space. *)
Definition is_plain (c : ascii) : bool := (33 <=? byte_val c) && (byte_val c <=? 126).

Lemma byte_val_digit n : 0 ≤ n < 10 → byte_val (digit_ascii n) = 48 + n.
Proof.
  intros ?. unfold byte_val, digit_ascii. rewrite N_ascii_embedding by lia. lia.
Qed.

Lemma is_digit_digit n : 0 ≤ n < 10 → is_digit (digit_ascii n) = true.
Proof.
  intros ?. unfold is_digit. rewrite byte_val_digit by done.
  apply andb_true_iff. rewrite !Z.leb_le. lia.
Qed.

Lemma digit_val_digit n : 0 ≤ n < 10 → digit_val (digit_ascii n) = n.
Proof. intros ?. unfold digit_val. rewrite byte_val_digit by done. lia. Qed.

Lemma is_plain_digit c : is_digit c = true → is_plain c = true.
Proof.
  unfold is_digit, is_plain. rewrite !andb_true_iff, !Z.leb_le. lia.
Qed.

(** ** Substrings *)
Fixpoint str_drop (n : nat) (s : string) : string :=
  match n, s with
  | O, _ => s
  | S _, "" => ""
  | S n', String _ s' => str_drop n' s'
  end.

Fixpoint str_take (n : nat) (s : string) : string :=
  match n, s with
  | O, _ | S _, "" => ""
  | S n', String c s' => String c (str_take n' s')
  end.

Fixpoint str_all (P : ascii → bool) (s : string) : bool :=
  match s with "" => true | String c s' => P c && str_all P s' end.

(** [strings.HasPrefix(s, p)], [strings.TrimPrefix(s, p)]. *)
Fixpoint HasPrefix (s p : string) : bool :=
  match p, s with
  | "", _ => true
  | String _ _, "" => false
  | String c p', String d s' => Ascii.eqb c d && HasPrefix s' p'
  end.
Definition TrimPrefix (s p : string) : string :=
  if HasPrefix s p then str_drop (String.length p) s else s.

(** [strings.Contains(s, sub)]. *)
Fixpoint Contains (s sub : string) : bool :=
  HasPrefix s sub || match s with "" => false | String _ s' => Contains s' sub end.

(** [strings.IndexByte(s, c)]; [None] for Go's -1. *)
Fixpoint IndexByte (s : string) (c : ascii) : option nat :=
  match s with
  | "" => None
  | String d s' => if Ascii.eqb d c then Some O else S <$> IndexByte s' c
  end.

(** [strings.Split(s, sep)] for a one-byte separator. *)
Fixpoint Split (s : string) (c : ascii) : list string :=
  match s with
  | "" => [""]
  | String d s' =>
      if Ascii.eqb d c then "" :: Split s' c
      else match Split s' c with
           | [] => [String d ""]
           | p :: ps => String d p :: ps
           end
  end.

(** [strings.SplitN(s, sep, n)] for [n > 0]: at most [n] pieces. *)
Fixpoint SplitN (s : string) (c : ascii) (n : nat) : list string :=
  match n with
  | O => []
  | S n' =>
      match n', IndexByte s c with
      | O, _ | _, None => [s]
      | _, Some i => str_take i s :: SplitN (str_drop (S i) s) c n'
      end
  end.

(** [strings.Join(l, sep)]. *)
Fixpoint Join (l : list string) (sep : string) : string :=
  match l with
  | [] => ""
  | [x] => x
  | x :: l' => x +:+ sep +:+ Join l' sep
  end.

Fixpoint str_rev (s : string) : string :=
  match s with "" => "" | String c s' => str_rev s' +:+ String c "" end.

Definition bytes (l : list N) : string := foldr (λ n s, String (ascii_of_N n) s) "" l.

(** The UTF-8 encodings of the code points [unicode.IsSpace] accepts. *)
Definition space_seqs : list string :=
  bytes <$> ([[9]; [10]; [11]; [12]; [13]; [32];
              [194; 133]; [194; 160]; [225; 154; 128];
              [226; 128; 128]; [226; 128; 129]; [226; 128; 130]; [226; 128; 131];
              [226; 128; 132]; [226; 128; 133]; [226; 128; 134]; [226; 128; 135];
              [226; 128; 136]; [226; 128; 137]; [226; 128; 138];
              [226; 128; 168]; [226; 128; 169]; [226; 128; 175];
              [226; 129; 159]; [227; 128; 128]])%N.

Fixpoint trim_left (fuel : nat) (seqs : list string) (s : string) : string :=
  match fuel with
  | O => s
  | S f =>
      match find (HasPrefix s) seqs with
      | Some p => trim_left f seqs (str_drop (String.length p) s)
      | None => s
      end
  end.

(** [strings.TrimSpace]: every white-space sequence takes at least one byte,
    so the length of the string is enough fuel. *)
Definition TrimSpace (s : string) : string :=
  let l := trim_left (String.length s) space_seqs s in
  str_rev (trim_left (String.length l) (str_rev <$> space_seqs) (str_rev l)).

(** ** Decimal numbers *)

(** The [w] low decimal digits of [n], zero padded. *)
Fixpoint digits (w : nat) (n : Z) : string :=
  match w with
  | O => ""
  | S w' => digits w' (n / 10) +:+ String (digit_ascii (n mod 10)) ""
  end.

Fixpoint utoa_fuel (fuel : nat) (n : Z) : string :=
  match fuel with
  | O => ""
  | S f => if n <? 10 then String (digit_ascii n) ""
           else utoa_fuel f (n / 10) +:+ String (digit_ascii (n mod 10)) ""
  end.

(** Decimal digits of [n >= 0] with no leading zero; a number has at most as
    many decimal digits as binary ones. *)
Definition utoa (n : Z) : string := utoa_fuel (S (Z.to_nat (Z.log2 n))) n.

(** [strconv.Itoa], [%d]. *)
Definition itoa (n : Z) : string := if n <? 0 then "-" +:+ utoa (- n) else utoa n.

(** Value of a run of digits, read from the left onto [acc]. *)
Fixpoint digits_val (acc : Z) (s : string) : Z :=
  match s with "" => acc | String c s' => digits_val (acc * 10 + digit_val c) s' end.

(** [strconv.Atoi]: an optional sign, a non-empty run of digits, in range. *)
Definition Atoi (s : string) : option Z :=
  let '(neg, d) :=
    match s with
    | String "-" s' => (true, s')
    | String "+" s' => (false, s')
    | _ => (false, s)
    end in
  if (0 <? Z.of_nat (String.length d)) && str_all is_digit d then
    let v := if neg then - digits_val 0 d else digits_val 0 d in
    if (min_int64 <=? v) && (v <=? max_int64) then Some v else None
  else None.

(** ** Lemmas: prefixes and pieces *)

Lemma HasPrefix_app p s : HasPrefix (p +:+ s) p = true.
Proof.
  induction p as [|c p IH]; [by destruct s|].
  rewrite string_app_cons. simpl. by rewrite Ascii.eqb_refl.
Qed.

Lemma HasPrefix_inv s p : HasPrefix s p = true → s = p +:+ str_drop (String.length p) s.
Proof.
  revert s. induction p as [|c p IH]; intros s; [by destruct s|].
  destruct s as [|d s]; simpl; [done|].
  intros [Hc%Ascii.eqb_eq Hp]%andb_true_iff. subst d.
  rewrite string_app_cons. f_equal. by apply IH.
Qed.

Lemma str_drop_app p s : str_drop (String.length p) (p +:+ s) = s.
Proof. induction p as [|c p IH]; [by destruct s|]. rewrite string_app_cons. done. Qed.

Lemma str_take_length n s : (String.length (str_take n s) ≤ n)%nat.
Proof. revert n. induction s as [|c s IH]; intros [|n]; simpl; try lia. specialize (IH n). lia. Qed.

Lemma TrimPrefix_app p s : TrimPrefix (p +:+ s) p = s.
Proof. unfold TrimPrefix. by rewrite HasPrefix_app, str_drop_app. Qed.

Lemma TrimPrefix_same s p : HasPrefix s p = false → TrimPrefix s p = s.
Proof. unfold TrimPrefix. by intros ->. Qed.

(** Go compares [TrimPrefix(s, p) == s] to detect a missing prefix. *)
Lemma TrimPrefix_neq s p : p ≠ "" → (TrimPrefix s p = s ↔ HasPrefix s p = false).
Proof.
  intros Hne. split; [|apply TrimPrefix_same].
  unfold TrimPrefix. destruct (HasPrefix s p) eqn:E; [|done].
  intros Hs. apply HasPrefix_inv in E. rewrite Hs in E.
  apply (f_equal String.length) in E. rewrite string_length_app in E.
  destruct p; [done|]. simpl in E. lia.
Qed.

Lemma Contains_refl_app p s q : Contains (p +:+ s +:+ q) s = true.
Proof.
  induction p as [|c p IH].
  - change ("" +:+ s +:+ q) with (s +:+ q).
    pose proof (HasPrefix_app s q) as Hp.
    by destruct (s +:+ q); cbn [Contains]; rewrite Hp.
  - rewrite string_app_cons. simpl. rewrite IH. apply orb_true_r.
Qed.

Lemma Split_nonempty s c : Split s c ≠ [].
Proof. destruct s as [|d s]; simpl; [done|]. by repeat case_match. Qed.

Lemma Join_cons2 x y l sep : Join (x :: y :: l) sep = x +:+ sep +:+ Join (y :: l) sep.
Proof. done. Qed.

Lemma Join_cons_byte d p ps sep : Join (String d p :: ps) sep = String d (Join (p :: ps) sep).
Proof. by destruct ps. Qed.

Lemma Join_Split s c : Join (Split s c) (String c "") = s.
Proof.
  induction s as [|d s IH]; [done|]. simpl.
  pose proof (Split_nonempty s c).
  destruct (Ascii.eqb d c) eqn:E.
  - apply Ascii.eqb_eq in E as ->.
    destruct (Split s c) as [|p ps]; [done|]. by rewrite Join_cons2, IH.
  - by destruct (Split s c) as [|p ps]; [|rewrite Join_cons_byte, IH].
Qed.

Lemma str_all_app P s t : str_all P (s +:+ t) = str_all P s && str_all P t.
Proof.
  induction s as [|c s IH]; [done|]. rewrite string_app_cons. simpl.
  rewrite IH. apply andb_assoc.
Qed.

Lemma str_all_impl (P Q : ascii → bool) s :
  (∀ c, P c = true → Q c = true) → str_all P s = true → str_all Q s = true.
Proof.
  intros HPQ. induction s as [|c s IH]; [done|]. simpl.
  intros [Hc Hs]%andb_true_iff. apply andb_true_iff. auto.
Qed.

Lemma str_rev_app s t : str_rev (s +:+ t) = str_rev t +:+ str_rev s.
Proof.
  induction s as [|c s IH]; [symmetry; apply string_app_nil_r|].
  rewrite string_app_cons. cbn [str_rev]. by rewrite IH, string_app_assoc.
Qed.

Lemma str_rev_involutive s : str_rev (str_rev s) = s.
Proof. induction s as [|c s IH]; [done|]. cbn [str_rev]. by rewrite str_rev_app, IH. Qed.

(** ** Lemmas: [TrimSpace] *)

(** No white-space sequence starts, or ends, with a printable ASCII byte. *)
Definition starts_with (c : ascii) (p : string) : bool :=
  match p with "" => true | String d _ => Ascii.eqb d c end.

Lemma spaces_not_plain c :
  is_plain c = true →
  forallb (λ p, negb (starts_with c p)) (space_seqs ++ (str_rev <$> space_seqs)) = true.
Proof.
  destruct c as [[] [] [] [] [] [] [] []]; vm_compute; intros Hp; first [done|discriminate Hp].
Qed.

Lemma trim_left_stuck fuel seqs c s :
  forallb (λ p, negb (starts_with c p)) seqs = true →
  trim_left fuel seqs (String c s) = String c s.
Proof.
  intros Hall. destruct fuel as [|f]; [done|]. simpl.
  destruct (find _ seqs) as [p|] eqn:Hf; [|done]. exfalso.
  apply find_some in Hf as [Hin Hp].
  rewrite forallb_forall in Hall. specialize (Hall p Hin).
  destruct p as [|d p]; [done|]. simpl in *. by destruct (Ascii.eqb d c).
Qed.

(** Strings that start and end with printable bytes are left alone. *)
Lemma TrimSpace_plain c s t d :
  is_plain c = true → is_plain d = true →
  String c s = t +:+ String d "" → TrimSpace (String c s) = String c s.
Proof.
  intros Hc Hd Heq. unfold TrimSpace.
  pose proof (spaces_not_plain c Hc) as Hsc. pose proof (spaces_not_plain d Hd) as Hsd.
  rewrite forallb_app, andb_true_iff in Hsc, Hsd.
  rewrite trim_left_stuck by apply Hsc. cbv zeta.
  rewrite Heq, str_rev_app. change (str_rev (String d "")) with (String d "").
  rewrite string_app_cons, trim_left_stuck by apply Hsd.
  rewrite <-string_app_cons. change (String d "" +:+ str_rev t) with (String d (str_rev t)).
  simpl. by rewrite str_rev_involutive.
Qed.

(** ** Lemmas: decimal numbers *)

Lemma length_digits w n : String.length (digits w n) = w.
Proof.
  revert n. induction w as [|w IH]; intros n; simpl; [done|].
  rewrite string_length_app, IH. simpl. lia.
Qed.

Lemma ascii_compare_digit m n :
  0 ≤ m < 10 → 0 ≤ n < 10 → Ascii.compare (digit_ascii m) (digit_ascii n) = (m ?= n).
Proof.
  intros Hm Hn. unfold Ascii.compare, digit_ascii.
  rewrite !N_ascii_embedding by lia.
  destruct (Z.compare_spec m n); [by subst; apply N.compare_refl| |];
    [apply N.compare_lt_iff|apply N.compare_gt_iff]; lia.
Qed.

(** Zero-padded numbers of one width compare as the numbers do. *)
Lemma digits_compare w m n :
  0 ≤ m < 10 ^ Z.of_nat w → 0 ≤ n < 10 ^ Z.of_nat w →
  String.compare (digits w m) (digits w n) = (m ?= n).
Proof.
  revert m n. induction w as [|w IH]; intros m n Hm Hn.
  - simpl in *. assert (m = 0) as -> by lia. assert (n = 0) as -> by lia. done.
  - rewrite Nat2Z.inj_succ, Z.pow_succ_r in Hm, Hn by lia. cbn [digits].
    rewrite string_compare_app by by rewrite !length_digits.
    rewrite IH by (split; [apply Z.div_pos; lia|apply Z.div_lt_upper_bound; lia]).
    pose proof (Z.div_mod m 10). pose proof (Z.div_mod n 10).
    pose proof (Z.mod_pos_bound m 10). pose proof (Z.mod_pos_bound n 10).
    destruct (Z.compare_spec (m / 10) (n / 10)) as [E|E|E].
    + cbn [String.compare]. rewrite ascii_compare_digit by lia.
      destruct (Z.compare_spec (m mod 10) (n mod 10)); symmetry;
        [apply Z.compare_eq_iff|apply Z.compare_lt_iff|apply Z.compare_gt_iff]; lia.
    + symmetry. apply Z.compare_lt_iff. lia.
    + symmetry. apply Z.compare_gt_iff. lia.
Qed.

Lemma digits_val_app acc s t : digits_val acc (s +:+ t) = digits_val (digits_val acc s) t.
Proof.
  revert acc. induction s as [|c s IH]; intros acc; [done|].
  rewrite string_app_cons. apply IH.
Qed.

Lemma utoa_fuel_spec fuel n :
  0 ≤ n < 10 ^ Z.of_nat fuel → (0 < fuel)%nat →
  digits_val 0 (utoa_fuel fuel n) = n ∧ str_all is_digit (utoa_fuel fuel n) = true
  ∧ utoa_fuel fuel n ≠ "".
Proof.
  revert n. induction fuel as [|f IH]; intros n Hn Hf; [lia|].
  rewrite Nat2Z.inj_succ, Z.pow_succ_r in Hn by lia. cbn [utoa_fuel].
  destruct (n <? 10) eqn:E; zify_bool.
  - cbn. rewrite digit_val_digit, is_digit_digit by lia. done.
  - assert (0 < f)%nat.
    { destruct f; [|lia]. simpl in Hn. lia. }
    pose proof (Z.mod_pos_bound n 10).
    destruct (IH (n / 10)) as (IH1 & IH2 & IH3);
      [split; [apply Z.div_pos; lia|apply Z.div_lt_upper_bound; lia]|done|].
    rewrite digits_val_app, IH1, str_all_app, IH2. cbn.
    rewrite digit_val_digit, is_digit_digit by lia.
    split; [|split; [done|]].
    + pose proof (Z.div_mod n 10). lia.
    + by destruct (utoa_fuel f (n / 10)).
Qed.

Lemma utoa_spec n :
  0 ≤ n → digits_val 0 (utoa n) = n ∧ str_all is_digit (utoa n) = true ∧ utoa n ≠ "".
Proof.
  intros Hn. apply utoa_fuel_spec; [|lia]. split; [done|].
  destruct (decide (n = 0)) as [->|Hnz]; [done|].
  pose proof (Z.log2_spec n) as [_ Hl]; [lia|].
  rewrite Nat2Z.inj_succ, Z2Nat.id by apply Z.log2_nonneg.
  eapply Z.lt_le_trans; [exact Hl|]. apply Z.pow_le_mono_l. lia.
Qed.

(** A decimal number starts with a digit. *)
Lemma utoa_cons n : 0 ≤ n → ∃ c s, utoa n = String c s ∧ is_digit c = true.
Proof.
  intros Hn. destruct (utoa_spec n Hn) as (_ & Hd & Hne).
  destruct (utoa n) as [|c s]; [done|]. simpl in Hd.
  apply andb_true_iff in Hd as [? ?]. eauto.
Qed.

(** [strconv.Atoi] reads back what [%d] prints. *)
Lemma Atoi_utoa n : 0 ≤ n ≤ max_int64 → Atoi (utoa n) = Some n.
Proof.
  intros Hn. destruct (utoa_spec n) as (Hv & Hd & Hne); [lia|].
  unfold Atoi. destruct (utoa n) as [|c s] eqn:E; [done|].
  assert (is_digit c = true) as Hc by (by apply andb_true_iff in Hd as [? _]).
  assert ((match String c s with
           | String "-" s' => (true, s') | String "+" s' => (false, s')
           | _ => (false, String c s) end) = (false, String c s)) as ->.
  { clear -Hc. destruct c as [[] [] [] [] [] [] [] []]; first [done|discriminate Hc]. }
  rewrite Hd, Hv. simpl.
  rewrite (proj2 (Z.leb_le _ _)) by (unfold min_int64; lia).
  by rewrite (proj2 (Z.leb_le _ _)) by lia.
Qed.

(** Different numbers are printed differently. *)
Lemma itoa_inj m n : itoa m = itoa n → m = n.
Proof.
  assert (∀ a b, 0 ≤ a → 0 ≤ b → utoa a = utoa b → a = b) as Hu.
  { intros a b Ha Hb Heq. destruct (utoa_spec a Ha) as [<- _]. destruct (utoa_spec b Hb) as [<- _].
    by rewrite Heq. }
  assert (∀ a b, 0 ≤ a → "-" +:+ utoa b ≠ utoa a) as Hsign.
  { intros a b Ha Heq. destruct (utoa_cons a Ha) as (c & s & Hc & Hd). rewrite Hc in Heq.
    injection Heq as <- _. discriminate Hd. }
  unfold itoa. destruct (m <? 0) eqn:Em, (n <? 0) eqn:En; zify_bool; intros Heq.
  - injection Heq as Heq. apply Hu in Heq; lia.
  - by apply Hsign in Heq.
  - symmetry in Heq. by apply Hsign in Heq.
  - by apply Hu in Heq.
Qed.
