(* ===== verification/Files.v ===== *)
(** * Paths and files

    What the repository uses of Go's [path/filepath] and [os]: lexical path
    operations, and a file system of named files in which every call may fail.
    File operations live in a small state-and-error monad. *)

From S2P Require Import Prelude GoStrings.

(** ** Paths ([filepath.Clean], [filepath.Join], [filepath.Base]) *)

(** One segment onto the reversed segments gathered so far. *)
Definition clean_step (rooted : bool) (stack : list string) (seg : string) : list string :=
  if String.eqb seg "" || String.eqb seg "." then stack
  else if String.eqb seg ".." then
    match stack with
    | top :: rest => if String.eqb top ".." then ".." :: stack else rest
    | [] => if rooted then [] else [".."]
    end
  else seg :: stack.

Definition clean_segs (rooted : bool) (p : string) : list string :=
  foldl (clean_step rooted) [] (Split p "/").

Definition Clean (p : string) : string :=
  if String.eqb p "" then "."
  else
    let rooted := HasPrefix p "/" in
    let body := Join (reverse (clean_segs rooted p)) "/" in
    if rooted then "/" +:+ body
    else if String.eqb body "" then "." else body.

(** [filepath.Join]: empty elements are ignored and the result is cleaned. *)
Fixpoint path_join (elems : list string) : string :=
  match elems with
  | [] => ""
  | e :: rest => if String.eqb e "" then path_join rest else Clean (Join elems "/")
  end.

Fixpoint trim_slashes_rev (s : string) : string :=
  match s with String "/" s' => trim_slashes_rev s' | _ => s end.

Definition path_base (p : string) : string :=
  if String.eqb p "" then "."
  else
    let s := str_rev (trim_slashes_rev (str_rev p)) in
    let s := List.last (Split s "/") "" in
    if String.eqb s "" then "/" else s.

(** ** The file system *)
Record File : Type := mkFile { f_data : string; f_mode : Z }.

(** How a write goes wrong: the file cannot be opened, or the device takes only
    its first bytes; both with the error of the call. *)
Inductive WriteFault : Type :=
| CannotOpen (e : string)
| ShortWrite (n : nat) (e : string).

Record FileSys : Type := mkFileSys {
  files : gmap string File;
  umask : Z;
  write_fault : string → option WriteFault;
  read_fault : string → option string;
  mkdir_fault : string → option string;
  rename_fault : string → option string;
  remove_fault : string → option string;
}.

Definition set_files (fs : FileSys) (m : gmap string File) : FileSys :=
  mkFileSys m (umask fs) (write_fault fs) (read_fault fs) (mkdir_fault fs) (rename_fault fs)
    (remove_fault fs).

(** A computation over the file system that may fail. *)
Definition io (A : Type) : Type := FileSys → FileSys * result string A.

#[export] Instance io_ret : MRet io := λ A a fs, (fs, Ok a).
#[export] Instance io_bind : MBind io := λ A B f m fs,
  match m fs with
  | (fs', Ok a) => f a fs'
  | (fs', Err e) => (fs', Err e)
  end.

(** [os.ReadFile]. *)
Definition ReadFile (path : string) : io string := λ fs,
  (fs, match read_fault fs path with
       | Some e => Err e
       | None =>
           match files fs !! path with
           | Some f => Ok (f_data f)
           | None => Err ("open " +:+ path +:+ ": no such file or directory")
           end
       end).

(** The file [os.WriteFile] leaves: an existing one keeps its mode, a new one
    gets the permissions less the umask. *)
Definition written (fs : FileSys) (path data : string) (perm : Z) : File :=
  mkFile data
    (match files fs !! path with
     | Some f => f_mode f
     | None => Z.land perm (Z.lnot (umask fs))
     end).

Definition put_file (path data : string) (perm : Z) (fs : FileSys) : FileSys :=
  set_files fs (<[path := written fs path data perm]> (files fs)).

(** [os.WriteFile]: opening truncates, so that a short write destroys what was
    there. *)
Definition WriteFile (path data : string) (perm : Z) : io unit := λ fs,
  match write_fault fs path with
  | Some (CannotOpen e) => (fs, Err e)
  | Some (ShortWrite n e) =>
      (put_file path (str_take n data) perm fs, Err e)
  | None => (put_file path data perm fs, Ok tt)
  end.

(** [os.Rename] onto a path, atomic; [os.Remove]; [os.MkdirAll]. *)
Definition Rename (old new : string) : io unit := λ fs,
  match rename_fault fs new, files fs !! old with
  | Some e, _ => (fs, Err e)
  | None, None => (fs, Err ("rename " +:+ old +:+ " " +:+ new +:+ ": no such file or directory"))
  | None, Some f => (set_files fs (<[new := f]> (delete old (files fs))), Ok tt)
  end.

Definition Remove (path : string) : io unit := λ fs,
  match remove_fault fs path, files fs !! path with
  | Some e, _ => (fs, Err e)
  | None, None => (fs, Err ("remove " +:+ path +:+ ": no such file or directory"))
  | None, Some _ => (set_files fs (delete path (files fs)), Ok tt)
  end.

Definition MkdirAll (dir : string) : io unit := λ fs,
  (fs, match mkdir_fault fs dir with Some e => Err e | None => Ok tt end).

(** [fmt.Errorf("text: %w", err)] around a call. *)
Definition wrap {A} (text : string) (m : io A) : io A := λ fs,
  match m fs with
  | (fs', Err e) => (fs', Err (text +:+ ": " +:+ e))
  | r => r
  end.

Definition lift {A} (r : result string A) : io A := λ fs, (fs, r).

Definition fail {A} (e : string) : io A := λ fs, (fs, Err e).

(** Only the files may change, and only those at [P]. *)
Definition touches (P : string → Prop) (fs fs' : FileSys) : Prop :=
  umask fs' = umask fs ∧ write_fault fs' = write_fault fs ∧ read_fault fs' = read_fault fs
  ∧ mkdir_fault fs' = mkdir_fault fs ∧ rename_fault fs' = rename_fault fs
  ∧ remove_fault fs' = remove_fault fs
  ∧ ∀ p, ¬ P p → files fs' !! p = files fs !! p.

(** A file can be read at [path] and holds [data]. *)
Definition holds (fs : FileSys) (path data : string) : Prop :=
  (ReadFile path fs).2 = Ok data.

(** An empty disk on which every call works. *)
Definition blank_disk : FileSys :=
  mkFileSys ∅ 18 (λ _, None) (λ _, None) (λ _, None) (λ _, None) (λ _, None).

(** ** Lemmas: paths *)

(** A file name as the code's constants are: no separator, not a dot name. *)
Definition plain_name (f : string) : bool :=
  match IndexByte f "/" with Some _ => false | None => true end
  && negb (String.eqb f "" || String.eqb f "." || String.eqb f "..").

Lemma Split_no_byte s c : IndexByte s c = None → Split s c = [s].
Proof.
  induction s as [|d s IH]; [done|]. cbn [IndexByte Split].
  destruct (Ascii.eqb d c); [done|]. destruct (IndexByte s c); [done|]. intros _. by rewrite IH.
Qed.

Lemma Split_app_byte s c f : IndexByte f c = None → Split (s +:+ String c f) c = Split s c ++ [f].
Proof.
  intros Hf. induction s as [|d s IH].
  - change ("" +:+ String c f) with (String c f). simpl. rewrite Ascii.eqb_refl.
    by rewrite Split_no_byte.
  - rewrite string_app_cons. cbn [Split]. destruct (Ascii.eqb d c); [by rewrite IH|].
    rewrite IH. pose proof (Split_nonempty s c). by destruct (Split s c).
Qed.

Lemma HasPrefix_byte_app s c t : s ≠ "" → HasPrefix (s +:+ t) (String c "") = HasPrefix s (String c "").
Proof. destruct s as [|d s]; [done|]. intros _. rewrite string_app_cons. simpl. by destruct s, t. Qed.

Lemma Split_front a c b : IndexByte a c = None → Split (a +:+ String c b) c = a :: Split b c.
Proof.
  induction a as [|d a IH]; intros Ha; [simpl; by rewrite Ascii.eqb_refl|].
  rewrite string_app_cons. cbn [IndexByte Split] in *. destruct (Ascii.eqb d c); [done|].
  rewrite IH; [done|]. by destruct (IndexByte a c).
Qed.

(** What follows the last separator. *)
Lemma IndexByte_prefix f c : IndexByte f c = None → HasPrefix f (String c "") = false.
Proof.
  destruct f as [|d f]; [done|]. cbn [IndexByte HasPrefix]. rewrite Ascii.eqb_sym.
  by destruct (Ascii.eqb c d).
Qed.

(** The segments of a directory, each with its separator. *)
Fixpoint join_prefix (l : list string) : string :=
  match l with [] => "" | x :: l' => x +:+ "/" +:+ join_prefix l' end.

Lemma Join_snoc l f : Join (l ++ [f]) "/" = join_prefix l +:+ f.
Proof.
  induction l as [|x l IH]; [done|]. cbn [app join_prefix].
  destruct (l ++ [f]) as [|y l'] eqn:E; [by destruct l|].
  rewrite Join_cons2, IH. by rewrite !string_app_assoc.
Qed.

Definition dir_prefix (dir : string) : string :=
  if String.eqb dir "" then ""
  else (if HasPrefix dir "/" then "/" else "")
         +:+ join_prefix (reverse (clean_segs (HasPrefix dir "/") dir)).

Lemma clean_step_plain r stack f : plain_name f = true → clean_step r stack f = f :: stack.
Proof.
  unfold plain_name, clean_step. destruct (IndexByte f "/"); [done|]. simpl.
  by destruct (String.eqb f ""), (String.eqb f "."), (String.eqb f "..").
Qed.

(** Joining a file name appends it to a prefix that depends on the directory. *)
Lemma path_join_plain dir f : plain_name f = true → path_join [dir; f] = dir_prefix dir +:+ f.
Proof.
  intros Hf. pose proof Hf as Hp. unfold plain_name in Hp.
  destruct (IndexByte f "/") eqn:Ei; [done|]. simpl in Hp.
  assert (f ≠ "") as Hne by (by intros ->). apply String.eqb_neq in Hne as Hne'.
  unfold dir_prefix. cbn [path_join]. destruct (String.eqb_spec dir "") as [->|Hd].
  - rewrite Hne'. cbn [Join]. unfold Clean. rewrite Hne', IndexByte_prefix by done.
    unfold clean_segs. rewrite Split_no_byte by done. cbn [foldl].
    rewrite clean_step_plain by done. simpl. by rewrite Hne'.
  - cbn [Join]. assert (dir +:+ "/" +:+ f ≠ "") as Hne2 by (by destruct dir).
    apply String.eqb_neq in Hne2. unfold Clean. rewrite Hne2, HasPrefix_byte_app by done.
    unfold clean_segs. change ("/" +:+ f) with (String "/" f).
    rewrite Split_app_byte, foldl_snoc, clean_step_plain, reverse_cons, Join_snoc by done.
    destruct (HasPrefix dir "/"); [by rewrite string_app_assoc|].
    destruct (String.eqb_spec (join_prefix (reverse (foldl (clean_step false) [] (Split dir "/"))) +:+ f) "")
      as [He|]; [|done].
    by destruct (join_prefix _), f.
Qed.

Lemma path_join_inj dir f g :
  plain_name f = true → plain_name g = true → path_join [dir; f] = path_join [dir; g] → f = g.
Proof. intros Hf Hg. rewrite !path_join_plain by done. apply (inj _). Qed.

(** ** Lemmas: files *)
#[export] Instance touches_preorder P : PreOrder (touches P).
Proof.
  split; [by intros fs|]. intros fs1 fs2 fs3 (?&?&?&?&?&?&Hp) (?&?&?&?&?&?&Hq).
  repeat split; try congruence. intros p Hnp. by rewrite Hq, Hp.
Qed.

Lemma touches_mono (P Q : string → Prop) fs fs' :
  (∀ p, P p → Q p) → touches P fs fs' → touches Q fs fs'.
Proof. intros HPQ (?&?&?&?&?&?&Hp). repeat split; try done. intros p Hq. apply Hp. auto. Qed.

Lemma touches_holds P fs fs' p data : touches P fs fs' → ¬ P p → holds fs' p data ↔ holds fs p data.
Proof. intros (_&_&Hr&_&_&_&Hp) Hn. unfold holds, ReadFile. simpl. by rewrite Hr, Hp. Qed.

Lemma readable fs path data : holds fs path data → ReadFile path fs = (fs, Ok data).
Proof. unfold holds, ReadFile. simpl. by intros ->. Qed.

Lemma put_touches path data perm fs : touches (eq path) fs (put_file path data perm fs).
Proof. repeat split; try done. intros p Hp. by apply lookup_insert_ne. Qed.

Lemma holds_put path data perm fs : read_fault fs path = None → holds (put_file path data perm fs) path data.
Proof. intros Hr. unfold holds, ReadFile. simpl. by rewrite Hr, lookup_insert_eq. Qed.

Lemma holds_put_ne path p data perm fs d : path ≠ p → holds (put_file path data perm fs) p d ↔ holds fs p d.
Proof. intros Hne. by apply (touches_holds (eq path)); [apply put_touches|]. Qed.

Lemma WriteFile_touches path data perm fs : touches (eq path) fs (WriteFile path data perm fs).1.
Proof.
  unfold WriteFile. by destruct (write_fault fs path) as [[]|]; simpl; [|apply put_touches..].
Qed.

Lemma Remove_touches path fs : touches (eq path) fs (Remove path fs).1.
Proof.
  unfold Remove. destruct (remove_fault fs path); [done|]. destruct (files fs !! path); [|done].
  repeat split; try done. intros p Hp. by apply lookup_delete_ne.
Qed.

(** A removal that is not refused leaves no file. *)
Lemma Remove_gone path fs : remove_fault fs path = None → files (Remove path fs).1 !! path = None.
Proof.
  unfold Remove. intros ->. destruct (files fs !! path) eqn:Hf; [|done]. apply lookup_delete_eq.
Qed.

(** A write that reports success has put the whole text in place. *)
Lemma WriteFile_inv path data perm fs fs' :
  WriteFile path data perm fs = (fs', Ok tt) → fs' = put_file path data perm fs.
Proof. unfold WriteFile. destruct (write_fault fs path) as [[]|]; [done..|]. by intros [= <-]. Qed.

Lemma WriteFile_ok path data perm fs :
  write_fault fs path = None → WriteFile path data perm fs = (put_file path data perm fs, Ok tt).
Proof. unfold WriteFile. by intros ->. Qed.

Lemma io_bind_ok {A B} (m : io A) (f : A → io B) fs fs' b :
  (m ≫= f) fs = (fs', Ok b) → ∃ fs1 a, m fs = (fs1, Ok a) ∧ f a fs1 = (fs', Ok b).
Proof. unfold mbind, io_bind. destruct (m fs) as [fs1 [a|e]]; [eauto|done]. Qed.

Lemma wrap_ok {A} text (m : io A) fs fs' a : wrap text m fs = (fs', Ok a) → m fs = (fs', Ok a).
Proof. unfold wrap. by destruct (m fs) as [fs1 [a'|e]]. Qed.

Lemma wrap_ok_iff {A} text (m : io A) fs a : m fs = (fs, Ok a) → wrap text m fs = (fs, Ok a).
Proof. unfold wrap. by intros ->. Qed.
