(* ===== verification/GoTime.v ===== *)
(** * Go's [time]: durations, the UTC calendar, RFC 3339 text, [ParseDuration]

    The broker keeps every instant as text ([nowISO], [Format(time.RFC3339)])
    and lets SQLite compare the text, so the text is modelled byte by byte.  An
    instant is its number of nanoseconds since the Unix epoch; the two clocks
    of [time.Time] (wall and monotonic) are one. *)

From Stdlib Require Import SpecFloat.
From S2P Require Import Prelude GoStrings.

(** ** Durations (nanoseconds, [int64]) *)
Definition Nanosecond : Z := 1.
Definition Microsecond : Z := 1000.
Definition Millisecond : Z := 1000000.
Definition Second : Z := 1000000000.
Definition Minute : Z := 60 * Second.
Definition Hour : Z := 60 * Minute.

(** ** The calendar ([Time.Date]) *)
Definition isLeap (y : Z) : bool :=
  (y mod 4 =? 0) && (negb (y mod 100 =? 0) || (y mod 400 =? 0)).

(** Year and zero-based day of the year of a day number counted from
    1 January of year 1: whole 400-year, 100-year, 4-year and 1-year cycles
    are removed in turn, the last cycle being cut back from 4 to 3. *)
Definition split_days (d : Z) : Z * Z :=
  let n400 := d / 146097 in
  let d := d - 146097 * n400 in
  let n100 := d / 36524 in
  let n100 := n100 - n100 / 4 in
  let d := d - 36524 * n100 in
  let n4 := d / 1461 in
  let d := d - 1461 * n4 in
  let n1 := d / 365 in
  let n1 := n1 - n1 / 4 in
  let d := d - 365 * n1 in
  (1 + 400 * n400 + 100 * n100 + 4 * n4 + n1, d).

Definition days_in_month (leap : bool) : list Z :=
  [31; if leap then 29 else 28; 31; 30; 31; 30; 31; 31; 30; 31; 30; 31].

(** Month (from 1) and day (from 1) of a day of the year. *)
Fixpoint month_day (m : Z) (months : list Z) (yday : Z) : Z * Z :=
  match months with
  | [] => (m, yday + 1)
  | n :: months' => if yday <? n then (m, yday + 1) else month_day (m + 1) months' (yday - n)
  end.

(** 1 January 1970 is day 719162 counted from 1 January of year 1. *)
Definition date_of_days (unix_days : Z) : Z * (Z * Z) :=
  let '(y, yday) := split_days (unix_days + 719162) in
  (y, month_day 1 (days_in_month (isLeap y)) yday).

Definition unix_sec (t : Z) : Z := t / Second.
Definition nanos (t : Z) : Z := t mod Second.

(** ** Text *)

(** [time.appendInt(x, width)]. *)
Fixpoint zeros (n : nat) : string := match n with O => "" | S n' => String "0" (zeros n') end.
Definition appendInt (x : Z) (width : nat) : string :=
  let u := utoa (Z.abs x) in
  (if x <? 0 then "-" else "") +:+ zeros (width - String.length u) +:+ u.

(** [2006-01-02T15:04:05] in UTC. *)
Definition format_seconds (s : Z) : string :=
  let '(y, (m, d)) := date_of_days (s / 86400) in
  let sod := s mod 86400 in
  appendInt y 4 +:+ "-" +:+ appendInt m 2 +:+ "-" +:+ appendInt d 2 +:+ "T"
  +:+ appendInt (sod / 3600) 2 +:+ ":" +:+ appendInt (sod mod 3600 / 60) 2
  +:+ ":" +:+ appendInt (sod mod 60) 2.

Fixpoint trim_zeros (s : string) : string :=
  match s with
  | "" => ""
  | String c s' =>
      match trim_zeros s' with
      | "" => if Ascii.eqb c "0" then "" else String c ""
      | r => String c r
      end
  end.

(** The [.999999999] layout: nine digits without their trailing zeros, and
    nothing at all when they are all zero. *)
Definition format_frac (n : Z) : string :=
  match trim_zeros (digits 9 n) with
  | "" => ""
  | f => String "." f
  end.

(** [t.UTC().Format(time.RFC3339)]. *)
Definition formatRFC3339 (t : Z) : string := format_seconds (unix_sec t) +:+ "Z".

(** [t.UTC().Format(time.RFC3339Nano)]. *)
Definition formatRFC3339Nano (t : Z) : string :=
  format_seconds (unix_sec t) +:+ format_frac (nanos t) +:+ "Z".

(** Instants of the years 1 to 9999, where years take four digits. *)
Definition min_time : Z := -62135596800 * Second.
Definition max_time : Z := 253402300800 * Second.
Definition in_era (t : Z) : Prop := min_time ≤ t < max_time.

Example format_epoch : formatRFC3339Nano 0 = "1970-01-01T00:00:00Z".
Proof. vm_compute. reflexivity. Qed.
Example format_leap : formatRFC3339 (1709164799 * Second + 5) = "2024-02-28T23:59:59Z".
Proof. vm_compute. reflexivity. Qed.
Example format_nano : formatRFC3339Nano (1709251199 * Second + 120000000) = "2024-02-29T23:59:59.12Z".
Proof. vm_compute. reflexivity. Qed.
Example format_last : formatRFC3339 (max_time - 1) = "9999-12-31T23:59:59Z".
Proof. vm_compute. reflexivity. Qed.
Example format_first : formatRFC3339 min_time = "0001-01-01T00:00:00Z".
Proof. vm_compute. reflexivity. Qed.

(** ** The calendar is monotone *)

(** Days before 1 January of year [y]. *)
Definition days_before (y : Z) : Z :=
  365 * (y - 1) + (y - 1) / 4 - (y - 1) / 100 + (y - 1) / 400.

Definition year_days (y : Z) : Z := if isLeap y then 366 else 365.

(** A year inside its 400-year cycle. *)
Lemma cycle_year a b c e :
  0 ≤ b ≤ 3 → 0 ≤ c ≤ 24 → 0 ≤ e ≤ 3 →
  let y := 1 + 400 * a + 100 * b + 4 * c + e in
  days_before y = 146097 * a + 36524 * b + 1461 * c + 365 * e
  ∧ year_days y = (if (e =? 3) && (negb (c =? 24) || (b =? 3)) then 366 else 365).
Proof.
  intros Hb Hc He y. split.
  - unfold days_before. replace (y - 1) with (400 * a + 100 * b + 4 * c + e) by lia.
    assert ((400 * a + 100 * b + 4 * c + e) / 4 = 100 * a + 25 * b + c) as -> by dlia.
    assert ((400 * a + 100 * b + 4 * c + e) / 100 = 4 * a + b) as -> by dlia.
    assert ((400 * a + 100 * b + 4 * c + e) / 400 = a) as -> by dlia. lia.
  - unfold year_days.
    enough (isLeap y = (e =? 3) && (negb (c =? 24) || (b =? 3))) as -> by done.
    unfold isLeap.
    assert (y mod 4 = (1 + e) mod 4) as -> by dlia.
    assert (y mod 100 = (1 + 4 * c + e) mod 100) as -> by dlia.
    assert (y mod 400 = (1 + 100 * b + 4 * c + e) mod 400) as -> by dlia.
    assert (((1 + e) mod 4 =? 0) = (e =? 3)) as ->.
    { apply eq_true_iff_eq. rewrite !Z.eqb_eq. dlia. }
    destruct (e =? 3) eqn:E; [|done]. apply Z.eqb_eq in E as ->. cbn [andb].
    assert (((1 + 4 * c + 3) mod 100 =? 0) = (c =? 24)) as ->.
    { apply eq_true_iff_eq. rewrite !Z.eqb_eq. dlia. }
    destruct (c =? 24) eqn:E; [|done]. apply Z.eqb_eq in E as ->. cbn [negb orb].
    apply eq_true_iff_eq. rewrite !Z.eqb_eq. dlia.
Qed.

Lemma split_days_spec d y yd :
  split_days d = (y, yd) → d = days_before y + yd ∧ 0 ≤ yd < year_days y.
Proof.
  unfold split_days. set (a := d / 146097). set (d1 := d - 146097 * a).
  set (b := d1 / 36524 - d1 / 36524 / 4). set (d2 := d1 - 36524 * b).
  set (c := d2 / 1461). set (d3 := d2 - 1461 * c).
  set (e := d3 / 365 - d3 / 365 / 4). set (d4 := d3 - 365 * e).
  intros [= <- <-].
  assert (0 ≤ d1 < 146097) by (subst a d1; dlia).
  assert (0 ≤ b ≤ 3 ∧ 0 ≤ d2 ≤ 36524 ∧ (b ≠ 3 → d2 < 36524)) as (? & ? & ?)
    by (subst b d2; dlia).
  assert (0 ≤ c ≤ 24 ∧ 0 ≤ d3 < 1461 ∧ (c = 24 → b ≠ 3 → d3 < 1460)) as (? & ? & ?)
    by (subst c d3; dlia).
  assert (0 ≤ e ≤ 3 ∧ 0 ≤ d4 ≤ 365 ∧ (e ≠ 3 → d4 < 365) ∧ (d3 < 1460 → d4 < 365))
    as (? & ? & ? & ?) by (subst e d4; dlia).
  destruct (cycle_year a b c e) as [-> ->]; [done..|]. split; [lia|].
  destruct (e =? 3) eqn:E1, (c =? 24) eqn:E2, (b =? 3) eqn:E3; cbn; zify_bool; lia.
Qed.

Lemma days_before_S y : days_before (y + 1) = days_before y + year_days y.
Proof.
  unfold days_before, year_days, isLeap.
  destruct (y mod 4 =? 0) eqn:E1, (y mod 100 =? 0) eqn:E2, (y mod 400 =? 0) eqn:E3;
    cbn; zify_bool; dlia.
Qed.

Lemma days_before_mono y1 y2 : y1 ≤ y2 → days_before y1 ≤ days_before y2.
Proof. intros ?. unfold days_before. dlia. Qed.

Lemma split_days_lt d1 d2 y1 y2 n1 n2 :
  d1 < d2 → split_days d1 = (y1, n1) → split_days d2 = (y2, n2) →
  y1 < y2 ∨ y1 = y2 ∧ n1 < n2.
Proof.
  intros Hd [-> [? ?]]%split_days_spec [-> [? ?]]%split_days_spec.
  destruct (Z.lt_trichotomy y1 y2) as [|[->|Hy]]; [lia|lia|].
  pose proof (days_before_mono (y2 + 1) y1). rewrite days_before_S in *. lia.
Qed.

Lemma month_day_bounds months m yd :
  Forall (λ n, n ≤ 31) months → 0 ≤ yd < foldr Z.add 0 months →
  let '(m', d) := month_day m months yd in
  m ≤ m' < m + Z.of_nat (length months) ∧ 1 ≤ d ≤ 31.
Proof.
  revert m yd. induction months as [|n ms IH]; intros m yd Hall Hyd; simpl in *; [lia|].
  apply Forall_cons in Hall as [Hn Hall].
  destruct (yd <? n) eqn:E; zify_bool; [lia|].
  specialize (IH (m + 1) (yd - n) Hall). destruct (month_day _ _ _). lia.
Qed.

Lemma month_day_lt months m yd1 yd2 :
  0 ≤ yd1 < yd2 →
  let '(m1, d1) := month_day m months yd1 in
  let '(m2, d2) := month_day m months yd2 in
  m ≤ m1 ∧ (m1 < m2 ∨ m1 = m2 ∧ d1 < d2).
Proof.
  revert m yd1 yd2. induction months as [|n ms IH]; intros m yd1 yd2 Hyd; simpl; [lia|].
  destruct (yd1 <? n) eqn:E1, (yd2 <? n) eqn:E2; zify_bool; [lia| |lia|].
  - destruct (decide (0 ≤ yd2 - n - 1)).
    + specialize (IH (m + 1) (yd2 - n - 1) (yd2 - n)).
      destruct (month_day (m + 1) ms (yd2 - n - 1)), (month_day (m + 1) ms (yd2 - n)). lia.
    + specialize (IH (m + 1) (yd2 - n) (yd2 - n + 1)).
      destruct (month_day (m + 1) ms (yd2 - n)), (month_day (m + 1) ms (yd2 - n + 1)). lia.
  - specialize (IH (m + 1) (yd1 - n) (yd2 - n)).
    destruct (month_day _ ms (yd1 - n)), (month_day _ ms (yd2 - n)). lia.
Qed.

(** A day of the era has a four-digit year and two-digit month and day. *)
Lemma date_of_days_bounds d y m dd :
  -719162 ≤ d < 2932897 → date_of_days d = (y, (m, dd)) →
  1 ≤ y ≤ 9999 ∧ 1 ≤ m ≤ 12 ∧ 1 ≤ dd ≤ 31.
Proof.
  intros Hd. unfold date_of_days. destruct (split_days _) as [y' yd] eqn:E.
  apply split_days_spec in E as [Hs Hyd]. intros [<- Hm]%pair_eq.
  split.
  - pose proof (days_before_S y').
    pose proof (days_before_mono (y' + 1) 1) as H1. change (days_before 1) with 0 in H1.
    pose proof (days_before_mono 10000 y') as H2. change (days_before 10000) with 3652059 in H2.
    lia.
  - pose proof (month_day_bounds (days_in_month (isLeap y')) 1 yd) as Hb.
    rewrite Hm in Hb. unfold year_days in Hyd.
    change (Z.of_nat (length (days_in_month (isLeap y')))) with 12 in Hb.
    enough (Forall (λ n, n ≤ 31) (days_in_month (isLeap y'))
      ∧ foldr Z.add 0 (days_in_month (isLeap y')) = if isLeap y' then 366 else 365)
      as [Hall Hsum] by (rewrite Hsum in Hb; specialize (Hb Hall Hyd); lia).
    clear. destruct (isLeap y'); split; [|done| |done]; by repeat constructor.
Qed.

Lemma date_of_days_lt d1 d2 y1 m1 dd1 y2 m2 dd2 :
  d1 < d2 → date_of_days d1 = (y1, (m1, dd1)) → date_of_days d2 = (y2, (m2, dd2)) →
  y1 < y2 ∨ y1 = y2 ∧ (m1 < m2 ∨ m1 = m2 ∧ dd1 < dd2).
Proof.
  intros Hd. unfold date_of_days.
  destruct (split_days (d1 + _)) as [y1' n1] eqn:E1, (split_days (d2 + _)) as [y2' n2] eqn:E2.
  intros [<- Hm1]%pair_eq [<- Hm2]%pair_eq.
  pose proof (split_days_spec _ _ _ E1).
  destruct (split_days_lt (d1 + 719162) (d2 + 719162) _ _ _ _ ltac:(lia) E1 E2)
    as [|[-> Hn]]; [lia|]. right. split; [done|].
  pose proof (month_day_lt (days_in_month (isLeap y2')) 1 n1 n2 ltac:(lia)) as Hlt.
  rewrite Hm1, Hm2 in Hlt. lia.
Qed.

(** ** RFC 3339 text compares as time *)

Lemma zeros_snoc w : zeros w +:+ "0" = String "0" (zeros w).
Proof. induction w as [|w IH]; [done|]. cbn [zeros]. by rewrite string_app_cons, IH. Qed.

Lemma zeros_app_digits w : zeros w = digits w 0.
Proof. induction w as [|w IH]; [done|].
  change (String "0" (zeros w) = digits w 0 +:+ "0"). by rewrite <-IH, zeros_snoc.
Qed.

Lemma utoa_fuel_digits f w n :
  0 ≤ n < 10 ^ Z.of_nat f → n < 10 ^ Z.of_nat w → (0 < f)%nat → (0 < w)%nat →
  zeros (w - String.length (utoa_fuel f n)) +:+ utoa_fuel f n = digits w n
  ∧ (String.length (utoa_fuel f n) ≤ w)%nat.
Proof.
  revert w n. induction f as [|f IH]; intros w n Hf Hw Hf0 Hw0; [lia|].
  destruct w as [|w]; [lia|]. rewrite Nat2Z.inj_succ, Z.pow_succ_r in Hf, Hw by lia.
  cbn [utoa_fuel digits]. destruct (n <? 10) eqn:E; zify_bool.
  - rewrite Z.div_small, Z.mod_small by lia. simpl String.length.
    rewrite Nat.sub_succ, Nat.sub_0_r, zeros_app_digits. split; [done|lia].
  - assert (0 < f ∧ 0 < w)%nat as [? ?] by (destruct f, w; simpl in *; lia).
    destruct (IH w (n / 10)) as [IH1 IH2];
      [split; [apply Z.div_pos; lia|apply Z.div_lt_upper_bound; lia]|
       apply Z.div_lt_upper_bound; lia|done|done|].
    rewrite string_length_app. simpl String.length.
    rewrite Nat.add_1_r, Nat.sub_succ, <-string_app_assoc, IH1. split; [done|lia].
Qed.

Lemma appendInt_digits w n :
  0 ≤ n < 10 ^ Z.of_nat w → (0 < w)%nat → appendInt n w = digits w n.
Proof.
  intros Hn Hw. unfold appendInt. rewrite Z.abs_eq by lia.
  rewrite (proj2 (Z.ltb_ge _ _)) by lia.
  apply utoa_fuel_digits; try lia. split; [lia|].
  destruct (decide (n = 0)) as [->|Hnz]; [done|].
  pose proof (Z.log2_spec n) as [_ Hl]; [lia|].
  rewrite Nat2Z.inj_succ, Z2Nat.id by apply Z.log2_nonneg.
  eapply Z.lt_le_trans; [exact Hl|]. apply Z.pow_le_mono_l. lia.
Qed.

(** A field followed by the rest of the text. *)
Lemma field_lt w m n s t :
  0 ≤ m < 10 ^ Z.of_nat w → 0 ≤ n < 10 ^ Z.of_nat w →
  m < n ∨ m = n ∧ s <s t → digits w m +:+ s <s digits w n +:+ t.
Proof.
  intros Hm Hn H. rewrite string_compare_app by by rewrite !length_digits.
  rewrite digits_compare by done. destruct H as [H|[-> H]].
  - by rewrite (proj2 (Z.compare_lt_iff _ _)).
  - by rewrite Z.compare_refl.
Qed.

(** The seconds of the era. *)
Definition sec_in_era (s : Z) : Prop := -62135596800 ≤ s < 253402300800.

Lemma in_era_sec t : in_era t → sec_in_era (unix_sec t).
Proof. unfold in_era, sec_in_era, unix_sec, min_time, max_time, Second. intros ?. dlia. Qed.

Lemma format_seconds_fields s :
  sec_in_era s →
  ∃ y m d, date_of_days (s / 86400) = (y, (m, d))
    ∧ 0 ≤ y < 10000 ∧ 0 ≤ m < 100 ∧ 0 ≤ d < 100
    ∧ format_seconds s = digits 4 y +:+ "-" +:+ digits 2 m +:+ "-" +:+ digits 2 d +:+ "T"
      +:+ digits 2 (s mod 86400 / 3600) +:+ ":" +:+ digits 2 (s mod 86400 mod 3600 / 60)
      +:+ ":" +:+ digits 2 (s mod 86400 mod 60).
Proof.
  unfold sec_in_era, format_seconds. intros Hs.
  destruct (date_of_days (s / 86400)) as [y [m d]] eqn:E.
  apply date_of_days_bounds in E as Hb; [|dlia].
  exists y, m, d. repeat split; try lia.
  rewrite !appendInt_digits; try done; simpl; try lia; dlia.
Qed.

Lemma format_seconds_length s : sec_in_era s → String.length (format_seconds s) = 19%nat.
Proof.
  intros (y & m & d & _ & _ & _ & _ & ->)%format_seconds_fields.
  rewrite !string_length_app, !length_digits. done.
Qed.

Lemma format_seconds_lt s1 s2 :
  sec_in_era s1 → sec_in_era s2 → s1 < s2 → format_seconds s1 <s format_seconds s2.
Proof.
  intros H1 H2 Hlt.
  destruct (format_seconds_fields s1 H1) as (y1 & m1 & d1 & E1 & ? & ? & ? & ->).
  destruct (format_seconds_fields s2 H2) as (y2 & m2 & d2 & E2 & ? & ? & ? & ->).
  assert (s1 / 86400 < s2 / 86400 ∨
          s1 / 86400 = s2 / 86400 ∧ s1 mod 86400 < s2 mod 86400) as [Hd|[Hd Hs]] by dlia.
  - pose proof (date_of_days_lt _ _ _ _ _ _ _ _ Hd E1 E2) as Hf.
    apply field_lt; [done..|]. destruct Hf as [Hy|[-> Hf]]; [by left|right; split; [done|]].
    rewrite string_compare_app_l.
    apply field_lt; [done..|]. destruct Hf as [Hm|[-> Hf]]; [by left|right; split; [done|]].
    rewrite string_compare_app_l. apply field_lt; [done..|]. by left.
  - rewrite Hd in E1. rewrite E1 in E2. injection E2 as -> -> ->.
    set (a := s1 mod 86400) in *. set (b := s2 mod 86400) in *.
    assert (0 ≤ a < 86400 ∧ 0 ≤ b < 86400) by (subst a b; dlia).
    rewrite !string_compare_app_l. apply field_lt; [simpl; dlia..|].
    assert (a / 3600 < b / 3600 ∨ a / 3600 = b / 3600 ∧
      (a mod 3600 / 60 < b mod 3600 / 60 ∨ a mod 3600 / 60 = b mod 3600 / 60 ∧
       a mod 60 < b mod 60)) as [Hh|[-> Hf]] by dlia; [by left|right; split; [done|]].
    rewrite !string_compare_app_l. apply field_lt; [simpl; dlia..|].
    destruct Hf as [Hm|[-> Hf]]; [by left|right; split; [done|]].
    rewrite string_compare_app_l, <-(string_app_nil_r (digits 2 (a mod 60))),
      <-(string_app_nil_r (digits 2 (b mod 60))).
    apply field_lt; [simpl; dlia..|]. by left.
Qed.

(** Second-resolution texts, extended by anything, compare as their seconds
    first. *)
Lemma format_seconds_app s1 s2 u v :
  sec_in_era s1 → sec_in_era s2 →
  String.compare (format_seconds s1 +:+ u) (format_seconds s2 +:+ v) =
  match s1 ?= s2 with Eq => String.compare u v | c => c end.
Proof.
  intros H1 H2. rewrite string_compare_app by by rewrite !format_seconds_length.
  destruct (Z.compare_spec s1 s2) as [->|Hlt|Hlt].
  - by rewrite string_compare_refl.
  - by rewrite (format_seconds_lt _ _ H1 H2 Hlt).
  - rewrite String.compare_antisym, (format_seconds_lt _ _ H2 H1 Hlt). done.
Qed.

(** ** Fractions of a second *)

Lemma trim_zeros_empty s : trim_zeros s = "" → s = zeros (String.length s).
Proof.
  induction s as [|c s IH]; [done|]. simpl.
  destruct (trim_zeros s) eqn:E; [|done].
  destruct (Ascii.eqb c "0") eqn:Ec; [|done].
  apply Ascii.eqb_eq in Ec as ->. intros _. by rewrite <-IH.
Qed.

Lemma format_frac_cases n :
  0 ≤ n < Second → (n = 0 ∧ format_frac n = "") ∨ (n ≠ 0 ∧ ∃ f, format_frac n = String "." f).
Proof.
  intros Hn. unfold format_frac. destruct (trim_zeros (digits 9 n)) eqn:E; [left|right].
  - split; [|done]. apply trim_zeros_empty in E. rewrite length_digits in E.
    rewrite zeros_app_digits in E. apply (f_equal (String.compare (digits 9 0))) in E.
    rewrite string_compare_refl, digits_compare in E by (unfold Second in Hn; simpl; lia).
    apply Z.compare_eq_iff in E. done.
  - split; [|by eexists]. intros ->. vm_compute in E. done.
Qed.

Lemma nanos_range t : 0 ≤ nanos t < Second.
Proof. by apply Z.mod_pos_bound. Qed.

Lemma unix_sec_nanos t : t = Second * unix_sec t + nanos t.
Proof. unfold unix_sec, nanos, Second. dlia. Qed.

(** Whole-second texts order instants by their second. *)
Lemma formatRFC3339_compare t1 t2 :
  in_era t1 → in_era t2 →
  String.compare (formatRFC3339 t1) (formatRFC3339 t2) = (unix_sec t1 ?= unix_sec t2).
Proof.
  intros H1 H2. unfold formatRFC3339.
  rewrite format_seconds_app by by apply in_era_sec.
  by destruct (unix_sec t1 ?= unix_sec t2).
Qed.

(** A text with a fraction sorts before the whole-second text of the same
    second, because ['.'] is below ['Z']. *)
Lemma nano_before_second t c :
  in_era t → in_era c →
  (formatRFC3339Nano t <s formatRFC3339 c ↔
   unix_sec t < unix_sec c ∨ unix_sec t = unix_sec c ∧ nanos t ≠ 0).
Proof.
  intros Ht Hc. unfold formatRFC3339Nano, formatRFC3339.
  rewrite format_seconds_app by by apply in_era_sec.
  destruct (Z.compare_spec (unix_sec t) (unix_sec c)) as [E|E|E].
  - destruct (format_frac_cases (nanos t) (nanos_range t)) as [[Hn ->]|[Hn [f ->]]].
    + simpl. split; [done|lia].
    + split; [by right|done].
  - split; [by left|done].
  - split; [done|lia].
Qed.

Lemma nano_lt_seconds t1 t2 :
  in_era t1 → in_era t2 → unix_sec t1 < unix_sec t2 →
  formatRFC3339Nano t1 <s formatRFC3339Nano t2.
Proof.
  intros H1 H2 Hlt. unfold formatRFC3339Nano.
  rewrite format_seconds_app by by apply in_era_sec.
  by rewrite (proj2 (Z.compare_lt_iff _ _)).
Qed.

(** ** [time.ParseDuration] *)

Inductive DurErr : Type :=
| InvalidDuration
| MissingUnit
| UnknownUnit (u : string).

#[export] Instance DurErr_eq_dec : EqDecision DurErr.
Proof. solve_decision. Defined.

(** [leadingInt]: the value of the leading digits and the rest, refused above
    2^63. *)
Fixpoint leadingInt (x : Z) (s : string) : option (Z * string) :=
  match s with
  | String c s' =>
      if is_digit c then
        if 2 ^ 63 / 10 <? x then None
        else let x' := x * 10 + digit_val c in
             if 2 ^ 63 <? x' then None else leadingInt x' s'
      else Some (x, s)
  | "" => Some (x, "")
  end.

(** IEEE 754 double precision. *)
Definition float64 (z : Z) : spec_float := binary_normalize 53 1024 z 0 false.
Definition fmul : spec_float → spec_float → spec_float := SFmul 53 1024.
Definition fdiv : spec_float → spec_float → spec_float := SFdiv 53 1024.
(** [uint64(f)] of a non-negative [f] below 2^64: truncation. *)
Definition trunc64 (f : spec_float) : Z :=
  match f with S754_finite false m e => Z.shiftl (Zpos m) e | _ => 0 end.

(** [leadingFraction]: the digits that fit 2^63 and the power of ten they are
    divided by; digits after an overflow are skipped. *)
Fixpoint leadingFraction (x : Z) (scale : spec_float) (overflow : bool) (s : string)
    : Z * spec_float * string :=
  match s with
  | String c s' =>
      if is_digit c then
        if overflow then leadingFraction x scale true s'
        else if (2 ^ 63 - 1) / 10 <? x then leadingFraction x scale true s'
        else let y := x * 10 + digit_val c in
             if 2 ^ 63 <? y then leadingFraction x scale true s'
             else leadingFraction y (fmul scale (float64 10)) false s'
      else (x, scale, s)
  | "" => (x, scale, "")
  end.

Definition unitMap (u : string) : option Z :=
  if String.eqb u "ns" then Some Nanosecond
  else if String.eqb u "us" then Some Microsecond
  else if String.eqb u (bytes [194; 181; 115]%N) then Some Microsecond
  else if String.eqb u (bytes [206; 188; 115]%N) then Some Microsecond
  else if String.eqb u "ms" then Some Millisecond
  else if String.eqb u "s" then Some Second
  else if String.eqb u "m" then Some Minute
  else if String.eqb u "h" then Some Hour
  else None.

(** The longest prefix without a digit or a period, and the rest. *)
Fixpoint span_unit (s : string) : string * string :=
  match s with
  | "" => ("", "")
  | String c s' =>
      if Ascii.eqb c "." || is_digit c then ("", s)
      else let '(u, r) := span_unit s' in (String c u, r)
  end.

(** [v * unit + f * (unit / scale)], refused above 2^63. *)
Definition component (v f : Z) (scale : spec_float) (unit : Z) : option Z :=
  if 2 ^ 63 / unit <? v then None
  else
    let v := v * unit in
    if 0 <? f then
      let v := v + trunc64 (fmul (float64 f) (fdiv (float64 unit) scale)) in
      if 2 ^ 63 <? v then None else Some v
    else Some v.

(** One turn of the loop: value and unit of the first component, and the rest. *)
Definition parse_component (s : string) : result DurErr (Z * string) :=
  match s with
  | "" => Err InvalidDuration
  | String c _ =>
      if negb (Ascii.eqb c "." || is_digit c) then Err InvalidDuration
      else match leadingInt 0 s with
      | None => Err InvalidDuration
      | Some (v, s1) =>
          let pre := negb (String.length s =? String.length s1)%nat in
          let '(f, scale, s2, post) :=
            match s1 with
            | String "." s1' =>
                let '(f, scale, s2) := leadingFraction 0 (float64 1) false s1' in
                (f, scale, s2, negb (String.length s1' =? String.length s2)%nat)
            | _ => (0, float64 1, s1, false)
            end in
          if negb pre && negb post then Err InvalidDuration
          else let '(u, s3) := span_unit s2 in
          if String.eqb u "" then Err MissingUnit
          else match unitMap u with
          | None => Err (UnknownUnit u)
          | Some unit =>
              match component v f scale unit with
              | None => Err InvalidDuration
              | Some v => Ok (v, s3)
              end
          end
      end
  end.

Fixpoint parse_components (fuel : nat) (d : Z) (s : string) : result DurErr Z :=
  match fuel, s with
  | _, "" => Ok d
  | O, _ => Err InvalidDuration
  | S fuel', _ =>
      match parse_component s with
      | Err e => Err e
      | Ok (v, s') =>
          let d := (d + v) mod 2 ^ 64 in
          if 2 ^ 63 <? d then Err InvalidDuration else parse_components fuel' d s'
      end
  end.

(** Every component consumes at least one byte, so the length of the text is
    enough fuel. *)
Definition ParseDuration (s : string) : result DurErr Z :=
  let '(neg, s) :=
    match s with
    | String "-" s' => (true, s')
    | String "+" s' => (false, s')
    | _ => (false, s)
    end in
  if String.eqb s "0" then Ok 0
  else if String.eqb s "" then Err InvalidDuration
  else match parse_components (String.length s) 0 s with
  | Err e => Err e
  | Ok d =>
      if neg then Ok (wrap64 (- d))
      else if 2 ^ 63 - 1 <? d then Err InvalidDuration else Ok d
  end.

Example parse_mixed : ParseDuration "72h30m" = Ok (72 * Hour + 30 * Minute).
Proof. vm_compute. reflexivity. Qed.
Example parse_fraction : ParseDuration "1.120h" = Ok (67 * Minute + 12 * Second).
Proof. vm_compute. reflexivity. Qed.
Example parse_negative : ParseDuration "-1.5h" = Ok (- 90 * Minute).
Proof. vm_compute. reflexivity. Qed.
Example parse_bad : ParseDuration "10x" = Err (UnknownUnit "x").
Proof. vm_compute. reflexivity. Qed.

(** ** Lemmas on [ParseDuration] *)

Lemma digits_val_mono acc s :
  str_all is_digit s = true → 0 ≤ acc → acc ≤ digits_val acc s.
Proof.
  revert acc. induction s as [|c s IH]; intros acc; simpl; [lia|].
  intros [Hc Hs]%andb_true_iff Hacc. unfold is_digit in Hc. zify_bool.
  specialize (IH (acc * 10 + digit_val c) Hs). unfold digit_val in *. lia.
Qed.

Definition no_digit (s : string) : bool :=
  match s with "" => true | String c _ => negb (is_digit c) end.

Lemma leadingInt_digits x s r :
  str_all is_digit s = true → no_digit r = true → 0 ≤ x → digits_val x s ≤ 2 ^ 63 →
  leadingInt x (s +:+ r) = Some (digits_val x s, r).
Proof.
  revert x. induction s as [|c s IH]; intros x Hs Hr Hx Hv.
  - change ("" +:+ r) with r. destruct r as [|c r]; [done|]. simpl in *.
    by destruct (is_digit c).
  - rewrite string_app_cons. simpl in *. apply andb_true_iff in Hs as [Hc Hs].
    assert (0 ≤ digit_val c) by (unfold is_digit in Hc; zify_bool; unfold digit_val; lia).
    pose proof (digits_val_mono (x * 10 + digit_val c) s Hs ltac:(lia)).
    rewrite Hc, (proj2 (Z.ltb_ge _ _)) by (change (2 ^ 63 / 10) with 922337203685477580; lia).
    rewrite (proj2 (Z.ltb_ge _ _)) by lia. apply IH; [done..|lia|done].
Qed.

Lemma leadingInt_shorter x s v r : leadingInt x s = Some (v, r) → (String.length r ≤ String.length s)%nat.
Proof.
  revert x. induction s as [|c s IH]; intros x; simpl; [by intros [= _ <-]|].
  destruct (is_digit c); [|by intros [= _ <-]].
  destruct (_ <? x); [done|]. destruct (_ <? _); [done|]. intros Hl%IH. lia.
Qed.

Lemma leadingFraction_shorter x sc o s v sc' r :
  leadingFraction x sc o s = (v, sc', r) → (String.length r ≤ String.length s)%nat.
Proof.
  revert x sc o. induction s as [|c s IH]; intros x sc o; simpl; [by intros [= _ _ <-]|].
  destruct (is_digit c); [|by intros [= _ _ <-]].
  destruct o; [intros Hl%IH; lia|].
  destruct (_ <? x); [intros Hl%IH; lia|]. destruct (_ <? _); intros Hl%IH; lia.
Qed.

Lemma span_unit_shorter s u r :
  span_unit s = (u, r) → String.length s = (String.length u + String.length r)%nat.
Proof.
  revert u r. induction s as [|c s IH]; intros u r; simpl; [by intros [= <- <-]|].
  destruct (_ || _); [by intros [= <- <-]|].
  destruct (span_unit s) as [u' r']. intros [= <- <-]. simpl. by rewrite (IH u' r').
Qed.

(** Every turn of the loop consumes at least the unit. *)
Lemma parse_component_shorter s v r :
  parse_component s = Ok (v, r) → (String.length r < String.length s)%nat.
Proof.
  unfold parse_component. destruct s as [|c s']; [done|]. set (s := String c s').
  destruct (negb _); [done|]. destruct (leadingInt 0 s) as [[v1 s1]|] eqn:E1; [|done].
  apply leadingInt_shorter in E1.
  set (X := match s1 with String "." _ => _ | _ => _ end).
  assert (∃ f sc s2 post, X = (f, sc, s2, post) ∧ (String.length s2 ≤ String.length s1)%nat)
    as (f & sc & s2 & post & -> & Hs2).
  { subst X. destruct s1 as [|d s1']; [by eauto 10|].
    destruct (Ascii.ascii_dec d "."%char) as [->|Hd].
    - destruct (leadingFraction 0 (float64 1) false s1') as [[f sc] s2] eqn:E2.
      apply leadingFraction_shorter in E2. simpl. eauto 10.
    - exists 0, (float64 1), (String d s1'), false.
      split; [|done]. by destruct d as [[] [] [] [] [] [] [] []]. }
  destruct (_ && _); [done|]. destruct (span_unit s2) as [u s3] eqn:E3.
  apply span_unit_shorter in E3. destruct (String.eqb u "") eqn:Eu; [done|].
  destruct (unitMap u); [|done]. destruct (component _ _ _ _); [|done].
  intros [= <- <-]. destruct u; [done|]. simpl in *. lia.
Qed.

Lemma parse_components_fuel f1 f2 d s :
  (String.length s ≤ f1)%nat → (String.length s ≤ f2)%nat →
  parse_components f1 d s = parse_components f2 d s.
Proof.
  revert f2 d s. induction f1 as [|f1 IH]; intros f2 d s H1 H2.
  - destruct s; [by destruct f2|simpl in H1; lia].
  - destruct s as [|c s]; [by destruct f2|].
    destruct f2 as [|f2]; [simpl in H2; lia|]. cbn [parse_components].
    destruct (parse_component (String c s)) as [[v r]|e] eqn:E; [|done].
    apply parse_component_shorter in E. simpl in *.
    destruct (_ <? _); [done|]. apply IH; lia.
Qed.

Lemma parse_components_range f d s v :
  parse_components f d s = Ok v → 0 ≤ d ≤ 2 ^ 63 → 0 ≤ v ≤ 2 ^ 63.
Proof.
  revert d s. induction f as [|f IH]; intros d s.
  - destruct s; simpl; [by intros [= <-]|done].
  - destruct s as [|c s]; cbn [parse_components]; [by intros [= <-]|].
    destruct (parse_component _) as [[w r]|]; [|done].
    destruct (_ <? _) eqn:E; [done|]. zify_bool. intros Hp _. eapply IH; [done|].
    pose proof (Z.mod_pos_bound (d + w) (2 ^ 64)). lia.
Qed.

Lemma ParseDuration_range s d : ParseDuration s = Ok d → in_int64 d.
Proof.
  unfold ParseDuration.
  set (X := match s with String "-" _ => _ | _ => _ end). destruct X as [neg s'].
  destruct (String.eqb s' "0"); [intros [= <-]; by compute|].
  destruct (String.eqb s' ""); [done|].
  destruct (parse_components _ _ _) as [v|] eqn:E; [|done].
  apply parse_components_range in E; [|lia].
  destruct neg; [intros [= <-]; apply wrap64_range|].
  destruct (_ <? _) eqn:El; [done|]. zify_bool. intros [= <-].
  unfold in_int64, min_int64, max_int64. lia.
Qed.

Lemma sign_digit c s :
  is_digit c = true →
  match String c s with
  | String "-" s' => (true, s') | String "+" s' => (false, s') | _ => (false, String c s)
  end = (false, String c s).
Proof. intros Hc. destruct c as [[] [] [] [] [] [] [] []]; first [done|discriminate Hc]. Qed.

Lemma component_whole_hours k sc : 0 ≤ k ≤ 2562047 → component k 0 sc Hour = Some (k * Hour).
Proof.
  intros Hk. unfold component. change (2 ^ 63 / Hour) with 2562047.
  by rewrite (proj2 (Z.ltb_ge _ _)) by lia.
Qed.

(** A whole number of hours. *)
Lemma ParseDuration_hours k : 0 ≤ k ≤ 2562047 → ParseDuration (utoa k +:+ "h") = Ok (k * Hour).
Proof.
  intros Hk. destruct (utoa_spec k) as (Hv & Hd & _); [lia|].
  destruct (utoa_cons k) as (c & s & Hu & Hc); [lia|].
  assert (Hl : leadingInt 0 (utoa k +:+ "h") = Some (k, "h")).
  { rewrite leadingInt_digits, Hv; try done. rewrite Hv. lia. }
  assert (Hp : parse_component (utoa k +:+ "h") = Ok (k * Hour, "")).
  { unfold parse_component. rewrite Hl.
    rewrite string_length_app, Hu, string_app_cons, Hc, orb_true_r. cbn [negb].
    rewrite (proj2 (Nat.eqb_neq _ _)) by (simpl; lia).
    cbn [negb andb span_unit Ascii.eqb Bool.eqb orb is_digit String.eqb].
    change (is_digit "h") with false. cbn [negb]. change (("h" =? "")%string) with false.
    change (unitMap "h") with (Some Hour). cbv iota beta zeta.
    by rewrite component_whole_hours. }
  unfold ParseDuration. rewrite Hu, string_app_cons, sign_digit by done.
  rewrite <-string_app_cons, <-Hu.
  assert (utoa k +:+ "h" ≠ "0") as Hne.
  { rewrite Hu, string_app_cons. intros [= _ He]. by destruct s. }
  apply String.eqb_neq in Hne. rewrite Hne, Hu, string_app_cons. cbn [String.eqb String.length].
  cbn [parse_components]. rewrite <-string_app_cons, <-Hu, Hp.
  rewrite Z.mod_small by (unfold Hour, Minute, Second; lia).
  rewrite (proj2 (Z.ltb_ge _ _)) by (unfold Hour, Minute, Second; lia).
  assert (parse_components (String.length (s +:+ "h")) (0 + k * Hour) "" = Ok (0 + k * Hour)) as ->
    by by destruct (String.length _).
  rewrite (proj2 (Z.ltb_ge _ _)) by (unfold Hour, Minute, Second; lia). done.
Qed.
