(* ===== verification/Ttl.v ===== *)
(** * Token lifetimes ([ttl.go])

    [ParseFlexibleDuration] rewrites every [Nd] of its input into hours and
    hands the rest to [time.ParseDuration]; the result is kept only inside one
    minute .. 365 days. *)

From S2P Require Import Prelude GoStrings GoTime.

(** ** Operations *)

Definition MaxChildTokenTTL : Z := 365 * 24 * Hour.
Definition MinChildTokenTTL : Z := Minute.

(** The errors of [ParseFlexibleDuration], one constructor per [fmt.Errorf]. *)
Inductive TtlErr : Type :=
| EmptyDuration
| ParseDays (run : string)
| ParseDur (s : string) (e : DurErr)
| BelowMinimum (d : Z)
| ExceedsMaximum (d : Z).

#[export] Instance TtlErr_eq_dec : EqDecision TtlErr.
Proof. solve_decision. Defined.

(** The longest run of digits at the front, and the rest. *)
Fixpoint span_digits (s : string) : string * string :=
  match s with
  | "" => ("", "")
  | String c s' =>
      if is_digit c then let '(r, t) := span_digits s' in (String c r, t) else ("", s)
  end.

(** The left-to-right walk: a digit run followed by [d] becomes its number of
    hours, computed in [int]; anything else is copied. *)
Fixpoint rewrite_days (fuel : nat) (s : string) : result TtlErr string :=
  match fuel, s with
  | _, "" => Ok ""
  | O, _ => Ok s
  | S f, String c s' =>
      if is_digit c then
        let '(run, rest) := span_digits s in
        match rest with
        | String "d" rest' =>
            match Atoi run with
            | None => Err (ParseDays run)
            | Some days =>
                out ← rewrite_days f rest';
                Ok (itoa (wrap64 (days * 24)) +:+ "h" +:+ out)
            end
        | _ =>
            out ← rewrite_days f rest;
            Ok (run +:+ out)
        end
      else
        out ← rewrite_days f s';
        Ok (String c out)
  end.

Definition ParseFlexibleDuration (s0 : string) : result TtlErr Z :=
  let s := TrimSpace s0 in
  if String.eqb s "" then Err EmptyDuration
  else
    out ← rewrite_days (String.length s) s;
    match ParseDuration out with
    | Err e => Err (ParseDur s e)
    | Ok d =>
        if d <? MinChildTokenTTL then Err (BelowMinimum d)
        else if MaxChildTokenTTL <? d then Err (ExceedsMaximum d)
        else Ok d
    end.

(** [defaultChildTTL] with the configured text as argument. *)
Definition defaultChildTTL (DefaultChildTTL : string) : Z :=
  if String.eqb DefaultChildTTL "" then 24 * Hour
  else match ParseFlexibleDuration DefaultChildTTL with
       | Err _ => 24 * Hour
       | Ok d => d
       end.

(** A duration the parser accepts lies in the allowed range. *)
Lemma ParseFlexibleDuration_range s d :
  ParseFlexibleDuration s = Ok d → MinChildTokenTTL ≤ d ≤ MaxChildTokenTTL.
Proof.
  unfold ParseFlexibleDuration. destruct (String.eqb _ _); [done|].
  destruct (rewrite_days _ _) as [out|]; [|done]. simpl.
  destruct (ParseDuration out) as [v|]; [|done].
  destruct (_ <? _) eqn:E1; [done|]. destruct (_ <? v) eqn:E2; [done|].
  intros [= <-]. zify_bool. lia.
Qed.

(** ** The walk *)

Lemma span_digits_app r t :
  str_all is_digit r = true → no_digit t = true → span_digits (r +:+ t) = (r, t).
Proof.
  intros Hr Ht. induction r as [|c r IH].
  - change ("" +:+ t) with t. destruct t as [|c t]; [done|]. simpl in *.
    by destruct (is_digit c).
  - rewrite string_app_cons. simpl in *. apply andb_true_iff in Hr as [-> Hr].
    by rewrite IH.
Qed.

Lemma span_digits_spec s r t :
  span_digits s = (r, t) → s = r +:+ t ∧ str_all is_digit r = true ∧ no_digit t = true.
Proof.
  revert r t. induction s as [|c s IH]; intros r t; simpl; [by intros [= <- <-]|].
  destruct (is_digit c) eqn:Hc.
  - destruct (span_digits s) as [r' t']. destruct (IH r' t' eq_refl) as (-> & Hr & Ht).
    intros [= <- <-]. rewrite string_app_cons. simpl. by rewrite Hc.
  - intros [= <- <-]. simpl. by rewrite Hc.
Qed.

(** The walk consumes at least one byte a turn: enough fuel always gives the
    one result. *)
Lemma rewrite_days_fuel f1 f2 s :
  (String.length s ≤ f1)%nat → (String.length s ≤ f2)%nat →
  rewrite_days f1 s = rewrite_days f2 s.
Proof.
  revert f2 s. induction f1 as [|f1 IH]; intros f2 s H1 H2.
  - destruct s; [by destruct f2|simpl in H1; lia].
  - destruct s as [|c s]; [by destruct f2|].
    destruct f2 as [|f2]; [simpl in H2; lia|]. cbn [rewrite_days]. simpl in H1, H2.
    destruct (is_digit c) eqn:Hc; [|by rewrite (IH f2) by lia].
    destruct (span_digits (String c s)) as [r t] eqn:E.
    assert (r ≠ "") as Hne.
    { simpl in E. rewrite Hc in E. destruct (span_digits s). by injection E as <- <-. }
    apply span_digits_spec in E as (E & Hr & Ht).
    apply (f_equal String.length) in E. rewrite string_length_app in E. simpl in E.
    destruct r as [|r0 r]; [done|]. simpl in E.
    rewrite (IH f2 t) by lia.
    destruct t as [|d t]; [done|]. simpl in E. by rewrite (IH f2 t) by lia.
Qed.

(** Text without the letter [d] is copied unchanged. *)
Definition not_d (c : ascii) : bool := negb (Ascii.eqb c "d").

Lemma rewrite_days_native f s : str_all not_d s = true → rewrite_days f s = Ok s.
Proof.
  revert s. induction f as [|f IH]; intros s Hs; [by destruct s|].
  destruct s as [|c s]; [done|]. cbn [rewrite_days].
  simpl in Hs. apply andb_true_iff in Hs as [Hc Hs].
  destruct (is_digit c) eqn:Hdc; [|by rewrite (IH s)].
  destruct (span_digits (String c s)) as [r t] eqn:E.
  apply span_digits_spec in E as (E & Hr & Ht).
  assert (str_all not_d (r +:+ t) = true) as Hall.
  { rewrite <-E. simpl. by rewrite Hc. }
  rewrite str_all_app in Hall. apply andb_true_iff in Hall as [_ Hallt].
  rewrite (IH t Hallt), E. destruct t as [|d t]; [done|].
  assert (d ≠ "d"%char) as Hd.
  { intros ->. by simpl in Hallt. }
  cbn. clear -Hd. destruct d as [[] [] [] [] [] [] [] []]; by try destruct (Hd eq_refl).
Qed.

(** ** Properties *)

Lemma TrimSpace_days n : 0 ≤ n → TrimSpace (utoa n +:+ "d") = utoa n +:+ "d".
Proof.
  intros Hn. destruct (utoa_cons n Hn) as (c & s & Hu & Hc).
  rewrite Hu, string_app_cons. apply (TrimSpace_plain c _ (String c s) "d");
    [by apply is_plain_digit|done|by rewrite string_app_cons].
Qed.

Lemma rewrite_days_one f n :
  0 ≤ n ≤ max_int64 → rewrite_days (S f) (utoa n +:+ "d") = Ok (itoa (wrap64 (n * 24)) +:+ "h").
Proof.
  intros Hn. destruct (utoa_spec n) as (_ & Hd & _); [lia|].
  pose proof (span_digits_app (utoa n) "d" Hd eq_refl) as Hs.
  destruct (utoa_cons n) as (c & s & Hu & Hc); [lia|].
  rewrite Hu, string_app_cons in *. cbn [rewrite_days]. rewrite Hc, Hs, <-Hu.
  rewrite Atoi_utoa by done. by destruct f.
Qed.

(** Whatever is accepted lies between one minute and 365 days. *)
Theorem ParseFlexibleDuration_bounds s d :
  ParseFlexibleDuration s = Ok d → MinChildTokenTTL ≤ d ≤ MaxChildTokenTTL.
Proof.
  unfold ParseFlexibleDuration. destruct (String.eqb _ _); [done|].
  destruct (rewrite_days _ _) as [out|]; [|done]. cbn.
  destruct (ParseDuration out) as [v|]; [|done].
  destruct (_ <? _) eqn:E1; [done|]. destruct (_ <? v) eqn:E2; [done|].
  intros [= <-]. zify_bool. lia.
Qed.

(** A whole number of days is accepted as that many times 24 hours up to 365,
    and refused as too long beyond, as far as the nanoseconds fit 64 bits. *)
Theorem ParseFlexibleDuration_days n :
  0 ≤ n ≤ 106751 →
  ParseFlexibleDuration (utoa n +:+ "d") =
    if n =? 0 then Err (BelowMinimum 0)
    else if n <=? 365 then Ok (n * (24 * Hour))
    else Err (ExceedsMaximum (n * (24 * Hour))).
Proof.
  intros Hn. unfold ParseFlexibleDuration. rewrite TrimSpace_days by lia.
  assert (String.eqb (utoa n +:+ "d") "" = false) as ->.
  { destruct (utoa_cons n) as (c & s & -> & _); [lia|done]. }
  assert (∃ f, String.length (utoa n +:+ "d") = S f) as [f ->].
  { rewrite string_length_app. simpl. exists (String.length (utoa n)). lia. }
  rewrite rewrite_days_one by (unfold max_int64; lia).
  rewrite wrap64_id by (unfold in_int64, min_int64, max_int64; lia).
  unfold itoa. rewrite (proj2 (Z.ltb_ge _ _)) by lia. cbn [mbind result_bind].
  rewrite ParseDuration_hours by lia.
  unfold MinChildTokenTTL, MaxChildTokenTTL, Hour, Minute, Second.
  destruct (n =? 0) eqn:E0, (n <=? 365) eqn:E1; zify_bool; subst; try lia.
  - done.
  - rewrite (proj2 (Z.ltb_ge _ _)), (proj2 (Z.ltb_ge _ _)) by lia. f_equal. lia.
  - rewrite (proj2 (Z.ltb_ge _ _)), (proj2 (Z.ltb_lt _ _)) by lia. do 2 f_equal. lia.
Qed.

(** Without the unit [d], texts mean what they mean to [time.ParseDuration]. *)
Theorem ParseFlexibleDuration_native s :
  str_all not_d (TrimSpace s) = true → TrimSpace s ≠ "" →
  ParseFlexibleDuration s =
    match ParseDuration (TrimSpace s) with
    | Err e => Err (ParseDur (TrimSpace s) e)
    | Ok d => if d <? Minute then Err (BelowMinimum d)
              else if 365 * 24 * Hour <? d then Err (ExceedsMaximum d) else Ok d
    end.
Proof.
  intros Hd Hne%String.eqb_neq. unfold ParseFlexibleDuration. rewrite Hne.
  by rewrite rewrite_days_native.
Qed.

(** A count of days that overflows once multiplied by 24 is accepted as 8 hours. *)
Theorem day_count_overflow_accepted :
  ParseFlexibleDuration "768614336404564651d" = Ok (8 * Hour).
Proof. vm_compute. reflexivity. Qed.

(** A day and a half is read as 1.24 hours and accepted. *)
Theorem fractional_day_misread :
  ParseFlexibleDuration "1.5d" = Ok (67 * Minute + 12 * Second).
Proof. vm_compute. reflexivity. Qed.

(** The default lifetime is within the bounds whatever the configuration says. *)
Theorem defaultChildTTL_bounds c :
  MinChildTokenTTL ≤ defaultChildTTL c ≤ MaxChildTokenTTL.
Proof.
  unfold defaultChildTTL.
  destruct (String.eqb c ""); [by compute|].
  destruct (ParseFlexibleDuration c) as [d|] eqn:E; [|by compute].
  by apply ParseFlexibleDuration_range in E.
Qed.

(** ** Witnesses *)
Lemma ParseFlexibleDuration_bounds_witness :
  ParseFlexibleDuration "1d12h" = Ok (36 * Hour) ∧ MinChildTokenTTL ≤ 36 * Hour ≤ MaxChildTokenTTL.
Proof.
  assert (ParseFlexibleDuration "1d12h" = Ok (36 * Hour)) as H by (vm_compute; reflexivity).
  split; [exact H|]. exact (ParseFlexibleDuration_bounds "1d12h" _ H).
Defined.

Lemma ParseFlexibleDuration_days_witness :
  ParseFlexibleDuration "30d" = Ok (30 * (24 * Hour))
  ∧ ParseFlexibleDuration "400d" = Err (ExceedsMaximum (400 * (24 * Hour))).
Proof.
  split; [apply (ParseFlexibleDuration_days 30)|apply (ParseFlexibleDuration_days 400)]; by split.
Defined.
