(* ===== verification/RateLimiter.v ===== *)
(** * Sliding-window rate limiter ([rate_limiter.go])

    The table of recent instants per address, [allow] and the body of the
    [cleanup] loop.  Both read the clock before they take the mutex
    (rate_limiter.go:31-34, 59-60), so a call is two steps: it reads an
    instant, and later it runs its critical section with that instant.  A
    state of the limiter holds the table, the clock, the calls that have read
    it and wait for the mutex, and the record of the sections run so far;
    waiting calls enter in any order, so the instants of successive sections
    may go back.  The reference limiter remembers every section ever run. *)

From S2P Require Import Prelude.

(** ** State and operations *)

Record rateLimiter : Type := RateLimiter {
  windows : gmap string (list Z);
  limit : Z;
  window : Z;
}.

Definition newRateLimiter (limit window : Z) : rateLimiter := RateLimiter ∅ limit window.

Definition set_windows (rl : rateLimiter) (m : gmap string (list Z)) : rateLimiter :=
  RateLimiter m (limit rl) (window rl).

(** [t.After(cutoff)] on the recorded instants. *)
Definition prune (cutoff : Z) (ts : list Z) : list Z := filter (λ t, cutoff < t) ts.

(** The critical section of [allow], [now] read before it. *)
Definition allow (rl : rateLimiter) (ip : string) (now : Z) : rateLimiter * bool :=
  let cutoff := now - window rl in
  let valid := prune cutoff (default [] (windows rl !! ip)) in
  if limit rl <=? Z.of_nat (length valid)
  then (set_windows rl (<[ip := valid]> (windows rl)), false)
  else (set_windows rl (<[ip := valid ++ [now]]> (windows rl)), true).

(** The critical section of one tick of the [cleanup] goroutine. *)
Definition cleanup (rl : rateLimiter) (now : Z) : rateLimiter :=
  let cutoff := now - window rl in
  set_windows rl
    (omap (λ ts, match prune cutoff ts with [] => None | v => Some v end) (windows rl)).

(** ** Runs *)

Inductive caller : Type :=
| Request (ip : string)
| Cleaner.

(** A critical section that ran: who, the instant it had read, and whether a
    request was let through. *)
Record section_run : Type := SectionRun {
  sr_who : caller;
  sr_at : Z;
  sr_granted : bool;
}.

Record rl_world : Type := RlWorld {
  rw_table : rateLimiter;
  rw_clock : Z;
  rw_waiting : list (caller * Z);
  rw_log : list section_run;
}.

Definition run_section (rl : rateLimiter) (who : caller) (now : Z) : rateLimiter * bool :=
  match who with
  | Request ip => allow rl ip now
  | Cleaner => (cleanup rl now, false)
  end.

Definition enter (w : rl_world) (who : caller) (now : Z) (rest : list (caller * Z)) : rl_world :=
  let '(rl, b) := run_section (rw_table w) who now in
  RlWorld rl (rw_clock w) rest (rw_log w ++ [SectionRun who now b]).

(** [delay] bounds the time a call spends between reading the clock and
    getting the mutex. *)
Inductive rl_step (delay : Z) (w : rl_world) : rl_world → Prop :=
| rl_time t :
    rw_clock w ≤ t → rl_step delay w (RlWorld (rw_table w) t (rw_waiting w) (rw_log w))
| rl_read who :
    rl_step delay w
      (RlWorld (rw_table w) (rw_clock w) (rw_waiting w ++ [(who, rw_clock w)]) (rw_log w))
| rl_enter before who now after :
    rw_waiting w = before ++ (who, now) :: after → rw_clock w ≤ now + delay →
    rl_step delay w (enter w who now (before ++ after)).

Definition rl_start (limit window t : Z) : rl_world := RlWorld (newRateLimiter limit window) t [] [].

Definition rl_reachable (delay limit window t : Z) (w : rl_world) : Prop :=
  rtc (rl_step delay) (rl_start limit window t) w.

(** ** The reference limiter: every section ever run *)

(** Sections that prune the entry of an address: its own and the clean-ups. *)
Definition concerns (ip : string) (s : section_run) : Prop :=
  match sr_who s with Request ip' => ip' = ip | Cleaner => True end.

#[export] Instance concerns_dec ip s : Decision (concerns ip s).
Proof. unfold concerns. destruct (sr_who s); apply _. Defined.

Definition granted_to (ip : string) (s : section_run) : bool :=
  match sr_who s with Request ip' => bool_decide (ip' = ip) && sr_granted s | Cleaner => false end.

(** No section of [later] had [t] outside its window. *)
Definition outlasts (window : Z) (ip : string) (later : list section_run) (t : Z) : Prop :=
  Forall (λ s, concerns ip s → sr_at s - window < t) later.

#[export] Instance outlasts_dec window ip later t : Decision (outlasts window ip later t).
Proof. unfold outlasts. apply _. Defined.

(** The instants granted to an address that no later section found expired. *)
Fixpoint unexpired (window : Z) (ip : string) (log : list section_run) : list Z :=
  match log with
  | [] => []
  | s :: later =>
      (if granted_to ip s && bool_decide (outlasts window ip later (sr_at s)) then [sr_at s] else [])
      ++ unexpired window ip later
  end.

(** The verdict the reference limiter gives a request at [now]. *)
Definition reference_verdict (limit window : Z) (log : list section_run) (ip : string) (now : Z) : bool :=
  Z.of_nat (length (filter (λ t, now - window < t) (unexpired window ip log))) <? limit.

(** The requests of an address let through with an instant in [(lo, hi]]. *)
Definition granted_in (log : list section_run) (ip : string) (lo hi : Z) : nat :=
  length (filter (λ s, granted_to ip s = true ∧ lo < sr_at s ∧ sr_at s ≤ hi) log).

(** ** The table is the reference limiter's memory *)

Lemma outlasts_snoc window ip later s t :
  outlasts window ip (later ++ [s]) t ↔
  outlasts window ip later t ∧ (concerns ip s → sr_at s - window < t).
Proof. unfold outlasts. by rewrite Forall_app, Forall_singleton. Qed.

Lemma unexpired_snoc window ip log s :
  unexpired window ip (log ++ [s]) =
    (if decide (concerns ip s)
     then prune (sr_at s - window) (unexpired window ip log) else unexpired window ip log)
    ++ (if granted_to ip s then [sr_at s] else []).
Proof.
  induction log as [|s' log IH]; cbn [unexpired app].
  - rewrite (bool_decide_eq_true_2 (outlasts _ _ [] _)) by constructor.
    rewrite andb_true_r, app_nil_r. by case_decide.
  - rewrite IH, app_assoc. f_equal. unfold prune.
    destruct (granted_to ip s'); cbn [andb app]; [|done].
    rewrite (bool_decide_ext _ _ (outlasts_snoc window ip log s (sr_at s'))).
    repeat case_decide; repeat case_bool_decide; rewrite ?filter_app, ?filter_cons;
      repeat case_decide; cbn [app filter]; naive_solver.
Qed.

(** What the table holds for an address. *)
Definition entry (rl : rateLimiter) (ip : string) : list Z := default [] (windows rl !! ip).

Lemma allow_entry rl ip now ip' :
  entry (allow rl ip now).1 ip' =
    (if decide (ip = ip') then prune (now - window rl) (entry rl ip') else entry rl ip')
    ++ (if bool_decide (ip = ip') && (allow rl ip now).2 then [now] else []).
Proof.
  unfold allow, entry. destruct (limit rl <=? _); simpl;
    (destruct (decide (ip = ip')) as [->|Hne];
      [rewrite lookup_insert_eq, bool_decide_true by done
      |rewrite lookup_insert_ne, bool_decide_false by done]); cbn; by rewrite ?app_nil_r.
Qed.

Lemma cleanup_entry rl now ip : entry (cleanup rl now) ip = prune (now - window rl) (entry rl ip).
Proof.
  unfold cleanup, entry. simpl. rewrite lookup_omap.
  destruct (windows rl !! ip) as [ts|]; [|done]. simpl. by destruct (prune (now - window rl) ts).
Qed.

Lemma run_section_params rl who now :
  limit (run_section rl who now).1 = limit rl ∧ window (run_section rl who now).1 = window rl.
Proof. destruct who; simpl; [|done]. unfold allow. by destruct (_ <=? _). Qed.

Lemma run_section_entry rl who now ip :
  let '(rl', b) := run_section rl who now in
  let s := SectionRun who now b in
  entry rl' ip = (if decide (concerns ip s) then prune (now - window rl) (entry rl ip) else entry rl ip)
                 ++ (if granted_to ip s then [now] else []).
Proof.
  destruct who as [ip'|]; cbn [run_section].
  - pose proof (allow_entry rl ip' now ip) as H. destruct (allow rl ip' now) as [rl' b].
    unfold granted_to, concerns. cbn [sr_who sr_granted fst snd] in *. rewrite H.
    by repeat case_decide.
  - unfold granted_to, concerns. cbn [sr_who]. rewrite cleanup_entry, app_nil_r. by case_decide.
Qed.

Lemma allow_verdict rl ip now :
  (allow rl ip now).2 = (Z.of_nat (length (prune (now - window rl) (entry rl ip))) <? limit rl).
Proof. unfold allow, entry. rewrite Z.ltb_antisym. by destruct (limit rl <=? _). Qed.

(** ** Invariants of the runs *)

(** Every section of the log gave the reference limiter's verdict on the
    sections before it. *)
Definition verdicts_ok (limit window : Z) (log : list section_run) : Prop :=
  ∀ before s after ip, log = before ++ s :: after → sr_who s = Request ip →
    sr_granted s = reference_verdict limit window before ip (sr_at s).

Record table_inv (l w : Z) (st : rl_world) : Prop := {
  ti_limit : limit (rw_table st) = l;
  ti_window : window (rw_table st) = w;
  ti_entry ip : entry (rw_table st) ip = unexpired w ip (rw_log st);
  ti_verdicts : verdicts_ok l w (rw_log st);
}.

Lemma snoc_split {A} (h h1 h2 : list A) e x :
  h ++ [x] = h1 ++ e :: h2 → (h1 = h ∧ e = x ∧ h2 = []) ∨ ∃ h2', h2 = h2' ++ [x] ∧ h = h1 ++ e :: h2'.
Proof.
  intros H. destruct h2 as [|y h2 _] using rev_ind.
  - left. apply app_inj_tail in H as [-> ->]. done.
  - right. rewrite app_comm_cons, app_assoc in H. apply app_inj_tail in H as [-> ->]. eauto.
Qed.

Lemma enter_table_inv l w st who now rest :
  table_inv l w st → table_inv l w (enter st who now rest).
Proof.
  intros [Hl Hw He Hv]. unfold enter.
  pose proof (run_section_params (rw_table st) who now) as [Hl' Hw'].
  pose proof (run_section_entry (rw_table st) who now) as He'.
  assert (∀ ip, who = Request ip → (run_section (rw_table st) who now).2 =
            reference_verdict l w (rw_log st) ip now) as Hnew.
  { intros ip ->. simpl. by rewrite allow_verdict, He, Hl, Hw. }
  destruct (run_section _ who now) as [rl b]. cbn [fst snd] in *.
  split; cbn [rw_table rw_log]; [congruence|congruence| |].
  - intros ip. rewrite He', He, unexpired_snoc, Hw. done.
  - intros before s after ip [(-> & -> & ->)|(after' & -> & Heq)]%snoc_split Hs; [|by eapply Hv].
    by apply Hnew.
Qed.

Lemma reachable_table_inv delay l w t st : rl_reachable delay l w t st → table_inv l w st.
Proof.
  apply (rtc_ind_r (λ st, table_inv l w st)).
  - split; [done|done|done|]. intros before s after ip H. by destruct before.
  - intros st1 st2 _ [] Hinv; [by destruct Hinv; split..|by apply enter_table_inv].
Qed.

(** Instants are readings of a clock that does not go back, entered within
    [delay]. *)
Record clock_inv (delay : Z) (st : rl_world) : Prop := {
  ci_waiting : Forall (λ p, p.2 ≤ rw_clock st) (rw_waiting st);
  ci_log : Forall (λ s, sr_at s ≤ rw_clock st) (rw_log st);
  ci_skew before s after : rw_log st = before ++ s :: after →
    Forall (λ s', sr_at s' ≤ sr_at s + delay) before;
}.

Lemma rl_step_clock_inv delay st st' : rl_step delay st st' → clock_inv delay st → clock_inv delay st'.
Proof.
  intros [t Ht|who|before who now after Hw Hd] [H1 H2 H3].
  - split; cbn; [eapply Forall_impl; [exact H1|cbn; lia]|eapply Forall_impl; [exact H2|cbn; lia]|done].
  - split; cbn; [apply Forall_app; split; [done|by repeat constructor]|done..].
  - unfold enter. destruct (run_section _ _ _) as [rl b]. rewrite Hw in H1.
    apply Forall_app in H1 as [H1 [H1' H1'']%Forall_cons].
    split; cbn; [by apply Forall_app| |].
    + apply Forall_app. split; [done|by repeat constructor].
    + intros b' s a [(-> & -> & ->)|(a' & -> & Heq)]%snoc_split; [|by eapply H3].
      cbn. eapply Forall_impl; [exact H2|]. cbn. lia.
Qed.

Lemma reachable_clock_inv delay l w t st : rl_reachable delay l w t st → clock_inv delay st.
Proof.
  apply (rtc_ind_r (clock_inv delay)).
  - split; [constructor|constructor|]. intros before s after H. by destruct before.
  - intros st1 st2 _ Hs. by apply rl_step_clock_inv.
Qed.

(** ** What the memory amounts to *)

Lemma granted_in_snoc log s ip lo hi :
  granted_in (log ++ [s]) ip lo hi =
    (granted_in log ip lo hi
     + (if decide (granted_to ip s = true ∧ (lo < sr_at s)%Z ∧ (sr_at s ≤ hi)%Z) then 1 else 0))%nat.
Proof.
  unfold granted_in. rewrite filter_app, length_app, filter_cons, filter_nil. by case_decide.
Qed.

(** Grants of a window are all remembered while the instants seen stay below
    the end of the memory of the window's first instant. *)
Lemma granted_in_unexpired window ip log lo hi c :
  c ≤ lo → Forall (λ s, sr_at s ≤ lo + window) log →
  (granted_in log ip lo hi ≤ length (filter (λ t, (c < t)%Z) (unexpired window ip log)))%nat.
Proof.
  intros Hc. unfold granted_in. induction 1 as [|s log Hs Hlog IH]; [done|]. simpl.
  rewrite filter_app, length_app, filter_cons. case_decide as Hg; [|lia].
  destruct Hg as (-> & Hlo & Hhi). rewrite bool_decide_eq_true_2.
  - cbn [andb]. rewrite filter_cons, decide_True by lia. simpl. lia.
  - eapply Forall_impl; [exact Hlog|]. cbn. lia.
Qed.

(** With the instants in order, the memory is the plain sliding window. *)
Lemma unexpired_in_order window ip log now :
  StronglySorted (λ s s', sr_at s ≤ sr_at s') log → Forall (λ s, sr_at s ≤ now) log →
  length (filter (λ t, now - window < t) (unexpired window ip log))
    = granted_in log ip (now - window) now.
Proof.
  unfold granted_in. induction 1 as [|s log Hsorted IH Hle]; [done|]. intros [Hs Hlog]%Forall_cons.
  simpl. rewrite filter_app, length_app, filter_cons, (IH Hlog).
  destruct (granted_to ip s); cbn [andb]; [|by rewrite decide_False by naive_solver].
  destruct (decide (now - window < sr_at s)) as [Hin|Hout].
  - rewrite bool_decide_eq_true_2, decide_True by
      first [split_and!; [done|lia|lia]|eapply Forall_impl; [exact Hlog|cbn; lia]].
    by rewrite filter_cons, decide_True.
  - rewrite (decide_False (P := true = true ∧ _)) by naive_solver lia.
    case_bool_decide; [|done]. by rewrite filter_cons, decide_False.
Qed.

(** A log whose sections were given the reference verdicts, with instants out
    of order by at most [delay]. *)
Lemma skewed_bound delay l w log ip lo hi :
  0 ≤ l → 0 ≤ delay → hi - lo ≤ w - delay → verdicts_ok l w log →
  (∀ before s after, log = before ++ s :: after → Forall (λ s', sr_at s' ≤ sr_at s + delay) before) →
  Z.of_nat (granted_in log ip lo hi) ≤ l.
Proof.
  intros Hl Hd Hw. induction log as [|s log IH] using rev_ind; intros Hv Hskew; [done|].
  assert (Z.of_nat (granted_in log ip lo hi) ≤ l) as IH'.
  { apply IH; [intros b s' a ip' -> |intros b s' a ->];
      [apply (Hv b s' (a ++ [s]))|apply (Hskew b s' (a ++ [s]))]; by rewrite <-app_assoc. }
  rewrite granted_in_snoc. case_decide as Hg; [|lia]. destruct Hg as (Hg & Hlo & Hhi).
  unfold granted_to in Hg. destruct (sr_who s) as [ip'|] eqn:Hwho; [|done].
  apply andb_true_iff in Hg as [->%bool_decide_eq_true Hg].
  rewrite (Hv log s [] ip eq_refl Hwho) in Hg. unfold reference_verdict in Hg. zify_bool.
  pose proof (granted_in_unexpired w ip log lo hi (sr_at s - w)) as Hle.
  ospecialize* Hle; [|eapply Forall_impl; [by apply (Hskew log s [])|cbn]|]; lia.
Qed.

(** ** Schedules, to run the limiter *)

Inductive rl_move : Type :=
| Wait (d : Z)
| Reads (who : caller)
| Enters (i : nat).

Definition rl_play1 (delay : Z) (w : rl_world) (m : rl_move) : option rl_world :=
  match m with
  | Wait d =>
      if bool_decide (0 ≤ d)
      then Some (RlWorld (rw_table w) (rw_clock w + d) (rw_waiting w) (rw_log w)) else None
  | Reads who =>
      Some (RlWorld (rw_table w) (rw_clock w) (rw_waiting w ++ [(who, rw_clock w)]) (rw_log w))
  | Enters i =>
      '(who, now) ← rw_waiting w !! i;
      if bool_decide (rw_clock w ≤ now + delay) then Some (enter w who now (delete i (rw_waiting w)))
      else None
  end.

Fixpoint rl_play (delay : Z) (w : rl_world) (ms : list rl_move) : option rl_world :=
  match ms with
  | [] => Some w
  | m :: ms' => w' ← rl_play1 delay w m; rl_play delay w' ms'
  end.

Lemma rl_play_sound delay w ms w' : rl_play delay w ms = Some w' → rtc (rl_step delay) w w'.
Proof.
  revert w. induction ms as [|m ms IH]; intros w; cbn; [intros [= ->]; constructor|].
  intros (w1 & Hm & Hrest)%bind_Some. apply IH in Hrest. eapply rtc_l; [|exact Hrest].
  destruct m as [d|who|i]; cbn in Hm.
  - case_bool_decide; simplify_eq. apply rl_time. lia.
  - simplify_eq. apply rl_read.
  - apply bind_Some in Hm as ([who now] & Hi & Hm). case_bool_decide; simplify_eq.
    rewrite delete_take_drop. apply rl_enter; [|done]. by rewrite take_drop_middle.
Qed.

(** ** Properties *)


(** C25: If no call waits for the mutex longer than [delay] after it has read
    the clock, no address is let through more than [limit] times with instants
    in an interval as long as the window less [delay]; with no wait that is
    the window itself. *)
Theorem rate_limiter_bound delay l w t st ip lo hi :
  0 ≤ l → 0 ≤ delay → hi - lo ≤ w - delay → rl_reachable delay l w t st →
  Z.of_nat (granted_in (rw_log st) ip lo hi) ≤ l.
Proof.
  intros Hl Hd Hw Hr. apply (skewed_bound delay l w); [done|done|done| |].
  - by eapply ti_verdicts, reachable_table_inv.
  - intros before s after. by eapply ci_skew, reachable_clock_inv.
Qed.

(** Two requests let through at once; a third that reads its instant and is
    overtaken, for 60 units, by a fourth whose section expires the first two. *)
Definition demo_moves : list rl_move :=
  [Wait 50; Reads (Request "a"); Enters 0; Reads (Request "a"); Enters 0; Reads (Request "b");
   Wait 40; Reads (Request "a"); Wait 61; Reads (Request "a"); Enters 2; Reads Cleaner; Enters 2;
   Enters 1; Enters 0].

Definition demo_run : rl_world :=
  default (rl_start 2 100 0) (rl_play 110 (rl_start 2 100 0) demo_moves).

Lemma demo_run_reachable : rl_reachable 110 2 100 0 demo_run.
Proof.
  apply (rl_play_sound _ _ demo_moves). unfold demo_run.
  destruct (rl_play 110 _ demo_moves) eqn:H; [done|]. vm_compute in H. discriminate H.
Qed.

(** A longer wait costs the limit: three requests of one address are let through,
    out of two, with instants within one window. *)
Lemma late_reading_passes_the_limit :
  rl_reachable 110 2 100 0 demo_run ∧ granted_in (rw_log demo_run) "a" 49 149 = 3%nat.
Proof. split; [apply demo_run_reachable|by vm_compute]. Qed.

(** The same calls with nothing overtaken for more than a unit. *)
Definition prompt_moves : list rl_move :=
  [Wait 50; Reads (Request "a"); Enters 0; Reads (Request "a"); Wait 1; Reads (Request "a");
   Enters 1; Enters 0].

Definition prompt_run : rl_world :=
  default (rl_start 2 100 0) (rl_play 1 (rl_start 2 100 0) prompt_moves).


Lemma rate_limiter_bound_witness :
  sr_granted <$> rw_log prompt_run = [true; true; false]
  ∧ Z.of_nat (granted_in (rw_log prompt_run) "a" 49 148) ≤ 2.
Proof.
  split; [vm_compute; reflexivity|].
  apply (rate_limiter_bound 1 2 100 0); [lia|lia|lia|].
  apply (rl_play_sound _ _ prompt_moves). vm_compute. reflexivity.
Defined.
