(* ===== verification/Types.v ===== *)
(** * Data of the broker protocol ([types.go], [fleet_nats.go])

    The Go structs as records, field by field; Go's [int] is [Z].  Field names
    carry a prefix where several structs share one. *)

From S2P Require Import Prelude.

(** A live session as clients see it. *)
Record Peer : Type := mkPeer {
  peer_ID : string;
  peer_AgentName : string;
  peer_PID : Z;
  peer_Machine : string;
  peer_CWD : string;
  peer_GitRoot : string;
  peer_TTY : string;
  peer_Project : string;
  peer_Branch : string;
  peer_Summary : string;
  peer_RegisteredAt : string;
  peer_LastSeen : string;
}.

(** A message as clients see it. *)
Record Message : Type := mkMessage {
  msg_ID : Z;
  msg_ToAgent : string;
  msg_ToSession : string;
  msg_FromSession : string;
  msg_FromAgent : string;
  msg_Text : string;
  msg_SentAt : string;
  msg_DeliveredAt : string;
  msg_AckAt : string;
  msg_AckSession : string;
  msg_Attempts : Z;
}.

Record RegisterRequest : Type := mkRegisterRequest {
  reg_AgentName : string;
  reg_PID : Z;
  reg_Machine : string;
  reg_CWD : string;
  reg_GitRoot : string;
  reg_TTY : string;
  reg_Project : string;
  reg_Branch : string;
  reg_Summary : string;
}.

Record RegisterResponse : Type := mkRegisterResponse {
  regr_OK : bool;
  regr_ID : string;
  regr_Error : string;
  regr_HeldBySession : string;
  regr_HeldByMachine : string;
  regr_HeldByCWD : string;
  regr_HeldBySince : string;
}.

Record HeartbeatRequest : Type := mkHeartbeatRequest { hb_ID : string }.

Record HeartbeatResponse : Type := mkHeartbeatResponse {
  hbr_OK : bool;
  hbr_Reason : string;
}.

Definition HeartbeatReasonUnknownSession : string := "unknown_session".

Record SetSummaryRequest : Type := mkSetSummaryRequest {
  ss_ID : string;
  ss_Summary : string;
}.

Record ListPeersRequest : Type := mkListPeersRequest {
  lp_Scope : string;
  lp_Machine : string;
  lp_CWD : string;
  lp_GitRoot : string;
  lp_ExcludeID : string;
}.

Record SendMessageRequest : Type := mkSendMessageRequest {
  send_FromID : string;
  send_ToAgent : string;
  send_ToSession : string;
  send_Text : string;
}.

(** [DeliveryStatus]; [NoStatus] is the empty string an old broker sends. *)
Inductive DeliveryStatus : Type :=
| NoStatus
| DeliveryStatusBound
| DeliveryStatusQueuedOffline
| DeliveryStatusQueuedUnknown.

Definition delivery_text (s : DeliveryStatus) : string :=
  match s with
  | NoStatus => ""
  | DeliveryStatusBound => "bound"
  | DeliveryStatusQueuedOffline => "queued_offline"
  | DeliveryStatusQueuedUnknown => "queued_unknown"
  end.

Record SendMessageResponse : Type := mkSendMessageResponse {
  sendr_OK : bool;
  sendr_MessageID : Z;
  sendr_Queued : bool;
  sendr_DeliveryStatus : DeliveryStatus;
  sendr_Error : string;
}.

Record PollMessagesRequest : Type := mkPollMessagesRequest { poll_ID : string }.

Record PollMessagesResponse : Type := mkPollMessagesResponse { pollr_Messages : list Message }.

Record AckMessageRequest : Type := mkAckMessageRequest {
  ack_SessionID : string;
  ack_MessageID : Z;
}.

Record ClaimAgentRequest : Type := mkClaimAgentRequest {
  claim_SessionID : string;
  claim_AgentName : string;
}.

Record ClaimAgentResponse : Type := mkClaimAgentResponse {
  claimr_OK : bool;
  claimr_Error : string;
  claimr_HeldBySession : string;
  claimr_HeldByMachine : string;
  claimr_HeldByCWD : string;
  claimr_HeldBySince : string;
}.

Record UnregisterRequest : Type := mkUnregisterRequest { unreg_ID : string }.

Record HealthResponse : Type := mkHealthResponse {
  health_Status : string;
  health_Peers : Z;
  health_Machine : string;
}.

Record Event : Type := mkEvent {
  event_ID : Z;
  event_Type : string;
  event_PeerID : string;
  event_Machine : string;
  event_Data : string;
  event_CreatedAt : string;
}.

Record ChallengeRequest : Type := mkChallengeRequest { chal_Nonce : string }.

Record ChallengeResponse : Type := mkChallengeResponse {
  chalr_Nonce : string;
  chalr_Signature : string;
  chalr_PublicKey : string;
}.

(** The NATS copy of an event. *)
Record FleetEvent : Type := mkFleetEvent {
  fe_Type : string;
  fe_PeerID : string;
  fe_Machine : string;
  fe_Summary : string;
  fe_CWD : string;
  fe_Data : string;
  fe_Timestamp : string;
}.

#[export] Instance DeliveryStatus_eq_dec : EqDecision DeliveryStatus.
Proof. solve_decision. Defined.
#[export] Instance Message_eq_dec : EqDecision Message.
Proof. solve_decision. Defined.
#[export] Instance Peer_eq_dec : EqDecision Peer.
Proof. solve_decision. Defined.
