(* ===== verification/Prog.v ===== *)
(** * Handlers as programs of atomic steps

    A broker handler is a Go function that issues SQL statements, reads the
    clock and draws random bytes.  Each of these is atomic; between two of them
    the steps of other handlers may run.  A handler is therefore a tree of
    atomic steps on a shared state, which can be run alone ([run]) or
    interleaved with others ([step]). *)

From S2P Require Import Prelude.

(** ** Programs *)
Inductive prog (S A : Type) : Type :=
| Ret (a : A)
| Act {B : Type} (f : S → S * B) (k : B → prog S A).
Arguments Ret {S A} a.
Arguments Act {S A B} f k.

Fixpoint prog_bind {S A B} (p : prog S A) (k : A → prog S B) : prog S B :=
  match p with
  | Ret a => k a
  | Act f k' => Act f (λ b, prog_bind (k' b) k)
  end.

Declare Scope prog_scope.
Delimit Scope prog_scope with prog.
Notation "x ← y ; z" := (prog_bind y (λ x, z))
  (at level 20, y at level 100, z at level 200, only parsing) : prog_scope.
Notation "' x ← y ; z" := (prog_bind y (λ x, z))
  (at level 20, x pattern, y at level 100, z at level 200, only parsing) : prog_scope.
Open Scope prog_scope.

(** One atomic step. *)
Definition act {S B} (f : S → S * B) : prog S B := Act f Ret.

(** A [for] loop over a slice. *)
Fixpoint for_each {S A} (l : list A) (body : A → prog S unit) : prog S unit :=
  match l with
  | [] => Ret tt
  | x :: l' => _ ← body x; for_each l' body
  end.

(** ** Sequential runs *)
Fixpoint run {S A} (p : prog S A) (s : S) : S * A :=
  match p with
  | Ret a => (s, a)
  | Act f k => let '(s', b) := f s in run (k b) s'
  end.

Lemma run_bind {S A B} (p : prog S A) (k : A → prog S B) s :
  run (prog_bind p k) s = let '(s', a) := run p s in run (k a) s'.
Proof.
  revert s. induction p as [a|C f k' IH]; intros s; [done|]. simpl.
  destruct (f s) as [s' c]. apply IH.
Qed.

Lemma run_act {S B} (f : S → S * B) s : run (act f) s = f s.
Proof. unfold act. simpl. by destruct (f s). Qed.

Lemma run_ret {S A} (a : A) (s : S) : run (Ret a) s = (s, a).
Proof. done. Qed.

(** ** Steps *)

(** Every atomic step of a program satisfies [R], whatever the steps of other
    programs in between leave it to read. *)
Fixpoint all_acts {S A} (R : S → S → Prop) (p : prog S A) : Prop :=
  match p with
  | Ret _ => True
  | Act f k => (∀ s, R s (f s).1) ∧ ∀ b, all_acts R (k b)
  end.

Lemma all_acts_bind {S A B} (R : S → S → Prop) (p : prog S A) (k : A → prog S B) :
  all_acts R p → (∀ a, all_acts R (k a)) → all_acts R (prog_bind p k).
Proof.
  intros Hp Hk. induction p as [a|C f k' IH]; [apply Hk|].
  destruct Hp as [Hf Hp]. split; [done|]. intros b. by apply IH.
Qed.

Lemma all_acts_act {S B} (R : S → S → Prop) (f : S → S * B) :
  (∀ s, R s (f s).1) → all_acts R (act f).
Proof. by split. Qed.

Lemma all_acts_ret {S A} (R : S → S → Prop) (a : A) : all_acts R (Ret a : prog S A).
Proof. done. Qed.

Lemma all_acts_for_each {S A} (R : S → S → Prop) (l : list A) (body : A → prog S unit) :
  (∀ x, all_acts R (body x)) → all_acts R (for_each l body).
Proof.
  intros Hb. induction l as [|x l IH]; [done|].
  apply all_acts_bind; [apply Hb|done].
Qed.

Lemma all_acts_mono {S A} (R R' : S → S → Prop) (p : prog S A) :
  (∀ s s', R s s' → R' s s') → all_acts R p → all_acts R' p.
Proof. intros HR. induction p as [a|C f k IH]; [done|]. intros [Hf Hk]. split; auto. Qed.

(** What every step establishes from an invariant, a run does too. *)
Lemma run_all_acts {S A} (R : S → S → Prop) (p : prog S A) s `{!PreOrder R} :
  all_acts R p → R s (run p s).1.
Proof.
  revert s. induction p as [a|B f k IH]; intros s; [intros _; simpl; reflexivity|].
  intros [Hf Hk]. simpl. specialize (Hf s). destruct (f s) as [s' b].
  etrans; [exact Hf|]. by apply IH.
Qed.

(** ** Interleavings

    A pool of handlers in progress; a new request may start one, and any of
    them may take its next atomic step. *)
Section interleaving.
Context {S Req Resp : Type} (handler : Req → prog S Resp).

Inductive step : list (prog S Resp) * S → list (prog S Resp) * S → Prop :=
| step_start pool s req :
    step (pool, s) (pool ++ [handler req], s)
| step_act {B} pool1 pool2 s (f : S → S * B) k :
    step (pool1 ++ Act f k :: pool2, s) (pool1 ++ k (f s).2 :: pool2, (f s).1)
| step_done pool1 pool2 s a :
    step (pool1 ++ Ret a :: pool2, s) (pool1 ++ pool2, s).

Definition steps : relation (list (prog S Resp) * S) := rtc step.

(** From a pool whose every atomic step is in [R], the shared state only
    moves along [R]. *)
Lemma step_all_acts (R : S → S → Prop) `{!Reflexive R} c c' :
  (∀ req, all_acts R (handler req)) → step c c' →
  Forall (all_acts R) c.1 → R c.2 c'.2 ∧ Forall (all_acts R) c'.1.
Proof.
  intros Hh [pool s req|B pool1 pool2 s f k|pool1 pool2 s a] Hpool; simpl in *.
  - split; [reflexivity|]. apply Forall_app. split; [done|]. by repeat constructor.
  - apply Forall_app in Hpool as [H1 [[Hf Hk] H2]%Forall_cons]. split; [apply Hf|].
    apply Forall_app. split; [done|]. constructor; [apply Hk|done].
  - apply Forall_app in Hpool as [H1 [_ H2]%Forall_cons]. split; [reflexivity|].
    by apply Forall_app.
Qed.

Lemma steps_all_acts (R : S → S → Prop) `{!PreOrder R} c c' :
  (∀ req, all_acts R (handler req)) → steps c c' →
  Forall (all_acts R) c.1 → R c.2 c'.2 ∧ Forall (all_acts R) c'.1.
Proof.
  intros Hh Hsteps. induction Hsteps as [c|c1 c2 c3 Hstep _ IH]; intros Hpool.
  - split; [reflexivity|done].
  - destruct (step_all_acts R c1 c2 Hh Hstep Hpool) as [HR Hp].
    destruct (IH Hp) as [HR' Hp']. split; [by etrans|done].
Qed.

(** A handler alone in the pool can run to its end. *)
Lemma steps_run pool (p : prog S Resp) s :
  steps (pool ++ [p], s) (pool ++ [Ret (run p s).2], (run p s).1).
Proof.
  revert s. induction p as [a|B f k IH]; intros s; [apply rtc_refl|].
  simpl. eapply rtc_l; [apply (step_act pool [])|]. simpl.
  specialize (IH (f s).2 (f s).1). by destruct (f s) as [s' b].
Qed.
End interleaving.


(** A sequence of requests, each run to its end before the next. *)
Definition play {S Req Resp} (handler : Req → prog S Resp) (s : S) (reqs : list Req) : S :=
  foldl (λ s rq, (run (handler rq) s).1) s reqs.

Lemma steps_play {S Req Resp} (handler : Req → prog S Resp) pool (s : S) reqs :
  ∃ pool', steps handler (pool, s) (pool', play handler s reqs).
Proof.
  revert pool s. induction reqs as [|rq reqs IH]; intros pool s; [eexists; apply rtc_refl|].
  destruct (IH (pool ++ [Ret (run (handler rq) s).2]) (run (handler rq) s).1) as [pool' Hs].
  exists pool'. eapply rtc_l; [apply step_start|]. etrans; [apply steps_run|]. exact Hs.
Qed.

(** ** Schedules

    A list of thread numbers, each taking one atomic step in turn. *)
Definition sched_step {S Resp} (i : nat) (c : list (prog S Resp) * S) : list (prog S Resp) * S :=
  match c.1 !! i with
  | Some (Act f k) => (<[i := k (f c.2).2]> c.1, (f c.2).1)
  | _ => c
  end.

Definition sched {S Resp} (l : list nat) (c : list (prog S Resp) * S) : list (prog S Resp) * S :=
  foldl (λ c i, sched_step i c) c l.

Lemma sched_steps {S Req Resp} (handler : Req → prog S Resp) l c : steps handler c (sched l c).
Proof.
  revert c. induction l as [|i l IH]; intros c; [apply rtc_refl|]. simpl. etrans; [|apply IH].
  unfold sched_step. destruct c as [pool s]. simpl.
  destruct (pool !! i) as [[a|B f k]|] eqn:Ei; [apply rtc_refl| |apply rtc_refl].
  apply rtc_once. apply lookup_lt_Some in Ei as Hlt.
  rewrite (insert_take_drop pool) by done.
  rewrite <-(take_drop_middle pool i (Act f k) Ei) at 1. constructor.
Qed.

Lemma steps_start_all {S Req Resp} (handler : Req → prog S Resp) pool s reqs :
  steps handler (pool, s) (pool ++ (handler <$> reqs), s).
Proof.
  revert pool. induction reqs as [|rq reqs IH]; intros pool; [rewrite app_nil_r; apply rtc_refl|].
  eapply rtc_l; [apply step_start|]. specialize (IH (pool ++ [handler rq])).
  by rewrite <-app_assoc in IH.
Qed.

(** A schedule of concurrent requests is a run of the pool. *)
Lemma sched_reaches {S Req Resp} (handler : Req → prog S Resp) l s reqs pool :
  (sched l (handler <$> reqs, s)).1 = pool →
  steps handler ([], s) (pool, (sched l (handler <$> reqs, s)).2).
Proof.
  intros <-. etrans; [apply (steps_start_all _ [] _ reqs)|].
  etrans; [apply (sched_steps _ l)|]. simpl. destruct (sched _ _). apply rtc_refl.
Qed.

Arguments all_acts : simpl never.
