(* ===== verification/Store.v ===== *)
(** * The broker's tables and SQL statements ([broker_core.go])

    The SQLite database as a record of tables, and each SQL statement the
    broker issues as one function.  [peers] and [messages] are lists in rowid
    order; tables that are only read by key are maps.  A statement that
    violates a constraint leaves the database alone and yields [None]; the
    number returned by the others is the count of affected rows (or the new
    rowid of an [INSERT] into an autoincrement table).  TEXT columns compare
    byte-wise. *)

From S2P Require Import Prelude GoTime Types.

(** ** Rows *)

Record PeerRow : Type := mkPeerRow {
  pr_id : string;
  pr_agent_name : string;
  pr_pid : Z;
  pr_machine : string;
  pr_cwd : string;
  pr_git_root : option string;
  pr_tty : option string;
  pr_project : string;
  pr_branch : string;
  pr_summary : string;
  pr_started_at : string;
  pr_last_seen : string;
}.

Record MsgRow : Type := mkMsgRow {
  m_id : Z;
  m_to_agent : string;
  m_to_session : string;
  m_from_session : string;
  m_from_agent : string;
  m_text : string;
  m_sent_at : string;
  m_delivered_at : option string;
  m_ack_at : option string;
  m_ack_session : option string;
  m_attempts : Z;
}.

Record EventRow : Type := mkEventRow {
  ev_id : Z;
  ev_type : string;
  ev_peer_id : option string;
  ev_machine : option string;
  ev_data : string;
  ev_created_at : string;
}.

(** [msg_seq] and [event_seq] are the AUTOINCREMENT counters. *)
Record DB : Type := mkDB {
  peers : list PeerRow;
  messages : list MsgRow;
  msg_seq : Z;
  events : list EventRow;
  event_seq : Z;
  kv : gmap string string;
  agent_names_seen : gmap string string;
}.

Definition empty_db : DB := mkDB [] [] 0 [] 0 ∅ ∅.

Definition set_peers (db : DB) (l : list PeerRow) : DB :=
  mkDB l (messages db) (msg_seq db) (events db) (event_seq db) (kv db)
    (agent_names_seen db).
Definition set_messages (db : DB) (l : list MsgRow) : DB :=
  mkDB (peers db) l (msg_seq db) (events db) (event_seq db) (kv db)
    (agent_names_seen db).
Definition set_events (db : DB) (l : list EventRow) : DB :=
  mkDB (peers db) (messages db) (msg_seq db) l (event_seq db) (kv db)
    (agent_names_seen db).
Definition set_kv (db : DB) (m : gmap string string) : DB :=
  mkDB (peers db) (messages db) (msg_seq db) (events db) (event_seq db) m
    (agent_names_seen db).
Definition set_names (db : DB) (m : gmap string string) : DB :=
  mkDB (peers db) (messages db) (msg_seq db) (events db) (event_seq db) (kv db)
    m.
(** [sql.NullString.String]. *)
Definition null_string (o : option string) : string := default "" o.

(** A statement: the new database and a count, or a constraint violation. *)
Definition stmt : Type := DB → option (DB * Z).

(** ** [UPDATE] and [DELETE] on a list table *)

Definition count {A} (P : A → bool) (l : list A) : Z := Z.of_nat (length (List.filter P l)).
Definition update_where {A} (P : A → bool) (f : A → A) (l : list A) : list A :=
  (λ x, if P x then f x else x) <$> l.
Definition delete_where {A} (P : A → bool) (l : list A) : list A :=
  List.filter (λ x, negb (P x)) l.

(** ** peers *)

(** [INSERT INTO peers]: the id is the primary key and a non-empty agent name
    is unique ([idx_peers_agent_name]). *)
Definition insert_peer (r : PeerRow) : stmt := λ db,
  if existsb (λ p, String.eqb (pr_id p) (pr_id r)) (peers db)
     || (negb (String.eqb (pr_agent_name r) "")
         && existsb (λ p, String.eqb (pr_agent_name p) (pr_agent_name r)) (peers db))
  then None
  else Some (set_peers db (peers db ++ [r]), 1).

Definition set_last_seen (now : string) (p : PeerRow) : PeerRow :=
  mkPeerRow (pr_id p) (pr_agent_name p) (pr_pid p) (pr_machine p) (pr_cwd p) (pr_git_root p)
    (pr_tty p) (pr_project p) (pr_branch p) (pr_summary p) (pr_started_at p) now.
Definition set_row_summary (s : string) (p : PeerRow) : PeerRow :=
  mkPeerRow (pr_id p) (pr_agent_name p) (pr_pid p) (pr_machine p) (pr_cwd p) (pr_git_root p)
    (pr_tty p) (pr_project p) (pr_branch p) s (pr_started_at p) (pr_last_seen p).
Definition set_row_agent (a : string) (p : PeerRow) : PeerRow :=
  mkPeerRow (pr_id p) a (pr_pid p) (pr_machine p) (pr_cwd p) (pr_git_root p)
    (pr_tty p) (pr_project p) (pr_branch p) (pr_summary p) (pr_started_at p) (pr_last_seen p).

Definition has_id (id : string) (p : PeerRow) : bool := String.eqb (pr_id p) id.
Definition has_agent (a : string) (p : PeerRow) : bool := String.eqb (pr_agent_name p) a.

(** [UPDATE peers SET last_seen = ? WHERE id = ?]. *)
Definition update_last_seen (now id : string) : stmt := λ db,
  Some (set_peers db (update_where (has_id id) (set_last_seen now) (peers db)),
        count (has_id id) (peers db)).

(** [UPDATE peers SET summary = ? WHERE id = ?]. *)
Definition update_summary (s id : string) : stmt := λ db,
  Some (set_peers db (update_where (has_id id) (set_row_summary s) (peers db)),
        count (has_id id) (peers db)).

(** [UPDATE peers SET agent_name = ? WHERE id = ?], refused by the unique
    index when another row holds the name. *)
Definition update_agent_name (a id : string) : stmt := λ db,
  if existsb (has_id id) (peers db) && negb (String.eqb a "")
     && existsb (λ p, has_agent a p && negb (has_id id p)) (peers db)
  then None
  else Some (set_peers db (update_where (has_id id) (set_row_agent a) (peers db)),
             count (has_id id) (peers db)).

(** [DELETE FROM peers WHERE id = ?]. *)
Definition delete_peer (id : string) : stmt := λ db,
  Some (set_peers db (delete_where (has_id id) (peers db)), count (has_id id) (peers db)).

Definition is_stale (cutoff : string) (p : PeerRow) : bool := string_ltb (pr_last_seen p) cutoff.

(** [DELETE FROM peers WHERE last_seen < ?]. *)
Definition delete_stale (cutoff : string) : stmt := λ db,
  Some (set_peers db (delete_where (is_stale cutoff) (peers db)),
        count (is_stale cutoff) (peers db)).

(** [SELECT id FROM peers WHERE last_seen < ?]. *)
Definition select_stale (cutoff : string) (db : DB) : list string :=
  pr_id <$> List.filter (is_stale cutoff) (peers db).

(** [SELECT ... FROM peers WHERE agent_name = ? LIMIT 1]. *)
Definition select_holder (a : string) (db : DB) : option PeerRow := find (has_agent a) (peers db).

(** [SELECT agent_name FROM peers WHERE id = ?]. *)
Definition select_agent_name (id : string) (db : DB) : option string :=
  pr_agent_name <$> find (has_id id) (peers db).

(** [SELECT EXISTS(SELECT 1 FROM peers WHERE id = ?)]. *)
Definition session_exists (id : string) (db : DB) : bool := existsb (has_id id) (peers db).

(** ** messages *)

Definition set_session (s : string) (m : MsgRow) : MsgRow :=
  mkMsgRow (m_id m) (m_to_agent m) s (m_from_session m) (m_from_agent m) (m_text m)
    (m_sent_at m) (m_delivered_at m) (m_ack_at m) (m_ack_session m) (m_attempts m).
Definition set_delivered (now s : string) (m : MsgRow) : MsgRow :=
  mkMsgRow (m_id m) (m_to_agent m) s (m_from_session m) (m_from_agent m) (m_text m)
    (m_sent_at m) (Some now) (m_ack_at m) (m_ack_session m) (m_attempts m + 1).
Definition set_acked (now s : string) (m : MsgRow) : MsgRow :=
  mkMsgRow (m_id m) (m_to_agent m) (m_to_session m) (m_from_session m) (m_from_agent m)
    (m_text m) (m_sent_at m) (m_delivered_at m) (Some now) (Some s) (m_attempts m).
Definition set_requeued (m : MsgRow) : MsgRow :=
  mkMsgRow (m_id m) (m_to_agent m) "" (m_from_session m) (m_from_agent m) (m_text m)
    (m_sent_at m) None (m_ack_at m) (m_ack_session m) (m_attempts m).

Definition is_null {A} (o : option A) : bool := match o with None => true | Some _ => false end.
Definition to_agent_is (a : string) (m : MsgRow) : bool := String.eqb (m_to_agent m) a.
Definition to_session_is (s : string) (m : MsgRow) : bool := String.eqb (m_to_session m) s.

(** [INSERT INTO messages ...] with [attempts = 0]; yields the new rowid.  The
    counter is refused at the largest rowid. *)
Definition insert_message (to_agent to_session from_session from_agent text now : string) : stmt :=
  λ db,
  if max_int64 <=? msg_seq db then None
  else
    let id := msg_seq db + 1 in
    let m := mkMsgRow id to_agent to_session from_session from_agent text now None None None 0 in
    Some (mkDB (peers db) (messages db ++ [m]) id (events db) (event_seq db) (kv db)
            (agent_names_seen db), id).

(** [UPDATE messages SET to_session = ? WHERE to_agent = ? AND to_session = ''
    AND delivered_at IS NULL]. *)
Definition queued_for (a : string) (m : MsgRow) : bool :=
  to_agent_is a m && to_session_is "" m && is_null (m_delivered_at m).
Definition drain_queue (id a : string) : stmt := λ db,
  Some (set_messages db (update_where (queued_for a) (set_session id) (messages db)),
        count (queued_for a) (messages db)).

(** [delivered_at IS NULL AND (to_session = ? OR (to_agent != '' AND to_agent = ?))]. *)
Definition is_pending (id a : string) (m : MsgRow) : bool :=
  is_null (m_delivered_at m)
  && (to_session_is id m || (negb (to_agent_is "" m) && to_agent_is a m)).

(** [ORDER BY sent_at ASC], ties in rowid order. *)
Fixpoint insert_by_sent (m : MsgRow) (l : list MsgRow) : list MsgRow :=
  match l with
  | [] => [m]
  | m' :: l' => if string_leb (m_sent_at m) (m_sent_at m') then m :: l
                else m' :: insert_by_sent m l'
  end.
Definition order_by_sent (l : list MsgRow) : list MsgRow := foldr insert_by_sent [] l.

Definition select_pending (id a : string) (db : DB) : list MsgRow :=
  order_by_sent (List.filter (is_pending id a) (messages db)).

Definition has_msg_id (id : Z) (m : MsgRow) : bool := m_id m =? id.

(** [UPDATE messages SET delivered_at = ?, to_session = ?, attempts = attempts + 1
    WHERE id = ?]. *)
Definition mark_delivered (now session : string) (id : Z) : stmt := λ db,
  Some (set_messages db (update_where (has_msg_id id) (set_delivered now session) (messages db)),
        count (has_msg_id id) (messages db)).

(** [UPDATE messages SET ack_at = ?, ack_session = ? WHERE id = ? AND to_session = ?]. *)
Definition ackable (id : Z) (session : string) (m : MsgRow) : bool :=
  has_msg_id id m && to_session_is session m.
Definition mark_acked (now session : string) (id : Z) : stmt := λ db,
  Some (set_messages db (update_where (ackable id session) (set_acked now session) (messages db)),
        count (ackable id session) (messages db)).

(** [DELETE FROM messages WHERE to_session = ? AND to_agent = '' AND ack_at IS NULL]. *)
Definition droppable (session : string) (m : MsgRow) : bool :=
  to_session_is session m && to_agent_is "" m && is_null (m_ack_at m).
Definition drop_direct (session : string) : stmt := λ db,
  Some (set_messages db (delete_where (droppable session) (messages db)),
        count (droppable session) (messages db)).

(** [UPDATE messages SET to_session = '', delivered_at = NULL
    WHERE to_session = ? AND to_agent != '' AND ack_at IS NULL]. *)
Definition requeueable (session : string) (m : MsgRow) : bool :=
  to_session_is session m && negb (to_agent_is "" m) && is_null (m_ack_at m).
Definition requeue (session : string) : stmt := λ db,
  Some (set_messages db (update_where (requeueable session) set_requeued (messages db)),
        count (requeueable session) (messages db)).

(** [DELETE FROM messages WHERE ack_at IS NOT NULL AND ack_at < ?]. *)
Definition acked_before (cutoff : string) (m : MsgRow) : bool :=
  match m_ack_at m with Some t => string_ltb t cutoff | None => false end.
Definition delete_acked (cutoff : string) : stmt := λ db,
  Some (set_messages db (delete_where (acked_before cutoff) (messages db)),
        count (acked_before cutoff) (messages db)).

(** [DELETE FROM messages WHERE ack_at IS NULL AND sent_at < ?]. *)
Definition unacked_before (cutoff : string) (m : MsgRow) : bool :=
  is_null (m_ack_at m) && string_ltb (m_sent_at m) cutoff.
Definition delete_unacked (cutoff : string) : stmt := λ db,
  Some (set_messages db (delete_where (unacked_before cutoff) (messages db)),
        count (unacked_before cutoff) (messages db)).

(** ** events, kv, agent_names_seen *)

Definition insert_event (ty peer machine data now : string) : stmt := λ db,
  if max_int64 <=? event_seq db then None
  else
    let id := event_seq db + 1 in
    Some (mkDB (peers db) (messages db) (msg_seq db)
            (events db ++ [mkEventRow id ty (Some peer) (Some machine) data now]) id
            (kv db) (agent_names_seen db), id).

(** [SELECT ... FROM events ORDER BY id DESC LIMIT ?]: rows are in id order; a
    negative limit is no limit. *)
Definition select_events (limit : Z) (db : DB) : list EventRow :=
  let l := reverse (events db) in
  if limit <? 0 then l else take (Z.to_nat limit) l.

(** [DELETE FROM events WHERE created_at < ?]. *)
Definition event_before (cutoff : string) (e : EventRow) : bool := string_ltb (ev_created_at e) cutoff.
Definition delete_events (cutoff : string) : stmt := λ db,
  Some (set_events db (delete_where (event_before cutoff) (events db)),
        count (event_before cutoff) (events db)).

(** [INSERT OR IGNORE INTO agent_names_seen]. *)
Definition insert_name_seen (name first_seen : string) : stmt := λ db,
  match agent_names_seen db !! name with
  | Some _ => Some (db, 0)
  | None => Some (set_names db (<[name := first_seen]> (agent_names_seen db)), 1)
  end.

Definition name_seen (name : string) (db : DB) : bool :=
  match agent_names_seen db !! name with Some _ => true | None => false end.

(** [INSERT OR REPLACE INTO kv]. *)
Definition replace_kv (key value : string) : stmt := λ db,
  Some (set_kv db (<[key := value]> (kv db)), 1).
