(* ===== verification/World.v ===== *)
(** * The broker's world: clock, randomness, database faults, event bus

    What a handler step can observe or change besides the tables.  The clock,
    the random source and the faults of the driver are oracles indexed by how
    often they were consulted, so one development covers every behaviour of the
    machine: theorems quantify over the environment. *)

From S2P Require Import Prelude GoStrings GoTime Types Store Prog.

(** ** Environment *)
Class Env : Type := {
  (** Instant returned by the [n]-th reading of the clock. *)
  env_clock : nat → Z;
  (** Four bytes returned by the [n]-th [rand.Read] of [generatePeerID]. *)
  env_rand : nat → list N;
  (** Error text of the [n]-th statement when the driver fails it. *)
  env_fault : nat → option string;
  (** Driver text of a constraint violation. *)
  env_constraint : string;
  (** Whether [newNATSPublisher] connected. *)
  env_nats : bool;
  (** [strconv.Quote], behind the [%q] verb. *)
  env_quote : string → string;
  (** [cfg.StaleTimeout]. *)
  env_stale_timeout : Z;
}.

(** ** State *)
Record World : Type := mkWorld {
  w_db : DB;
  w_fleetMemory : string;
  w_published : list (string * FleetEvent);
  w_ticks : nat;
  w_draws : nat;
  w_stmts : nat;
}.

Definition set_db (w : World) (db : DB) : World :=
  mkWorld db (w_fleetMemory w) (w_published w) (w_ticks w) (w_draws w) (w_stmts w).
Definition next_stmt (w : World) : World :=
  mkWorld (w_db w) (w_fleetMemory w) (w_published w) (w_ticks w) (w_draws w) (S (w_stmts w)).
Definition next_tick (w : World) : World :=
  mkWorld (w_db w) (w_fleetMemory w) (w_published w) (S (w_ticks w)) (w_draws w) (w_stmts w).
Definition next_draw (w : World) : World :=
  mkWorld (w_db w) (w_fleetMemory w) (w_published w) (w_ticks w) (S (w_draws w)) (w_stmts w).
Definition set_memory (w : World) (c : string) : World :=
  mkWorld (w_db w) c (w_published w) (w_ticks w) (w_draws w) (w_stmts w).
Definition add_published (w : World) (e : string * FleetEvent) : World :=
  mkWorld (w_db w) (w_fleetMemory w) (w_published w ++ [e]) (w_ticks w) (w_draws w) (w_stmts w).

Definition new_world : World := mkWorld empty_db "" [] 0 0 0.

Abbreviation handler := (prog World).

(** ** Primitive steps *)
Section primitives.
Context {E : Env}.

(** [time.Now()]. *)
Definition now_time : handler Z := act (λ w, (next_tick w, env_clock (w_ticks w))).

(** [rand.Read] of four bytes. *)
Definition rand_bytes : handler (list N) := act (λ w, (next_draw w, env_rand (w_draws w))).

(** [db.Exec]: fails without effect, or applies the statement. *)
Definition exec_step (f : stmt) (w : World) : World * result string Z :=
  match env_fault (w_stmts w) with
  | Some e => (next_stmt w, Err e)
  | None =>
      match f (w_db w) with
      | None => (next_stmt w, Err env_constraint)
      | Some (db, n) => (set_db (next_stmt w) db, Ok n)
      end
  end.
Definition exec (f : stmt) : handler (result string Z) := act (exec_step f).

(** [db.Query]. *)
Definition query_step {A} (f : DB → A) (w : World) : World * result string A :=
  (next_stmt w, match env_fault (w_stmts w) with Some e => Err e | None => Ok (f (w_db w)) end).
Definition query {A} (f : DB → A) : handler (result string A) := act (query_step f).

(** [db.QueryRow(...).Scan(...)] whose error is only tested against nil: no
    row and a failed statement look the same. *)
Definition query_row {A} (f : DB → option A) : handler (option A) :=
  r ← query f; Ret (match r with Ok o => o | Err _ => None end).

(** A [SELECT EXISTS] scanned into a [bool] that starts out false. *)
Definition query_exists (f : DB → bool) : handler bool :=
  r ← query f; Ret (match r with Ok b => b | Err _ => false end).
End primitives.
