(* ===== verification/Broker.v ===== *)
(** * The broker's operations ([broker_core.go])

    Each Go method of [Broker] as a program of atomic steps over the world, in
    the order the code performs them: statements whose error the code drops are
    executed and forgotten, tests of the code are tests here. *)

From S2P Require Import Prelude GoStrings GoTime Types Store Prog World.

Definition hex_digit (n : N) : ascii :=
  if (n <? 10)%N then ascii_of_N (48 + n) else ascii_of_N (87 + n).

(** [hex.EncodeToString]. *)
Definition hex_encode (l : list N) : string :=
  foldr (λ b s, String (hex_digit (b / 16)) (String (hex_digit (b mod 16)) s)) "" l.

(** [if len(p) > 500 { p = p[:500] + "..." }]. *)
Definition msg_preview (text : string) : string :=
  if (500 <? String.length text)%nat then str_take 500 text +:+ "..." else text.

Definition row_peer (r : PeerRow) : Peer :=
  mkPeer (pr_id r) (pr_agent_name r) (pr_pid r) (pr_machine r) (pr_cwd r)
    (null_string (pr_git_root r)) (null_string (pr_tty r)) (pr_project r) (pr_branch r)
    (pr_summary r) (pr_started_at r) (pr_last_seen r).

(** The columns a poll scans; the others keep their zero value. *)
Definition row_message (m : MsgRow) : Message :=
  mkMessage (m_id m) (m_to_agent m) (m_to_session m) (m_from_session m) (m_from_agent m)
    (m_text m) (m_sent_at m) "" "" "" (m_attempts m).

Definition row_event (e : EventRow) : Event :=
  mkEvent (ev_id e) (ev_type e) (null_string (ev_peer_id e)) (null_string (ev_machine e))
    (ev_data e) (ev_created_at e).

(** The query of [listPeers] for a scope. *)
Definition scope_filter (req : ListPeersRequest) (r : PeerRow) : bool :=
  if String.eqb (lp_Scope req) "directory" then String.eqb (pr_cwd r) (lp_CWD req)
  else if String.eqb (lp_Scope req) "repo" then
    if negb (String.eqb (lp_GitRoot req) "")
    then match pr_git_root r with Some g => String.eqb g (lp_GitRoot req) | None => false end
    else String.eqb (pr_cwd r) (lp_CWD req)
  else if String.eqb (lp_Scope req) "machine" then
    if negb (String.eqb (lp_Machine req) "") then String.eqb (pr_machine r) (lp_Machine req)
    else true
  else true.

Definition select_peers (req : ListPeersRequest) (db : DB) : list PeerRow :=
  List.filter (scope_filter req) (peers db).

Section broker.
Context {E : Env}.

Definition nowISO : handler string :=
  t ← now_time; Ret (formatRFC3339Nano t).

Definition generatePeerID : handler string :=
  b ← rand_bytes; Ret (hex_encode b).

Definition emitEvent (eventType peerID machine data : string) : handler unit :=
  now ← nowISO;
  _ ← exec (insert_event eventType peerID machine data now);
  Ret tt.

(** [NATSPublisher.publish]: nothing on a nil publisher, otherwise the event
    is stamped and sent; a failed send is only logged. *)
Definition publish (subject : string) (e : FleetEvent) : handler unit :=
  if env_nats then
    now ← nowISO;
    act (λ w, (add_published w (subject,
      mkFleetEvent (fe_Type e) (fe_PeerID e) (fe_Machine e) (fe_Summary e) (fe_CWD e)
        (fe_Data e) now), tt))
  else Ret tt.

Definition recentEvents (limit : Z) : handler (option (list Event)) :=
  r ← query (select_events limit);
  Ret (match r with Err _ => None | Ok rows => Some (row_event <$> rows) end).

(** [now.Add(-d)] formatted without fraction, the cut-off of a sweep. *)
Definition cutoff_text (t d : Z) : string := formatRFC3339 (t - d).

Definition stale_seconds : Z := if env_stale_timeout <=? 0 then 20 else env_stale_timeout.

Definition cleanStalePeers : handler unit :=
  t ← now_time;
  let cutoff := formatRFC3339 (t + wrap64 (- stale_seconds * Second)) in
  r ← query (select_stale cutoff);
  let deadIDs := match r with Ok l => l | Err _ => [] end in
  _ ← exec (delete_stale cutoff);
  _ ← for_each deadIDs (λ id,
    _ ← exec (drop_direct id);
    _ ← exec (requeue id);
    Ret tt);
  t' ← now_time;
  _ ← exec (delete_events (cutoff_text t' Hour));
  Ret tt.

(** One turn of the sweep goroutine of [newBroker]; every thirtieth also
    checkpoints the log and drops old messages. *)
Definition sweep (tick : Z) : handler unit :=
  _ ← cleanStalePeers;
  if (tick + 1) mod 30 =? 0 then
    _ ← exec (λ db, Some (db, 0));
    t1 ← now_time;
    _ ← exec (delete_acked (cutoff_text t1 Hour));
    t2 ← now_time;
    _ ← exec (delete_unacked (cutoff_text t2 (24 * Hour)));
    Ret tt
  else Ret tt.

Definition held_error (name holder : string) : string :=
  "agent " +:+ env_quote name +:+ " already held by session " +:+ holder.

Definition register (req : RegisterRequest) : handler RegisterResponse :=
  now ← nowISO;
  held ← (if negb (String.eqb (reg_AgentName req) "")
          then query_row (select_holder (reg_AgentName req)) else Ret None);
  match held with
  | Some h =>
      Ret (mkRegisterResponse false "" (held_error (reg_AgentName req) (pr_id h)) (pr_id h)
              (pr_machine h) (pr_cwd h) (pr_started_at h))
  | None =>
      id ← generatePeerID;
      _ ← exec (insert_peer (mkPeerRow id (reg_AgentName req) (reg_PID req) (reg_Machine req)
            (reg_CWD req) (Some (reg_GitRoot req)) (Some (reg_TTY req)) (reg_Project req)
            (reg_Branch req) (reg_Summary req) now now));
      _ ← (if negb (String.eqb (reg_AgentName req) "") then
             _ ← exec (drain_queue id (reg_AgentName req));
             _ ← exec (insert_name_seen (reg_AgentName req) now);
             Ret tt
           else Ret tt);
      _ ← emitEvent "peer_joined" id (reg_Machine req) (reg_Summary req);
      _ ← publish "fleet.peer.joined"
            (mkFleetEvent "peer_joined" id (reg_Machine req) (reg_Summary req) (reg_CWD req) "" "");
      Ret (mkRegisterResponse true id "" "" "" "" "")
  end.

Definition heartbeat (req : HeartbeatRequest) : handler HeartbeatResponse :=
  now ← nowISO;
  r ← exec (update_last_seen now (hb_ID req));
  Ret (match r with
        | Err _ => mkHeartbeatResponse false "db_error"
        | Ok n => if n =? 0 then mkHeartbeatResponse false HeartbeatReasonUnknownSession
                  else mkHeartbeatResponse true ""
        end).

Definition setSummary (req : SetSummaryRequest) : handler unit :=
  _ ← exec (update_summary (ss_Summary req) (ss_ID req));
  _ ← emitEvent "summary_changed" (ss_ID req) "" (ss_Summary req);
  publish "fleet.summary"
    (mkFleetEvent "summary_changed" (ss_ID req) "" (ss_Summary req) "" "" "").

Definition listPeers (req : ListPeersRequest) : handler (list Peer) :=
  r ← query (select_peers req);
  Ret (match r with
        | Err _ => []
        | Ok rows =>
            List.filter (λ p, negb (negb (String.eqb (lp_ExcludeID req) "")
                                    && String.eqb (peer_ID p) (lp_ExcludeID req)))
              (row_peer <$> rows)
        end).

Definition send_error (e : string) : SendMessageResponse :=
  mkSendMessageResponse false 0 false NoStatus e.

(** The route of a message to an agent: the session bound, if any, and the
    verdict. *)
Definition route_agent (a : string) : handler (string * bool * DeliveryStatus) :=
  h ← query_row (select_holder a);
  match h with
  | Some r =>
      if negb (String.eqb (pr_id r) "") then Ret (pr_id r, false, DeliveryStatusBound)
      else
        seen ← query_exists (name_seen a);
        Ret ("", true, if seen then DeliveryStatusQueuedOffline else DeliveryStatusQueuedUnknown)
  | None =>
      seen ← query_exists (name_seen a);
      Ret ("", true, if seen then DeliveryStatusQueuedOffline else DeliveryStatusQueuedUnknown)
  end.

(** The tail of [sendMessage], once the route is known. *)
Definition store_message (req : SendMessageRequest) (now fromAgent toAgent toSession : string)
    (queued : bool) (status : DeliveryStatus) : handler SendMessageResponse :=
  r ← exec (insert_message toAgent toSession (send_FromID req) fromAgent (send_Text req) now);
  match r with
  | Err e => Ret (send_error e)
  | Ok msgID =>
      let target := if String.eqb toAgent "" then toSession else toAgent in
      _ ← emitEvent "message_sent" (send_FromID req) ""
            ("to=" +:+ target +:+ " text=" +:+ msg_preview (send_Text req));
      _ ← publish "fleet.message"
            (mkFleetEvent "message_sent" (send_FromID req) "" "" "" target "");
      Ret (mkSendMessageResponse true msgID queued status "")
  end.

Definition sendMessage (req : SendMessageRequest) : handler SendMessageResponse :=
  if Bool.eqb (String.eqb (send_ToAgent req) "") (String.eqb (send_ToSession req) "")
  then Ret (send_error "exactly one of to_agent or to_session must be set")
  else
    now ← nowISO;
    fromAgent ← query_row (select_agent_name (send_FromID req));
    if negb (String.eqb (send_ToSession req) "") then
      ex ← query_exists (session_exists (send_ToSession req));
      if negb ex then
        Ret (send_error ("session " +:+ send_ToSession req +:+ " not found"))
      else store_message req now (null_string fromAgent) "" (send_ToSession req) false
             DeliveryStatusBound
    else
      '(toSession, queued, status) ← route_agent (send_ToAgent req);
      store_message req now (null_string fromAgent) (send_ToAgent req) toSession queued status.

Definition pollMessages (req : PollMessagesRequest) : handler PollMessagesResponse :=
  agentName ← query_row (select_agent_name (poll_ID req));
  r ← query (select_pending (poll_ID req) (null_string agentName));
  match r with
  | Err _ => Ret (mkPollMessagesResponse [])
  | Ok rows =>
      let msgs := row_message <$> rows in
      now ← nowISO;
      _ ← for_each msgs (λ m,
        _ ← exec (mark_delivered now (poll_ID req) (msg_ID m)); Ret tt);
      Ret (mkPollMessagesResponse msgs)
  end.

Definition peekMessages (req : PollMessagesRequest) : handler PollMessagesResponse :=
  agentName ← query_row (select_agent_name (poll_ID req));
  r ← query (select_pending (poll_ID req) (null_string agentName));
  Ret (mkPollMessagesResponse (match r with Err _ => [] | Ok rows => row_message <$> rows end)).

Definition claim_error (e : string) : ClaimAgentResponse :=
  mkClaimAgentResponse false e "" "" "" "".

Definition claimAgent (req : ClaimAgentRequest) : handler ClaimAgentResponse :=
  if String.eqb (claim_AgentName req) "" then Ret (claim_error "agent_name is required")
  else
    currentName ← query_row (select_agent_name (claim_SessionID req));
    match currentName with
    | None => Ret (claim_error ("session " +:+ claim_SessionID req +:+ " not found"))
    | Some n =>
        if negb (String.eqb n "") then
          Ret (claim_error ("session " +:+ claim_SessionID req +:+ " already has agent name "
                             +:+ env_quote n +:+ " -- cannot re-claim"))
        else
          held ← query_row (select_holder (claim_AgentName req));
          match held with
          | Some h =>
              Ret (mkClaimAgentResponse false (held_error (claim_AgentName req) (pr_id h))
                      (pr_id h) (pr_machine h) (pr_cwd h) (pr_started_at h))
          | None =>
              _ ← exec (update_agent_name (claim_AgentName req) (claim_SessionID req));
              _ ← exec (drain_queue (claim_SessionID req) (claim_AgentName req));
              now ← nowISO;
              _ ← exec (insert_name_seen (claim_AgentName req) now);
              _ ← emitEvent "agent_claimed" (claim_SessionID req) "" (claim_AgentName req);
              _ ← publish "fleet.agent.claimed"
                    (mkFleetEvent "agent_claimed" (claim_SessionID req) "" "" ""
                       (claim_AgentName req) "");
              Ret (mkClaimAgentResponse true "" "" "" "" "")
          end
    end.

Definition ackMessage (req : AckMessageRequest) : handler unit :=
  now ← nowISO;
  _ ← exec (mark_acked now (ack_SessionID req) (ack_MessageID req));
  Ret tt.

Definition unregister (req : UnregisterRequest) : handler unit :=
  _ ← emitEvent "peer_left" (unreg_ID req) "" "";
  _ ← publish "fleet.peer.left" (mkFleetEvent "peer_left" (unreg_ID req) "" "" "" "" "");
  _ ← exec (delete_peer (unreg_ID req));
  _ ← exec (drop_direct (unreg_ID req));
  _ ← exec (requeue (unreg_ID req));
  Ret tt.

(** The map write and the [INSERT] happen under the broker's mutex; memory
    readers take it too, so they are one step for them. *)
Definition setFleetMemory (content : string) : handler unit :=
  act (λ w, ((exec_step (replace_kv "fleet_memory" content) (set_memory w content)).1, tt)).

Definition getFleetMemory : handler string := act (λ w, (w, w_fleetMemory w)).

Definition peerCount : handler Z :=
  r ← query (λ db, Z.of_nat (length (peers db)));
  Ret (match r with Ok n => n | Err _ => 0 end).
End broker.
