(* ===== verification/Dispatch.v ===== *)
(** * Requests, statements and steps of the broker

    The operations of [Broker] gathered under one request type, the set of
    statements they may execute, and the two ways of reasoning about them:
    equations for an operation that runs alone on a database without faults,
    and a rule for properties of every atomic step, whatever is interleaved and
    whatever fails. *)

From S2P Require Import Prelude GoStrings GoTime Types Store Prog World Broker.

(** ** Requests *)
Inductive Request : Type :=
| RqRegister (r : RegisterRequest)
| RqHeartbeat (r : HeartbeatRequest)
| RqSetSummary (r : SetSummaryRequest)
| RqListPeers (r : ListPeersRequest)
| RqSend (r : SendMessageRequest)
| RqPoll (r : PollMessagesRequest)
| RqPeek (r : PollMessagesRequest)
| RqClaim (r : ClaimAgentRequest)
| RqAck (r : AckMessageRequest)
| RqUnregister (r : UnregisterRequest)
| RqEvents (limit : Z)
| RqCount
| RqGetMemory
| RqSetMemory (content : string)
| RqSweep (tick : Z).

Inductive Response : Type :=
| RsRegister (r : RegisterResponse)
| RsHeartbeat (r : HeartbeatResponse)
| RsListPeers (l : list Peer)
| RsSend (r : SendMessageResponse)
| RsMessages (r : PollMessagesResponse)
| RsClaim (r : ClaimAgentResponse)
| RsEvents (l : option (list Event))
| RsCount (n : Z)
| RsMemory (s : string)
| RsUnit.

Section dispatch.
Context {E : Env}.

Definition dispatch (rq : Request) : handler Response :=
  match rq with
  | RqRegister r => x ← register r; Ret (RsRegister x)
  | RqHeartbeat r => x ← heartbeat r; Ret (RsHeartbeat x)
  | RqSetSummary r => _ ← setSummary r; Ret RsUnit
  | RqListPeers r => x ← listPeers r; Ret (RsListPeers x)
  | RqSend r => x ← sendMessage r; Ret (RsSend x)
  | RqPoll r => x ← pollMessages r; Ret (RsMessages x)
  | RqPeek r => x ← peekMessages r; Ret (RsMessages x)
  | RqClaim r => x ← claimAgent r; Ret (RsClaim x)
  | RqAck r => _ ← ackMessage r; Ret RsUnit
  | RqUnregister r => _ ← unregister r; Ret RsUnit
  | RqEvents n => x ← recentEvents n; Ret (RsEvents x)
  | RqCount => x ← peerCount; Ret (RsCount x)
  | RqGetMemory => x ← getFleetMemory; Ret (RsMemory x)
  | RqSetMemory c => _ ← setFleetMemory c; Ret RsUnit
  | RqSweep t => _ ← sweep t; Ret RsUnit
  end.
End dispatch.

(** ** The statements an operation may execute *)
Inductive issued : Request → stmt → Prop :=
| issues_insert_peer r row : pr_agent_name row = reg_AgentName r → issued (RqRegister r) (insert_peer row)
| issues_register_drain r id : issued (RqRegister r) (drain_queue id (reg_AgentName r))
| issues_register_seen r now : issued (RqRegister r) (insert_name_seen (reg_AgentName r) now)
| issues_heartbeat r now : issued (RqHeartbeat r) (update_last_seen now (hb_ID r))
| issues_summary r : issued (RqSetSummary r) (update_summary (ss_Summary r) (ss_ID r))
| issues_send r a s f now :
    issued (RqSend r) (insert_message a s (send_FromID r) f (send_Text r) now)
| issues_poll r now id : issued (RqPoll r) (mark_delivered now (poll_ID r) id)
| issues_claim r : issued (RqClaim r) (update_agent_name (claim_AgentName r) (claim_SessionID r))
| issues_claim_drain r : issued (RqClaim r) (drain_queue (claim_SessionID r) (claim_AgentName r))
| issues_claim_seen r now : issued (RqClaim r) (insert_name_seen (claim_AgentName r) now)
| issues_ack r now : issued (RqAck r) (mark_acked now (ack_SessionID r) (ack_MessageID r))
| issues_unregister r : issued (RqUnregister r) (delete_peer (unreg_ID r))
| issues_unreg_drop r : issued (RqUnregister r) (drop_direct (unreg_ID r))
| issues_unreg_requeue r : issued (RqUnregister r) (requeue (unreg_ID r))
| issues_stale t c : issued (RqSweep t) (delete_stale c)
| issues_stale_drop t id : issued (RqSweep t) (drop_direct id)
| issues_stale_requeue t id : issued (RqSweep t) (requeue id)
| issues_delete_events t c : issued (RqSweep t) (delete_events c)
| issues_checkpoint t : ((t + 1) mod 30 =? 0) = true → issued (RqSweep t) (λ db, Some (db, 0))
| issues_delete_acked t c : ((t + 1) mod 30 =? 0) = true → issued (RqSweep t) (delete_acked c)
| issues_delete_unacked t c : ((t + 1) mod 30 =? 0) = true → issued (RqSweep t) (delete_unacked c)
| issues_memory c : issued (RqSetMemory c) (replace_kv "fleet_memory" c)
| issues_event rq ty p m d now : issued rq (insert_event ty p m d now).

#[export] Hint Constructors issued : broker.

(** A statement keeps [R] between the database before and after it. *)
Definition respects (R : relation DB) (f : stmt) : Prop :=
  ∀ db db' n, f db = Some (db', n) → R db db'.

(** The relation on worlds behind a relation on databases. *)
Definition on_db (R : relation DB) : relation World := λ w w', R (w_db w) (w_db w').

#[export] Instance on_db_refl R : Reflexive R → Reflexive (on_db R).
Proof. intros HR w. apply HR. Qed.
#[export] Instance on_db_preorder R : PreOrder R → PreOrder (on_db R).
Proof. intros [Hr Ht]. split; [intros w; apply Hr|intros w1 w2 w3; apply Ht]. Qed.

(** A step that changes neither the tables nor the fleet memory. *)
Definition bookkeeping (w w' : World) : Prop :=
  w_db w' = w_db w ∧ w_fleetMemory w' = w_fleetMemory w.

Section acts.
Context {E : Env} (R : relation World) (HR : ∀ w w', bookkeeping w w' → R w w').
Abbreviation acts := (all_acts R).

Lemma acts_exec f : (∀ w, R w (exec_step f w).1) → acts (exec f).
Proof. intros Hf. by apply all_acts_act. Qed.

Lemma acts_query {A} (f : DB → A) : acts (query f).
Proof. apply all_acts_act. intros w. by apply HR. Qed.

Lemma acts_query_row {A} (f : DB → option A) : acts (query_row f).
Proof. apply all_acts_bind; [apply acts_query|]. by intros []. Qed.

Lemma acts_query_exists f : acts (query_exists f).
Proof. apply all_acts_bind; [apply acts_query|]. by intros []. Qed.

Lemma acts_now_time : acts now_time.
Proof. apply all_acts_act. intros w. by apply HR. Qed.

Lemma acts_nowISO : acts nowISO.
Proof. apply all_acts_bind; [apply acts_now_time|]. done. Qed.

Lemma acts_generatePeerID : acts generatePeerID.
Proof. apply all_acts_bind; [|done]. apply all_acts_act. intros w. by apply HR. Qed.

Lemma acts_publish s e : acts (publish s e).
Proof.
  unfold publish. destruct env_nats; [|done]. apply all_acts_bind; [apply acts_nowISO|].
  intros now. apply all_acts_act. intros w. by apply HR.
Qed.
End acts.

(** Decompose a handler into its steps; what remains is that its statements
    respect the relation. *)
Ltac acts_step :=
  lazymatch goal with
  | |- all_acts _ (prog_bind _ _) => apply all_acts_bind; [|intros ?]
  | |- all_acts _ (Ret _) => apply all_acts_ret
  | |- all_acts _ (exec _) => apply acts_exec
  | |- all_acts _ (query _) => apply acts_query; assumption
  | |- all_acts _ (query_row _) => apply acts_query_row; assumption
  | |- all_acts _ (query_exists _) => apply acts_query_exists; assumption
  | |- all_acts _ now_time => apply acts_now_time; assumption
  | |- all_acts _ nowISO => apply acts_nowISO; assumption
  | |- all_acts _ generatePeerID => apply acts_generatePeerID; assumption
  | |- all_acts _ (publish _ _) => apply acts_publish; assumption
  | |- all_acts _ (emitEvent _ _ _ _) => unfold emitEvent
  | |- all_acts _ (for_each _ _) => apply all_acts_for_each; intros ?
  | |- all_acts _ (if ?b then _ else _) => destruct b eqn:?
  | |- all_acts _ (match ?x with _ => _ end) => destruct x
  | |- all_acts _ (let '(_, _) := ?x in _) => destruct x
  end.

(** A relation kept by every statement an operation may execute, and by the
    step that replaces the fleet memory, is kept by every atomic step of the
    operation. *)
Lemma dispatch_acts_world {E : Env} (R : relation World) rq :
  (∀ w w', bookkeeping w w' → R w w') →
  (∀ f w, issued rq f → (∀ c, rq ≠ RqSetMemory c) → R w (exec_step f w).1) →
  (∀ c w, rq = RqSetMemory c → R w (exec_step (replace_kv "fleet_memory" c) (set_memory w c)).1) →
  all_acts R (dispatch rq).
Proof.
  intros HR Hf Hm. destruct rq as [r|r|r|r|r|r|r|r|r|r|n| | |c|t]; cbn [dispatch];
    unfold register, heartbeat, setSummary, listPeers, sendMessage, route_agent, store_message,
      pollMessages, peekMessages, claimAgent, ackMessage, unregister, recentEvents, peerCount,
      sweep, cleanStalePeers; repeat acts_step; try (intros w; apply Hf; [|done]); auto with broker.
  - apply all_acts_act. intros w. by apply HR.
  - apply all_acts_act. intros w. by apply Hm.
Qed.

Lemma exec_step_respects {E : Env} (R : relation DB) `{!Reflexive R} f w :
  respects R f → R (w_db w) (w_db (exec_step f w).1).
Proof.
  intros Hf. unfold exec_step. destruct (env_fault _); [done|].
  destruct (f (w_db w)) as [[db n]|] eqn:Ef; [|done]. by eapply Hf.
Qed.

(** The same for a relation on the tables alone. *)
Lemma dispatch_acts {E : Env} (R : relation DB) `{!Reflexive R} rq :
  (∀ f, issued rq f → respects R f) → all_acts (on_db R) (dispatch rq).
Proof.
  intros HR. apply dispatch_acts_world.
  - intros w w' [Hdb _]. unfold on_db. by rewrite Hdb.
  - intros f w Hf _. apply (exec_step_respects R); auto.
  - intros c w ->. apply (exec_step_respects R _ (set_memory w c)). auto with broker.
Qed.
