(* ===== verification/Demo.v ===== *)
(** * A concrete machine

    One environment in which the broker's definitions compute: a clock that
    advances half a second per reading, four random bytes counting up, a driver
    that answers.  Witnesses and counterexamples are evaluated on it. *)

From S2P Require Import Prelude GoStrings GoTime Types Store Prog World Broker Dispatch.

(** [time.Date(2026, 1, 1, 0, 0, 0, 0, time.UTC)] in nanoseconds. *)
Definition new_year : Z := 1767225600 * Second.

Definition quote_mark : string := String (ascii_of_nat 34) "".

Definition demo_env : Env := {|
  env_clock n := new_year + Z.of_nat n * (Second / 2);
  env_rand n := [0; 0; 0; N.of_nat n]%N;
  env_fault _ := None;
  env_constraint := "constraint failed: UNIQUE constraint failed";
  env_nats := true;
  env_quote s := quote_mark +:+ s +:+ quote_mark;
  env_stale_timeout := 20;
|}.

Definition join_as (a : string) : RegisterRequest :=
  mkRegisterRequest a 4242 "workstation" "/home/dev/project" "" "tty1" "project" "main" "".
Definition join (a : string) : Request := RqRegister (join_as a).
Definition send_agent (from a text : string) : SendMessageRequest :=
  mkSendMessageRequest from a "" text.

(** The world after some requests on a new broker. *)
Definition after (reqs : list Request) : World := play (@dispatch demo_env) new_world reqs.

Lemma after_steps reqs : ∃ pool, steps (@dispatch demo_env) ([], new_world) (pool, after reqs).
Proof. apply steps_play. Qed.
