(* ===== verification/Termination.v ===== *)
(** * The handlers of the broker finish

    The steps of the handlers in progress, without the arrival of new requests:
    they cannot go on for ever, they never get stuck, and all operations but a
    poll and a sweep, which loop over the rows they found, take a fixed number of
    steps. *)

From S2P Require Import Prelude GoStrings GoTime Types Store Prog World Broker Dispatch Demo.

(** ** The work left in a pool *)
Section work.
Context {S Resp : Type}.

(** The steps of [step] other than the start of a handler. *)
Inductive work : list (prog S Resp) * S → list (prog S Resp) * S → Prop :=
| work_act {B} pool1 pool2 s (f : S → S * B) k :
    work (pool1 ++ Act f k :: pool2, s) (pool1 ++ k (f s).2 :: pool2, (f s).1)
| work_done pool1 pool2 s a :
    work (pool1 ++ Ret a :: pool2, s) (pool1 ++ pool2, s).

Lemma step_work {Req} (handler : Req → prog S Resp) c c' :
  step handler c c' ↔ work c c' ∨ ∃ rq, c' = (c.1 ++ [handler rq], c.2).
Proof.
  split.
  - intros [pool s rq|B pool1 pool2 s f k|pool1 pool2 s a]; [right; by exists rq|left..];
      constructor.
  - intros [[B pool1 pool2 s f k|pool1 pool2 s a]|[rq ->]]; [constructor..|].
    destruct c as [pool s]. constructor.
Qed.

(** What is left of a program after one of its steps, whatever the step reads. *)
Definition rest_of (p q : prog S Resp) : Prop :=
  match p with Ret _ => False | Act f k => ∃ b, q = k b end.

(** What is left of a pool. *)
Inductive pool_rest : relation (list (prog S Resp)) :=
| rest_here p q pool : rest_of p q → pool_rest (p :: pool) (q :: pool)
| rest_gone p pool : pool_rest (p :: pool) pool
| rest_later p pool pool' : pool_rest pool pool' → pool_rest (p :: pool) (p :: pool').

Lemma work_rest c c' : work c c' → pool_rest c.1 c'.1.
Proof.
  intros [B pool1 pool2 s f k|pool1 pool2 s a]; simpl;
    (induction pool1 as [|p pool1 IH]; simpl; [|by constructor]); constructor; simpl; eauto.
Qed.

Lemma pool_rest_cons p : ∀ pool, sn pool_rest pool → sn pool_rest (p :: pool).
Proof.
  induction p as [a|B f k IHk]; intros pool Hpool; induction Hpool as [pool Hpool IH];
    constructor; intros pool' Hr; apply Acc_intro in Hpool; inversion Hr; subst; auto.
  - done.
  - match goal with H : rest_of _ _ |- _ => destruct H as [b ->] end. by apply IHk.
Qed.

Lemma pool_rest_sn pool : sn pool_rest pool.
Proof.
  induction pool as [|p pool IH]; [constructor; intros ? Hr; inversion Hr|]. by apply pool_rest_cons.
Qed.

(** No pool works for ever. *)
Lemma work_sn c : sn work c.
Proof.
  cut (∀ pool, sn pool_rest pool → ∀ s, sn work (pool, s)).
  { destruct c as [pool s]. intros H. apply H, pool_rest_sn. }
  induction 1 as [pool _ IH]. intros s. constructor. intros [pool' s'] Hw.
  apply IH. exact (work_rest _ _ Hw).
Qed.

(** A pool that is not empty can work. *)
Lemma work_progress pool s : pool ≠ [] → ∃ c, work (pool, s) c.
Proof.
  destruct pool as [|[a|B f k] pool]; [done|..]; intros _; eexists;
    [apply (work_done [])|apply (work_act [])].
Qed.
End work.

(** ** The number of steps of a handler *)
Fixpoint steps_within {S A} (n : nat) (p : prog S A) : Prop :=
  match p, n with
  | Ret _, _ => True
  | Act _ _, O => False
  | Act _ k, S n => ∀ b, steps_within n (k b)
  end.

(** The operations without a loop over rows. *)
Definition loop_free (rq : Request) : bool :=
  match rq with RqPoll _ | RqSweep _ => false | _ => true end.

Ltac split_case :=
  match goal with
  | |- context [match ?x with _ => _ end] =>
      lazymatch type of x with prog _ _ => fail | nat => fail | _ => destruct x eqn:? end
  end.

Lemma loop_free_steps {E : Env} rq : loop_free rq = true → steps_within 10 (dispatch rq).
Proof.
  destruct rq; intros Hl; try discriminate Hl; cbn [dispatch];
    unfold register, heartbeat, setSummary, listPeers, sendMessage, route_agent, store_message,
      peekMessages, claimAgent, ackMessage, unregister, recentEvents, peerCount, emitEvent, publish;
    repeat (first [exact I|intros ?|progress cbn [steps_within prog_bind query_row query_exists
      query exec nowISO now_time generatePeerID rand_bytes act]|split_case]).
Qed.

(** Requests in progress are always answered: whatever requests arrived and
    however their handlers were interleaved, the handlers cannot run for ever
    once no more arrive, they are stuck only when all have answered, and an
    operation other than a poll and a sweep takes at most ten atomic steps. *)
Theorem handlers_terminate {E : Env} pool w :
  steps dispatch ([], new_world) (pool, w) →
  sn work (pool, w)
  ∧ (∀ c, rtc work (pool, w) c → nf work c → c.1 = [] ∧ steps dispatch ([], new_world) c)
  ∧ ∀ rq, loop_free rq = true → steps_within 10 (dispatch rq).
Proof.
  intros Hreach. split; [apply work_sn|]. split; [|apply loop_free_steps].
  intros [pool' w'] Hw Hnf. split.
  - destruct pool' as [|p pool']; [done|]. destruct Hnf.
    destruct (work_progress (p :: pool') w') as [c Hc]; [done|]. by exists c.
  - etrans; [exact Hreach|]. eapply rtc_subrel; [|exact Hw].
    intros c c' Hc. apply step_work. by left.
Qed.

(** Two registrations of one name, part of the way through. *)
Definition two_joins : list (handler Response) * World :=
  sched [0; 0; 1; 1; 0; 1]%nat (@dispatch demo_env <$> [join "a"; join "a"], new_world).

Lemma handlers_terminate_witness :
  steps (@dispatch demo_env) ([], new_world) (two_joins.1, two_joins.2)
  ∧ sn work (two_joins.1, two_joins.2).
Proof.
  assert (H : steps (@dispatch demo_env) ([], new_world) (two_joins.1, two_joins.2)).
  { unfold two_joins. apply sched_reaches. reflexivity. }
  split; [exact H|]. destruct (handlers_terminate _ _ H) as [Hsn _]. exact Hsn.
Defined.
