(* ===== verification/BrokerInv.v ===== *)
(** * Invariants of the database

    Well-formedness of the tables, the history that never shrinks and the
    messages that are never lost.  All of it is proved per statement and holds
    for every interleaving of handlers and every pattern of database faults. *)

From S2P Require Import Prelude GoStrings GoTime Types Store Prog World Broker Dispatch Demo.

(** ** Well-formed databases *)

Definition unique_agents (l : list PeerRow) : Prop :=
  ∀ p q, p ∈ l → q ∈ l → pr_agent_name p = pr_agent_name q → pr_agent_name p ≠ "" → p = q.

Definition msg_ok (m : MsgRow) : Prop :=
  is_null (m_ack_at m) = is_null (m_ack_session m)
  ∧ 0 ≤ m_attempts m
  ∧ (is_null (m_delivered_at m) = false → 0 < m_attempts m).

Record db_inv (db : DB) : Prop := mk_db_inv {
  inv_ids : NoDup (pr_id <$> peers db);
  inv_agents : unique_agents (peers db);
  inv_msg_sorted : StronglySorted Z.lt (m_id <$> messages db);
  inv_msg_range : Forall (λ m, 0 < m_id m ≤ msg_seq db) (messages db);
  inv_msg_ok : Forall msg_ok (messages db);
  inv_event_sorted : StronglySorted Z.lt (ev_id <$> events db);
  inv_event_range : Forall (λ e, 0 < ev_id e ≤ event_seq db) (events db);
  inv_seq : 0 ≤ msg_seq db ≤ max_int64 ∧ 0 ≤ event_seq db ≤ max_int64;
}.

Lemma empty_db_inv : db_inv empty_db.
Proof.
  split; simpl; try constructor; try done; [by intros p q ?%elem_of_nil|..]; unfold max_int64; lia.
Qed.

(** ** Updates and deletions keep the keys *)

Lemma elem_of_update_where {A} (P : A → bool) f (l : list A) y :
  y ∈ update_where P f l ↔ ∃ x, y = (if P x then f x else x) ∧ x ∈ l.
Proof. unfold update_where. apply list_elem_of_fmap. Qed.

Lemma elem_of_delete_where {A} (P : A → bool) (l : list A) x :
  x ∈ delete_where P l ↔ P x = false ∧ x ∈ l.
Proof. unfold delete_where. rewrite elem_of_bfilter, negb_true_iff. done. Qed.

Lemma update_where_key {A K} (key : A → K) P f (l : list A) :
  (∀ x, key (f x) = key x) → key <$> update_where P f l = key <$> l.
Proof. intros Hf. apply fmap_key_update. intros x. by destruct (P x). Qed.

Lemma Forall_update_where {A} (Q : A → Prop) P f (l : list A) :
  (∀ x, P x = true → Q x → Q (f x)) → Forall Q l → Forall Q (update_where P f l).
Proof.
  intros Hf. rewrite !Forall_forall. intros Hl y (x & -> & Hx)%elem_of_update_where.
  destruct (P x) eqn:E; auto.
Qed.

Lemma update_where_none {A} P f (l : list A) :
  Forall (λ x, P x = false) l → update_where P f l = l.
Proof. induction 1 as [|x l Hx _ IH]; [done|]. csimpl. by rewrite Hx, IH. Qed.

(** *** The peers table *)
Definition peers_inv (l : list PeerRow) : Prop := NoDup (pr_id <$> l) ∧ unique_agents l.

Lemma peers_inv_delete P l : peers_inv l → peers_inv (delete_where P l).
Proof.
  intros [Hid Hag]. split; [by apply NoDup_bfilter|].
  intros p q [_ Hp]%elem_of_delete_where [_ Hq]%elem_of_delete_where. by apply Hag.
Qed.

Lemma peers_inv_update P f l :
  (∀ p, pr_id (f p) = pr_id p) → (∀ p, pr_agent_name (f p) = pr_agent_name p) →
  peers_inv l → peers_inv (update_where P f l).
Proof.
  intros Hfid Hfag [Hid Hag]. split; [by rewrite update_where_key|].
  intros p' q' (p & -> & Hp)%elem_of_update_where (q & -> & Hq)%elem_of_update_where Heq Hne.
  enough (p = q) as -> by done.
  apply Hag; [done..| |]; destruct (P p), (P q); rewrite ?Hfag in *; done.
Qed.

Lemma peers_inv_insert db r db' n :
  insert_peer r db = Some (db', n) → peers_inv (peers db) → peers_inv (peers db').
Proof.
  unfold insert_peer. destruct (existsb _ _ || _)%bool eqn:E; [done|].
  apply orb_false_iff in E as [Eid Eag]. intros [= <- <-] [Hid Hag]. simpl.
  rewrite existsb_false_iff, Forall_forall in Eid. split.
  - rewrite fmap_app. apply NoDup_snoc; [done|].
    intros (p & Hp & Hin)%list_elem_of_fmap.
    specialize (Eid p Hin). simpl in Eid. by rewrite Hp, String.eqb_refl in Eid.
  - assert (∀ p, p ∈ peers db → pr_agent_name p = pr_agent_name r → pr_agent_name r = "") as Hnew.
    { intros p Hp Heq. apply andb_false_iff in Eag as [Eag|Eag].
      - apply negb_false_iff in Eag. by apply String.eqb_eq in Eag.
      - rewrite existsb_false_iff, Forall_forall in Eag. specialize (Eag p Hp).
        simpl in Eag. by rewrite Heq, String.eqb_refl in Eag. }
    intros p q [Hp|Hp]%elem_of_app [Hq|Hq]%elem_of_app Heq Hne;
      rewrite ?list_elem_of_singleton in *; subst; auto.
    + destruct Hne. rewrite Heq. by apply (Hnew p).
    + destruct Hne. by apply (Hnew q).
Qed.

Lemma peers_inv_rename a id db db' n :
  update_agent_name a id db = Some (db', n) → peers_inv (peers db) → peers_inv (peers db').
Proof.
  unfold update_agent_name. destruct (_ && _ && _)%bool eqn:E; [done|].
  intros [= <- <-] [Hid Hag]. simpl. split; [by rewrite update_where_key|].
  assert (∀ p q, p ∈ peers db → q ∈ peers db → has_id id p = true → has_id id q = false →
                 pr_agent_name q = a → a = "") as Hrefused.
  { intros p q Hp Hq Hpi Hqi Ha. destruct (String.eqb a "") eqn:Ea; [by apply String.eqb_eq in Ea|].
    assert (existsb (has_id id) (peers db) = true) as E1 by (apply existsb_true_iff; eauto).
    assert (existsb (λ p, has_agent a p && negb (has_id id p)) (peers db) = true) as E2.
    { apply existsb_true_iff. exists q. split; [done|]. unfold has_agent.
      by rewrite Ha, String.eqb_refl, Hqi. }
    by rewrite E1, E2 in E. }
  intros p' q' (p & -> & Hp)%elem_of_update_where (q & -> & Hq)%elem_of_update_where Heq Hne.
  destruct (has_id id p) eqn:Ep, (has_id id q) eqn:Eq; simpl in *.
  - unfold has_id in *. apply String.eqb_eq in Ep, Eq.
    enough (p = q) as -> by done. apply (NoDup_fmap_inj pr_id (peers db)); [done..|congruence].
  - destruct Hne. by apply (Hrefused p q).
  - destruct Hne. rewrite Heq. by apply (Hrefused q p).
  - by apply Hag.
Qed.

(** *** The messages table *)
Definition msgs_inv (db : DB) : Prop :=
  StronglySorted Z.lt (m_id <$> messages db)
  ∧ Forall (λ m, 0 < m_id m ≤ msg_seq db) (messages db) ∧ Forall msg_ok (messages db).

Lemma msgs_inv_update db P f :
  (∀ m, m_id (f m) = m_id m) → (∀ m, msg_ok m → msg_ok (f m)) →
  msgs_inv db → msgs_inv (set_messages db (update_where P f (messages db))).
Proof.
  intros Hid Hok (H1 & H2 & H3). unfold msgs_inv. simpl.
  rewrite update_where_key by done. split; [done|]. split.
  - apply Forall_update_where; [|done]. intros m _. by rewrite Hid.
  - apply Forall_update_where; auto.
Qed.

Lemma msgs_inv_delete db P :
  msgs_inv db → msgs_inv (set_messages db (delete_where P (messages db))).
Proof.
  intros (H1 & H2 & H3). split; [by apply StronglySorted_bfilter|].
  split; by apply Forall_bfilter.
Qed.

Lemma set_session_ok s m : msg_ok m → msg_ok (set_session s m).
Proof. done. Qed.
Lemma set_delivered_ok now s m : msg_ok m → msg_ok (set_delivered now s m).
Proof. intros (H1 & H2 & H3). unfold msg_ok. simpl. repeat split; [done|lia|lia]. Qed.
Lemma set_acked_ok now s m : msg_ok m → msg_ok (set_acked now s m).
Proof. intros (H1 & H2 & H3). done. Qed.
Lemma set_requeued_ok m : msg_ok m → msg_ok (set_requeued m).
Proof. intros (H1 & H2 & H3). done. Qed.

#[export] Hint Resolve set_session_ok set_delivered_ok set_acked_ok set_requeued_ok : broker.

(** *** Every statement keeps the invariant *)
Lemma db_inv_parts db :
  db_inv db ↔ peers_inv (peers db) ∧ msgs_inv db
    ∧ (StronglySorted Z.lt (ev_id <$> events db)
       ∧ Forall (λ e, 0 < ev_id e ≤ event_seq db) (events db))
    ∧ (0 ≤ msg_seq db ≤ max_int64 ∧ 0 ≤ event_seq db ≤ max_int64).
Proof.
  unfold peers_inv, msgs_inv. split; [intros []; auto|].
  intros ([] & (? & ? & ?) & [] & ?). by constructor.
Qed.

Lemma snoc_key_sorted {A} (key : A → Z) (l : list A) n x :
  StronglySorted Z.lt (key <$> l) → Forall (λ y, 0 < key y ≤ n) l → key x = n + 1 → 0 ≤ n →
  StronglySorted Z.lt (key <$> (l ++ [x])) ∧ Forall (λ y, 0 < key y ≤ n + 1) (l ++ [x]).
Proof.
  intros Hs Hr Hx Hn. rewrite fmap_app. split.
  - apply StronglySorted_snoc; [done|]. apply Forall_fmap.
    eapply Forall_impl; [exact Hr|]. simpl. lia.
  - apply Forall_app. split; [|constructor; [lia|done]].
    eapply Forall_impl; [exact Hr|]. simpl. lia.
Qed.

Lemma issued_db_inv rq f : issued rq f → respects (λ db db', db_inv db → db_inv db') f.
Proof.
  intros Hf db db' n Heq. rewrite !db_inv_parts. intros (Hp & Hm & He & Hs).
  destruct Hf; try (injection Heq as <- <-; split; [|split; [|split]]; try done;
    simpl; eauto using peers_inv_delete, peers_inv_update, msgs_inv_update, msgs_inv_delete with broker; fail).
  - pose proof (peers_inv_insert _ _ _ _ Heq Hp). unfold insert_peer in Heq.
    destruct (_ || _)%bool; [done|]. by injection Heq as <- <-.
  - unfold insert_name_seen in Heq. destruct (_ !! _); by injection Heq as <- <-.
  - unfold insert_message in Heq. destruct (_ <=? _) eqn:El; [done|]. zify_bool.
    injection Heq as <- <-. destruct Hm as (H1 & H2 & H3). split; [done|].
    split; [|split; [done|simpl; lia]].
    match goal with |- msgs_inv (mkDB _ (_ ++ [?m]) _ _ _ _ _) =>
      destruct (snoc_key_sorted m_id (messages db) (msg_seq db) m) as [Hs1 Hs2] end;
      [done..|lia|]. split; [done|]. split; [done|].
    apply Forall_app. split; [done|]. by repeat constructor.
  - pose proof (peers_inv_rename _ _ _ _ _ Heq Hp). unfold update_agent_name in Heq.
    destruct (_ && _ && _)%bool; [done|]. by injection Heq as <- <-.
  - unfold insert_name_seen in Heq. destruct (_ !! _); by injection Heq as <- <-.
  - injection Heq as <- <-. split; [done|]. split; [done|]. split; [|done]. destruct He.
    split; [by apply StronglySorted_bfilter|by apply Forall_bfilter].
  - unfold insert_event in Heq. destruct (_ <=? _) eqn:El; [done|]. zify_bool.
    injection Heq as <- <-. destruct He as [He1 He2]. split; [done|]. split; [done|].
    split; [|simpl; lia]. by apply snoc_key_sorted; [..|lia].
Qed.

(** ** What no operation takes away *)

(** A message row has become another one without losing what it carries: its
    route, its text and an acknowledgement stay, attempts do not decrease. *)
Definition carried_on (m m' : MsgRow) : Prop :=
  m_id m' = m_id m ∧ m_to_agent m' = m_to_agent m ∧ m_from_session m' = m_from_session m
  ∧ m_from_agent m' = m_from_agent m ∧ m_text m' = m_text m ∧ m_sent_at m' = m_sent_at m
  ∧ (is_null (m_ack_at m) = false → is_null (m_ack_at m') = false)
  ∧ m_attempts m ≤ m_attempts m'.

#[export] Instance carried_on_preorder : PreOrder carried_on.
Proof.
  split; [intros m; by repeat split|].
  intros m1 m2 m3 (H1 & H2 & H3 & H4 & H5 & H6 & Ha & Hn) (? & ? & ? & ? & ? & ? & Ha' & Hn').
  repeat split; [congruence..|auto|lia].
Qed.

(** Messages addressed to an agent are all still there. *)
Definition keeps_named (db db' : DB) : Prop :=
  ∀ m, m ∈ messages db → m_to_agent m ≠ "" → ∃ m', m' ∈ messages db' ∧ carried_on m m'.

#[export] Instance keeps_named_preorder : PreOrder keeps_named.
Proof.
  split; [intros db m Hm _; by exists m|].
  intros db1 db2 db3 H1 H2 m Hm Hne. destruct (H1 m Hm Hne) as (m2 & Hm2 & Hc2).
  destruct (H2 m2 Hm2) as (m3 & Hm3 & Hc3); [by destruct Hc2 as (_ & -> & _)|].
  exists m3. split; [done|]. by etrans.
Qed.

Lemma keeps_named_update db P f :
  (∀ m, carried_on m (f m)) → keeps_named db (set_messages db (update_where P f (messages db))).
Proof.
  intros Hf m Hm _. exists (if P m then f m else m). split.
  - apply elem_of_update_where. eauto.
  - destruct (P m); [apply Hf|done].
Qed.

Lemma keeps_named_same db db' : messages db' = messages db → keeps_named db db'.
Proof. intros Heq m Hm _. exists m. by rewrite Heq. Qed.

(** Requests of which the sweep does not reach its thirtieth tick. *)
Definition no_expiry (rq : Request) : Prop :=
  match rq with RqSweep t => ((t + 1) mod 30 =? 0) = false | _ => True end.

Lemma issued_keeps_named rq f : no_expiry rq → issued rq f → respects keeps_named f.
Proof.
  intros Hrq Hf db db' n Heq.
  destruct Hf; try (injection Heq as <- <-; simpl in Hrq; first
    [ by apply keeps_named_same
    | apply keeps_named_update; intros m; repeat split; simpl; [done..|lia]
    | congruence ]; fail).
  - unfold insert_peer in Heq. destruct (_ || _)%bool; [done|]. injection Heq as <- <-.
    by apply keeps_named_same.
  - unfold insert_name_seen in Heq. destruct (_ !! _); injection Heq as <- <-; by apply keeps_named_same.
  - unfold insert_message in Heq. destruct (_ <=? _); [done|]. injection Heq as <- <-.
    intros m Hm _. exists m. split; [|done]. simpl. apply elem_of_app. by left.
  - unfold update_agent_name in Heq. destruct (_ && _ && _)%bool; [done|].
    injection Heq as <- <-. by apply keeps_named_same.
  - unfold insert_name_seen in Heq. destruct (_ !! _); injection Heq as <- <-; by apply keeps_named_same.
  - injection Heq as <- <-. intros m Hm Hne. exists m. split; [|done]. simpl.
    apply elem_of_delete_where. split; [|done]. unfold droppable, to_agent_is.
    apply String.eqb_neq in Hne. rewrite Hne. by rewrite andb_false_r.
  - injection Heq as <- <-. intros m Hm Hne. exists m. split; [|done]. simpl.
    apply elem_of_delete_where. split; [|done]. unfold droppable, to_agent_is.
    apply String.eqb_neq in Hne. rewrite Hne. by rewrite andb_false_r.
  - unfold insert_event in Heq. destruct (_ <=? _); [done|]. injection Heq as <- <-.
    by apply keeps_named_same.
Qed.

(** The name history and the rowid counters only grow. *)
Definition history_grows (db db' : DB) : Prop :=
  (∀ a t, agent_names_seen db !! a = Some t → agent_names_seen db' !! a = Some t)
  ∧ msg_seq db ≤ msg_seq db' ∧ event_seq db ≤ event_seq db'.

#[export] Instance history_grows_preorder : PreOrder history_grows.
Proof.
  split; [intros db; by repeat split|].
  intros db1 db2 db3 (H1 & ? & ?) (H2 & ? & ?). repeat split; [auto|lia|lia].
Qed.

Lemma issued_history rq f : issued rq f → respects history_grows f.
Proof.
  intros Hf db db' n Heq. destruct Hf; try (by injection Heq as <- <-).
  - unfold insert_peer in Heq. destruct (_ || _)%bool; [done|]. by injection Heq as <- <-.
  - unfold insert_name_seen in Heq. destruct (_ !! _) eqn:El; injection Heq as <- <-; [done|].
    repeat split; [|simpl; lia..]. intros a t Ha. simpl. rewrite lookup_insert_ne; congruence.
  - unfold insert_message in Heq. destruct (_ <=? _); [done|]. injection Heq as <- <-.
    repeat split; simpl; [done|lia|lia].
  - unfold update_agent_name in Heq. destruct (_ && _ && _)%bool; [done|]. by injection Heq as <- <-.
  - unfold insert_name_seen in Heq. destruct (_ !! _) eqn:El; injection Heq as <- <-; [done|].
    repeat split; [|simpl; lia..]. intros a t Ha. simpl. rewrite lookup_insert_ne; congruence.
  - unfold insert_event in Heq. destruct (_ <=? _); [done|]. injection Heq as <- <-.
    repeat split; simpl; [done|lia|lia].
Qed.

#[export] Instance impl_preorder (P : DB → Prop) : PreOrder (λ db db', P db → P db').
Proof. split; [by intros db|]. intros db1 db2 db3; auto. Qed.

(** *** Runs, one request after the other *)
Lemma run_db_inv {E : Env} rq w : db_inv (w_db w) → db_inv (w_db (run (dispatch rq) w).1).
Proof.
  apply (run_all_acts (on_db (λ db db', db_inv db → db_inv db'))); [typeclasses eauto|].
  apply dispatch_acts; [typeclasses eauto|]. apply issued_db_inv.
Qed.

Lemma play_db_inv {E : Env} w reqs : db_inv (w_db w) → db_inv (w_db (play dispatch w reqs)).
Proof. revert w. induction reqs as [|rq reqs IH]; intros w Hw; [done|]. by apply IH, run_db_inv. Qed.

Lemma after_db_inv reqs : db_inv (w_db (after reqs)).
Proof. apply play_db_inv, empty_db_inv. Qed.

(** ** Properties *)
Section interleaved.
Context {E : Env}.

(** C1: Every database reached from a well-formed one, by any interleaving of
    the broker's operations and whatever the driver fails, is well-formed. *)
Theorem reachable_db_inv w pool' w' :
  steps dispatch ([], w) (pool', w') → db_inv (w_db w) → db_inv (w_db w').
Proof.
  intros Hs. apply (steps_all_acts dispatch (on_db (λ db db', db_inv db → db_inv db'))
    ([], w) (pool', w')); [|done|constructor].
  intros rq. apply dispatch_acts; [typeclasses eauto|]. apply issued_db_inv.
Qed.

(** Whatever handlers interleave, a name once seen keeps its entry and the rowid
    counters do not go back. *)
Theorem reachable_history_grows w pool' w' :
  steps dispatch ([], w) (pool', w') → history_grows (w_db w) (w_db w').
Proof.
  intros Hs. apply (steps_all_acts dispatch (on_db history_grows) ([], w) (pool', w'));
    [|done|constructor].
  intros rq. apply dispatch_acts; [typeclasses eauto|]. apply issued_history.
Qed.

(** C8: As long as no expiry sweep runs, no interleaving of the other operations
    removes a message addressed to an agent, or changes its sender, recipient or
    text, or takes back its acknowledgement. *)
Theorem named_messages_survive w pool' w' :
  steps (λ rq : sig no_expiry, dispatch (`rq)) ([], w) (pool', w') →
  keeps_named (w_db w) (w_db w').
Proof.
  intros Hs.
  apply (steps_all_acts (λ rq : sig no_expiry, dispatch (`rq)) (on_db keeps_named)
    ([], w) (pool', w')); [|done|constructor].
  intros [rq Hrq]. apply dispatch_acts; [typeclasses eauto|].
  intros f. by apply issued_keeps_named.
Qed.
End interleaved.

(** ** Witnesses *)
Lemma reachable_db_inv_witness :
  db_inv (w_db (after [join "planner"; RqSend (send_agent "00000000" "builder" "hello");
                       join "builder"; join "builder"; RqSweep 29])).
Proof.
  destruct (after_steps [join "planner"; RqSend (send_agent "00000000" "builder" "hello");
                         join "builder"; join "builder"; RqSweep 29]) as [pool Hs].
  exact (reachable_db_inv _ _ _ Hs empty_db_inv).
Defined.

Lemma reachable_history_grows_witness :
  ∃ t, agent_names_seen (w_db (after [join "planner"; RqUnregister (mkUnregisterRequest "00000000");
                                      RqSweep 29])) !! "planner" = Some t.
Proof.
  destruct (steps_play (@dispatch demo_env) [] (after [join "planner"])
    [RqUnregister (mkUnregisterRequest "00000000"); RqSweep 29]) as [pool Hs].
  destruct (reachable_history_grows _ _ _ Hs) as [Hn _].
  exists "2026-01-01T00:00:00Z". apply (Hn "planner"). vm_compute. done.
Defined.

(** The holder of "builder" leaves before it polls: its message is still there. *)
Lemma named_messages_survive_witness :
  let w := after [join "planner"; join "builder"; RqSend (send_agent "00000000" "builder" "hello")] in
  let reqs : list (sig no_expiry) :=
    [RqUnregister (mkUnregisterRequest "00000001") ↾ I; RqSweep 0 ↾ eq_refl] in
  keeps_named (w_db w) (w_db (play (λ rq : sig no_expiry, @dispatch demo_env (`rq)) w reqs)).
Proof.
  intros w reqs.
  destruct (steps_play (λ rq : sig no_expiry, @dispatch demo_env (`rq)) [] w reqs) as [pool Hs].
  exact (named_messages_survive _ _ _ Hs).
Defined.
