(* ===== verification/BrokerWp.v ===== *)
(** * Running one operation alone

    Rules for an operation that runs to its end on a database that answers:
    [wp p w Q] says that [p], started in the world [w], ends with a result and a
    world in [Q].  Each rule forgets what no caller can observe (how many
    statements ran) and keeps the database and the clock. *)

From S2P Require Import Prelude GoStrings GoTime Types Store Prog World Broker Dispatch Demo.
From S2P Require Import BrokerInv.

Definition wp {A} (p : handler A) (w : World) (Q : A → World → Prop) : Prop :=
  Q (run p w).2 (run p w).1.

(** The driver answers every statement. *)
Definition no_faults {E : Env} : Prop := ∀ n, env_fault n = None.

Lemma demo_no_faults : @no_faults demo_env.
Proof. done. Qed.

(** The tables a client can see through messages and peers; the event log is
    left out. *)
Definition same_core (db db' : DB) : Prop :=
  peers db' = peers db ∧ messages db' = messages db ∧ msg_seq db' = msg_seq db
  ∧ agent_names_seen db' = agent_names_seen db ∧ kv db' = kv db.

#[export] Instance same_core_preorder : PreOrder same_core.
Proof.
  split; [by intros db|]. unfold same_core.
  intros db1 db2 db3 (? & ? & ? & ? & ?) (? & ? & ? & ? & ?). repeat split; congruence.
Qed.

Section rules.
Context {E : Env}.

Lemma wp_ret {A} (a : A) w (Q : A → World → Prop) : Q a w → wp (Ret a) w Q.
Proof. done. Qed.

Lemma wp_bind {A B} (p : handler A) (k : A → handler B) w Q :
  wp p w (λ a w', wp (k a) w' Q) → wp (prog_bind p k) w Q.
Proof. unfold wp. rewrite run_bind. by destruct (run p w). Qed.

Lemma wp_mono {A} (p : handler A) w (Q Q' : A → World → Prop) :
  wp p w Q → (∀ a w', Q a w' → Q' a w') → wp p w Q'.
Proof. unfold wp. auto. Qed.

Lemma wp_now_time w (Q : Z → World → Prop) :
  (∀ w', w_db w' = w_db w → w_ticks w' = S (w_ticks w) → w_draws w' = w_draws w →
         Q (env_clock (w_ticks w)) w') →
  wp now_time w Q.
Proof. intros HQ. unfold wp. simpl. by apply HQ. Qed.

Lemma wp_nowISO w (Q : string → World → Prop) :
  (∀ w', w_db w' = w_db w → w_ticks w' = S (w_ticks w) → w_draws w' = w_draws w →
         Q (formatRFC3339Nano (env_clock (w_ticks w))) w') →
  wp nowISO w Q.
Proof. intros HQ. apply wp_bind, wp_now_time. intros w' ? ? ?. by apply HQ. Qed.

Lemma wp_generatePeerID w (Q : string → World → Prop) :
  (∀ w', w_db w' = w_db w → w_ticks w' = w_ticks w → w_draws w' = S (w_draws w) →
         Q (hex_encode (env_rand (w_draws w))) w') →
  wp generatePeerID w Q.
Proof. intros HQ. unfold wp. simpl. by apply HQ. Qed.

Lemma wp_publish s e w (Q : unit → World → Prop) :
  (∀ w', w_db w' = w_db w → w_draws w' = w_draws w → Q tt w') → wp (publish s e) w Q.
Proof.
  intros HQ. unfold publish. destruct env_nats; [|by apply HQ].
  apply wp_bind, wp_nowISO. intros w' Hdb _ ?. unfold wp. simpl. by apply HQ.
Qed.

Context (Hok : no_faults).

Lemma wp_exec (f : stmt) db n w (Q : result string Z → World → Prop) :
  f (w_db w) = Some (db, n) →
  (∀ w', w_db w' = db → w_ticks w' = w_ticks w → w_draws w' = w_draws w → Q (Ok n) w') → wp (exec f) w Q.
Proof.
  intros Hf HQ. unfold wp, exec. rewrite run_act. unfold exec_step. rewrite Hok, Hf. by apply HQ.
Qed.

Lemma wp_exec_refused (f : stmt) w (Q : result string Z → World → Prop) :
  f (w_db w) = None →
  (∀ w', w_db w' = w_db w → w_ticks w' = w_ticks w → w_draws w' = w_draws w → Q (Err env_constraint) w') →
  wp (exec f) w Q.
Proof.
  intros Hf HQ. unfold wp, exec. rewrite run_act. unfold exec_step. rewrite Hok, Hf. by apply HQ.
Qed.

Lemma wp_query {A} (f : DB → A) w (Q : result string A → World → Prop) :
  (∀ w', w_db w' = w_db w → w_ticks w' = w_ticks w → w_draws w' = w_draws w → Q (Ok (f (w_db w))) w') →
  wp (query f) w Q.
Proof. intros HQ. unfold wp, query. rewrite run_act. unfold query_step. rewrite Hok. by apply HQ. Qed.

Lemma wp_query_row {A} (f : DB → option A) w (Q : option A → World → Prop) :
  (∀ w', w_db w' = w_db w → w_ticks w' = w_ticks w → w_draws w' = w_draws w → Q (f (w_db w)) w') →
  wp (query_row f) w Q.
Proof. intros HQ. apply wp_bind, wp_query. intros w' ? ? ?. by apply HQ. Qed.

Lemma wp_query_exists (f : DB → bool) w (Q : bool → World → Prop) :
  (∀ w', w_db w' = w_db w → w_ticks w' = w_ticks w → w_draws w' = w_draws w → Q (f (w_db w)) w') →
  wp (query_exists f) w Q.
Proof. intros HQ. apply wp_bind, wp_query. intros w' ? ? ?. by apply HQ. Qed.

Lemma wp_emitEvent t p m d w (Q : unit → World → Prop) :
  (∀ w', same_core (w_db w) (w_db w') → w_draws w' = w_draws w → Q tt w') → wp (emitEvent t p m d) w Q.
Proof.
  intros HQ. apply wp_bind, wp_nowISO. intros w' Hdb _ ?. apply wp_bind.
  unfold wp, exec. rewrite run_act. unfold exec_step. rewrite Hok.
  unfold insert_event. destruct (_ <=? _); apply HQ; simpl; by rewrite ?Hdb.
Qed.

(** A loop of statements that never violate a constraint is a fold. *)
Lemma wp_for_each {A} (l : list A) (body : A → handler unit) (g : A → DB → DB) w
    (Q : unit → World → Prop) :
  (∀ x w (Q' : unit → World → Prop),
     (∀ w', w_db w' = g x (w_db w) → w_ticks w' = w_ticks w → w_draws w' = w_draws w → Q' tt w') → wp (body x) w Q') →
  (∀ w', w_db w' = foldl (λ db x, g x db) (w_db w) l → w_ticks w' = w_ticks w → w_draws w' = w_draws w → Q tt w') →
  wp (for_each l body) w Q.
Proof.
  intros Hb. revert w. induction l as [|x l IH]; intros w HQ; [by apply HQ|].
  apply wp_bind, Hb. intros w1 Hdb Ht Hr. apply IH. intros w2 Hdb2 Ht2 Hr2.
  apply HQ; [|congruence..]. simpl. by rewrite Hdb2, Hdb.
Qed.
End rules.

(** Symbolic execution of one operation. *)
Ltac wp_intro := let w := fresh "w" in let H := fresh "Hdb" in intros w H; intros.
Ltac wp_step :=
  lazymatch goal with
  | |- wp (prog_bind _ _) _ _ => apply wp_bind
  | |- wp (Ret _) _ _ => apply wp_ret
  | |- wp now_time _ _ => apply wp_now_time; wp_intro
  | |- wp nowISO _ _ => apply wp_nowISO; wp_intro
  | |- wp generatePeerID _ _ => apply wp_generatePeerID; wp_intro
  | |- wp (publish _ _) _ _ => apply wp_publish; wp_intro
  | H : no_faults |- wp (exec _) _ _ => eapply (wp_exec H); [reflexivity|wp_intro]
  | H : no_faults |- wp (query _) _ _ => apply (wp_query H); wp_intro
  | H : no_faults |- wp (query_row _) _ _ => apply (wp_query_row H); wp_intro
  | H : no_faults |- wp (query_exists _) _ _ => apply (wp_query_exists H); wp_intro
  | H : no_faults |- wp (emitEvent _ _ _ _) _ _ => apply (wp_emitEvent H); wp_intro
  end.

(** Rewrite the later worlds into the first one. *)
Ltac wp_norm :=
  repeat match goal with
  | H : w_db ?x = _ |- context [w_db ?x] => rewrite H
  | H : w_ticks ?x = _ |- context [w_ticks ?x] => rewrite H
  | H : w_draws ?x = _ |- context [w_draws ?x] => rewrite H
  end.
Ltac wp_steps := repeat (wp_step; cbn beta iota).

(** Bring what is known of the last world back to the first one. *)
Ltac wp_norm_all :=
  repeat match goal with
  | H : w_db ?x = _, H' : context [w_db ?x] |- _ => progress rewrite H in H'
  | H : w_ticks ?x = _, H' : context [w_ticks ?x] |- _ => progress rewrite H in H'
  | H : w_draws ?x = _, H' : context [w_draws ?x] |- _ => progress rewrite H in H'
  end; wp_norm.
