(* ===== verification/BrokerOps.v ===== *)
(** * What each operation does when it runs alone

    One rule per operation of the broker: the database it leaves and the
    response it gives, as pure functions of the database it finds.  The rules
    are stated against a driver that answers; the event log is left out of them. *)

From S2P Require Import Prelude GoStrings GoTime Types Store Prog World Broker Dispatch BrokerInv.
From S2P Require Import BrokerWp.

(** ** Reference functions *)


(** The row a registration adds. *)
Definition new_row (req : RegisterRequest) (id now : string) : PeerRow :=
  mkPeerRow id (reg_AgentName req) (reg_PID req) (reg_Machine req) (reg_CWD req)
    (Some (reg_GitRoot req)) (Some (reg_TTY req)) (reg_Project req) (reg_Branch req)
    (reg_Summary req) now now.

(** A name is recorded once. *)
Definition record_name (a now : string) (m : gmap string string) : gmap string string :=
  match m !! a with Some _ => m | None => <[a := now]> m end.

(** The session [id] becomes the holder of [a]: the queue of [a] is bound to it. *)
Definition bind_queue (id a : string) (l : list MsgRow) : list MsgRow :=
  update_where (queued_for a) (set_session id) l.

Definition joined (req : RegisterRequest) (id now : string) (db : DB) : DB :=
  let db1 := set_peers db (peers db ++ [new_row req id now]) in
  if String.eqb (reg_AgentName req) "" then db1
  else set_names (set_messages db1 (bind_queue id (reg_AgentName req) (messages db)))
         (record_name (reg_AgentName req) now (agent_names_seen db)).

(** Where a message goes: the two address columns, whether it waits, and the
    status reported. *)
Definition route (req : SendMessageRequest) (db : DB)
  : option (string * string * bool * DeliveryStatus) :=
  if Bool.eqb (String.eqb (send_ToAgent req) "") (String.eqb (send_ToSession req) "") then None
  else if String.eqb (send_ToSession req) "" then
    Some (match select_holder (send_ToAgent req) db with
          | Some h =>
              if String.eqb (pr_id h) "" then
                (send_ToAgent req, "", true,
                 if name_seen (send_ToAgent req) db then DeliveryStatusQueuedOffline
                 else DeliveryStatusQueuedUnknown)
              else (send_ToAgent req, pr_id h, false, DeliveryStatusBound)
          | None => (send_ToAgent req, "", true,
                     if name_seen (send_ToAgent req) db then DeliveryStatusQueuedOffline
                     else DeliveryStatusQueuedUnknown)
          end)
  else if session_exists (send_ToSession req) db
  then Some ("", send_ToSession req, false, DeliveryStatusBound) else None.

Definition stored (req : SendMessageRequest) (a s now : string) (db : DB) : DB :=
  mkDB (peers db)
    (messages db ++ [mkMsgRow (msg_seq db + 1) a s (send_FromID req)
       (null_string (select_agent_name (send_FromID req) db)) (send_Text req) now
       None None None 0])
    (msg_seq db + 1) (events db) (event_seq db) (kv db) (agent_names_seen db).

(** The agent name the broker looks up for a poller. *)
Definition poll_agent (id : string) (db : DB) : string := null_string (select_agent_name id db).

(** What a poll of session [id] would return. *)
Definition mailbox (id : string) (db : DB) : list Message :=
  row_message <$> select_pending id (poll_agent id db) db.

Definition delivered (id now : string) (db : DB) : DB :=
  set_messages db (update_where (is_pending id (poll_agent id db)) (set_delivered now id)
                     (messages db)).

Definition claimed (a id now : string) (db : DB) : DB :=
  set_names
    (set_messages (set_peers db (update_where (has_id id) (set_row_agent a) (peers db)))
       (bind_queue id a (messages db)))
    (record_name a now (agent_names_seen db)).

(** What the end of session [id] does to the messages bound to it. *)
Definition released (id : string) (l : list MsgRow) : list MsgRow :=
  update_where (requeueable id) set_requeued (delete_where (droppable id) l).

Definition departed (id : string) (db : DB) : DB :=
  set_messages (set_peers db (delete_where (has_id id) (peers db)))
    (released id (messages db)).

Definition swept (cutoff : string) (db : DB) : DB :=
  set_messages (set_peers db (delete_where (is_stale cutoff) (peers db)))
    (foldl (λ l id, released id l) (messages db) (select_stale cutoff db)).

(** ** Lemmas on tables *)
Lemma find_none_existsb {A} (P : A → bool) l : find P l = None → existsb P l = false.
Proof. intros H. apply existsb_false_iff. by apply find_none_iff. Qed.

Lemma insert_peer_ok r db :
  session_exists (pr_id r) db = false →
  (pr_agent_name r = "" ∨ select_holder (pr_agent_name r) db = None) →
  insert_peer r db = Some (set_peers db (peers db ++ [r]), 1).
Proof.
  unfold session_exists, insert_peer. intros Hid Hag. unfold has_id in Hid. rewrite Hid. simpl.
  destruct Hag as [->|Hag%find_none_existsb]; [done|].
  unfold has_agent in Hag. by rewrite Hag, andb_false_r.
Qed.

Lemma update_agent_name_ok a id db :
  select_holder a db = None →
  update_agent_name a id db =
    Some (set_peers db (update_where (has_id id) (set_row_agent a) (peers db)),
          count (has_id id) (peers db)).
Proof.
  intros Hh%find_none_existsb. unfold update_agent_name.
  assert (existsb (λ p, has_agent a p && negb (has_id id p)) (peers db) = false) as ->.
  { apply existsb_false_iff. apply existsb_false_iff in Hh.
    eapply Forall_impl; [exact Hh|]. simpl. by intros p ->. }
  by rewrite andb_false_r.
Qed.

Lemma insert_name_seen_ok a now db :
  ∃ n, insert_name_seen a now db
       = Some (set_names db (record_name a now (agent_names_seen db)), n).
Proof.
  unfold insert_name_seen, record_name. destruct (_ !! a); [|by eexists].
  exists 0. by destruct db.
Qed.

Lemma count_eqb_0 {A} (P : A → bool) l : (count P l =? 0) = negb (existsb P l).
Proof.
  unfold count. induction l as [|x l IH]; [done|]. simpl.
  by destruct (P x).
Qed.

(** *** The order of a poll *)
Lemma insert_by_sent_perm m l : insert_by_sent m l ≡ₚ m :: l.
Proof.
  induction l as [|m' l IH]; [done|]. simpl. destruct (string_leb _ _); [done|].
  rewrite IH. constructor.
Qed.

Lemma order_by_sent_perm l : order_by_sent l ≡ₚ l.
Proof. induction l as [|m l IH]; [done|]. simpl. by rewrite insert_by_sent_perm, IH. Qed.

Definition sent_le (m m' : MsgRow) : Prop := string_leb (m_sent_at m) (m_sent_at m') = true.

Lemma sent_le_trans m1 m2 m3 : sent_le m1 m2 → sent_le m2 m3 → sent_le m1 m3.
Proof. apply string_leb_trans. Qed.

Lemma insert_by_sent_sorted m l :
  StronglySorted sent_le l → StronglySorted sent_le (insert_by_sent m l).
Proof.
  induction 1 as [|m' l Hs IH Hall]; simpl; [by repeat constructor|].
  destruct (string_leb (m_sent_at m) (m_sent_at m')) eqn:El.
  - constructor; [by constructor|]. constructor; [done|].
    eapply Forall_impl; [exact Hall|]. intros m2. by apply sent_le_trans.
  - constructor; [done|]. rewrite insert_by_sent_perm. constructor; [|done].
    destruct (string_leb_total (m_sent_at m) (m_sent_at m')); [congruence|done].
Qed.

Lemma order_by_sent_sorted l : StronglySorted sent_le (order_by_sent l).
Proof. induction l; [constructor|]. by apply insert_by_sent_sorted. Qed.

Lemma elem_of_select_pending m id a db :
  m ∈ select_pending id a db ↔ is_pending id a m = true ∧ m ∈ messages db.
Proof. unfold select_pending. by rewrite order_by_sent_perm, elem_of_bfilter. Qed.

(** *** Updates key by key *)
Lemma same_core_msgs_inv db db' : same_core db db' → msgs_inv db → msgs_inv db'.
Proof. intros (_ & Hm & Hs & _). unfold msgs_inv. by rewrite Hm, Hs. Qed.

Lemma bind_queue_inv id a db :
  msgs_inv db → msgs_inv (set_messages db (bind_queue id a (messages db))).
Proof. apply msgs_inv_update; auto with broker. Qed.

Lemma joined_msgs_inv req id now db : msgs_inv db → msgs_inv (joined req id now db).
Proof.
  intros H. unfold joined. destruct (String.eqb _ _); [done|]. by apply (bind_queue_inv _ _ db).
Qed.

Lemma delivered_msgs_inv id now db : msgs_inv db → msgs_inv (delivered id now db).
Proof. apply msgs_inv_update; auto with broker. Qed.

Lemma released_msgs_inv id db :
  msgs_inv db → msgs_inv (set_messages db (released id (messages db))).
Proof.
  intros H. unfold released.
  apply (msgs_inv_update (set_messages db (delete_where (droppable id) (messages db))));
    auto with broker. by apply msgs_inv_delete.
Qed.

Lemma stored_msgs_inv req a s now db :
  msgs_inv db → 0 ≤ msg_seq db → msgs_inv (stored req a s now db).
Proof.
  intros (Hs & Hr & Hok) Hseq. unfold msgs_inv, stored. simpl.
  match goal with |- context [messages db ++ [?m]] =>
    destruct (snoc_key_sorted m_id (messages db) (msg_seq db) m) as [Hs' Hr'] end; [done..|].
  split; [done|]. split; [done|]. apply Forall_app. split; [done|]. by repeat constructor.
Qed.

Lemma msgs_inv_NoDup db : msgs_inv db → NoDup (m_id <$> messages db).
Proof. intros (Hs & _). by apply StronglySorted_lt_NoDup. Qed.

Lemma db_inv_msgs db : db_inv db → msgs_inv db.
Proof. by intros (_ & Hm & _)%db_inv_parts. Qed.

Lemma db_inv_peers db : db_inv db → peers_inv (peers db).
Proof. by intros (Hp & _)%db_inv_parts. Qed.

#[export] Hint Resolve db_inv_msgs db_inv_peers msgs_inv_NoDup : broker.

Definition id_among (ids : list Z) (m : MsgRow) : bool := bool_decide (m_id m ∈ ids).

Lemma fold_update_ids (f : MsgRow → MsgRow) ids l :
  (∀ m, m_id (f m) = m_id m) → NoDup ids →
  foldl (λ l id, update_where (has_msg_id id) f l) l ids = update_where (id_among ids) f l.
Proof.
  intros Hf. revert l. induction ids as [|id ids IH]; intros l Hnd.
  - simpl. symmetry. apply update_where_none, Forall_forall. intros m _.
    apply bool_decide_eq_false. apply not_elem_of_nil.
  - apply NoDup_cons in Hnd as [Hni Hnd]. simpl. rewrite IH by done.
    unfold update_where. rewrite <-list_fmap_compose. apply list_fmap_ext. intros _ m _. simpl.
    unfold has_msg_id, id_among. destruct (m_id m =? id) eqn:E; zify_bool.
    + rewrite Hf, E, bool_decide_eq_false_2 by done. rewrite bool_decide_eq_true_2; [done|].
      by left.
    + rewrite (bool_decide_ext (m_id m ∈ id :: ids) (m_id m ∈ ids)); [done|].
      rewrite elem_of_cons. tauto.
Qed.

Lemma update_where_ext {A} (P Q : A → bool) f (l : list A) :
  (∀ x, x ∈ l → P x = Q x) → update_where P f l = update_where Q f l.
Proof.
  intros H. apply list_fmap_ext. intros i x Hx. simpl.
  rewrite H; [done|]. by apply list_elem_of_lookup_2 in Hx.
Qed.

Lemma pending_ids_update (f : MsgRow → MsgRow) id a db :
  (∀ m, m_id (f m) = m_id m) → msgs_inv db →
  foldl (λ l i, update_where (has_msg_id i) f l) (messages db) (m_id <$> select_pending id a db)
  = update_where (is_pending id a) f (messages db).
Proof.
  intros Hf Hinv%msgs_inv_NoDup. rewrite fold_update_ids; [|done|].
  - apply update_where_ext. intros m Hm. apply eq_bool_prop_intro.
    unfold id_among. rewrite bool_decide_spec. rewrite list_elem_of_fmap. split.
    + intros (m' & Heq & [Hp Hm']%elem_of_select_pending).
      rewrite (NoDup_fmap_inj m_id (messages db) m m'); [by rewrite Hp|done..].
    + intros Hp%Is_true_eq_true. exists m. by rewrite elem_of_select_pending.
  - unfold select_pending. rewrite order_by_sent_perm. by apply NoDup_bfilter.
Qed.

Lemma foldl_set_messages {A} (g : A → list MsgRow → list MsgRow) (l : list A) db :
  foldl (λ db x, set_messages db (g x (messages db))) db l
  = set_messages db (foldl (λ m x, g x m) (messages db) l).
Proof.
  revert db. induction l as [|x l IH]; intros db; [by destruct db|]. simpl. by rewrite IH.
Qed.

(** ** Rules *)
Section rules.
Context {E : Env} (Hok : no_faults).

Lemma wp_exec_name_seen a now w (Q : result string Z → World → Prop) :
  (∀ r w', w_db w' = set_names (w_db w) (record_name a now (agent_names_seen (w_db w))) →
     w_ticks w' = w_ticks w → w_draws w' = w_draws w → Q r w') →
  wp (exec (insert_name_seen a now)) w Q.
Proof.
  intros HQ. destruct (insert_name_seen_ok a now (w_db w)) as [n Hn].
  eapply (wp_exec Hok); [exact Hn|]. by apply HQ.
Qed.

Lemma wp_register_conflict req h w (Q : RegisterResponse → World → Prop) :
  reg_AgentName req ≠ "" → select_holder (reg_AgentName req) (w_db w) = Some h →
  (∀ w', w_db w' = w_db w → w_draws w' = w_draws w →
     Q (mkRegisterResponse false "" (held_error (reg_AgentName req) (pr_id h)) (pr_id h)
          (pr_machine h) (pr_cwd h) (pr_started_at h)) w') →
  wp (register req) w Q.
Proof.
  intros Hne%String.eqb_neq Hh HQ. unfold register. rewrite Hne. cbn [negb].
  wp_steps. rewrite Hdb, Hh. wp_steps. apply HQ; congruence.
Qed.

Lemma wp_register_joined req w (Q : RegisterResponse → World → Prop) :
  (reg_AgentName req = "" ∨ select_holder (reg_AgentName req) (w_db w) = None) →
  session_exists (hex_encode (env_rand (w_draws w))) (w_db w) = false →
  (∀ w', same_core (joined req (hex_encode (env_rand (w_draws w)))
                      (formatRFC3339Nano (env_clock (w_ticks w))) (w_db w)) (w_db w') →
     Q (mkRegisterResponse true (hex_encode (env_rand (w_draws w))) "" "" "" "" "") w') →
  wp (register req) w Q.
Proof.
  intros Hh Hfresh HQ. unfold register, joined in *.
  destruct (String.eqb_spec (reg_AgentName req) "") as [He|Hne]; cbn [negb]; wp_steps.
  - eapply (wp_exec Hok); [rewrite insert_peer_ok; wp_norm; eauto|wp_intro]. wp_steps.
    wp_norm_all. apply HQ. by rewrite Hdb3.
  - destruct Hh as [|Hh]; [done|]. rewrite Hdb, Hh. wp_steps.
    eapply (wp_exec Hok); [rewrite insert_peer_ok; wp_norm; eauto|wp_intro]. wp_steps.
    apply wp_exec_name_seen. intros _. wp_intro. wp_steps. wp_norm_all. apply HQ.
    by rewrite Hdb6.
Qed.

Lemma wp_heartbeat req w (Q : HeartbeatResponse → World → Prop) :
  (∀ w', w_db w' = set_peers (w_db w) (update_where (has_id (hb_ID req))
           (set_last_seen (formatRFC3339Nano (env_clock (w_ticks w)))) (peers (w_db w))) →
     w_draws w' = w_draws w →
     Q (if session_exists (hb_ID req) (w_db w) then mkHeartbeatResponse true ""
        else mkHeartbeatResponse false HeartbeatReasonUnknownSession) w') →
  wp (heartbeat req) w Q.
Proof.
  intros HQ. unfold heartbeat. wp_steps. wp_norm_all. rewrite count_eqb_0.
  unfold session_exists in HQ. destruct (existsb _ _); apply HQ; by wp_norm_all.
Qed.

Lemma wp_store_message req now f a s q st w (Q : SendMessageResponse → World → Prop) :
  f = null_string (select_agent_name (send_FromID req) (w_db w)) →
  msg_seq (w_db w) < max_int64 →
  (∀ w', same_core (stored req a s now (w_db w)) (w_db w') → w_draws w' = w_draws w →
     Q (mkSendMessageResponse true (msg_seq (w_db w) + 1) q st "") w') →
  wp (store_message req now f a s q st) w Q.
Proof.
  intros -> Hseq HQ. unfold store_message. wp_steps.
  eapply (wp_exec Hok); [unfold insert_message|wp_intro].
  { destruct (_ <=? _) eqn:El; [zify_bool; lia|reflexivity]. }
  wp_steps. wp_norm_all. apply HQ; [by rewrite Hdb1|by wp_norm_all].
Qed.

Lemma wp_sendMessage req w (Q : SendMessageResponse → World → Prop) :
  msg_seq (w_db w) < max_int64 →
  match route req (w_db w) with
  | Some (a, s, q, st) =>
      ∀ w', same_core (stored req a s (formatRFC3339Nano (env_clock (w_ticks w))) (w_db w))
              (w_db w') → w_draws w' = w_draws w →
        Q (mkSendMessageResponse true (msg_seq (w_db w) + 1) q st "") w'
  | None =>
      ∀ w', w_db w' = w_db w →
        Q (send_error (if Bool.eqb (String.eqb (send_ToAgent req) "")
                            (String.eqb (send_ToSession req) "")
                       then "exactly one of to_agent or to_session must be set"
                       else "session " +:+ send_ToSession req +:+ " not found")) w'
  end →
  wp (sendMessage req) w Q.
Proof.
  intros Hseq. unfold route, sendMessage, route_agent.
  destruct (Bool.eqb _ _) eqn:Eb; [intros HQ; by apply HQ|].
  destruct (String.eqb (send_ToSession req) "") eqn:Es; cbn [negb].
  - intros HQ. wp_steps. rewrite Hdb0, Hdb.
    destruct (select_holder (send_ToAgent req) (w_db w)) as [h|].
    + destruct (String.eqb (pr_id h) ""); cbn [negb]; wp_steps; apply wp_store_message;
        wp_norm; auto.
    + wp_steps. apply wp_store_message; wp_norm; auto.
  - destruct (session_exists (send_ToSession req) (w_db w)) eqn:Ex; intros HQ;
      wp_steps; wp_norm; rewrite Ex; cbn [negb].
    + apply wp_store_message; wp_norm; auto.
    + wp_steps. apply HQ. by wp_norm.
Qed.

Lemma wp_listPeers req w (Q : list Peer → World → Prop) :
  (∀ w', w_db w' = w_db w → w_draws w' = w_draws w →
     Q (List.filter (λ p, negb (negb (String.eqb (lp_ExcludeID req) "")
                                 && String.eqb (peer_ID p) (lp_ExcludeID req)))
          (row_peer <$> select_peers req (w_db w))) w') →
  wp (listPeers req) w Q.
Proof. intros HQ. unfold listPeers. wp_steps. by apply HQ. Qed.

Lemma wp_peekMessages req w (Q : PollMessagesResponse → World → Prop) :
  (∀ w', w_db w' = w_db w →
     Q (mkPollMessagesResponse (mailbox (poll_ID req) (w_db w))) w') →
  wp (peekMessages req) w Q.
Proof. intros HQ. unfold peekMessages. wp_steps. wp_norm_all. by apply HQ. Qed.

Lemma wp_pollMessages req w (Q : PollMessagesResponse → World → Prop) :
  msgs_inv (w_db w) →
  (∀ w', w_db w' = delivered (poll_ID req) (formatRFC3339Nano (env_clock (w_ticks w))) (w_db w) →
     Q (mkPollMessagesResponse (mailbox (poll_ID req) (w_db w))) w') →
  wp (pollMessages req) w Q.
Proof.
  intros Hinv HQ. unfold pollMessages. wp_steps.
  apply (wp_for_each _ _ (λ m db, set_messages db
    (update_where (has_msg_id (msg_ID m))
       (set_delivered (formatRFC3339Nano (env_clock (w_ticks w))) (poll_ID req)) (messages db)))).
  - intros m w4 Q' HQ'. wp_steps. apply HQ'; [|congruence..]. wp_norm. by wp_norm_all.
  - wp_intro. wp_steps. wp_norm_all. apply HQ. rewrite Hdb2.
    rewrite (foldl_set_messages (λ m, update_where (has_msg_id (msg_ID m)) _)).
    unfold delivered. rewrite <-pending_ids_update by done.
    rewrite !foldl_fmap. done.
Qed.

Lemma wp_ackMessage req w (Q : unit → World → Prop) :
  (∀ w', w_db w' = set_messages (w_db w)
           (update_where (ackable (ack_MessageID req) (ack_SessionID req))
              (set_acked (formatRFC3339Nano (env_clock (w_ticks w))) (ack_SessionID req))
              (messages (w_db w))) → Q tt w') →
  wp (ackMessage req) w Q.
Proof. intros HQ. unfold ackMessage. wp_steps. apply HQ. by wp_norm_all. Qed.

Lemma wp_unregister req w (Q : unit → World → Prop) :
  (∀ w', same_core (departed (unreg_ID req) (w_db w)) (w_db w') → w_draws w' = w_draws w →
     Q tt w') →
  wp (unregister req) w Q.
Proof.
  intros HQ. unfold unregister. wp_steps. apply HQ; wp_norm_all; [|done].
  destruct Hdb as (Hp & Hm & Hs & Hn & Hk). unfold departed, released.
  repeat split; simpl; congruence.
Qed.

Lemma wp_claimAgent_refused req w (Q : ClaimAgentResponse → World → Prop) :
  claim_AgentName req ≠ "" →
  (∀ r w', w_db w' = w_db w → claimr_OK r = false →
    match select_agent_name (claim_SessionID req) (w_db w) with
    | None => True
    | Some n => n ≠ "" ∨ ∃ h, select_holder (claim_AgentName req) (w_db w) = Some h
                            ∧ claimr_HeldBySession r = pr_id h
    end → Q r w') →
  select_agent_name (claim_SessionID req) (w_db w) ≠ Some ""
    ∨ select_holder (claim_AgentName req) (w_db w) ≠ None →
  wp (claimAgent req) w Q.
Proof.
  intros Hne%String.eqb_neq HQ Hor. unfold claimAgent. rewrite Hne. wp_steps.
  destruct (select_agent_name _ _) as [n|]; [|wp_steps; by apply HQ].
  destruct (String.eqb_spec n "") as [->|Hn]; cbn [negb]; wp_steps; [|by apply HQ; [..|left]].
  destruct (select_holder _ (w_db w0)) as [h|] eqn:Eh; rewrite Hdb in Eh.
  - wp_steps. apply HQ; [congruence|done|]. right. by exists h.
  - by destruct Hor.
Qed.

Lemma wp_claimAgent_ok req w (Q : ClaimAgentResponse → World → Prop) :
  claim_AgentName req ≠ "" →
  select_agent_name (claim_SessionID req) (w_db w) = Some "" →
  select_holder (claim_AgentName req) (w_db w) = None →
  (∀ w', same_core (claimed (claim_AgentName req) (claim_SessionID req)
           (formatRFC3339Nano (env_clock (w_ticks w))) (w_db w)) (w_db w') →
     Q (mkClaimAgentResponse true "" "" "" "" "") w') →
  wp (claimAgent req) w Q.
Proof.
  intros Hne%String.eqb_neq Hs Hh HQ. unfold claimAgent. rewrite Hne. wp_steps. rewrite Hs,
    String.eqb_refl. cbn [negb]. wp_steps. rewrite Hdb, Hh. wp_steps.
  eapply (wp_exec Hok); [rewrite update_agent_name_ok; wp_norm; eauto|wp_intro]. wp_steps.
  apply wp_exec_name_seen. intros _. wp_intro. wp_steps.
  apply HQ. wp_norm_all. exact Hdb5.
Qed.

Lemma wp_cleanStalePeers w (Q : unit → World → Prop) :
  (∀ w', same_core (swept (formatRFC3339 (env_clock (w_ticks w) + wrap64 (- stale_seconds * Second)))
                      (w_db w)) (w_db w') → Q tt w') →
  wp cleanStalePeers w Q.
Proof.
  intros HQ. unfold cleanStalePeers. wp_steps.
  apply (wp_for_each _ _ (λ id db, set_messages db (released id (messages db)))).
  - intros id w4 Q' HQ'. wp_steps. apply HQ'; [|congruence..]. by wp_norm_all.
  - wp_intro. wp_steps. apply HQ. wp_norm_all.
    rewrite (foldl_set_messages released). done.
Qed.
End rules.
