(* ===== verification/Lifecycle.v ===== *)
(** * The life of a message

    The abstract specification of the message store: one message at a time, as a
    state machine over its phases.  Every statement any handler executes moves
    every message along the machine or leaves it alone, so every interleaving
    of the handlers refines it. *)

From S2P Require Import Prelude GoStrings GoTime Types Store Prog World Broker Dispatch Demo.
From S2P Require Import BrokerInv BrokerWp BrokerOps.

(** ** The machine *)

(** The session of a phase is the one the message is bound to; "" is none. *)
Inductive Phase : Type :=
| Unsent
| Waiting (s : string)
| Delivered (s : string)
| AckedEarly (s : string)
| Settled (s : string)
| Gone.

#[export] Instance Phase_eq_dec : EqDecision Phase.
Proof. solve_decision. Defined.

Inductive life : Phase → Phase → Prop :=
| life_send s : life Unsent (Waiting s)
| life_bind s : life (Waiting "") (Waiting s)
| life_bind_acked s : life (AckedEarly "") (AckedEarly s)
| life_deliver s s' : life (Waiting s) (Delivered s')
| life_redeliver s s' : life (Delivered s) (Delivered s')
| life_deliver_acked s s' : life (AckedEarly s) (Settled s')
| life_redeliver_acked s s' : life (Settled s) (Settled s')
| life_ack s : life (Delivered s) (Settled s)
| life_ack_early s : life (Waiting s) (AckedEarly s)
| life_requeue s : life (Delivered s) (Waiting "")
| life_unbind s : life (Waiting s) (Waiting "")
| life_expire p : p ≠ Unsent → life p Gone.

#[export] Hint Constructors life : broker.

(** Phases from which no poll returns the message again. *)
Definition final (p : Phase) : bool :=
  match p with Settled _ | Gone => true | _ => false end.

Lemma life_final p p' : rtc life p p' → final p = true → final p' = true.
Proof. induction 1 as [p|p1 p2 p3 Hs _ IH]; [done|]. intros Hf. apply IH. by destruct Hs. Qed.

(** ** The phase of a row *)
Definition row_phase (m : MsgRow) : Phase :=
  match is_null (m_delivered_at m), is_null (m_ack_at m) with
  | true, true => Waiting (m_to_session m)
  | false, true => Delivered (m_to_session m)
  | true, false => AckedEarly (m_to_session m)
  | false, false => Settled (m_to_session m)
  end.

Definition phase (i : Z) (db : DB) : Phase :=
  match find (has_msg_id i) (messages db) with
  | Some m => row_phase m
  | None => if (0 <? i) && (i <=? msg_seq db) then Gone else Unsent
  end.

Lemma row_phase_sent m : row_phase m ≠ Unsent.
Proof. unfold row_phase. by destruct (is_null _), (is_null _). Qed.

(** One statement moves message [i] by at most one transition. *)
Definition life_step (i : Z) (db db' : DB) : Prop :=
  db_inv db → phase i db = phase i db' ∨ life (phase i db) (phase i db').

(** ** Statements *)
Lemma find_update_where (P Q : MsgRow → bool) f l :
  (∀ m, Q (f m) = Q m) →
  find Q (update_where P f l) = (λ m, if P m then f m else m) <$> find Q l.
Proof.
  intros Hf. induction l as [|m l IH]; [done|]. csimpl.
  assert (Q (if P m then f m else m) = Q m) as -> by (destruct (P m); [apply Hf|done]).
  destruct (Q m); [done|apply IH].
Qed.

Lemma phase_same i db db' :
  messages db' = messages db → msg_seq db' = msg_seq db → phase i db' = phase i db.
Proof. intros Hm Hs. unfold phase. by rewrite Hm, Hs. Qed.

Lemma life_step_update i P f db :
  (∀ m, m_id (f m) = m_id m) →
  (∀ m, P m = true → row_phase m = row_phase (f m) ∨ life (row_phase m) (row_phase (f m))) →
  life_step i db (set_messages db (update_where P f (messages db))).
Proof.
  intros Hid Hl _. unfold phase. simpl.
  rewrite find_update_where by (intros m; unfold has_msg_id; by rewrite Hid).
  destruct (find _ _) as [m|]; [|by left]. simpl. destruct (P m) eqn:E; [auto|by left].
Qed.

Lemma life_step_delete i P db :
  life_step i db (set_messages db (delete_where P (messages db))).
Proof.
  intros Hinv. unfold phase. simpl.
  destruct (find (has_msg_id i) (delete_where P (messages db))) as [m'|] eqn:E'.
  - apply find_some_elem in E' as [[_ Hm']%elem_of_delete_where Hi'].
    destruct (find (has_msg_id i) (messages db)) as [m|] eqn:E.
    + apply find_some_elem in E as [Hm Hi]. left. f_equal.
      unfold has_msg_id in *. zify_bool.
      apply (NoDup_fmap_inj m_id (messages db)); [|done..|lia].
      by apply StronglySorted_lt_NoDup, inv_msg_sorted.
    + apply find_none_iff in E. rewrite Forall_forall in E. by rewrite E in Hi'.
  - destruct (find (has_msg_id i) (messages db)) as [m|] eqn:E; [|by left]. right.
    apply find_some_elem in E as [Hm Hi]. unfold has_msg_id in Hi. zify_bool.
    pose proof (inv_msg_range _ Hinv) as Hr. rewrite Forall_forall in Hr.
    specialize (Hr m Hm). simpl in Hr.
    assert ((0 <? i) && (i <=? msg_seq db) = true)%bool as -> by lia.
    apply life_expire, row_phase_sent.
Qed.

Lemma phase_insert_message i a s f fa t now db db' n :
  insert_message a s f fa t now db = Some (db', n) → life_step i db db'.
Proof.
  unfold insert_message. destruct (_ <=? _); [done|]. intros [= <- <-] Hinv.
  unfold phase. simpl. rewrite find_app.
  destruct (find (has_msg_id i) (messages db)) as [m|]; [by left|]. simpl.
  unfold has_msg_id. simpl. pose proof (inv_seq _ Hinv).
  destruct (msg_seq db + 1 =? i) eqn:E; zify_bool.
  - right. assert ((0 <? i) && (i <=? msg_seq db) = false)%bool as -> by lia. constructor.
  - left. by assert ((0 <? i) && (i <=? msg_seq db + 1) = (0 <? i) && (i <=? msg_seq db))%bool
      as -> by lia.
Qed.

Lemma set_session_phase s a m :
  queued_for a m = true → life (row_phase m) (row_phase (set_session s m)).
Proof.
  unfold queued_for, to_session_is, row_phase. simpl.
  intros [[_ ->%String.eqb_eq]%andb_true_iff ->]%andb_true_iff.
  destruct (is_null (m_ack_at m)); constructor.
Qed.

Lemma set_delivered_phase now s m : life (row_phase m) (row_phase (set_delivered now s m)).
Proof. unfold row_phase. simpl. destruct (is_null _), (is_null _); constructor. Qed.

Lemma set_acked_phase now s i m :
  ackable i s m = true →
  row_phase m = row_phase (set_acked now s m) ∨ life (row_phase m) (row_phase (set_acked now s m)).
Proof.
  intros _. unfold row_phase. simpl. destruct (is_null _), (is_null _); auto with broker.
Qed.

Lemma set_requeued_phase s m :
  requeueable s m = true → life (row_phase m) (row_phase (set_requeued m)).
Proof.
  unfold requeueable, row_phase. simpl. intros [_ ->]%andb_true_iff.
  destruct (is_null _); constructor.
Qed.

Lemma issued_life i rq f : issued rq f → respects (life_step i) f.
Proof.
  intros Hf db db' n Heq.
  destruct Hf; try (injection Heq as <- <-; first
    [ intros _; left; symmetry; by apply phase_same
    | apply life_step_delete
    | apply life_step_update; [done|];
      eauto using set_session_phase, set_delivered_phase, set_acked_phase, set_requeued_phase ];
    fail).
  - intros _. left. unfold insert_peer in Heq. destruct (_ || _)%bool; [done|].
    by injection Heq as <- <-.
  - intros _. left. unfold insert_name_seen in Heq.
    destruct (_ !! _); by injection Heq as <- <-.
  - by eapply phase_insert_message.
  - intros _. left. unfold update_agent_name in Heq. destruct (_ && _ && _)%bool; [done|].
    by injection Heq as <- <-.
  - intros _. left. unfold insert_name_seen in Heq.
    destruct (_ !! _); by injection Heq as <- <-.
  - intros _. left. unfold insert_event in Heq. destruct (_ <=? _); [done|].
    by injection Heq as <- <-.
Qed.

(** ** Runs *)

(** From a well-formed database, the phase moves along the machine. *)
Definition life_run (i : Z) (db db' : DB) : Prop :=
  db_inv db → db_inv db' ∧ rtc life (phase i db) (phase i db').

#[export] Instance life_run_preorder i : PreOrder (life_run i).
Proof.
  split; [by intros db|]. intros db1 db2 db3 H1 H2 Hinv.
  destruct (H1 Hinv) as [Hinv2 Hr1]. destruct (H2 Hinv2) as [Hinv3 Hr2].
  split; [done|]. by etrans.
Qed.

Lemma issued_life_run i rq f : issued rq f → respects (life_run i) f.
Proof.
  intros Hf db db' n Heq Hinv. split; [by eapply (issued_db_inv _ _ Hf)|].
  destruct (issued_life i _ _ Hf _ _ _ Heq Hinv) as [->|Hl]; [done|by apply rtc_once].
Qed.

Lemma phase_of_elem db m : msgs_inv db → m ∈ messages db → phase (m_id m) db = row_phase m.
Proof.
  intros Hinv Hm. unfold phase. destruct (find _ _) as [m'|] eqn:E.
  - apply find_some_elem in E as [Hm' Hi]. unfold has_msg_id in Hi. zify_bool. f_equal.
    by apply (NoDup_fmap_inj m_id (messages db)); [by auto with broker|..].
  - apply find_none_iff in E. rewrite Forall_forall in E. specialize (E m Hm).
    unfold has_msg_id in E. zify_bool. lia.
Qed.

(** The phases a poll may hand out. *)
Definition pollable (p : Phase) : bool :=
  match p with Waiting _ | AckedEarly _ => true | _ => false end.

Lemma not_pollable db i id a :
  msgs_inv db → pollable (phase i db) = false → i ∉ m_id <$> select_pending id a db.
Proof.
  intros Hinv Hf (m & -> & [Hp Hm]%elem_of_select_pending)%list_elem_of_fmap.
  rewrite phase_of_elem in Hf by done. unfold row_phase in Hf.
  unfold is_pending in Hp. apply andb_true_iff in Hp as [Hp _]. rewrite Hp in Hf.
  by destruct (is_null (m_ack_at m)).
Qed.

Lemma final_not_pollable p : final p = true → pollable p = false.
Proof. by destruct p. Qed.

Section interleaved.
Context {E : Env}.

Lemma steps_life_run i w pool' w' :
  steps dispatch ([], w) (pool', w') → life_run i (w_db w) (w_db w').
Proof.
  intros Hs. apply (steps_all_acts dispatch (on_db (life_run i)) ([], w) (pool', w'));
    [|done|constructor].
  intros rq. apply dispatch_acts; [typeclasses eauto|]. apply issued_life_run.
Qed.

(** C2: Refinement: whatever handlers interleave and whatever the driver fails,
    each message follows the machine. *)
Theorem message_lifecycle i w pool' w' :
  steps dispatch ([], w) (pool', w') → db_inv (w_db w) →
  rtc life (phase i (w_db w)) (phase i (w_db w')).
Proof. intros Hs Hinv. by apply (steps_life_run i w pool' w' Hs). Qed.

(** C21: A message both delivered and acknowledged is never handed out again. *)
Theorem settled_never_polled i s w pool' w' id a :
  steps dispatch ([], w) (pool', w') → db_inv (w_db w) → phase i (w_db w) = Settled s →
  i ∉ m_id <$> select_pending id a (w_db w').
Proof.
  intros Hs Hinv Hp. destruct (steps_life_run i w pool' w' Hs Hinv) as [Hinv' Hl].
  apply life_final in Hl; [|by rewrite Hp].
  apply not_pollable; [by apply db_inv_msgs|]. by apply final_not_pollable.
Qed.
End interleaved.

(** ** Witnesses *)

(** "builder" is sent a message, polls it and acknowledges it. *)
Definition settled_story : list Request :=
  [join "planner"; RqSend (send_agent "00000000" "builder" "hello"); join "builder";
   RqPoll (mkPollMessagesRequest "00000001"); RqAck (mkAckMessageRequest "00000001" 1)].

Lemma message_lifecycle_witness : rtc life Unsent (Settled "00000001").
Proof.
  destruct (after_steps settled_story) as [pool Hs].
  pose proof (message_lifecycle 1 _ _ _ Hs empty_db_inv) as Hl.
  assert (phase 1 (w_db (after settled_story)) = Settled "00000001") as Hp by (vm_compute; done).
  by rewrite Hp in Hl.
Defined.

Lemma settled_never_polled_witness :
  1 ∉ m_id <$> select_pending "00000002" "builder"
        (w_db (play (@dispatch demo_env) (after settled_story)
                 [RqUnregister (mkUnregisterRequest "00000001"); join "builder"])).
Proof.
  destruct (steps_play (@dispatch demo_env) [] (after settled_story)
    [RqUnregister (mkUnregisterRequest "00000001"); join "builder"]) as [pool Hs].
  apply (settled_never_polled 1 "00000001" _ _ _ _ _ Hs); [apply after_db_inv|].
  vm_compute. done.
Defined.
