(* ===== verification/Mail.v ===== *)
(** * Messaging, end to end

    What senders and receivers may rely on when the operations run one after
    the other: routing, delivery, order, acknowledgement, and the continuity of
    an agent's queue from one session to the next. *)

From S2P Require Import Prelude GoStrings GoTime Types Store Prog World Broker Dispatch Demo.
From S2P Require Import BrokerInv BrokerWp BrokerOps Lifecycle.

(** ** Helper lemmas *)

Lemma bfilter_update_where_none {A} (P : A → bool) f (l : list A) :
  (∀ x, P x = true → P (f x) = false) → List.filter P (update_where P f l) = [].
Proof.
  intros Hf. apply bfilter_none, Forall_forall.
  intros y (x & -> & _)%elem_of_update_where. destruct (P x) eqn:E; auto.
Qed.

Lemma set_delivered_not_pending now s id a m : is_pending id a (set_delivered now s m) = false.
Proof. done. Qed.

Lemma mailbox_delivered id now db : mailbox id (delivered id now db) = [].
Proof.
  unfold mailbox, select_pending.
  assert (poll_agent id (delivered id now db) = poll_agent id db) as -> by done. simpl.
  rewrite bfilter_update_where_none; [done|]. intros m _. apply set_delivered_not_pending.
Qed.

Lemma elem_of_mailbox id db m :
  m ∈ messages db → is_pending id (poll_agent id db) m = true → row_message m ∈ mailbox id db.
Proof.
  intros Hm Hp. apply list_elem_of_fmap_2. by apply elem_of_select_pending.
Qed.

Lemma mailbox_core id db db' : same_core db db' → mailbox id db' = mailbox id db.
Proof.
  intros (Hp & Hm & _). unfold mailbox, poll_agent, select_agent_name, select_pending.
  by rewrite Hp, Hm.
Qed.

Lemma select_holder_core a db db' : same_core db db' → select_holder a db' = select_holder a db.
Proof. intros (Hp & _). unfold select_holder. by rewrite Hp. Qed.

Lemma session_exists_core id db db' :
  same_core db db' → session_exists id db' = session_exists id db.
Proof. intros (Hp & _). unfold session_exists. by rewrite Hp. Qed.

Lemma poll_agent_core id db db' : same_core db db' → poll_agent id db' = poll_agent id db.
Proof. intros (Hp & _). unfold poll_agent, select_agent_name. by rewrite Hp. Qed.

Lemma string_leb_seconds t1 t2 :
  in_era t1 → in_era t2 →
  string_leb (formatRFC3339Nano t1) (formatRFC3339Nano t2) = true → unix_sec t1 ≤ unix_sec t2.
Proof.
  intros H1 H2 Hle. apply Z.le_ngt. intros Hlt%nano_lt_seconds; [|done..].
  rewrite string_leb_ltb in Hle. apply negb_true_iff in Hle.
  by apply not_true_iff_false in Hle; rewrite string_ltb_lt in Hle.
Qed.

(** Requests in sequence, each with its own result. *)
Definition both {A B} (p : handler A) (q : handler B) : handler (A * B) :=
  a ← p; b ← q; Ret (a, b).

(** Rows whose texts are stamps of the clock. *)
Definition stamped (m : MsgRow) (t : Z) : Prop := in_era t ∧ m_sent_at m = formatRFC3339Nano t.

(** [m] was not sent in a later second than [m']. *)
Definition sent_no_later (m m' : MsgRow) : Prop :=
  ∀ t t', stamped m t → stamped m' t' → unix_sec t ≤ unix_sec t'.

Lemma sent_le_no_later m m' : sent_le m m' → sent_no_later m m'.
Proof.
  unfold sent_le. intros Hle t t' [Ht Hm] [Ht' Hm']. rewrite Hm, Hm' in Hle.
  by apply string_leb_seconds.
Qed.

Lemma route_bound req a s q db : route req db = Some (a, s, q, DeliveryStatusBound) → q = false.
Proof. unfold route. repeat case_match; congruence. Qed.

Lemma stored_elem req a s now db db' :
  same_core (stored req a s now db) db' →
  mkMsgRow (msg_seq db + 1) a s (send_FromID req)
    (null_string (select_agent_name (send_FromID req) db)) (send_Text req) now None None None 0
  ∈ messages db'.
Proof. intros (_ & -> & _). simpl. apply elem_of_app. right. by left. Qed.

(** A registration hands the whole queue of the agent to its new session. *)
Lemma joined_poll_agent req id now db :
  session_exists id db = false → poll_agent id (joined req id now db) = reg_AgentName req.
Proof.
  intros Hid. unfold poll_agent, select_agent_name.
  assert (peers (joined req id now db) = peers db ++ [new_row req id now]) as ->.
  { unfold joined. by destruct (String.eqb _ _). }
  rewrite find_app. unfold session_exists in Hid. apply existsb_false_iff, find_none_iff in Hid.
  rewrite Hid. simpl. unfold has_id. simpl. by rewrite String.eqb_refl.
Qed.

(** [msg] is what a poll shows of [m], wherever [m] was bound before. *)
Definition shows (msg : Message) (m : MsgRow) : Prop :=
  msg_ID msg = m_id m ∧ msg_Text msg = m_text m ∧ msg_FromSession msg = m_from_session m
  ∧ msg_FromAgent msg = m_from_agent m ∧ msg_SentAt msg = m_sent_at m
  ∧ msg_Attempts msg = m_attempts m.

Lemma joined_mailbox req id now db m :
  reg_AgentName req ≠ "" → session_exists id db = false →
  m ∈ messages db → m_to_agent m = reg_AgentName req → m_delivered_at m = None →
  ∃ msg, msg ∈ mailbox id (joined req id now db) ∧ shows msg m.
Proof.
  intros Hne Hid Hm Ha Hd.
  exists (row_message (if queued_for (reg_AgentName req) m then set_session id m else m)).
  split; [|by destruct (queued_for _ _)]. apply elem_of_mailbox.
  - unfold joined. apply String.eqb_neq in Hne. rewrite Hne. simpl.
    apply elem_of_update_where. eauto.
  - rewrite joined_poll_agent by done. apply String.eqb_neq in Hne.
    unfold is_pending, to_agent_is.
    destruct (queued_for _ _); simpl; rewrite Hd, Ha, String.eqb_refl, Hne; simpl;
      apply orb_true_r.
Qed.

Lemma released_elem s m l :
  m ∈ l → m_to_agent m ≠ "" → m_to_session m = s → m_ack_at m = None →
  set_requeued m ∈ released s l.
Proof.
  intros Hm Ha%String.eqb_neq Hs Hack. unfold released. apply elem_of_update_where. exists m.
  unfold requeueable, to_session_is, to_agent_is. rewrite Hs, String.eqb_refl, Ha, Hack.
  split; [done|]. apply elem_of_delete_where. unfold droppable, to_agent_is.
  by rewrite Ha, andb_false_r.
Qed.

Lemma departed_select_holder a s db :
  (∀ p, p ∈ peers db → pr_agent_name p = a → pr_id p = s) →
  select_holder a (departed s db) = None.
Proof.
  intros Hh. apply find_none_iff, Forall_forall. simpl. intros p [Hi Hp]%elem_of_delete_where.
  unfold has_agent, has_id in *. apply String.eqb_neq in Hi. apply String.eqb_neq. auto.
Qed.

Lemma session_exists_delete P id db :
  session_exists id db = false →
  existsb (has_id id) (delete_where P (peers db)) = false.
Proof. unfold session_exists. rewrite !existsb_false_iff. apply Forall_bfilter. Qed.

(** What an acknowledgement by session [s] makes of a phase. *)
Definition acked_by (s : string) (p : Phase) : Phase :=
  match p with
  | Delivered s' => if String.eqb s' s then Settled s' else p
  | Waiting s' => if String.eqb s' s then AckedEarly s' else p
  | _ => p
  end.

Lemma set_acked_row_phase now i s m :
  m_id m = i →
  row_phase (if ackable i s m then set_acked now s m else m) = acked_by s (row_phase m).
Proof.
  intros Hi. unfold ackable, has_msg_id, to_session_is. rewrite Hi, Z.eqb_refl. simpl.
  unfold row_phase. destruct (String.eqb_spec (m_to_session m) s) as [Heq|Hne%String.eqb_neq];
    simpl; destruct (is_null (m_delivered_at m)), (is_null (m_ack_at m)); simpl;
    rewrite ?Heq, ?String.eqb_refl, ?Hne; done.
Qed.

(** The database after an acknowledgement. *)
Definition acked (req : AckMessageRequest) (now : string) (db : DB) : DB :=
  set_messages db (update_where (ackable (ack_MessageID req) (ack_SessionID req))
    (set_acked now (ack_SessionID req)) (messages db)).

Lemma acked_phase req now i db :
  phase i (acked req now db) =
    if i =? ack_MessageID req then acked_by (ack_SessionID req) (phase i db) else phase i db.
Proof.
  unfold phase. simpl. rewrite find_update_where by done.
  destruct (find (has_msg_id i) _) as [m|] eqn:Ef; simpl.
  - apply find_some_elem in Ef as [_ Hi]. unfold has_msg_id in Hi. zify_bool.
    destruct (i =? ack_MessageID req) eqn:Ei; zify_bool.
    + apply set_acked_row_phase. congruence.
    + unfold ackable, has_msg_id. by rewrite (proj2 (Z.eqb_neq _ _)) by lia.
  - by destruct (i =? _), (_ && _)%bool.
Qed.

(** What a poll by session [s] makes of a phase. *)
Definition polled_by (s : string) (p : Phase) : Phase :=
  match p with
  | Waiting _ => Delivered s
  | AckedEarly _ => Settled s
  | _ => p
  end.

Lemma delivered_phase id now db i :
  msgs_inv db →
  phase i (delivered id now db) =
    if bool_decide (i ∈ msg_ID <$> mailbox id db) then polled_by id (phase i db) else phase i db.
Proof.
  intros Hinv. unfold phase. simpl. rewrite find_update_where by done.
  assert (i ∈ msg_ID <$> mailbox id db ↔
    ∃ m, m ∈ messages db ∧ is_pending id (poll_agent id db) m = true ∧ m_id m = i) as Hin.
  { unfold mailbox. rewrite <-list_fmap_compose, list_elem_of_fmap. simpl. split.
    - intros (m & -> & [Hp Hm]%elem_of_select_pending). eauto.
    - intros (m & Hm & Hp & <-). exists m. by rewrite elem_of_select_pending. }
  destruct (find (has_msg_id i) _) as [m|] eqn:Ef; simpl.
  - apply find_some_elem in Ef as [Hm Hi]. unfold has_msg_id in Hi. zify_bool.
    destruct (is_pending id (poll_agent id db) m) eqn:Ep.
    + rewrite bool_decide_eq_true_2 by (apply Hin; eauto).
      unfold is_pending in Ep. apply andb_true_iff in Ep as [Ep _].
      unfold row_phase. rewrite Ep. simpl. by destruct (is_null (m_ack_at m)).
    + rewrite bool_decide_eq_false_2; [done|]. rewrite Hin. intros (m' & Hm' & Ep' & Hi').
      assert (m = m') as <- by (apply (NoDup_fmap_inj m_id (messages db)); [by auto with broker|done..|lia]).
      congruence.
  - apply find_none_iff in Ef. rewrite Forall_forall in Ef.
    rewrite bool_decide_eq_false_2; [done|]. rewrite Hin.
    intros (m & Hm%Ef & _ & Hi). unfold has_msg_id in Hm. zify_bool. lia.
Qed.

(** A session registers under an agent name and polls. *)
Definition register_and_poll {E : Env} (req : RegisterRequest) : handler PollMessagesResponse :=
  r ← register req; pollMessages (mkPollMessagesRequest (regr_ID r)).

Section mail.
Context {E : Env} (Hok : no_faults).

(** C20: A poll returns exactly the undelivered messages of the session and of the
    agent it holds, marks exactly those delivered to the session, and a second
    poll returns nothing. *)
Theorem poll_delivers_once req w :
  msgs_inv (w_db w) →
  wp (both (pollMessages req) (pollMessages req)) w (λ r w',
    pollr_Messages r.1 = mailbox (poll_ID req) (w_db w)
    ∧ pollr_Messages r.2 = []
    ∧ messages (w_db w') =
        update_where (is_pending (poll_ID req) (poll_agent (poll_ID req) (w_db w)))
          (set_delivered (formatRFC3339Nano (env_clock (w_ticks w))) (poll_ID req))
          (messages (w_db w))).
Proof.
  intros Hinv. unfold both. wp_step. apply (wp_pollMessages Hok); [done|]. intros w1 Hdb1. wp_step.
  apply (wp_pollMessages Hok); [rewrite Hdb1; by apply delivered_msgs_inv|]. intros w2 Hdb2.
  wp_step. simpl. rewrite Hdb1, mailbox_delivered. split; [done|]. split; [done|].
  rewrite Hdb2, Hdb1. unfold delivered at 1. simpl. apply update_where_none, Forall_forall.
  intros y (m & -> & _)%elem_of_update_where.
  assert (poll_agent (poll_ID req) (delivered (poll_ID req)
    (formatRFC3339Nano (env_clock (w_ticks w))) (w_db w)) = poll_agent (poll_ID req) (w_db w))
    as -> by done.
  by destruct (is_pending _ _ m) eqn:Ep.
Qed.

(** A peek changes nothing and shows what the next poll returns. *)
Theorem peek_predicts_poll req w :
  msgs_inv (w_db w) →
  wp (peekMessages req) w (λ r w',
    w_db w' = w_db w ∧ wp (pollMessages req) w' (λ r' _, r' = r)).
Proof.
  intros Hinv. apply (wp_peekMessages Hok). intros w1 Hdb1. split; [done|].
  apply (wp_pollMessages Hok); [by rewrite Hdb1|]. intros w2 _. by rewrite Hdb1.
Qed.

(** A poll returns messages in the order of the seconds they were sent in. *)
Theorem poll_order_by_second id a db :
  StronglySorted sent_no_later (select_pending id a db).
Proof.
  unfold select_pending. generalize (List.filter (is_pending id a) (messages db)).
  intros l. induction (order_by_sent_sorted l) as [|m l' _ IH Hall]; constructor; [done|].
  eapply Forall_impl; [exact Hall|]. intros m'. apply sent_le_no_later.
Qed.

(** C22: [sendMessage] stores the message where [route] says and reports it, or
    refuses without touching the database. *)
Theorem send_implements_route req w :
  msg_seq (w_db w) < max_int64 →
  wp (sendMessage req) w (λ r w',
    match route req (w_db w) with
    | Some (a, s, q, st) =>
        r = mkSendMessageResponse true (msg_seq (w_db w) + 1) q st ""
        ∧ same_core (stored req a s (formatRFC3339Nano (env_clock (w_ticks w))) (w_db w)) (w_db w')
    | None => sendr_OK r = false ∧ sendr_Error r ≠ "" ∧ w_db w' = w_db w
    end).
Proof.
  intros Hseq. apply (wp_sendMessage Hok); [done|].
  destruct (route req (w_db w)) as [[[[a s] q] st]|]; [by intros ? ? ?|].
  intros w' Hdb. split; [done|]. split; [|done]. simpl. by destruct (Bool.eqb _ _).
Qed.

(** A message reported as bound is in the next poll of the session it is
    bound to. *)
Theorem bound_message_is_polled req a s q w :
  msgs_inv (w_db w) → 0 ≤ msg_seq (w_db w) < max_int64 →
  route req (w_db w) = Some (a, s, q, DeliveryStatusBound) →
  wp (both (sendMessage req) (pollMessages (mkPollMessagesRequest s))) w (λ r _,
    sendr_OK r.1 = true ∧ sendr_Queued r.1 = false
    ∧ ∃ msg, msg ∈ pollr_Messages r.2 ∧ msg_ID msg = sendr_MessageID r.1
             ∧ msg_Text msg = send_Text req ∧ msg_FromSession msg = send_FromID req).
Proof.
  intros Hinv Hseq Hr. unfold both. wp_step. apply (wp_sendMessage Hok); [lia|].
  rewrite Hr. intros w1 Hcore _. wp_step. apply (wp_pollMessages Hok).
  { eapply same_core_msgs_inv; [exact Hcore|]. apply stored_msgs_inv; [done|lia]. }
  intros w2 _. wp_step. simpl. split; [done|]. split; [by eapply route_bound|].
  eexists. split; [apply elem_of_mailbox; [by apply (stored_elem req a s _ _ _ Hcore)|]|done].
  unfold is_pending, to_session_is. simpl.
  by rewrite String.eqb_refl.
Qed.

Lemma wp_register_and_poll req m w :
  msgs_inv (w_db w) → reg_AgentName req ≠ "" →
  select_holder (reg_AgentName req) (w_db w) = None →
  session_exists (hex_encode (env_rand (w_draws w))) (w_db w) = false →
  m ∈ messages (w_db w) → m_to_agent m = reg_AgentName req → m_delivered_at m = None →
  wp (register_and_poll req) w (λ r _, ∃ msg, msg ∈ pollr_Messages r ∧ shows msg m).
Proof.
  intros Hinv Hne Hh Hid Hm Ha Hd. unfold register_and_poll. wp_step.
  apply (wp_register_joined Hok); [by right|done|]. intros w1 Hcore.
  apply (wp_pollMessages Hok).
  { eapply same_core_msgs_inv; [exact Hcore|]. by apply joined_msgs_inv. }
  intros w2 _. simpl. rewrite (mailbox_core _ _ _ Hcore). by apply joined_mailbox.
Qed.

(** C16: A message to a name nobody holds waits, and the next session that registers
    under the name receives it in its first poll. *)
Theorem queued_message_reaches_next_holder req rreq w :
  msgs_inv (w_db w) → 0 ≤ msg_seq (w_db w) < max_int64 →
  send_ToSession req = "" → send_ToAgent req ≠ "" → send_ToAgent req = reg_AgentName rreq →
  select_holder (send_ToAgent req) (w_db w) = None →
  session_exists (hex_encode (env_rand (w_draws w))) (w_db w) = false →
  wp (both (sendMessage req) (register_and_poll rreq)) w (λ r _,
    sendr_OK r.1 = true ∧ sendr_Queued r.1 = true
    ∧ ∃ msg, msg ∈ pollr_Messages r.2 ∧ msg_ID msg = sendr_MessageID r.1
             ∧ msg_Text msg = send_Text req ∧ msg_FromSession msg = send_FromID req).
Proof.
  intros Hinv Hseq Hs Ha Heq Hh Hid.
  assert (∃ st, route req (w_db w) = Some (send_ToAgent req, "", true, st)) as [st Hr].
  { unfold route. apply String.eqb_neq in Ha. rewrite Hs, Ha, Hh. simpl. by eexists. }
  unfold both. wp_step. apply (wp_sendMessage Hok); [lia|]. rewrite Hr. intros w1 Hcore Hdr.
  wp_step. pose proof (stored_elem _ _ _ _ _ _ Hcore) as Hm.
  eapply wp_mono; [eapply (wp_register_and_poll rreq _ w1); [..|exact Hm|done|done]|].
  - eapply same_core_msgs_inv; [exact Hcore|]. apply stored_msgs_inv; [done|lia].
  - congruence.
  - rewrite <-Heq. by rewrite (select_holder_core _ _ _ Hcore).
  - rewrite Hdr. by rewrite (session_exists_core _ _ _ Hcore).
  - simpl. intros r w2 (msg & Hin & Hi & Ht & Hf & _). wp_step. simpl. eauto 10.
Qed.

(** C17: The next session to hold a name receives what the last one was handed but
    never acknowledged. *)
Theorem unacked_message_reaches_next_holder s rreq m w :
  msgs_inv (w_db w) → m ∈ messages (w_db w) →
  m_to_agent m = reg_AgentName rreq → m_to_agent m ≠ "" →
  m_to_session m = s → m_ack_at m = None →
  (∀ p, p ∈ peers (w_db w) → pr_agent_name p = m_to_agent m → pr_id p = s) →
  session_exists (hex_encode (env_rand (w_draws w))) (w_db w) = false →
  wp (both (unregister (mkUnregisterRequest s)) (register_and_poll rreq)) w (λ r _,
    ∃ msg, msg ∈ pollr_Messages r.2 ∧ shows msg m).
Proof.
  intros Hinv Hm Ha Hne Hs Hack Hh Hid. unfold both. wp_step. apply (wp_unregister Hok).
  intros w1 Hcore Hdr. wp_step.
  pose proof (released_elem s m _ Hm Hne Hs Hack) as Hrel.
  destruct Hcore as (Hp & Hmsg & Hseq & _).
  eapply wp_mono; [apply (wp_register_and_poll rreq (set_requeued m)); [..|done|done]|].
  - pose proof (released_msgs_inv s _ Hinv). unfold msgs_inv. by rewrite Hmsg, Hseq.
  - congruence.
  - unfold select_holder. rewrite Hp. apply (departed_select_holder _ s). by rewrite <-Ha.
  - unfold session_exists. rewrite Hp, Hdr. by apply session_exists_delete.
  - by rewrite Hmsg.
  - simpl. intros r w2 Hr. by wp_step.
Qed.

(** Only the session a message is bound to can acknowledge it; nobody else's
    acknowledgement has any effect. *)
Theorem ack_only_by_recipient req w :
  wp (ackMessage req) w (λ _ w', ∀ i, phase i (w_db w') =
    if i =? ack_MessageID req then acked_by (ack_SessionID req) (phase i (w_db w))
    else phase i (w_db w)).
Proof. apply (wp_ackMessage Hok). intros w1 -> i. apply acked_phase. Qed.

(** A poll without a session id takes the messages that wait for an offline
    agent: they count as delivered, and no session can poll them any more. *)
Theorem anonymous_poll_takes_queues m a w :
  msgs_inv (w_db w) → m ∈ messages (w_db w) → queued_for a m = true → m_ack_at m = None →
  wp (pollMessages (mkPollMessagesRequest "")) w (λ r w',
    row_message m ∈ pollr_Messages r ∧ phase (m_id m) (w_db w') = Delivered ""
    ∧ ∀ id a', m_id m ∉ m_id <$> select_pending id a' (w_db w')).
Proof.
  intros Hinv Hm Hq Hack. apply (wp_pollMessages Hok); [done|]. intros w1 Hdb. simpl in Hdb.
  assert (is_pending "" (poll_agent "" (w_db w)) m = true) as Hp.
  { unfold queued_for in Hq. unfold is_pending.
    by apply andb_true_iff in Hq as [[_ ->]%andb_true_iff ->]. }
  assert (msgs_inv (w_db w1)) as Hinv1 by (rewrite Hdb; by apply delivered_msgs_inv).
  assert (phase (m_id m) (w_db w1) = Delivered "") as Hph.
  { set (m' := set_delivered (formatRFC3339Nano (env_clock (w_ticks w))) "" m).
    change (m_id m) with (m_id m'). rewrite phase_of_elem; [|done|].
    - unfold row_phase. simpl. by rewrite Hack.
    - rewrite Hdb. apply elem_of_update_where. exists m. by rewrite Hp. }
  split; [by apply elem_of_mailbox|]. split; [done|].
  intros id a'. apply not_pollable; [done|by rewrite Hph].
Qed.
End mail.

(** ** Witnesses *)
Definition poll_0 : PollMessagesRequest := mkPollMessagesRequest "00000000".
Definition to_builder : SendMessageRequest := send_agent "00000000" "builder" "please build".

(** Session 00000000 holds "planner" and has a message waiting; another waits
    for "builder", whom nobody ever held. *)
Definition demo_mail : World :=
  after [join "planner"; RqSend (send_agent "00000000" "planner" "note to self");
         RqSend to_builder].

(** "builder" was handed its message and has not acknowledged it. *)
Definition demo_handed : World :=
  after [join "planner"; RqSend to_builder; join "builder";
         RqPoll (mkPollMessagesRequest "00000001")].

Lemma after_msgs_inv reqs : msgs_inv (w_db (after reqs)).
Proof. apply db_inv_msgs, after_db_inv. Qed.

Lemma poll_delivers_once_witness :
  (msg_Text <$> mailbox "00000000" (w_db demo_mail)) = ["note to self"]
  ∧ wp (both (@pollMessages demo_env poll_0) (@pollMessages demo_env poll_0)) demo_mail
      (λ r _, msg_Text <$> pollr_Messages r.1 = ["note to self"] ∧ pollr_Messages r.2 = []).
Proof.
  split; [vm_compute; done|].
  eapply wp_mono; [apply (poll_delivers_once demo_no_faults), after_msgs_inv|].
  intros r w' (-> & -> & _). split; [vm_compute; done|done].
Defined.

Lemma peek_predicts_poll_witness :
  wp (@peekMessages demo_env poll_0) demo_mail (λ _ w', w_db w' = w_db demo_mail).
Proof.
  eapply wp_mono; [apply (peek_predicts_poll demo_no_faults), after_msgs_inv|].
  by intros r w' [-> _].
Defined.

Lemma send_implements_route_witness :
  wp (@sendMessage demo_env to_builder) demo_mail (λ r _,
    sendr_OK r = true ∧ sendr_DeliveryStatus r = DeliveryStatusQueuedUnknown).
Proof.
  eapply wp_mono; [apply (send_implements_route demo_no_faults); vm_compute; done|].
  assert (route to_builder (w_db demo_mail) = Some ("builder", "", true, DeliveryStatusQueuedUnknown))
    as -> by (vm_compute; done).
  by intros r w' [-> _].
Defined.

Lemma bound_message_is_polled_witness :
  let req := send_agent "00000001" "planner" "done" in
  wp (both (@sendMessage demo_env req) (@pollMessages demo_env poll_0)) demo_mail (λ r _,
    ∃ msg, msg ∈ pollr_Messages r.2 ∧ msg_Text msg = "done").
Proof.
  intros req. eapply wp_mono.
  - apply (bound_message_is_polled demo_no_faults req "planner" "00000000" false);
      [apply after_msgs_inv|vm_compute; by split|vm_compute; done].
  - intros r w' (_ & _ & msg & Hm & _ & Ht & _). by exists msg.
Defined.

Lemma queued_message_reaches_next_holder_witness :
  wp (both (@sendMessage demo_env to_builder) (@register_and_poll demo_env (join_as "builder")))
    demo_mail (λ r _, ∃ msg, msg ∈ pollr_Messages r.2 ∧ msg_Text msg = "please build").
Proof.
  eapply wp_mono.
  - apply (queued_message_reaches_next_holder demo_no_faults to_builder (join_as "builder"));
      [apply after_msgs_inv|vm_compute; by split|done|done|done|vm_compute; done|vm_compute; done].
  - intros r w' (_ & _ & msg & Hm & _ & Ht & _). by exists msg.
Defined.

Lemma unacked_message_reaches_next_holder_witness :
  wp (both (@unregister demo_env (mkUnregisterRequest "00000001"))
        (@register_and_poll demo_env (join_as "builder"))) demo_handed
    (λ r _, ∃ msg, msg ∈ pollr_Messages r.2 ∧ msg_Text msg = "please build").
Proof.
  set (m := mkMsgRow 1 "builder" "00000001" "00000000" "planner" "please build"
              "2026-01-01T00:00:01.5Z" (Some "2026-01-01T00:00:04.5Z") None None 1).
  eapply wp_mono.
  - apply (unacked_message_reaches_next_holder demo_no_faults "00000001" (join_as "builder") m);
      try done.
    + apply after_msgs_inv.
    + vm_compute. left.
    + intros p Hp. vm_compute in Hp.
      by repeat (apply elem_of_cons in Hp as [->|Hp]); [..|apply elem_of_nil in Hp].
  - intros r w' (msg & Hm & _ & Ht & _). by exists msg.
Defined.

Lemma ack_only_by_recipient_witness :
  wp (@ackMessage demo_env (mkAckMessageRequest "00000001" 1)) demo_handed
    (λ _ w', phase 1 (w_db w') = Settled "00000001")
  ∧ wp (@ackMessage demo_env (mkAckMessageRequest "00000000" 1)) demo_handed
    (λ _ w', phase 1 (w_db w') = Delivered "00000001").
Proof.
  assert (phase 1 (w_db demo_handed) = Delivered "00000001") as Hp by (vm_compute; done).
  split.
  - eapply wp_mono; [apply (ack_only_by_recipient demo_no_faults)|].
    intros r w' Hw. specialize (Hw 1). by rewrite Hp in Hw.
  - eapply wp_mono; [apply (ack_only_by_recipient demo_no_faults)|].
    intros r w' Hw. specialize (Hw 1). by rewrite Hp in Hw.
Defined.

Lemma anonymous_poll_takes_queues_witness :
  wp (@pollMessages demo_env (mkPollMessagesRequest "")) demo_mail (λ r _,
    ∃ msg, msg ∈ pollr_Messages r ∧ msg_Text msg = "please build").
Proof.
  set (m := mkMsgRow 2 "builder" "" "00000000" "planner" "please build"
              "2026-01-01T00:00:03Z" None None None 0).
  eapply wp_mono.
  - apply (anonymous_poll_takes_queues demo_no_faults m "builder"); try done;
      [apply after_msgs_inv|vm_compute; right; left].
  - intros r w' (Hm & _). by exists (row_message m).
Defined.

(** ** Where the code departs from its description *)

(** Two messages sent 3 ms apart; trailing zeros of the fraction are trimmed, so
    ".123Z" sorts before ".12Z" and the later message comes first. *)
Definition trimmed_env : Env := {|
  env_clock n := new_year + nth n [0; 0; 120; 120] 123 * Millisecond;
  env_rand n := [0; 0; 0; N.of_nat n]%N;
  env_fault _ := None;
  env_constraint := "";
  env_nats := false;
  env_quote s := s;
  env_stale_timeout := 20;
|}.

Definition two_sent : World :=
  play (@dispatch trimmed_env) new_world
    [join "a"; RqSend (send_agent "00000000" "a" "first");
     RqSend (send_agent "00000000" "a" "second")].

(** Within one second a poll may return messages out of the order they were
    sent in. *)
Theorem poll_can_reorder :
  (m_text <$> messages (w_db two_sent)) = ["first"; "second"]
  ∧ (m_sent_at <$> messages (w_db two_sent))
      = ["2026-01-01T00:00:00.12Z"; "2026-01-01T00:00:00.123Z"]
  ∧ (msg_Text <$> pollr_Messages (run (@pollMessages trimmed_env
        (mkPollMessagesRequest "00000000")) two_sent).2) = ["second"; "first"].
Proof. vm_compute. done. Qed.
