(* ===== verification/Sessions.v ===== *)
(** * Sessions, names and time

    Registration, claims, heartbeats and the sweep of stale sessions, run one
    after the other; then the two races that the checks of [register] and
    [claimAgent] leave open. *)

From S2P Require Import Prelude GoStrings GoTime Types Store Prog World Broker Dispatch Demo.
From S2P Require Import BrokerInv BrokerWp BrokerOps Lifecycle Mail.

(** ** Helper lemmas *)

Lemma find_app_new {A} (P : A → bool) l x : find P l = None → P x = true → find P (l ++ [x]) = Some x.
Proof. intros Hl Hx. rewrite find_app, Hl. simpl. by rewrite Hx. Qed.

Lemma session_exists_select id db :
  session_exists id db = true ↔ ∃ n, select_agent_name id db = Some n.
Proof.
  unfold session_exists, select_agent_name. destruct (find (has_id id) (peers db)) as [p|] eqn:E.
  - apply find_some_elem in E as [Hp Hi]. split; [by eexists|]. intros _.
    apply existsb_true_iff. by exists p.
  - apply find_none_iff, existsb_false_iff in E. rewrite E. split; [done|by intros []].
Qed.

Lemma record_name_seen a now m : ∃ t, record_name a now m !! a = Some t.
Proof.
  unfold record_name. destruct (m !! a) eqn:E; [by eexists|]. rewrite lookup_insert_eq. by eexists.
Qed.

Lemma renamed_select id a l :
  pr_agent_name <$> find (has_id id) l = Some "" →
  pr_agent_name <$> find (has_id id) (update_where (has_id id) (set_row_agent a) l) = Some a.
Proof.
  induction l as [|p l IH]; [done|]. csimpl. destruct (has_id id p) eqn:Ep; csimpl.
  - intros _. unfold has_id in *. simpl. by rewrite Ep.
  - by rewrite Ep.
Qed.

(** What a database shows after session [s] has claimed [a]. *)
Lemma claimed_msgs_inv s a now db : msgs_inv db → msgs_inv (claimed a s now db).
Proof. intros H. exact (bind_queue_inv s a db H). Qed.

Lemma claimed_core s a now db db' :
  same_core (claimed a s now db) db' → select_agent_name s db = Some "" →
  select_agent_name s db' = Some a
  ∧ (∀ p, p ∈ peers db' ↔ ∃ q, q ∈ peers db ∧ p = if decide (pr_id q = s) then set_row_agent a q else q)
  ∧ name_seen a db' = true
  ∧ ∀ m, a ≠ "" → m ∈ messages db → m_to_agent m = a → m_delivered_at m = None →
      ∃ msg, msg ∈ mailbox s db' ∧ shows msg m.
Proof.
  intros (Hp & Hm & _ & Hseen & _) Hs. cbn in Hp, Hm, Hseen.
  assert (select_agent_name s db' = Some a) as Hn.
  { unfold select_agent_name in *. rewrite Hp. by apply renamed_select. }
  split; [done|]. split; [|split].
  - intros p. rewrite Hp, elem_of_update_where. unfold has_id.
    assert (∀ q, (if String.eqb (pr_id q) s then set_row_agent a q else q)
      = if decide (pr_id q = s) then set_row_agent a q else q) as Hif.
    { intros q. by destruct (String.eqb_spec (pr_id q) s), (decide (pr_id q = s)). }
    setoid_rewrite Hif. naive_solver.
  - unfold name_seen. rewrite Hseen. by destruct (record_name_seen a now (agent_names_seen db)) as [t ->].
  - intros m Hne Hin Ha Hd. exists (row_message (if queued_for a m then set_session s m else m)).
    split; [|by destruct (queued_for _ _)]. apply elem_of_mailbox.
    + rewrite Hm. apply elem_of_update_where. eauto.
    + unfold poll_agent. rewrite Hn. unfold is_pending, to_agent_is. apply String.eqb_neq in Hne.
      destruct (queued_for _ _); simpl; rewrite Hd, Ha, String.eqb_refl, Hne; simpl;
        apply orb_true_r.
Qed.

Definition seen_at (p : PeerRow) (t : Z) : Prop := in_era t ∧ pr_last_seen p = formatRFC3339Nano t.

Lemma is_stale_spec p t c :
  seen_at p t → in_era c →
  is_stale (formatRFC3339 c) p = true
  ↔ unix_sec t < unix_sec c ∨ unix_sec t = unix_sec c ∧ nanos t ≠ 0.
Proof.
  intros [Ht Hp] Hc. unfold is_stale. rewrite Hp, string_ltb_lt. by apply nano_before_second.
Qed.

(** A stale session has been silent for more than the time-out less a second,
    and one silent for a second longer than the time-out is stale. *)
Lemma is_stale_bounds p t c :
  seen_at p t → in_era c →
  (is_stale (formatRFC3339 c) p = true → t < c + Second)
  ∧ (t + Second ≤ c → is_stale (formatRFC3339 c) p = true).
Proof.
  intros Hp Hc. rewrite (is_stale_spec p t c Hp Hc).
  pose proof (nanos_range t). pose proof (nanos_range c).
  pose proof (unix_sec_nanos t). pose proof (unix_sec_nanos c). unfold Second in *. lia.
Qed.

(** *** Mail of the sessions that end *)
Lemma released_keeps s m l :
  m ∈ l → m_to_agent m ≠ "" → m_ack_at m = None →
  (if requeueable s m then set_requeued m else m) ∈ released s l.
Proof.
  intros Hm Ha%String.eqb_neq Hack. apply elem_of_update_where. exists m. split; [done|].
  apply elem_of_delete_where. unfold droppable, to_agent_is. by rewrite Ha, andb_false_r.
Qed.

Lemma released_all_requeued ids m l :
  m ∈ l → m_to_agent m ≠ "" → m_ack_at m = None → m_to_session m = "" → m_delivered_at m = None →
  m ∈ foldl (λ l id, released id l) l ids.
Proof.
  intros Hm Ha Hack Hs Hd. revert l Hm. induction ids as [|id ids IH]; intros l Hm; [done|].
  simpl. apply IH. pose proof (released_keeps id m l Hm Ha Hack) as Hk.
  destruct (requeueable id m); [|done]. unfold set_requeued in Hk. rewrite <-Hs, <-Hd in Hk at 1.
  by destruct m.
Qed.

Lemma released_all_bound ids m l :
  m ∈ l → m_to_agent m ≠ "" → m_ack_at m = None → m_to_session m ∈ ids →
  set_requeued m ∈ foldl (λ l id, released id l) l ids.
Proof.
  intros Hm Ha Hack. revert l Hm. induction ids as [|id ids IH]; intros l Hm Hin.
  { by apply elem_of_nil in Hin. }
  simpl. pose proof (released_keeps id m l Hm Ha Hack) as Hk.
  destruct (requeueable id m) eqn:Er; [by apply released_all_requeued|].
  apply IH; [done|]. apply elem_of_cons in Hin as [Heq|]; [|done].
  unfold requeueable, to_session_is, to_agent_is in Er. apply String.eqb_neq in Ha.
  by rewrite Heq, String.eqb_refl, Ha, Hack in Er.
Qed.

Lemma released_all_msgs_inv ids db :
  msgs_inv db → msgs_inv (set_messages db (foldl (λ l id, released id l) (messages db) ids)).
Proof.
  revert db. induction ids as [|id ids IH]; intros db Hinv; [by destruct db|].
  simpl. by apply (IH (set_messages db (released id (messages db)))), released_msgs_inv.
Qed.

Section sessions.
Context {E : Env} (Hok : no_faults).

(** A name held by a live session is refused: the holder is reported and
    nothing changes. *)
Theorem register_conflict req h w :
  reg_AgentName req ≠ "" → select_holder (reg_AgentName req) (w_db w) = Some h →
  wp (register req) w (λ r w',
    regr_OK r = false ∧ regr_ID r = "" ∧ regr_HeldBySession r = pr_id h
    ∧ regr_HeldByMachine r = pr_machine h ∧ regr_HeldByCWD r = pr_cwd h
    ∧ regr_HeldBySince r = pr_started_at h ∧ w_db w' = w_db w).
Proof. intros Hne Hh. apply (wp_register_conflict Hok _ h); [done..|]. by intros w' Hdb _. Qed.

(** C38: A free name goes to the new session, which is live from then on; no other
    session changes, and the name counts as seen. *)
Theorem register_grants_name req w :
  reg_AgentName req ≠ "" → select_holder (reg_AgentName req) (w_db w) = None →
  session_exists (hex_encode (env_rand (w_draws w))) (w_db w) = false →
  wp (register req) w (λ r w',
    regr_OK r = true
    ∧ select_holder (reg_AgentName req) (w_db w')
      = Some (new_row req (regr_ID r) (formatRFC3339Nano (env_clock (w_ticks w))))
    ∧ peers (w_db w') = peers (w_db w)
        ++ [new_row req (regr_ID r) (formatRFC3339Nano (env_clock (w_ticks w)))]
    ∧ name_seen (reg_AgentName req) (w_db w') = true).
Proof.
  intros Hne Hh Hid. apply (wp_register_joined Hok); [by right|done|].
  intros w' (Hp & _ & _ & Hn & _). apply String.eqb_neq in Hne.
  unfold joined in Hp, Hn. rewrite Hne in Hp, Hn. simpl in Hp, Hn. simpl.
  split; [done|]. split; [|split; [done|]].
  - unfold select_holder. rewrite Hp. apply find_app_new; [done|].
    unfold has_agent. simpl. apply String.eqb_refl.
  - unfold name_seen. rewrite Hn.
    by destruct (record_name_seen (reg_AgentName req)
      (formatRFC3339Nano (env_clock (w_ticks w))) (agent_names_seen (w_db w))) as [t ->].
Qed.

(** When the drawn id is that of a live session the insert is refused, but its
    error is dropped: the caller is told that it is registered, under the id of the
    other session; its name stays free, and the mail that waited for the name is
    handed to the other session. *)
Theorem id_collision_misdelivers req w :
  let id := hex_encode (env_rand (w_draws w)) in
  reg_AgentName req ≠ "" → select_holder (reg_AgentName req) (w_db w) = None →
  session_exists id (w_db w) = true →
  wp (register req) w (λ r w',
    regr_OK r = true ∧ regr_ID r = id ∧ peers (w_db w') = peers (w_db w)
    ∧ select_holder (reg_AgentName req) (w_db w') = None
    ∧ messages (w_db w') = bind_queue id (reg_AgentName req) (messages (w_db w))).
Proof.
  intros id Hne Hh Hid. apply String.eqb_neq in Hne as Hne'. unfold register. rewrite Hne'. cbn [negb]. wp_steps.
  rewrite Hdb, Hh. wp_steps.
  eapply (wp_exec_refused Hok); [|wp_intro; wp_steps].
  { unfold insert_peer. wp_norm. cbn [pr_id]. unfold session_exists, has_id in Hid. unfold id in Hid.
    by rewrite Hid. }
  apply (wp_exec_name_seen Hok). intros _. wp_intro. wp_steps. wp_norm_all.
  match goal with H : same_core _ _ |- _ => destruct H as (Hp & Hm & _) end.
  split; [done|]. split; [done|]. rewrite Hp, Hm. split; [done|]. split; [|done].
  unfold select_holder. by rewrite Hp.
Qed.

(** C39: A heartbeat tells a session whether it is still known, and refreshes it
    alone. *)
Theorem heartbeat_reports_eviction req w :
  wp (heartbeat req) w (λ r w',
    (hbr_OK r = true ↔ session_exists (hb_ID req) (w_db w) = true)
    ∧ (hbr_OK r = false → hbr_Reason r = HeartbeatReasonUnknownSession
                          ∧ peers (w_db w') = peers (w_db w))
    ∧ messages (w_db w') = messages (w_db w)
    ∧ ∀ p, p ∈ peers (w_db w) →
        (if has_id (hb_ID req) p
         then set_last_seen (formatRFC3339Nano (env_clock (w_ticks w))) p else p)
        ∈ peers (w_db w')).
Proof.
  apply (wp_heartbeat Hok). intros w' Hdb _. rewrite Hdb. simpl.
  destruct (session_exists (hb_ID req) (w_db w)) eqn:Ex; simpl;
    (split; [done|]; split; [|split; [done|]]).
  - done.
  - intros p Hp. apply elem_of_update_where. eauto.
  - intros _. split; [done|]. by apply update_where_none, existsb_false_iff.
  - intros p Hp. apply elem_of_update_where. eauto.
Qed.

(** C14: A claim takes over the agent.  Where no other operation comes between, it
    succeeds just when the session lives, has no name yet and nobody holds the one
    it asks for; a refused claim changes nothing and names the session that holds
    the name.  After a successful one the session holds the name and no other
    session has changed; the undelivered messages to the agent, those that waited
    for a holder among them, are in its next poll; the name counts as seen; and no
    later claim of the session succeeds. *)
Theorem claim_once req w :
  let s := claim_SessionID req in let a := claim_AgentName req in
  a ≠ "" → msgs_inv (w_db w) →
  wp (claimAgent req) w (λ r w',
    (claimr_OK r = true ↔ select_agent_name s (w_db w) = Some "" ∧ select_holder a (w_db w) = None)
    ∧ (claimr_OK r = false → w_db w' = w_db w
         ∧ ∀ h, select_agent_name s (w_db w) = Some "" → select_holder a (w_db w) = Some h →
             claimr_HeldBySession r = pr_id h)
    ∧ (claimr_OK r = true →
         select_agent_name s (w_db w') = Some a
         ∧ (∀ p, p ∈ peers (w_db w') ↔
              ∃ q, q ∈ peers (w_db w) ∧ p = if decide (pr_id q = s) then set_row_agent a q else q)
         ∧ name_seen a (w_db w') = true
         ∧ (∀ m, m ∈ messages (w_db w) → m_to_agent m = a → m_delivered_at m = None →
              wp (pollMessages (mkPollMessagesRequest s)) w' (λ r _,
                ∃ msg, msg ∈ pollr_Messages r ∧ shows msg m))
         ∧ ∀ req', claim_SessionID req' = s → claim_AgentName req' ≠ "" →
             wp (claimAgent req') w' (λ r' w'', claimr_OK r' = false ∧ w_db w'' = w_db w'))).
Proof.
  intros s a Hne Hinv.
  destruct (decide (select_agent_name s (w_db w) = Some "")) as [Hs|Hs];
    [destruct (select_holder a (w_db w)) as [h|] eqn:Hh|].
  - apply (wp_claimAgent_refused Hok); [done| |right; fold a; congruence].
    fold s a. rewrite Hs, Hh. intros r w' Hdb Hr [?|(h' & [= <-] & Hheld)]; [done|].
    rewrite Hr. split; [|split; [|done]]; [split; [done|by intros [_ ?]]|].
    intros _. split; [done|]. by intros ? _ [= <-].
  - apply (wp_claimAgent_ok Hok); [done..|]. intros w' Hcore. fold s a in Hcore. simpl.
    split; [done|]. split; [done|]. intros _.
    destruct (claimed_core s a _ (w_db w) (w_db w') Hcore Hs) as (Hn & Hp & Hseen & Hmail).
    split; [done|]. split; [done|]. split; [done|]. split.
    + intros m Hm Ha Hd. apply (wp_pollMessages Hok).
      { eapply same_core_msgs_inv; [exact Hcore|]. by apply claimed_msgs_inv. }
      intros w'' _. by apply Hmail.
    + intros req' Heq Hne'. apply (wp_claimAgent_refused Hok); [done| |].
      * by intros r' w'' Hdb Hr _.
      * left. rewrite Heq. fold s. rewrite Hn. congruence.
  - apply (wp_claimAgent_refused Hok); [done| |by left].
    intros r w' Hdb Hr _. rewrite Hr. split; [|by split]. split; [done|]. by intros [? _].
Qed.

(** Leaving frees the name at once and ends the session. *)
Theorem unregister_frees_name s w :
  wp (unregister (mkUnregisterRequest s)) w (λ _ w',
    session_exists s (w_db w') = false
    ∧ (∀ p, p ∈ peers (w_db w') ↔ p ∈ peers (w_db w) ∧ pr_id p ≠ s)
    ∧ (∀ a h, select_holder a (w_db w') = Some h → pr_id h ≠ s)).
Proof.
  apply (wp_unregister Hok). intros w' (Hp & _) _. simpl in Hp.
  assert (∀ p, p ∈ peers (w_db w') ↔ p ∈ peers (w_db w) ∧ pr_id p ≠ s) as Hin.
  { intros p. rewrite Hp, elem_of_delete_where. unfold has_id.
    rewrite String.eqb_neq. tauto. }
  split; [|split; [done|]].
  - apply existsb_false_iff, Forall_forall. intros p [_ Hi]%Hin. by apply String.eqb_neq.
  - intros a h [Hh _]%find_some_elem. by apply Hin.
Qed.

(** C40: The sweep ends the sessions that have been silent for the time-out plus a
    second and spares those seen within the time-out less a second. *)
Theorem sweep_time_bounds p t w :
  p ∈ peers (w_db w) → seen_at p t →
  let now := env_clock (w_ticks w) in
  in_era (now - stale_seconds * Second) → in_int64 (stale_seconds * Second) →
  wp cleanStalePeers w (λ _ w',
    (stale_seconds * Second + Second ≤ now - t → p ∉ peers (w_db w'))
    ∧ (now - t ≤ stale_seconds * Second - Second → p ∈ peers (w_db w'))).
Proof.
  intros Hp Ht now Hera Hi. apply (wp_cleanStalePeers Hok). intros w' (Hpeers & _).
  rewrite Hpeers. simpl. rewrite elem_of_delete_where.
  assert (wrap64 (- stale_seconds * Second) = - stale_seconds * Second) as ->.
  { apply wrap64_id. unfold in_int64, min_int64, max_int64 in *. split; [lia|].
    unfold stale_seconds, Second in *. destruct (env_stale_timeout <=? 0) eqn:El; zify_bool; lia. }
  fold now. replace (now + - stale_seconds * Second) with (now - stale_seconds * Second) by lia.
  destruct (is_stale_bounds p t _ Ht Hera) as [Hlo Hhi].
  destruct (is_stale (formatRFC3339 (now - stale_seconds * Second)) p); split.
  - by intros _ [].
  - intros Hage. specialize (Hlo eq_refl). lia.
  - intros Hage. assert (false = true) by (apply Hhi; lia). done.
  - done.
Qed.

(** Unacknowledged mail to an agent whose session the sweep ends goes back to
    the agent's queue. *)
Theorem dead_session_mail_returns p m w :
  msgs_inv (w_db w) → p ∈ peers (w_db w) → m ∈ messages (w_db w) →
  m_to_agent m ≠ "" → m_to_session m = pr_id p → m_ack_at m = None →
  wp cleanStalePeers w (λ _ w', p ∉ peers (w_db w') →
    phase (m_id m) (w_db w') = Waiting "" ∧ set_requeued m ∈ messages (w_db w')).
Proof.
  intros Hinv Hp Hm Ha Hs Hack. apply (wp_cleanStalePeers Hok).
  set (c := formatRFC3339 _). intros w' Hcore Hout.
  assert (msgs_inv (w_db w')) as Hinv'.
  { eapply same_core_msgs_inv; [exact Hcore|].
    exact (released_all_msgs_inv (select_stale c (w_db w)) _ Hinv). }
  destruct Hcore as (Hpeers & Hmsgs & _).
  assert (set_requeued m ∈ messages (w_db w')) as Hin.
  { rewrite Hmsgs. apply released_all_bound; [done..|]. rewrite Hs.
    apply list_elem_of_fmap_2, elem_of_bfilter. split; [|done].
    destruct (is_stale c p) eqn:Est; [done|]. destruct Hout. rewrite Hpeers.
    by apply elem_of_delete_where. }
  split; [|done]. change (m_id m) with (m_id (set_requeued m)).
  rewrite phase_of_elem by done. unfold row_phase. simpl. by rewrite Hack.
Qed.
End sessions.

(** ** Witnesses *)
Definition demo_two : World := after [join "planner"; join "builder"].
Definition planner_row : PeerRow := new_row (join_as "planner") "00000000" "2026-01-01T00:00:00Z".

Lemma register_conflict_witness :
  wp (@register demo_env (join_as "planner")) demo_two (λ r w',
    regr_OK r = false ∧ regr_HeldBySession r = "00000000" ∧ w_db w' = w_db demo_two).
Proof.
  eapply wp_mono;
    [apply (register_conflict demo_no_faults (join_as "planner") planner_row);
       [done|vm_compute; done]|].
  by intros r w' (? & _ & ? & _ & _ & _ & ?).
Defined.

Lemma register_grants_name_witness :
  wp (@register demo_env (join_as "reviewer")) demo_two (λ r w',
    regr_OK r = true ∧ length (peers (w_db w')) = 3%nat).
Proof.
  eapply wp_mono;
    [apply (register_grants_name demo_no_faults (join_as "reviewer"));
       [done|vm_compute; done|vm_compute; done]|].
  intros r w' (? & _ & -> & _). split; [done|]. vm_compute. done.
Defined.

(** "builder" draws the id of "planner". *)
Definition demo_redraw : World :=
  let w := after [join "planner"; RqSend (send_agent "00000000" "builder" "please build")] in
  mkWorld (w_db w) (w_fleetMemory w) (w_published w) (w_ticks w) 0 (w_stmts w).

Lemma id_collision_misdelivers_witness :
  let w' := (run (@register demo_env (join_as "builder")) demo_redraw).1 in
  select_holder "builder" (w_db w') = None
  ∧ m_to_session <$> messages (w_db w') = ["00000000"].
Proof.
  destruct (id_collision_misdelivers demo_no_faults (join_as "builder") demo_redraw)
    as (_ & _ & _ & Hh & Hm); [discriminate|vm_compute; reflexivity..|].
  split; [exact Hh|]. etrans; [exact (f_equal (fmap m_to_session) Hm)|]. vm_compute. reflexivity.
Defined.

Lemma heartbeat_reports_eviction_witness :
  wp (@heartbeat demo_env (mkHeartbeatRequest "0000000f")) demo_two (λ r _, hbr_OK r = false).
Proof.
  eapply wp_mono; [apply (heartbeat_reports_eviction demo_no_faults)|]. intros r w' [Hr _].
  assert (session_exists "0000000f" (w_db demo_two) = false) as Hx by (vm_compute; done).
  simpl in Hr. rewrite Hx in Hr. destruct (hbr_OK r); [|done]. by destruct (proj1 Hr eq_refl).
Defined.

Lemma claim_once_witness :
  wp (@claimAgent demo_env (mkClaimAgentRequest "00000001" "reviewer"))
    (after [join "planner"; join ""; RqSend (send_agent "00000000" "reviewer" "please review")]) (λ r w',
      claimr_OK r = true
      ∧ wp (@pollMessages demo_env (mkPollMessagesRequest "00000001")) w' (λ r _,
          ∃ msg, msg ∈ pollr_Messages r ∧ msg_Text msg = "please review")).
Proof.
  set (w := after _).
  set (m := mkMsgRow 1 "reviewer" "" "00000000" "planner" "please review"
              (default "" (m_sent_at <$> head (messages (w_db w)))) None None None 0).
  eapply wp_mono; [apply (claim_once demo_no_faults); [done|apply after_msgs_inv]|].
  intros r w' (Hr & _ & Hgot). assert (claimr_OK r = true) as Hok by (apply Hr; vm_compute; done).
  split; [done|]. destruct (Hgot Hok) as (_ & _ & _ & Hmail & _).
  eapply wp_mono; [apply (Hmail m); [vm_compute; left|done|done]|].
  intros r' w'' (msg & Hin & _ & Ht & _). by exists msg.
Defined.

Lemma unregister_frees_name_witness :
  wp (@unregister demo_env (mkUnregisterRequest "00000000")) demo_two (λ _ w',
    planner_row ∉ peers (w_db w')).
Proof.
  eapply wp_mono; [apply (unregister_frees_name demo_no_faults)|].
  intros r w' (_ & Hin & _) [_ Hi]%Hin. by apply Hi.
Defined.

Lemma sweep_time_bounds_witness :
  wp (@cleanStalePeers demo_env) demo_two (λ _ w', planner_row ∈ peers (w_db w')).
Proof.
  eapply wp_mono.
  - apply (sweep_time_bounds demo_no_faults planner_row new_year).
    + vm_compute. left.
    + split; [vm_compute; by split|]. vm_compute. done.
    + vm_compute. by split.
    + vm_compute. by split.
  - intros r w' [_ Hin]. apply Hin. vm_compute. done.
Defined.

Lemma dead_session_mail_returns_witness :
  let w := after [join "builder"; RqSend (send_agent "00000000" "builder" "hello")] in
  wp (@cleanStalePeers demo_env) w (λ _ w', ∃ m, m_text m = "hello" ∧
    (new_row (join_as "builder") "00000000" "2026-01-01T00:00:00Z" ∉ peers (w_db w') →
     phase (m_id m) (w_db w') = Waiting "")).
Proof.
  intros w.
  set (m := mkMsgRow 1 "builder" "00000000" "00000000" "builder" "hello"
              "2026-01-01T00:00:01.5Z" None None None 0).
  eapply wp_mono.
  - apply (dead_session_mail_returns demo_no_faults
      (new_row (join_as "builder") "00000000" "2026-01-01T00:00:00Z") m); try done.
    + apply db_inv_msgs, after_db_inv.
    + vm_compute. left.
    + vm_compute. left.
  - intros r w' H. exists m. split; [done|]. intros Hout. by apply H.
Defined.

(** ** Where the code departs from its description *)

(** A clock for the early sweep: registered at .9 s, swept at 20.1 s. *)
Definition early_env : Env := {|
  env_clock n := new_year + nth n [900; 900] 20100 * Millisecond;
  env_rand n := [0; 0; 0; N.of_nat n]%N;
  env_fault _ := None;
  env_constraint := "";
  env_nats := false;
  env_quote s := s;
  env_stale_timeout := 20;
|}.

(** A session seen 19.2 s ago is swept with a time-out of 20 s: the cut-off text
    has no fraction and '.' sorts before 'Z'. *)
Theorem sweep_can_be_early :
  let w := play (@dispatch early_env) new_world [join "a"] in
  (pr_last_seen <$> peers (w_db w)) = ["2026-01-01T00:00:00.9Z"]
  ∧ @env_clock early_env (w_ticks w) - @env_clock early_env 0 = 19200 * Millisecond
  ∧ @stale_seconds early_env = 20
  ∧ peers (w_db (run (@cleanStalePeers early_env) w).1) = [].
Proof. vm_compute. done. Qed.

(** *** Races *)

Definition registered (id : string) : handler Response :=
  Ret (RsRegister (mkRegisterResponse true id "" "" "" "" "")).
Definition claim_granted : handler Response :=
  Ret (RsClaim (mkClaimAgentResponse true "" "" "" "" "")).

(** Two registrations of one name whose checks both run before either insert:
    both are told they succeeded, and the second one's session does not exist. *)
Theorem register_race :
  ∃ w', steps (@dispatch demo_env) ([], new_world)
          ([registered "00000000"; registered "00000001"], w')
        ∧ (pr_id <$> peers (w_db w')) = ["00000000"].
Proof.
  eexists. split.
  - apply (sched_reaches _ ([0; 0; 1; 1] ++ repeat 0 12 ++ repeat 1 12)%nat _
             [join "a"; join "a"]). vm_compute. done.
  - vm_compute. done.
Qed.

(** Two claims of one session whose checks both run before either update: both
    are granted, and the session is renamed. *)
Theorem claim_race :
  ∃ w', steps (@dispatch demo_env) ([], after [join ""]) ([claim_granted; claim_granted], w')
        ∧ (pr_agent_name <$> peers (w_db w')) = ["builder"]
        ∧ name_seen "planner" (w_db w') = true.
Proof.
  eexists. split.
  - apply (sched_reaches _ ([0; 0; 1; 1] ++ repeat 0 12 ++ repeat 1 12)%nat _
             [RqClaim (mkClaimAgentRequest "00000000" "planner");
              RqClaim (mkClaimAgentRequest "00000000" "builder")]). vm_compute. done.
  - vm_compute. done.
Qed.

(** A clock that stands still while a session registers and is written to, and
    is half a minute on when the sweep comes. *)
Definition awake_env : Env := {|
  env_clock n := new_year + (if (n <? 3)%nat then 0 else 30 * Second);
  env_rand n := [0; 0; 0; N.of_nat n]%N;
  env_fault _ := None;
  env_constraint := "";
  env_nats := false;
  env_quote s := s;
  env_stale_timeout := 20;
|}.

(** A session without a name, with a message for it. *)
Definition asleep : World :=
  play (@dispatch awake_env) new_world
    [join ""; RqSend (mkSendMessageRequest "cli" "" "00000000" "please wait")].

(** The sweep takes a session for dead, its heartbeat arrives before the rows are
    deleted, and the session stays: but its mail is deleted all the same.  The
    heartbeat was told that all is well, the sender that the message is bound for
    delivery, and nobody ever sees it. *)
Theorem sweep_race :
  phase 1 (w_db asleep) = Waiting "00000000"
  ∧ ∃ w', steps (@dispatch awake_env) ([], asleep)
          ([Ret RsUnit; Ret (RsHeartbeat (mkHeartbeatResponse true ""))], w')
        ∧ (pr_id <$> peers (w_db w')) = ["00000000"]
        ∧ phase 1 (w_db w') = Gone
        ∧ (run (@pollMessages awake_env (mkPollMessagesRequest "00000000")) w').2 = mkPollMessagesResponse [].
Proof.
  split; [vm_compute; done|]. eexists. split.
  - apply (sched_reaches _ ([0; 0] ++ repeat 1 12 ++ repeat 0 12)%nat _
             [RqSweep 0; RqHeartbeat (mkHeartbeatRequest "00000000")]). vm_compute. done.
  - vm_compute. done.
Qed.
