(* ===== verification/Listing.v ===== *)
(** * What is listed ([listPeers], [recentEvents])

    The scopes of a listing and the window of recent events, against
    descriptions that do not mention the queries. *)

From S2P Require Import Prelude GoStrings GoTime Types Store Prog World Broker Dispatch Demo.
From S2P Require Import BrokerInv BrokerWp BrokerOps.

(** ** Sessions in a scope *)

(** A repository is its root, or the directory where there is none. *)
Definition in_scope (req : ListPeersRequest) (r : PeerRow) : Prop :=
  if decide (lp_Scope req = "directory") then pr_cwd r = lp_CWD req
  else if decide (lp_Scope req = "repo") then
    if decide (lp_GitRoot req = "") then pr_cwd r = lp_CWD req else pr_git_root r = Some (lp_GitRoot req)
  else if decide (lp_Scope req = "machine") then lp_Machine req = "" ∨ pr_machine r = lp_Machine req
  else True.

Definition excluded (req : ListPeersRequest) (r : PeerRow) : Prop :=
  lp_ExcludeID req ≠ "" ∧ pr_id r = lp_ExcludeID req.

Lemma scope_filter_spec req r : scope_filter req r = true ↔ in_scope req r.
Proof.
  unfold scope_filter, in_scope.
  destruct (String.eqb_spec (lp_Scope req) "directory"), (decide (lp_Scope req = "directory")); try done.
  { apply String.eqb_eq. }
  destruct (String.eqb_spec (lp_Scope req) "repo"), (decide (lp_Scope req = "repo")); try done.
  { destruct (String.eqb_spec (lp_GitRoot req) ""), (decide (lp_GitRoot req = "")); try done; cbn [negb];
      [apply String.eqb_eq|].
    destruct (pr_git_root r) as [g|]; [|done]. rewrite String.eqb_eq. split; [by intros ->|by intros [= ->]]. }
  destruct (String.eqb_spec (lp_Scope req) "machine"), (decide (lp_Scope req = "machine")); try done.
  destruct (String.eqb_spec (lp_Machine req) ""); cbn [negb]; [tauto|].
  rewrite String.eqb_eq. tauto.
Qed.

Lemma StronglySorted_reverse {A} (R : relation A) l :
  StronglySorted R l → StronglySorted (flip R) (reverse l).
Proof.
  induction 1 as [|x l _ IH Hx]; [constructor|]. rewrite reverse_cons. apply StronglySorted_snoc; [done|].
  rewrite Forall_forall in Hx |- *. intros y Hy. apply Hx. by rewrite <-elem_of_reverse.
Qed.

(** The rows of [LIMIT] are a suffix of the table, turned round. *)
Lemma select_events_suffix limit db :
  let n := length (events db) in
  select_events limit db = reverse (drop (if (limit <? 0)%Z then 0 else n - Z.to_nat limit)%nat (events db)).
Proof. intros n. unfold select_events. destruct (limit <? 0); [done|]. apply take_reverse. Qed.

(** ** Properties *)
Section listing.
Context {E : Env} (Hok : no_faults).

(** A listing holds each live session of the scope once, in the order of
    registration, with what it registered; nothing else; and it changes nothing. *)
Theorem list_peers_in_scope req w :
  db_inv (w_db w) →
  wp (listPeers req) w (λ ps w', w_db w' = w_db w
    ∧ (∀ p, p ∈ ps ↔ ∃ r, r ∈ peers (w_db w) ∧ in_scope req r ∧ ¬ excluded req r ∧ p = row_peer r)
    ∧ NoDup (peer_ID <$> ps) ∧ sublist ps (row_peer <$> peers (w_db w))).
Proof.
  intros Hinv. apply (wp_listPeers Hok). intros w' Hdb _. split; [done|].
  assert (∀ P (l : list PeerRow), sublist (List.filter P l) l) as Hsub.
  { intros P l. induction l as [|x l IH]; simpl; [done|]. by destruct (P x); constructor. }
  assert (∀ P (l : list Peer), sublist (List.filter P l) l) as Hsub'.
  { intros P l. induction l as [|x l IH]; simpl; [done|]. by destruct (P x); constructor. }
  assert (sublist (List.filter (λ p, negb (negb (String.eqb (lp_ExcludeID req) "")
                                 && String.eqb (peer_ID p) (lp_ExcludeID req)))
          (row_peer <$> select_peers req (w_db w))) (row_peer <$> peers (w_db w))) as Hs.
  { etrans; [apply Hsub'|]. apply fmap_sublist, Hsub. }
  split; [|split; [|done]].
  - intros p. rewrite elem_of_bfilter, list_elem_of_fmap. unfold select_peers, excluded. split.
    + intros [He (r & -> & [Hr Hin]%elem_of_bfilter)]. exists r. split; [done|].
      split; [by apply scope_filter_spec|]. split; [|done]. intros [Hne Hid].
      apply String.eqb_neq in Hne. rewrite Hne in He. cbn in He. by rewrite Hid, String.eqb_refl in He.
    + intros (r & Hin & Hr & Hx & ->). split.
      * cbn [row_peer peer_ID].
        destruct (String.eqb_spec (lp_ExcludeID req) ""), (String.eqb_spec (pr_id r) (lp_ExcludeID req));
          try done; by destruct Hx.
      * exists r. split; [done|]. apply elem_of_bfilter. split; [by apply scope_filter_spec|done].
  - apply (fmap_sublist peer_ID) in Hs. eapply sublist_NoDup; [|exact Hs].
    rewrite <-list_fmap_compose. apply (inv_ids _ Hinv).
Qed.

(** The recent events are the newest ones, newest first, as many as are asked for
    and exist; a negative number asks for all. *)
Theorem recent_events_newest limit w :
  db_inv (w_db w) →
  wp (recentEvents limit) w (λ r w', w_db w' = w_db w ∧ ∃ l, r = Some l
    ∧ (l ⊆ (row_event <$> events (w_db w))) ∧ StronglySorted (λ x y, y < x) (event_ID <$> l)
    ∧ (0 ≤ limit → length l = Nat.min (Z.to_nat limit) (length (events (w_db w))))
    ∧ (limit < 0 → length l = length (events (w_db w)))
    ∧ ∀ e x, e ∈ events (w_db w) → row_event e ∉ l → x ∈ l → ev_id e < event_ID x).
Proof.
  intros Hinv. unfold recentEvents. wp_steps. split; [done|]. eexists. split; [done|].
  rewrite select_events_suffix. cbv zeta. set (es := events (w_db w)).
  set (j := (if (limit <? 0)%Z then _ else _)).
  assert (StronglySorted Z.lt (ev_id <$> es)) as Hs by apply (inv_event_sorted _ Hinv).
  rewrite <-(take_drop j es), fmap_app in Hs.
  assert (length (row_event <$> reverse (drop j es)) = length es - j)%nat as Hlen
    by (by rewrite length_fmap, length_reverse, length_drop).
  split; [|split; [|split; [|split]]].
  - intros x (r & -> & Hr)%list_elem_of_fmap. rewrite elem_of_reverse in Hr. apply list_elem_of_fmap.
    exists r. split; [done|]. exact (subseteq_drop j es r Hr).
  - rewrite <-list_fmap_compose, fmap_reverse. change (event_ID ∘ row_event) with ev_id.
    apply (StronglySorted_reverse Z.lt). by eapply StronglySorted_app_1_r.
  - rewrite Hlen. unfold j. intros Hl. destruct (Z.ltb_spec limit 0); lia.
  - rewrite Hlen. unfold j. intros Hl. destruct (Z.ltb_spec limit 0); lia.
  - intros e x He Hout (r & -> & Hr)%list_elem_of_fmap. rewrite elem_of_reverse in Hr.
    apply (StronglySorted_app_1_elem_of _ _ _ (ev_id e) (ev_id r) Hs).
    + apply list_elem_of_fmap_2. rewrite <-(take_drop j es) in He. apply elem_of_app in He as [He|He]; [done|].
      destruct Hout. apply list_elem_of_fmap_2. by rewrite elem_of_reverse.
    + by apply list_elem_of_fmap_2.
Qed.
End listing.

(** ** Witnesses: two sessions on one machine, one in a repository *)
Definition in_repo (a root : string) : RegisterRequest :=
  mkRegisterRequest a 4242 "workstation" "/home/dev/project" root "" "" "" "".
Definition two_places : World := after [RqRegister (in_repo "planner" "/home/dev"); join "builder"].

Lemma list_peers_in_scope_witness :
  wp (@listPeers demo_env (mkListPeersRequest "repo" "" "/home/dev/project" "/home/dev" "")) two_places
    (λ ps _, ∃ p, p ∈ ps ∧ peer_AgentName p = "planner").
Proof.
  eapply wp_mono; [apply (list_peers_in_scope demo_no_faults), after_db_inv|].
  intros ps w' (_ & Hps & _). eexists. split; [apply Hps|].
  - eexists. split; [vm_compute; left|]. split; [vm_compute; reflexivity|]. split; [|reflexivity]. by intros [H _].
  - reflexivity.
Defined.

Lemma recent_events_newest_witness :
  wp (@recentEvents demo_env 1) two_places (λ r _, ∃ l, r = Some l ∧ length l = 1%nat).
Proof.
  eapply wp_mono; [apply (recent_events_newest demo_no_faults), after_db_inv|].
  intros r w' (_ & l & -> & _ & _ & Hl & _). exists l. split; [done|]. rewrite Hl by lia. vm_compute. reflexivity.
Defined.
