(* ===== verification/Base64.v ===== *)
(** * [base64.RawURLEncoding]

    The unpadded URL alphabet of public keys and token hashes.  The decoder
    skips CR and LF, rejects any other byte outside the alphabet and a lone
    trailing character, and ignores the unused low bits of a short last group,
    as Go's non-strict decoder does.  Errors carry the offset Go reports. *)

From S2P Require Import Prelude GoStrings.

Definition alphabet : string :=
  "ABCDEFGHIJKLMNOPQRSTUVWXYZabcdefghijklmnopqrstuvwxyz0123456789-_".

Definition b64_char (v : Z) : ascii := default "000"%char (String.get (Z.to_nat v) alphabet).

Definition in_range (lo hi : Z) (c : ascii) : bool := (lo <=? byte_val c) && (byte_val c <=? hi).

Definition b64_val (c : ascii) : option Z :=
  if in_range 65 90 c then Some (byte_val c - 65)
  else if in_range 97 122 c then Some (byte_val c - 71)
  else if in_range 48 57 c then Some (byte_val c + 4)
  else if byte_val c =? 45 then Some 62
  else if byte_val c =? 95 then Some 63
  else None.

Definition is_newline (c : ascii) : bool := (byte_val c =? 10) || (byte_val c =? 13).

Definition byte_of (v : Z) : ascii := ascii_of_N (Z.to_N (v mod 256)).

(** ** [EncodeToString] *)
Fixpoint EncodeToString (s : string) : string :=
  match s with
  | "" => ""
  | String a "" =>
      String (b64_char (byte_val a / 4)) (String (b64_char (byte_val a mod 4 * 16)) "")
  | String a (String b "") =>
      String (b64_char (byte_val a / 4))
        (String (b64_char (byte_val a mod 4 * 16 + byte_val b / 16))
           (String (b64_char (byte_val b mod 16 * 4)) ""))
  | String a (String b (String c s')) =>
      String (b64_char (byte_val a / 4))
        (String (b64_char (byte_val a mod 4 * 16 + byte_val b / 16))
           (String (b64_char (byte_val b mod 16 * 4 + byte_val c / 64))
              (String (b64_char (byte_val c mod 64)) (EncodeToString s'))))
  end.

(** ** [DecodeString] *)

(** The bytes of a group of sextets. *)
Definition group_bytes (g : list Z) : string :=
  match g with
  | [x; y] => String (byte_of (x * 4 + y / 16)) ""
  | [x; y; z] => String (byte_of (x * 4 + y / 16)) (String (byte_of (y mod 16 * 16 + z / 4)) "")
  | [x; y; z; t] =>
      String (byte_of (x * 4 + y / 16))
        (String (byte_of (y mod 16 * 16 + z / 4)) (String (byte_of (z mod 4 * 64 + t)) ""))
  | _ => ""
  end.

(** [i] is the offset of the next byte, [g] the sextets of the open group. *)
Fixpoint decode_from (i : Z) (g : list Z) (s : string) : result Z string :=
  match s with
  | "" => if (length g =? 1)%nat then Err (i - 1) else Ok (group_bytes g)
  | String c s' =>
      if is_newline c then decode_from (i + 1) g s'
      else
        match b64_val c with
        | None => Err i
        | Some v =>
            if (length g =? 3)%nat then
              match decode_from (i + 1) [] s' with
              | Ok r => Ok (group_bytes (g ++ [v]) +:+ r)
              | Err e => Err e
              end
            else decode_from (i + 1) (g ++ [v]) s'
        end
  end.

Definition DecodeString (s : string) : result Z string := decode_from 0 [] s.

(** ** Lemmas *)
Definition sextet_ok (v : Z) : bool :=
  match b64_val (b64_char v) with
  | Some v' => (v' =? v) && negb (is_newline (b64_char v))
  | None => false
  end.

Lemma sextets_ok : forallb (λ n, sextet_ok (Z.of_nat n)) (seq 0 64) = true.
Proof. vm_compute. done. Qed.

Lemma b64_char_val v :
  0 ≤ v < 64 → b64_val (b64_char v) = Some v ∧ is_newline (b64_char v) = false.
Proof.
  intros Hv. pose proof sextets_ok as H. rewrite forallb_forall in H.
  specialize (H (Z.to_nat v)). rewrite in_seq in H. specialize (H ltac:(lia)).
  rewrite Z2Nat.id in H by lia. unfold sextet_ok in H.
  destruct (b64_val (b64_char v)); [|done]. apply andb_true_iff in H as [H1 H2].
  apply Z.eqb_eq in H1. apply negb_true_iff in H2. by subst.
Qed.

Lemma byte_val_range c : 0 ≤ byte_val c < 256.
Proof. unfold byte_val. pose proof (N_ascii_bounded c). lia. Qed.

Lemma byte_of_val v c : v = byte_val c → byte_of v = c.
Proof.
  intros ->. unfold byte_of. rewrite Z.mod_small by apply byte_val_range.
  unfold byte_val. rewrite N2Z.id. apply ascii_N_embedding.
Qed.

(** A sextet of the encoder goes into the open group. *)
Lemma decode_char i g v s :
  0 ≤ v < 64 → length g ≠ 3%nat →
  decode_from i g (String (b64_char v) s) = decode_from (i + 1) (g ++ [v]) s.
Proof.
  intros Hv Hg. destruct (b64_char_val v Hv) as [Hb Hn]. simpl. rewrite Hb, Hn.
  by rewrite (proj2 (Nat.eqb_neq _ _) Hg).
Qed.

Lemma decode_last i x y z t s r :
  0 ≤ t < 64 → decode_from (i + 1) [] s = Ok r →
  decode_from i [x; y; z] (String (b64_char t) s) = Ok (group_bytes [x; y; z; t] +:+ r).
Proof. intros Ht Hr. destruct (b64_char_val t Ht) as [Hb Hn]. simpl. by rewrite Hb, Hn, Hr. Qed.

Lemma decode_encode s : ∀ i, decode_from i [] (EncodeToString s) = Ok s.
Proof.
  revert s. fix IH 1. intros s i. destruct s as [|a [|b [|c s']]]; [done|..];
    cbn [EncodeToString]; pose proof (byte_val_range a);
    repeat (rewrite decode_char; [|try pose proof (byte_val_range b);
      try pose proof (byte_val_range c); dlia|done]); simpl app.
  - simpl. do 2 f_equal. apply byte_of_val. dlia.
  - pose proof (byte_val_range b). simpl. repeat f_equal; apply byte_of_val; dlia.
  - pose proof (byte_val_range b). pose proof (byte_val_range c).
    erewrite decode_last; [|dlia|apply IH].
    cbn [group_bytes]. rewrite !string_app_cons. change ("" +:+ s') with s'.
    repeat f_equal; apply byte_of_val; dlia.
Qed.

Lemma DecodeString_EncodeToString s : DecodeString (EncodeToString s) = Ok s.
Proof. apply decode_encode. Qed.

(** Encoded text is printable. *)
Lemma b64_char_plain v : 0 ≤ v < 64 → is_plain (b64_char v) = true.
Proof.
  intros Hv.
  assert (forallb (λ n, is_plain (b64_char (Z.of_nat n))) (seq 0 64) = true) as H by vm_decide.
  rewrite forallb_forall in H. rewrite <-(Z2Nat.id v) by lia. apply H, in_seq. lia.
Qed.

Lemma EncodeToString_plain s : str_all is_plain (EncodeToString s) = true.
Proof.
  revert s. fix IH 1. intros s. destruct s as [|a [|b [|c s']]]; [done|..];
    cbn [EncodeToString str_all]; pose proof (byte_val_range a);
    try pose proof (byte_val_range b); try pose proof (byte_val_range c);
    repeat (rewrite b64_char_plain by dlia); try done.
  apply IH.
Qed.

Lemma EncodeToString_nonempty s : (0 < String.length s)%nat → EncodeToString s ≠ "".
Proof. by destruct s as [|a [|b [|c s']]]; [simpl; lia|..]. Qed.
