(* ===== verification/Ucan.v ===== *)
(** * Capability tokens ([auth_ucan.go])

    Minting and validating delegated capability tokens.  Signatures and the JWT
    encoding belong to a third-party package: they are the class [Jwt], with
    what its documentation promises as the laws [JwtLaws]. *)

From S2P Require Import Prelude GoStrings GoTime Base64.

(** ** Data *)
Record Capability : Type := mkCapability { Resource : string }.

(** [UCANClaims] with the fields of the embedded [jwt.RegisteredClaims]; times
    are instants in nanoseconds. *)
Record UCANClaims : Type := mkClaims {
  cl_Issuer : string;
  cl_Subject : string;
  cl_Audience : list string;
  cl_ExpiresAt : option Z;
  cl_NotBefore : option Z;
  cl_IssuedAt : option Z;
  cl_ID : string;
  cl_Capabilities : list Capability;
  cl_Proof : string;
  cl_MachineName : string;
}.

Abbreviation PublicKey := string.

#[export] Instance Capability_eq_dec : EqDecision Capability.
Proof. solve_decision. Defined.
#[export] Instance UCANClaims_eq_dec : EqDecision UCANClaims.
Proof. solve_decision. Defined.

(** ** What the code takes from other packages *)

(** How a parser was configured: with claims validation at some leeway, or
    [WithoutClaimsValidation].  Every parser of the code accepts EdDSA only. *)
Inductive ParserOption : Type :=
| WithLeeway (leeway : Z)
| WithoutClaimsValidation.

Class Jwt : Type := {
  PrivateKey : Type;
  (** [ed25519.PrivateKey.Public]. *)
  Public : PrivateKey → PublicKey;
  (** [jwt.NewWithClaims(SigningMethodEdDSA, claims).SignedString(key)]. *)
  SignedString : PrivateKey → UCANClaims → result string string;
  (** [parser.ParseUnverified]. *)
  ParseUnverified : string → result string UCANClaims;
  (** [parser.ParseWithClaims] at an instant, with a key function that looks at
      the unverified claims. *)
  ParseWithClaims : ParserOption → Z → string → (UCANClaims → result string PublicKey)
                    → result string UCANClaims;
  (** Whether the signature of a token verifies under a key. *)
  Verifies : PublicKey → string → bool;
  (** [jwt.NewNumericDate]. *)
  NewNumericDate : Z → Z;
  (** [sha256.Sum256]. *)
  Sum256 : string → string;
  (** [strconv.Quote], behind [%q]. *)
  Quote : string → string;
  (** [time.Duration.String] behind [%s]. *)
  DurationString : Z → string;
}.

(** The time claims hold at [now], as far as [opt] asks for it. *)
Definition times_ok (opt : ParserOption) (now : Z) (c : UCANClaims) : Prop :=
  match opt with
  | WithoutClaimsValidation => True
  | WithLeeway l =>
      match cl_ExpiresAt c with Some e => now < e + l | None => True end
      ∧ match cl_NotBefore c with Some b => b - l ≤ now | None => True end
  end.

(** Claims that the JSON of a token gives back as they are: ASCII text, and
    dates on whole seconds of the years JSON numbers hold exactly. *)
Definition is_ascii (s : string) : bool := str_all (λ c, byte_val c <? 128) s.

Definition plain_date {J : Jwt} (d : option Z) : Prop :=
  match d with Some t => NewNumericDate t = t ∧ in_era t | None => True end.

Definition representable {J : Jwt} (c : UCANClaims) : Prop :=
  Forall (λ s, is_ascii s = true)
    (cl_Issuer c :: cl_Subject c :: cl_ID c :: cl_Proof c :: cl_MachineName c
       :: cl_Audience c ++ (Resource <$> cl_Capabilities c))
  ∧ plain_date (cl_ExpiresAt c) ∧ plain_date (cl_NotBefore c) ∧ plain_date (cl_IssuedAt c).

Class JwtLaws (J : Jwt) : Prop := {
  (** A parsed token has a signature that verifies under the key the key
      function chose for its claims, and its times hold. *)
  parse_sound opt now tok kf c :
    ParseWithClaims opt now tok kf = Ok c →
    ParseUnverified tok = Ok c ∧ times_ok opt now c ∧ ∃ pub, kf c = Ok pub ∧ Verifies pub tok = true;
  (** A well-formed, well-signed token whose times hold is parsed. *)
  parse_complete opt now tok kf c pub :
    ParseUnverified tok = Ok c → kf c = Ok pub → Verifies pub tok = true →
    times_ok opt now c → ParseWithClaims opt now tok kf = Ok c;
  (** Signing yields a token that carries the claims and verifies. *)
  sign_parses k c : representable c →
    ∃ tok, SignedString k c = Ok tok ∧ ParseUnverified tok = Ok c ∧ Verifies (Public k) tok = true;
  (** The compact serialization is printable text. *)
  sign_compact k c tok : SignedString k c = Ok tok → tok ≠ "" ∧ str_all is_plain tok = true;
  (** Dates are truncated to the second, once. *)
  date_range t : t - Second < NewNumericDate t ≤ t;
  date_idempotent t : NewNumericDate (NewNumericDate t) = NewNumericDate t;
  (** ed25519 keys and SHA-256 sums are 32 bytes long. *)
  public_length k : String.length (Public k) = 32%nat;
  sum_length t : String.length (Sum256 t) = 32%nat;
}.

(** ** Keys and hashes *)
Definition PublicKeySize : nat := 32.

Definition pubKeyToString (pub : PublicKey) : string := EncodeToString pub.

Definition pubKeyFromString (s : string) : result string PublicKey :=
  match DecodeString s with
  | Err i => Err ("decode public key: illegal base64 data at input byte " +:+ itoa i)
  | Ok data =>
      if (String.length data =? PublicKeySize)%nat then Ok data
      else Err ("invalid public key length: " +:+ itoa (Z.of_nat (String.length data)))
  end.

Section ucan.
Context {J : Jwt}.

Record KeyPair : Type := mkKeyPair { kp_PrivateKey : PrivateKey; kp_PublicKey : PublicKey }.

Definition TokenHash (token : string) : string := EncodeToString (Sum256 token).

(** ** Capability sets *)
Abbreviation capabilitySet := (gset string).

(** [cs := make(capabilitySet); for _, c := range caps { cs[c.Resource] = true }]. *)
Definition capSet (caps : list Capability) : capabilitySet := list_to_set (Resource <$> caps).

(** The first capability of [caps] outside [parent], which the loops of the
    code stop at. *)
Definition first_outside (parent : capabilitySet) (caps : list Capability) : option Capability :=
  find (λ c, negb (bool_decide (Resource c ∈ parent))) caps.

(** ** Minting *)
Definition MintRootToken (now : Z) (rootKey : PrivateKey) (caps : list Capability) (ttl : Z)
  : result string string :=
  let kid := pubKeyToString (Public rootKey) in
  SignedString rootKey
    (mkClaims kid "claude-peers" [kid] (Some (NewNumericDate (now + ttl))) None
       (Some (NewNumericDate now)) "" caps "" "").

Definition MintToken (now : Z) (signerKey : PrivateKey) (audience : PublicKey)
    (caps : list Capability) (ttl : Z) (parentToken : string) : result string string :=
  match ParseUnverified parentToken with
  | Err e => Err ("parse parent token: " +:+ e)
  | Ok parentClaims =>
      match first_outside (capSet (cl_Capabilities parentClaims)) caps with
      | Some c => Err ("capability " +:+ Quote (Resource c)
                         +:+ " not in parent token (attenuation violation)")
      | None =>
          SignedString signerKey
            (mkClaims (pubKeyToString (Public signerKey)) "claude-peers"
               [pubKeyToString audience] (Some (NewNumericDate (now + ttl))) None
               (Some (NewNumericDate now)) "" caps (TokenHash parentToken) "")
      end
  end.

(** ** The validator *)

(** A row of [known_tokens]: the capabilities, kept here as the list its JSON
    column encodes, and the expiry. *)
Record TokenRow : Type := mkTokenRow { tr_caps : list string; tr_expires : Z }.

#[export] Instance TokenRow_eq_dec : EqDecision TokenRow.
Proof. solve_decision. Defined.

(** [sqliteTokenPersister]: its table, and what becomes of the upserts to come,
    one entry for each in order: [true] is an error of [db.Exec].  Past the
    end of the list none fails. *)
Record tokenPersister : Type := mkPersister {
  tp_rows : gmap string TokenRow;
  tp_faults : list bool;
}.

Definition NewPersister (rows : gmap string TokenRow) : tokenPersister := mkPersister rows [].

Record TokenValidator : Type := mkValidator {
  rootPubKey : PublicKey;
  knownTokens : gmap string capabilitySet;
  persister : option tokenPersister;
}.

Definition NewTokenValidator (root : PublicKey) : TokenValidator := mkValidator root ∅ None.

Definition WithPersister (v : TokenValidator) (p : option tokenPersister) : TokenValidator :=
  mkValidator (rootPubKey v) (knownTokens v) p.

Record PersistedToken : Type := mkPersisted { pt_Hash : string; pt_Capabilities : list string }.

Definition restore_row (m : gmap string capabilitySet) (r : PersistedToken)
  : gmap string capabilitySet :=
  if String.eqb (pt_Hash r) "" then m
  else <[pt_Hash r := list_to_set (pt_Capabilities r)]> m.

Definition Restore (v : TokenValidator) (rows : list PersistedToken) : TokenValidator :=
  mkValidator (rootPubKey v) (foldl restore_row (knownTokens v) rows) (persister v).

Definition extractTokenExpiry (now : Z) (tokenStr : string) : Z :=
  match ParseUnverified tokenStr with
  | Err _ => now + 24 * Hour
  | Ok claims => default (now + 24 * Hour) (cl_ExpiresAt claims)
  end.

(** [sqliteTokenPersister.Save]: the upsert, whose error is logged and dropped.
    ([json.Marshal] has no error for a list of strings.) *)
Definition Save (p : tokenPersister) (hash : string) (caps : list string) (expiresAt : Z)
  : tokenPersister :=
  match tp_faults p with
  | true :: faults => mkPersister (tp_rows p) faults
  | faults => mkPersister (<[hash := mkTokenRow caps expiresAt]> (tp_rows p)) (tail faults)
  end.

Definition persistKnown (now : Z) (v : TokenValidator) (hash tokenStr : string)
    (caps : capabilitySet) : TokenValidator :=
  match persister v with
  | None => v
  | Some p =>
      mkValidator (rootPubKey v) (knownTokens v)
        (Some (Save p hash (elements caps) (extractTokenExpiry now tokenStr)))
  end.

(** [v.knownTokens[hash] = cs; v.persistKnown(hash, tokenStr, cs)]. *)
Definition remember (now : Z) (v : TokenValidator) (tokenStr : string) (cs : capabilitySet)
  : TokenValidator :=
  let hash := TokenHash tokenStr in
  persistKnown now (mkValidator (rootPubKey v) (<[hash := cs]> (knownTokens v)) (persister v))
    hash tokenStr cs.

Definition RegisterToken (now : Z) (v : TokenValidator) (tokenStr : string)
    (caps : list Capability) : TokenValidator := remember now v tokenStr (capSet caps).

(** The key function of both validations. *)
Definition issuer_key (c : UCANClaims) : result string PublicKey :=
  match pubKeyFromString (cl_Issuer c) with
  | Ok pub => Ok pub
  | Err e => Err ("decode issuer key: " +:+ e)
  end.

(** The checks both validations make on the claims of a parsed token. *)
Definition check_claims (v : TokenValidator) (c : UCANClaims) : result string unit :=
  if negb (String.eqb (cl_Subject c) "claude-peers") then
    Err ("invalid subject: " +:+ Quote (cl_Subject c))
  else if String.eqb (cl_Proof c) "" then
    match pubKeyFromString (cl_Issuer c) with
    | Err e => Err ("decode root issuer: " +:+ e)
    | Ok issPub =>
        if String.eqb issPub (rootPubKey v) then Ok tt
        else Err "root token issuer does not match root public key"
    end
  else
    match knownTokens v !! cl_Proof c with
    | None => Err "unknown proof: parent token not registered"
    | Some parentCaps =>
        match first_outside parentCaps (cl_Capabilities c) with
        | Some x => Err ("capability " +:+ Quote (Resource x) +:+ " not in parent (chain violation)")
        | None => Ok tt
        end
    end.

Definition Validate (now : Z) (v : TokenValidator) (tokenStr : string)
  : TokenValidator * result string UCANClaims :=
  match ParseWithClaims (WithLeeway (30 * Second)) now tokenStr issuer_key with
  | Err e => (v, Err ("parse token: " +:+ e))
  | Ok claims =>
      match check_claims v claims with
      | Err e => (v, Err e)
      | Ok _ => (remember now v tokenStr (capSet (cl_Capabilities claims)), Ok claims)
      end
  end.

Definition ValidateWithGrace (now : Z) (v : TokenValidator) (tokenStr : string) (grace : Z)
  : TokenValidator * result string UCANClaims :=
  match ParseWithClaims WithoutClaimsValidation now tokenStr issuer_key with
  | Err e => (v, Err ("parse token: " +:+ e))
  | Ok claims =>
      let expiredBy := match cl_ExpiresAt claims with Some e => now - e | None => 0 end in
      if match cl_ExpiresAt claims with Some _ => grace <? expiredBy | None => false end then
        (v, Err ("token expired " +:+ DurationString expiredBy +:+ " ago (grace window is "
                   +:+ DurationString grace +:+ ")"))
      else
        match check_claims v claims with
        | Err e => (v, Err e)
        | Ok _ => (remember now v tokenStr (capSet (cl_Capabilities claims)), Ok claims)
        end
  end.

Definition HasCapability (claims : UCANClaims) (resource : string) : bool :=
  existsb (λ c, String.eqb (Resource c) resource) (cl_Capabilities claims).

(** ** Restart: [loadKnownTokens] *)

(** Rows that expired before [now] are deleted, the others restored.  The
    comparison is the one of their RFC3339Nano texts. *)
Definition row_live (now : Z) (r : TokenRow) : bool :=
  negb (string_ltb (formatRFC3339Nano (tr_expires r)) (formatRFC3339Nano now)).

Definition prune_tokens (now : Z) (db : gmap string TokenRow) : gmap string TokenRow :=
  filter (λ kr, row_live now kr.2 = true) db.

(** The errors [loadKnownTokens] logs and goes on from: of the DELETE, of the
    SELECT, and of the rows it does not get to see (the iteration ends early,
    [Scan] or [json.Unmarshal] fails), by their hash. *)
Record load_faults : Type := mkLoadFaults {
  lf_delete : bool;
  lf_query : bool;
  lf_unread : string → bool;
}.

Definition no_load_faults : load_faults := mkLoadFaults false false (λ _, false).

(** The table afterwards, and what is restored: the rows the SELECT finds live,
    whether or not the DELETE removed the others. *)
Definition loadKnownTokens (now : Z) (lf : load_faults) (db : gmap string TokenRow)
  : gmap string TokenRow * list PersistedToken :=
  let db' := if lf_delete lf then db else prune_tokens now db in
  (db',
   if lf_query lf then []
   else (λ kr, mkPersisted kr.1 (tr_caps kr.2)) <$>
          map_to_list (filter (λ kr, lf_unread lf kr.1 = false) (prune_tokens now db'))).

(** The validator a restarted broker builds over its table. *)
Definition restart_validator (now : Z) (root : PublicKey) (lf : load_faults) (p : tokenPersister)
  : TokenValidator :=
  let '(db', rows) := loadKnownTokens now lf (tp_rows p) in
  WithPersister (Restore (NewTokenValidator root) rows) (Some (mkPersister db' (tp_faults p))).
End ucan.

(** ** Capability sets of the commands *)
Definition AllCapabilities : list Capability :=
  mkCapability <$>
    ["peer/register"; "peer/heartbeat"; "peer/unregister"; "peer/set-summary";
     "peer/list"; "msg/send"; "msg/poll"; "msg/ack";
     "events/read"; "memory/read"; "memory/write"; "nats/subscribe"].

Definition PeerSessionCapabilities : list Capability :=
  mkCapability <$>
    ["peer/register"; "peer/heartbeat"; "peer/unregister"; "peer/set-summary";
     "peer/list"; "msg/send"; "msg/poll"; "msg/ack";
     "events/read"; "memory/read"; "memory/write"].

Definition FleetReadCapabilities : list Capability :=
  mkCapability <$> ["peer/list"; "events/read"; "memory/read"].

Definition FleetWriteCapabilities : list Capability :=
  mkCapability <$> ["peer/list"; "events/read"; "memory/read"; "memory/write"].

Definition CLICapabilities : list Capability :=
  mkCapability <$> ["peer/list"; "msg/send"; "events/read"].
