(* ===== verification/DemoJwt.v ===== *)
(** * A concrete token package

    An executable instance of [Jwt] that satisfies [JwtLaws]: tokens are plain
    text that names its signer.  It offers no security; it shows that the laws
    are consistent and lets witnesses compute. *)

From S2P Require Import Prelude GoStrings GoTime Base64 Ucan.

(** ** Text encodings *)

(** A string, its bytes marked, up to a stop. *)
Fixpoint put (s k : string) : string :=
  match s with "" => String "0" k | String c s' => String "1" (String c (put s' k)) end.

Fixpoint get (t : string) : option (string * string) :=
  match t with
  | String "0" t' => Some ("", t')
  | String "1" (String c t') =>
      match get t' with Some (s, r) => Some (String c s, r) | None => None end
  | _ => None
  end.

Lemma get_put s k : get (put s k) = Some (s, k).
Proof. induction s as [|c s IH]; [done|]. simpl. by rewrite IH. Qed.

Definition put_list (l : list string) (k : string) : string :=
  foldr (λ s k, String "1" (put s k)) (String "0" k) l.

Fixpoint get_list (fuel : nat) (t : string) : option (list string * string) :=
  match fuel, t with
  | S f, String "0" t' => Some ([], t')
  | S f, String "1" t' =>
      match get t' with
      | Some (s, r) => match get_list f r with Some (l, r') => Some (s :: l, r') | None => None end
      | None => None
      end
  | _, _ => None
  end.

Lemma get_put_list l k n : (length l < n)%nat → get_list n (put_list l k) = Some (l, k).
Proof.
  revert n. induction l as [|s l IH]; intros [|n] Hn; simpl in *; [lia|done|lia|].
  rewrite get_put, IH by lia. done.
Qed.

Fixpoint pos_text (p : positive) : string :=
  match p with xH => "" | xO p => String "0" (pos_text p) | xI p => String "1" (pos_text p) end.
Fixpoint text_pos (s : string) : positive :=
  match s with "" => xH | String "0" s => xO (text_pos s) | String _ s => xI (text_pos s) end.

Lemma text_pos_text p : text_pos (pos_text p) = p.
Proof. induction p as [p IH|p IH|]; simpl; by rewrite ?IH. Qed.

Definition date_text (d : option Z) : string :=
  match d with
  | None => ""
  | Some Z0 => "0"
  | Some (Zpos p) => String "+" (pos_text p)
  | Some (Zneg p) => String "-" (pos_text p)
  end.
Definition text_date (s : string) : option Z :=
  match s with
  | "" => None
  | String "+" s => Some (Zpos (text_pos s))
  | String "-" s => Some (Zneg (text_pos s))
  | _ => Some 0
  end.

Lemma text_date_text d : text_date (date_text d) = d.
Proof. destruct d as [[|p|p]|]; simpl; by rewrite ?text_pos_text. Qed.

(** ** Tokens *)
Definition demo_sign (k : string) (c : UCANClaims) : string :=
  put_list [k; cl_Issuer c; cl_Subject c; date_text (cl_ExpiresAt c); date_text (cl_NotBefore c);
            date_text (cl_IssuedAt c); cl_ID c; cl_Proof c; cl_MachineName c]
    (put_list (cl_Audience c) (put_list (Resource <$> cl_Capabilities c) "")).

(** The signing key and the claims of a token; [n] bounds the lists it holds. *)
Definition demo_read (n : nat) (tok : string) : option (string * UCANClaims) :=
  match get_list 10 tok with
  | Some ([k; iss; sub; exp; nbf; iat; id; prf; mach], r) =>
      match get_list n r with
      | Some (aud, r') =>
          match get_list n r' with
          | Some (caps, "") =>
              Some (k, mkClaims iss sub aud (text_date exp) (text_date nbf) (text_date iat) id
                         (mkCapability <$> caps) prf mach)
          | _ => None
          end
      | None => None
      end
  | _ => None
  end.

(** Printable text: the two halves of a byte as letters from [@] to [O]. *)
Definition low_half (c : ascii) : ascii :=
  match c with Ascii b0 b1 b2 b3 _ _ _ _ => Ascii b0 b1 b2 b3 false false true false end.
Definition high_half (c : ascii) : ascii :=
  match c with Ascii _ _ _ _ b4 b5 b6 b7 => Ascii b4 b5 b6 b7 false false true false end.

Fixpoint armor (s : string) : string :=
  match s with "" => "" | String c s' => String (low_half c) (String (high_half c) (armor s')) end.

Fixpoint unarmor (t : string) : string :=
  match t with
  | String (Ascii b0 b1 b2 b3 _ _ _ _) (String (Ascii b4 b5 b6 b7 _ _ _ _) t') =>
      String (Ascii b0 b1 b2 b3 b4 b5 b6 b7) (unarmor t')
  | _ => ""
  end.

Lemma unarmor_armor s : unarmor (armor s) = s.
Proof. induction s as [|[] s IH]; [done|]. simpl. by rewrite IH. Qed.

Lemma half_plain (b0 b1 b2 b3 : bool) : is_plain (Ascii b0 b1 b2 b3 false false true false) = true.
Proof. by destruct b0, b1, b2, b3. Qed.

Lemma armor_plain s : str_all is_plain (armor s) = true.
Proof. induction s as [|[] s IH]; [done|]. cbn [armor str_all low_half high_half]. by rewrite !half_plain, IH. Qed.

Definition demo_token (k : string) (c : UCANClaims) : string := armor (demo_sign k c).

Definition demo_open (tok : string) : option (string * UCANClaims) :=
  let text := unarmor tok in demo_read (S (String.length text)) text.

Lemma put_length s k : (String.length k < String.length (put s k))%nat.
Proof. induction s as [|c s IH]; simpl in *; lia. Qed.

Lemma put_list_length l k : (length l + String.length k < String.length (put_list l k))%nat.
Proof.
  induction l as [|s l IH]; simpl; [lia|]. pose proof (put_length s (put_list l k)). lia.
Qed.

Lemma demo_read_sign n k c :
  (length (cl_Audience c) < n)%nat → (length (cl_Capabilities c) < n)%nat →
  demo_read n (demo_sign k c) = Some (k, c).
Proof.
  intros Ha Hc. unfold demo_read, demo_sign. rewrite get_put_list by (simpl; lia).
  rewrite get_put_list by lia. rewrite get_put_list by (rewrite length_fmap; lia).
  rewrite !text_date_text, <-list_fmap_compose. destruct c as [? ? ? ? ? ? ? caps ? ?]. simpl.
  do 3 f_equal. clear. induction caps as [|[r] caps IH]; [done|]. csimpl. by rewrite IH.
Qed.

Lemma demo_open_sign k c : demo_open (demo_token k c) = Some (k, c).
Proof.
  unfold demo_open, demo_token. rewrite unarmor_armor. apply demo_read_sign.
  - unfold demo_sign. match goal with |- context [put_list ?l (put_list ?a ?r)] =>
      pose proof (put_list_length l (put_list a r)); pose proof (put_list_length a r) end. lia.
  - unfold demo_sign. match goal with |- context [put_list ?l (put_list ?a (put_list ?b ?r))] =>
      pose proof (put_list_length l (put_list a (put_list b r)));
      pose proof (put_list_length a (put_list b r)); pose proof (put_list_length b r) end.
    rewrite length_fmap in *. lia.
Qed.

(** ** Keys and sums *)

Fixpoint z_bytes (n : nat) (z : Z) : string :=
  match n with O => "" | S n' => String (byte_of z) (z_bytes n' (z / 256)) end.

Lemma z_bytes_length n z : String.length (z_bytes n z) = n.
Proof. revert z. induction n as [|n IH]; intros z; [done|]. simpl. by rewrite IH. Qed.

Definition xor_byte (c d : ascii) : ascii :=
  match c, d with
  | Ascii c0 c1 c2 c3 c4 c5 c6 c7, Ascii d0 d1 d2 d3 d4 d5 d6 d7 =>
      Ascii (xorb c0 d0) (xorb c1 d1) (xorb c2 d2) (xorb c3 d3)
            (xorb c4 d4) (xorb c5 d5) (xorb c6 d6) (xorb c7 d7)
  end.

(** A window over the text: its first byte, changed by the next one, moves to
    the end. *)
Fixpoint checksum (window s : string) : string :=
  match s, window with
  | String c s', String h t => checksum (t +:+ String (xor_byte h c) "") s'
  | _, _ => window
  end.

Lemma checksum_length window s : String.length (checksum window s) = String.length window.
Proof.
  revert window. induction s as [|c s IH]; intros [|h t]; [done..|]. cbn [checksum].
  rewrite IH, string_length_app. simpl. lia.
Qed.

Definition empty_sum : string := Eval vm_compute in z_bytes 32 7.

Definition demo_public (seed : Z) : PublicKey := z_bytes 32 seed.

Definition demo_verifies (pub : PublicKey) (tok : string) : bool :=
  match demo_open tok with Some (k, _) => String.eqb k pub | None => false end.

Definition demo_times (opt : ParserOption) (now : Z) (c : UCANClaims) : option string :=
  match opt with
  | WithoutClaimsValidation => None
  | WithLeeway l =>
      if match cl_ExpiresAt c with Some e => e + l <=? now | None => false end
      then Some "token has invalid claims: token is expired"
      else if match cl_NotBefore c with Some b => now <? b - l | None => false end
      then Some "token has invalid claims: token is not valid yet" else None
  end.

Lemma demo_times_ok opt now c : demo_times opt now c = None ↔ times_ok opt now c.
Proof.
  destruct opt as [l|]; [|done]. simpl.
  destruct (cl_ExpiresAt c) as [e|], (cl_NotBefore c) as [b|]; split_cases; zify_bool;
    split; try done; intros; try (split; lia); lia.
Qed.

Definition demo_unverified (tok : string) : result string UCANClaims :=
  match demo_open tok with Some (_, c) => Ok c | None => Err "token is malformed" end.

Definition demo_jwt : Jwt := {|
  PrivateKey := Z;
  Public := demo_public;
  SignedString k c := Ok (demo_token (demo_public k) c);
  ParseUnverified := demo_unverified;
  ParseWithClaims opt now tok kf :=
    c ← demo_unverified tok;
    match kf c with
    | Err e => Err ("token is unverifiable: error while executing keyfunc: " +:+ e)
    | Ok pub =>
        if demo_verifies pub tok then
          match demo_times opt now c with None => Ok c | Some e => Err e end
        else Err "token signature is invalid: ed25519: verification error"
    end;
  Verifies := demo_verifies;
  NewNumericDate t := t - t mod Second;
  Sum256 t := checksum empty_sum t;
  Quote s := String (ascii_of_nat 34) s +:+ String (ascii_of_nat 34) "";
  DurationString d := itoa d +:+ "ns";
|}%stdpp.

#[export] Instance demo_jwt_laws : JwtLaws demo_jwt.
Proof.
  split.
  - simpl. intros opt now tok kf c. destruct (demo_unverified tok) as [c'|e]; [|done]. simpl.
    destruct (kf c') as [pub|] eqn:Ek; [|done]. destruct (demo_verifies pub tok) eqn:Ev; [|done].
    destruct (demo_times opt now c') eqn:Et; [done|]. intros [= ->].
    split; [done|]. split; [by apply demo_times_ok|]. by exists pub.
  - simpl. intros opt now tok kf c pub -> Hk Hv Ht%demo_times_ok. simpl. by rewrite Hk, Hv, Ht.
  - simpl. intros k c _. eexists. split; [done|]. unfold demo_unverified, demo_verifies.
    rewrite demo_open_sign. split; [done|]. apply String.eqb_refl.
  - simpl. intros k c tok [= <-]. split; [done|apply armor_plain].
  - simpl. intros t. unfold Second. dlia.
  - simpl. intros t. unfold Second. dlia.
  - intros k. apply z_bytes_length.
  - intros t. apply checksum_length.
Qed.

Lemma demo_signed_verifies (k : @PrivateKey demo_jwt) c tok :
  @SignedString demo_jwt k c = Ok tok → @Verifies demo_jwt (@Public demo_jwt k) tok = true.
Proof.
  simpl. intros [= <-]. unfold demo_verifies. rewrite demo_open_sign. apply String.eqb_refl.
Qed.
