(* ===== verification/UcanSpec.v ===== *)
(** * What a token grants, and what it does not

    Round trips of minting and validation, the soundness of the validator, the
    confinement of authority under any sequence of its operations, the recovery
    of its state after a restart, and the delegations it accepts although their
    signer was never entitled to make them. *)

From S2P Require Import Prelude GoStrings GoTime Base64 Ucan DemoJwt.

(** ** Helper lemmas *)
Lemma string_ltb_nlt a b : ¬ a <s b → string_ltb a b = false.
Proof. intros H. apply not_true_iff_false. by rewrite string_ltb_lt. Qed.

Lemma pubKeyFromString_pubKeyToString pub :
  String.length pub = PublicKeySize → pubKeyFromString (pubKeyToString pub) = Ok pub.
Proof.
  intros Hl. unfold pubKeyFromString, pubKeyToString.
  rewrite DecodeString_EncodeToString, Hl, Nat.eqb_refl. done.
Qed.

Lemma EncodeToString_ascii s : is_ascii (EncodeToString s) = true.
Proof.
  eapply str_all_impl; [|apply EncodeToString_plain].
  intros c. unfold is_plain. intros Hc. zify_bool. lia.
Qed.

Lemma elem_of_capSet r caps : r ∈ capSet caps ↔ ∃ c, c ∈ caps ∧ Resource c = r.
Proof.
  unfold capSet. rewrite elem_of_list_to_set, list_elem_of_fmap.
  split; intros (c & H1 & H2); by exists c.
Qed.

Lemma first_outside_none parent caps :
  first_outside parent caps = None ↔ capSet caps ⊆ parent.
Proof.
  unfold first_outside. rewrite find_none_iff, Forall_forall. split.
  - intros H r (c & Hc & <-)%elem_of_capSet. specialize (H c Hc).
    by apply negb_false_iff, bool_decide_eq_true in H.
  - intros H c Hc. apply negb_false_iff, bool_decide_eq_true. apply H, elem_of_capSet. eauto.
Qed.

Lemma first_outside_some parent caps c :
  first_outside parent caps = Some c → c ∈ caps ∧ Resource c ∉ parent.
Proof.
  intros [Hc Hb]%find_some_elem. split; [done|]. by apply negb_true_iff, bool_decide_eq_false in Hb.
Qed.

Lemma HasCapability_spec c r : HasCapability c r = true ↔ r ∈ capSet (cl_Capabilities c).
Proof.
  unfold HasCapability. rewrite existsb_true_iff, elem_of_capSet.
  setoid_rewrite String.eqb_eq. naive_solver.
Qed.

Section ucan.
Context {J : Jwt} {L : JwtLaws J}.

Lemma TokenHash_nonempty t : TokenHash t ≠ "".
Proof. apply EncodeToString_nonempty. rewrite sum_length. lia. Qed.

Lemma remember_known now v tok cs :
  knownTokens (remember now v tok cs) = <[TokenHash tok := cs]> (knownTokens v).
Proof. unfold remember, persistKnown. simpl. by destruct (persister v). Qed.

Lemma remember_root now v tok cs : rootPubKey (remember now v tok cs) = rootPubKey v.
Proof. unfold remember, persistKnown. simpl. by destruct (persister v). Qed.

(** A self-describing token of key [k]. *)
Lemma issuer_key_public k c :
  cl_Issuer c = pubKeyToString (Public k) → issuer_key c = Ok (Public k).
Proof.
  intros Hi. unfold issuer_key. rewrite Hi, pubKeyFromString_pubKeyToString; [done|].
  apply public_length.
Qed.

Definition key_claims (k : PrivateKey) (aud : PublicKey) (now ttl : Z) (caps : list Capability)
    (prf : string) : UCANClaims :=
  mkClaims (pubKeyToString (Public k)) "claude-peers" [pubKeyToString aud]
    (Some (NewNumericDate (now + ttl))) None (Some (NewNumericDate now)) "" caps prf "".

(** Capability names are ASCII. *)
Definition plain_caps (caps : list Capability) : Prop :=
  Forall (λ s, is_ascii s = true) (Resource <$> caps).

(** The dates of a mint fall in the years JSON holds. *)
Definition datable (now ttl : Z) : Prop :=
  in_era (NewNumericDate now) ∧ in_era (NewNumericDate (now + ttl)).

Lemma key_claims_representable k aud now ttl caps prf :
  plain_caps caps → datable now ttl → is_ascii prf = true →
  representable (key_claims k aud now ttl caps prf).
Proof.
  intros Hc [Hn Ht] Hp. unfold representable, key_claims. simpl. split.
  - repeat constructor; try done; apply EncodeToString_ascii.
  - repeat split; try done; try apply date_idempotent; by apply Hn || apply Ht.
Qed.

Lemma key_claims_signed k aud now ttl caps prf :
  plain_caps caps → datable now ttl → is_ascii prf = true →
  ∃ tok, SignedString k (key_claims k aud now ttl caps prf) = Ok tok
    ∧ ParseUnverified tok = Ok (key_claims k aud now ttl caps prf)
    ∧ (∀ now', now' < NewNumericDate (now + ttl) + 30 * Second →
       ParseWithClaims (WithLeeway (30 * Second)) now' tok issuer_key
       = Ok (key_claims k aud now ttl caps prf)).
Proof.
  intros Hc Hd Hp.
  destruct (sign_parses k _ (key_claims_representable k aud now ttl caps prf Hc Hd Hp))
    as (tok & Hs & Hu & Hv).
  exists tok. split; [done|]. split; [done|]. intros now' Hnow.
  apply (parse_complete _ _ _ _ _ (Public k)); [done|by apply issuer_key_public|done|].
  simpl. split; [done|done].
Qed.

(** *** What the checks mean *)
Lemma check_claims_ok v c :
  check_claims v c = Ok tt ↔
    cl_Subject c = "claude-peers"
    ∧ ((cl_Proof c = "" ∧ pubKeyFromString (cl_Issuer c) = Ok (rootPubKey v))
       ∨ (cl_Proof c ≠ "" ∧ ∃ cs, knownTokens v !! cl_Proof c = Some cs
                                 ∧ capSet (cl_Capabilities c) ⊆ cs)).
Proof.
  unfold check_claims. destruct (String.eqb_spec (cl_Subject c) "claude-peers") as [Hs|Hs];
    simpl; [|by split; [|intros [? _]]].
  destruct (String.eqb_spec (cl_Proof c) "") as [Hp|Hp].
  - destruct (pubKeyFromString (cl_Issuer c)) as [pub|e].
    + destruct (String.eqb_spec pub (rootPubKey v)) as [->|Hne].
      * split; [|done]. intros _. split; [done|]. by left.
      * split; [done|]. intros [_ [[_ [=]]|[? _]]]; done.
    + split; [done|]. intros [_ [[_ [=]]|[? _]]]; done.
  - destruct (knownTokens v !! cl_Proof c) as [cs|] eqn:Ek.
    + destruct (first_outside cs (cl_Capabilities c)) as [x|] eqn:Ef.
      * split; [done|]. intros [_ [[? _]|[_ (cs' & [= <-] & Hsub)]]]; [done|].
        apply first_outside_none in Hsub. congruence.
      * apply first_outside_none in Ef. split; [|done]. intros _. split; [done|]. right. eauto.
    + split; [done|]. intros [_ [[? _]|[_ (cs' & [=] & _)]]]. done.
Qed.

Lemma check_claims_cases v c :
  check_claims v c = Ok tt ∨ ∃ e, check_claims v c = Err e.
Proof. destruct (check_claims v c) as [[]|e]; eauto. Qed.

Lemma Validate_cases now v tok :
  (∃ c, ParseWithClaims (WithLeeway (30 * Second)) now tok issuer_key = Ok c
        ∧ check_claims v c = Ok tt
        ∧ Validate now v tok = (remember now v tok (capSet (cl_Capabilities c)), Ok c))
  ∨ ∃ e, Validate now v tok = (v, Err e).
Proof.
  unfold Validate. destruct (ParseWithClaims _ _ _ _) as [c|e]; [|right; eauto].
  destruct (check_claims_cases v c) as [Hc|[e He]].
  - left. exists c. by rewrite Hc.
  - right. rewrite He. eauto.
Qed.

Lemma ValidateWithGrace_cases now v tok grace :
  (∃ c, ParseWithClaims WithoutClaimsValidation now tok issuer_key = Ok c
        ∧ check_claims v c = Ok tt
        ∧ match cl_ExpiresAt c with Some e => now - e ≤ grace | None => True end
        ∧ ValidateWithGrace now v tok grace
          = (remember now v tok (capSet (cl_Capabilities c)), Ok c))
  ∨ ∃ e, ValidateWithGrace now v tok grace = (v, Err e).
Proof.
  unfold ValidateWithGrace. destruct (ParseWithClaims _ _ _ _) as [c|e]; [|right; eauto].
  destruct (match cl_ExpiresAt c with Some _ => _ | None => false end) eqn:Eg; [right; eauto|].
  destruct (check_claims_cases v c) as [Hc|[e He]].
  - left. exists c. rewrite Hc. split; [done|]. split; [done|]. split; [|done].
    destruct (cl_ExpiresAt c); [|done]. zify_bool. lia.
  - right. rewrite He. eauto.
Qed.

(** ** Properties *)

(** A minted root token is accepted by the validator of its key for its whole
    lifetime, with exactly the capabilities it was minted with. *)
Theorem root_token_validates now now' k caps ttl v :
  plain_caps caps → datable now ttl → now' ≤ now + ttl → rootPubKey v = Public k →
  ∃ tok c, MintRootToken now k caps ttl = Ok tok
    ∧ (Validate now' v tok).2 = Ok c
    ∧ (∀ r, HasCapability c r = true ↔ r ∈ capSet caps)
    ∧ knownTokens (Validate now' v tok).1 !! TokenHash tok = Some (capSet caps).
Proof.
  intros Hc Hd Hnow Hroot.
  destruct (key_claims_signed k (Public k) now ttl caps "" Hc Hd eq_refl) as (tok & Hs & _ & Hp).
  exists tok, (key_claims k (Public k) now ttl caps ""). split; [done|].
  specialize (Hp now'). pose proof (date_range (now + ttl)).
  unfold Validate. rewrite Hp by (unfold Second in *; lia).
  assert (check_claims v (key_claims k (Public k) now ttl caps "") = Ok tt) as ->.
  { apply check_claims_ok. split; [done|]. left. split; [done|]. rewrite Hroot.
    apply pubKeyFromString_pubKeyToString, public_length. }
  simpl. split; [done|]. split; [intros r; apply HasCapability_spec|].
  by rewrite remember_known, lookup_insert_eq.
Qed.

(** C27: A token minted from a parent the validator knows is accepted for its whole
    lifetime, for its audience and with exactly the capabilities asked for. *)
Theorem delegated_token_validates now now' k aud caps ttl parent pc v :
  plain_caps caps → datable now ttl → now' ≤ now + ttl →
  ParseUnverified parent = Ok pc → capSet caps ⊆ capSet (cl_Capabilities pc) →
  knownTokens v !! TokenHash parent = Some (capSet (cl_Capabilities pc)) →
  ∃ tok c, MintToken now k aud caps ttl parent = Ok tok
    ∧ (Validate now' v tok).2 = Ok c ∧ cl_Audience c = [pubKeyToString aud]
    ∧ (∀ r, HasCapability c r = true ↔ r ∈ capSet caps).
Proof.
  intros Hc Hd Hnow Hpc Hsub Hk.
  destruct (key_claims_signed k aud now ttl caps (TokenHash parent) Hc Hd
    (EncodeToString_ascii _)) as (tok & Hs & _ & Hp).
  exists tok, (key_claims k aud now ttl caps (TokenHash parent)). split.
  { unfold MintToken. rewrite Hpc. apply first_outside_none in Hsub. by rewrite Hsub. }
  specialize (Hp now'). pose proof (date_range (now + ttl)).
  unfold Validate. rewrite Hp by (unfold Second in *; lia).
  assert (check_claims v (key_claims k aud now ttl caps (TokenHash parent)) = Ok tt) as ->.
  { apply check_claims_ok. split; [done|]. right. split; [apply TokenHash_nonempty|]. eauto. }
  simpl. split; [done|]. split; [done|]. intros r. apply HasCapability_spec.
Qed.

(** Minting refuses every capability the parent does not carry: whatever is
    minted asks for a subset of the parent's. *)
Theorem mint_attenuates now k aud caps ttl parent tok :
  MintToken now k aud caps ttl parent = Ok tok →
  ∃ pc, ParseUnverified parent = Ok pc ∧ capSet caps ⊆ capSet (cl_Capabilities pc).
Proof.
  unfold MintToken. destruct (ParseUnverified parent) as [pc|e]; [|done].
  destruct (first_outside _ _) as [x|] eqn:Ef; [done|]. intros _.
  exists pc. split; [done|]. by apply first_outside_none.
Qed.

(** C26: An accepted token is signed by its issuer's key, has the right subject and
    expired thirty seconds ago at most; it is issued by the root key, or names a parent the
    validator vouches for and carries only capabilities of it. *)
Theorem validate_sound now v tok c :
  (Validate now v tok).2 = Ok c →
  (∃ pub, pubKeyFromString (cl_Issuer c) = Ok pub ∧ Verifies pub tok = true)
  ∧ cl_Subject c = "claude-peers"
  ∧ match cl_ExpiresAt c with Some e => now < e + 30 * Second | None => True end
  ∧ ((cl_Proof c = "" ∧ pubKeyFromString (cl_Issuer c) = Ok (rootPubKey v))
     ∨ ∃ cs, knownTokens v !! cl_Proof c = Some cs
             ∧ ∀ r, HasCapability c r = true → r ∈ cs).
Proof.
  destruct (Validate_cases now v tok) as [(c' & Hp & Hc & ->)|[e ->]]; [|done].
  intros [= ->]. apply parse_sound in Hp as (_ & [He _] & pub & Hk & Hv).
  apply check_claims_ok in Hc as [Hs Hc]. split; [|split; [done|split; [done|]]].
  - unfold issuer_key in Hk. destruct (pubKeyFromString (cl_Issuer c)) as [p|]; [|done].
    injection Hk as <-. eauto.
  - destruct Hc as [Hc|(_ & cs & Hcs & Hsub)]; [by left|right].
    exists cs. split; [done|]. intros r Hr%HasCapability_spec. by apply Hsub.
Qed.

(** A refused token leaves the validator as it was. *)
Theorem refused_token_forgotten now v tok grace e :
  ((Validate now v tok).2 = Err e → (Validate now v tok).1 = v)
  ∧ ((ValidateWithGrace now v tok grace).2 = Err e → (ValidateWithGrace now v tok grace).1 = v).
Proof.
  split.
  - by destruct (Validate_cases now v tok) as [(c & _ & _ & ->)|[e' ->]].
  - by destruct (ValidateWithGrace_cases now v tok grace) as [(c & _ & _ & _ & ->)|[e' ->]].
Qed.

(** The grace validation accepts an expired token only within the window, and
    still checks its signature and chain. *)
Theorem grace_window now v tok grace c :
  (ValidateWithGrace now v tok grace).2 = Ok c →
  match cl_ExpiresAt c with Some e => now ≤ e + grace | None => True end
  ∧ (∃ pub, pubKeyFromString (cl_Issuer c) = Ok pub ∧ Verifies pub tok = true)
  ∧ ((cl_Proof c = "" ∧ pubKeyFromString (cl_Issuer c) = Ok (rootPubKey v))
     ∨ ∃ cs, knownTokens v !! cl_Proof c = Some cs
             ∧ ∀ r, HasCapability c r = true → r ∈ cs).
Proof.
  destruct (ValidateWithGrace_cases now v tok grace) as [(c' & Hp & Hc & Hg & ->)|[e ->]]; [|done].
  intros [= ->]. apply parse_sound in Hp as (_ & _ & pub & Hk & Hv).
  apply check_claims_ok in Hc as [Hs Hc]. split; [|split].
  - destruct (cl_ExpiresAt c); [lia|done].
  - unfold issuer_key in Hk. destruct (pubKeyFromString (cl_Issuer c)) as [p|]; [|done].
    injection Hk as <-. eauto.
  - destruct Hc as [Hc|(_ & cs & Hcs & Hsub)]; [by left|right].
    exists cs. split; [done|]. intros r Hr%HasCapability_spec. by apply Hsub.
Qed.

(** *** Authority *)

(** The operations that change what a validator knows. *)
Inductive v_op : Type :=
| OpValidate (now : Z) (tok : string)
| OpGrace (now : Z) (tok : string) (grace : Z)
| OpRegister (now : Z) (tok : string) (caps : list Capability).

Definition v_step (v : TokenValidator) (op : v_op) : TokenValidator :=
  match op with
  | OpValidate now tok => (Validate now v tok).1
  | OpGrace now tok grace => (ValidateWithGrace now v tok grace).1
  | OpRegister now tok caps => RegisterToken now v tok caps
  end.

(** Some known token carries [r]. *)
Definition authority (v : TokenValidator) (r : string) : Prop :=
  ∃ h cs, knownTokens v !! h = Some cs ∧ r ∈ cs.

(** The operation brings [r] in from outside: the token is signed by the root
    key, or it is registered by the broker itself. *)
Definition granted (root : PublicKey) (op : v_op) (r : string) : Prop :=
  match op with
  | OpRegister _ _ caps => r ∈ capSet caps
  | OpValidate _ tok | OpGrace _ tok _ =>
      ∃ c, ParseUnverified tok = Ok c ∧ cl_Proof c = "" ∧ Verifies root tok = true
           ∧ HasCapability c r = true
  end.

Lemma authority_remember now v tok cs r :
  authority (remember now v tok cs) r → authority v r ∨ r ∈ cs.
Proof.
  intros (h & cs' & Hk & Hr). rewrite remember_known in Hk.
  apply lookup_insert_Some in Hk as [[_ ->]|[_ Hk]]; [by right|left]. by exists h, cs'.
Qed.

Lemma accepted_authority v tok c opt now r :
  ParseWithClaims opt now tok issuer_key = Ok c → check_claims v c = Ok tt →
  r ∈ capSet (cl_Capabilities c) →
  authority v r ∨ ∃ c, ParseUnverified tok = Ok c ∧ cl_Proof c = ""
                       ∧ Verifies (rootPubKey v) tok = true ∧ HasCapability c r = true.
Proof.
  intros (Hu & _ & pub & Hk & Hv)%parse_sound (_ & Hc)%check_claims_ok Hr.
  destruct Hc as [[Hp Hroot]|(_ & cs & Hcs & Hsub)].
  - right. exists c. split; [done|]. split; [done|]. split; [|by apply HasCapability_spec].
    unfold issuer_key in Hk. rewrite Hroot in Hk. by injection Hk as <-.
  - left. exists (cl_Proof c), cs. split; [done|]. by apply Hsub.
Qed.

Lemma v_step_authority v op r :
  authority (v_step v op) r → authority v r ∨ granted (rootPubKey v) op r.
Proof.
  destruct op as [now tok|now tok grace|now tok caps]; simpl.
  - destruct (Validate_cases now v tok) as [(c & Hp & Hc & ->)|[e ->]]; [|by left].
    intros [?|Hr]%authority_remember; [by left|]. by eapply accepted_authority.
  - destruct (ValidateWithGrace_cases now v tok grace) as [(c & Hp & Hc & _ & ->)|[e ->]]; [|by left].
    intros [?|Hr]%authority_remember; [by left|]. by eapply accepted_authority.
  - apply authority_remember.
Qed.

Lemma v_step_root v op : rootPubKey (v_step v op) = rootPubKey v.
Proof.
  destruct op as [now tok|now tok grace|now tok caps]; simpl; [| |apply remember_root].
  - destruct (Validate_cases now v tok) as [(c & _ & _ & ->)|[e ->]]; [apply remember_root|done].
  - destruct (ValidateWithGrace_cases now v tok grace) as [(c & _ & _ & _ & ->)|[e ->]];
      [apply remember_root|done].
Qed.

(** C6: Confinement: however tokens are validated and registered, the validator
    never comes to vouch for a capability that neither the root key signed nor
    the broker registered. *)
Theorem authority_confined v ops r :
  authority (foldl v_step v ops) r →
  authority v r ∨ ∃ op, op ∈ ops ∧ granted (rootPubKey v) op r.
Proof.
  revert v. induction ops as [|op ops IH]; intros v; [by left|].
  simpl. intros [Ha|(op' & Hin & Hg)]%IH.
  - apply v_step_authority in Ha as [?|?]; [by left|right]. exists op. split; [by left|done].
  - rewrite v_step_root in Hg. right. exists op'. split; [by right|done].
Qed.

(** The signer of a delegated token need not be the audience of its parent,
    and a token names its parent: with any key of its own the holder of a
    delegated token obtains every capability of the parent. *)
Theorem any_key_takes_parent_capabilities now k ttl child cc caps v :
  (Validate now v child).2 = Ok cc → cl_Proof cc ≠ "" → is_ascii (cl_Proof cc) = true →
  plain_caps caps → datable now ttl → 0 ≤ ttl →
  (∀ cs, knownTokens v !! cl_Proof cc = Some cs → capSet caps ⊆ cs) →
  ∃ tok c, SignedString k (key_claims k (Public k) now ttl caps (cl_Proof cc)) = Ok tok
    ∧ (Validate now v tok).2 = Ok c ∧ (∀ r, HasCapability c r = true ↔ r ∈ capSet caps).
Proof.
  intros Hv Hne Hasc Hc Hd Httl Hsub.
  destruct (Validate_cases now v child) as [(c' & _ & Hck & Heq)|[e Heq]]; rewrite Heq in Hv; [|done].
  injection Hv as ->. apply check_claims_ok in Hck as (_ & [[? _]|(_ & cs & Hcs & _)]); [done|].
  destruct (key_claims_signed k (Public k) now ttl caps (cl_Proof cc) Hc Hd Hasc)
    as (tok & Hs & _ & Hp).
  exists tok, (key_claims k (Public k) now ttl caps (cl_Proof cc)). split; [done|].
  specialize (Hp now). pose proof (date_range (now + ttl)).
  unfold Validate. rewrite Hp by (unfold Second in *; lia).
  assert (check_claims v (key_claims k (Public k) now ttl caps (cl_Proof cc)) = Ok tt) as ->.
  { apply check_claims_ok. split; [done|]. right. split; [done|]. exists cs. split; [done|].
    by apply Hsub. }
  simpl. split; [done|]. intros r. apply HasCapability_spec.
Qed.

(** *** Restart *)

(** The token an operation is about. *)
Definition op_token (op : v_op) : string :=
  match op with OpValidate _ tok | OpGrace _ tok _ | OpRegister _ tok _ => tok end.

(** The claims a validation of [v] accepts, when the operation is one. *)
Definition accepts (v : TokenValidator) (op : v_op) (c : UCANClaims) : Prop :=
  match op with
  | OpValidate now tok => (Validate now v tok).2 = Ok c
  | OpGrace now tok grace => (ValidateWithGrace now v tok grace).2 = Ok c
  | OpRegister _ _ _ => False
  end.

(** The table is attached and its next upsert does not fail. *)
Definition next_save_works (v : TokenValidator) : Prop :=
  ∃ p, persister v = Some p ∧ head (tp_faults p) ≠ Some true.

(** The operation writes no other row over the one of [tok]: its token has
    another hash, or it is a validation of the same token. *)
Definition spares (tok : string) (op : v_op) : Prop :=
  TokenHash (op_token op) ≠ TokenHash tok
  ∨ op_token op = tok ∧ match op with OpRegister _ _ _ => False | _ => True end.

(** The row kept for a token with the claims [c]. *)
Definition row_of (c : UCANClaims) (e : Z) : TokenRow :=
  mkTokenRow (elements (capSet (cl_Capabilities c))) e.

Definition has_row (v : TokenValidator) (h : string) (r : TokenRow) : Prop :=
  ∃ p, persister v = Some p ∧ tp_rows p !! h = Some r.

Lemma accepts_parsed v op c :
  accepts v op c → ParseUnverified (op_token op) = Ok c
    ∧ ∃ now, v_step v op = remember now v (op_token op) (capSet (cl_Capabilities c)).
Proof.
  destruct op as [now tok|now tok grace|now tok caps]; simpl; [| |done].
  - destruct (Validate_cases now v tok) as [(c' & Hp & _ & ->)|[e ->]]; [|done].
    intros [= ->]. apply parse_sound in Hp as [Hu _]. eauto.
  - destruct (ValidateWithGrace_cases now v tok grace) as [(c' & Hp & _ & _ & ->)|[e ->]]; [|done].
    intros [= ->]. apply parse_sound in Hp as [Hu _]. eauto.
Qed.

Lemma v_step_accepts v op :
  v_step v op = v ∨ (∃ c, accepts v op c)
  ∨ ∃ now tok caps, op = OpRegister now tok caps ∧ v_step v op = remember now v tok (capSet caps).
Proof.
  destruct op as [now tok|now tok grace|now tok caps]; simpl; [| |right; right; eauto].
  - destruct (Validate_cases now v tok) as [(c & _ & _ & ->)|[e ->]]; eauto.
  - destruct (ValidateWithGrace_cases now v tok grace) as [(c & _ & _ & _ & ->)|[e ->]]; eauto.
Qed.

(** What [remember] does to the table: the row of the token, or nothing. *)
Lemma remember_rows now v tok cs p :
  persister v = Some p →
  ∃ p', persister (remember now v tok cs) = Some p'
    ∧ tp_rows p' = (if bool_decide (head (tp_faults p) = Some true) then tp_rows p
                    else <[TokenHash tok := mkTokenRow (elements cs) (extractTokenExpiry now tok)]> (tp_rows p)).
Proof.
  intros Hp. unfold remember, persistKnown. simpl. rewrite Hp. eexists. split; [done|].
  unfold Save. by destruct (tp_faults p) as [|[] fs].
Qed.

Lemma expiry_of_claims now tok c e :
  ParseUnverified tok = Ok c → cl_ExpiresAt c = Some e → extractTokenExpiry now tok = e.
Proof. intros Hu He. unfold extractTokenExpiry. by rewrite Hu, He. Qed.

(** An accepted token whose save works has its row. *)
Lemma accepted_has_row v op c e :
  accepts v op c → next_save_works v → cl_ExpiresAt c = Some e →
  has_row (v_step v op) (TokenHash (op_token op)) (row_of c e).
Proof.
  intros [Hu [now ->]]%accepts_parsed (p & Hp & Hf) He.
  destruct (remember_rows now v (op_token op) (capSet (cl_Capabilities c)) p Hp) as (p' & Hp' & Hr).
  exists p'. split; [done|]. rewrite Hr, bool_decide_eq_false_2, lookup_insert_eq by done.
  by rewrite (expiry_of_claims now _ c e).
Qed.

(** And keeps it, whatever else is validated and registered. *)
Lemma v_step_keeps_row v op tok c e :
  ParseUnverified tok = Ok c → cl_ExpiresAt c = Some e → spares tok op →
  has_row v (TokenHash tok) (row_of c e) → has_row (v_step v op) (TokenHash tok) (row_of c e).
Proof.
  intros Hu He Hs (p & Hp & Hrow).
  destruct (v_step_accepts v op) as [->|[[c' Ha]|(now & tok' & caps & -> & Hstep)]].
  - by exists p.
  - apply accepts_parsed in Ha as [Hu' [now ->]].
    destruct (remember_rows now v (op_token op) (capSet (cl_Capabilities c')) p Hp) as (p' & Hp' & Hr).
    exists p'. split; [done|]. rewrite Hr. case_bool_decide; [done|].
    destruct Hs as [Hne|[Heq _]]; [by rewrite lookup_insert_ne|].
    rewrite Heq in *. rewrite Hu in Hu'. injection Hu' as <-.
    by rewrite lookup_insert_eq, (expiry_of_claims now _ c e).
  - destruct Hs as [Hne|[_ []]]. rewrite Hstep.
    destruct (remember_rows now v tok' (capSet caps) p Hp) as (p' & Hp' & Hr).
    exists p'. split; [done|]. rewrite Hr. case_bool_decide; [done|]. by rewrite lookup_insert_ne.
Qed.

Lemma v_run_keeps_row v ops tok c e :
  ParseUnverified tok = Ok c → cl_ExpiresAt c = Some e → Forall (spares tok) ops →
  has_row v (TokenHash tok) (row_of c e) → has_row (foldl v_step v ops) (TokenHash tok) (row_of c e).
Proof.
  intros Hu He Hops. revert v. induction Hops as [|op ops Hop Hops IH]; [done|].
  intros v Hv. by apply IH, v_step_keeps_row.
Qed.

Lemma v_run_root v ops : rootPubKey (foldl v_step v ops) = rootPubKey v.
Proof. revert v. induction ops as [|op ops IH]; [done|]. intros v. simpl. by rewrite IH, v_step_root. Qed.

Lemma Restore_lookup v rows h :
  NoDup (pt_Hash <$> rows) → h ≠ "" →
  knownTokens (Restore v rows) !! h =
    match find (λ r, String.eqb (pt_Hash r) h) rows with
    | Some r => Some (list_to_set (pt_Capabilities r))
    | None => knownTokens v !! h
    end.
Proof.
  intros Hnd Hh. unfold Restore. simpl. generalize (knownTokens v) as m.
  induction rows as [|r rows IH]; intros m; [done|].
  apply NoDup_cons in Hnd as [Hni Hnd]. simpl. rewrite IH by done. unfold restore_row at 1.
  destruct (String.eqb_spec (pt_Hash r) h) as [<-|Hne].
  - rewrite (proj2 (String.eqb_neq _ _) Hh).
    assert (find (λ r', String.eqb (pt_Hash r') (pt_Hash r)) rows = None) as ->.
    { apply find_none_iff, Forall_forall. intros r' Hr'. apply String.eqb_neq.
      intros Heq. destruct Hni. rewrite <-Heq. by apply list_elem_of_fmap_2. }
    apply lookup_insert_eq.
  - destruct (find _ rows); [done|]. destruct (String.eqb (pt_Hash r) ""); [done|].
    by apply lookup_insert_ne.
Qed.

Lemma find_map_row (m : gmap string TokenRow) h :
  find (λ r, String.eqb (pt_Hash r) h) ((λ kr, mkPersisted kr.1 (tr_caps kr.2)) <$> map_to_list m)
  = (λ r, mkPersisted h (tr_caps r)) <$> m !! h.
Proof.
  destruct (find _ _) as [r|] eqn:Ef.
  - apply find_some_elem in Ef as [([k row] & -> & Hin)%list_elem_of_fmap Hk].
    simpl in Hk. apply String.eqb_eq in Hk as ->. apply elem_of_map_to_list in Hin. by rewrite Hin.
  - destruct (m !! h) as [row|] eqn:El; [|done]. apply find_none_iff in Ef.
    rewrite Forall_forall in Ef. specialize (Ef (mkPersisted h (tr_caps row))). simpl in Ef.
rewrite String.eqb_refl in Ef. enough (true = false) by done. apply Ef.
    apply list_elem_of_fmap. exists (h, row). split; [done|]. by apply elem_of_map_to_list.
Qed.

Lemma prune_tokens_lookup now db h :
  prune_tokens now db !! h = match db !! h with
                      | Some r => if row_live now r then Some r else None
                      | None => None
                      end.
Proof.
  unfold prune_tokens. rewrite map_lookup_filter. destruct (db !! h) as [r|]; [|done]. simpl.
  destruct (row_live now r) eqn:E; case_guard; simpl in *; congruence.
Qed.

(** What a restart knows: the live rows that are read. *)
Lemma restart_lookup now root lf p h :
  h ≠ "" →
  knownTokens (restart_validator now root lf p) !! h
  = match tp_rows p !! h with
    | Some r => if row_live now r && negb (lf_query lf) && negb (lf_unread lf h)
                then Some (list_to_set (tr_caps r)) else None
    | None => None
    end.
Proof.
  intros Hh. unfold restart_validator, loadKnownTokens. cbn [WithPersister knownTokens].
  rewrite Restore_lookup; [|destruct (lf_query lf); [constructor|]|done].
  2: { rewrite <-list_fmap_compose. apply NoDup_fst_map_to_list. }
  destruct (lf_query lf).
  - simpl. rewrite lookup_empty. destruct (tp_rows p !! h); [|done].
    by rewrite andb_false_r.
  - rewrite find_map_row, map_lookup_filter, prune_tokens_lookup.
    assert ((if lf_delete lf then tp_rows p else prune_tokens now (tp_rows p)) !! h = tp_rows p !! h
      ∨ ∃ r, tp_rows p !! h = Some r ∧ row_live now r = false
          ∧ (if lf_delete lf then tp_rows p else prune_tokens now (tp_rows p)) !! h = None) as Hd.
    { destruct (lf_delete lf); [by left|]. rewrite prune_tokens_lookup.
      destruct (tp_rows p !! h) as [r|]; [|by left]. destruct (row_live now r) eqn:E; eauto. }
    destruct Hd as [->|(r & -> & -> & ->)]; [|done].
    destruct (tp_rows p !! h) as [r|]; [|done]. destruct (row_live now r); [|done]. simpl.
    destruct (lf_unread lf h) eqn:Eu; case_guard; simpl in *; try congruence.
    apply lookup_empty.
Qed.

(** C29: A token that was accepted, at any point of a run, and whose row was
    saved then, is known after a restart with exactly its capabilities as long
    as it has not expired, whatever else was validated and registered in
    between and whichever of those saves failed, provided its row can be read;
    once it has expired it is forgotten, whatever fails. *)
Theorem restart_keeps_live_tokens v ops op ops' c e p lf now' :
  let v1 := foldl v_step v ops in
  let v2 := foldl v_step (v_step v1 op) ops' in
  accepts v1 op c → next_save_works v1 → Forall (spares (op_token op)) ops' →
  cl_ExpiresAt c = Some e → in_era e → in_era now' → persister v2 = Some p →
  let known := knownTokens (restart_validator now' (rootPubKey v) lf p) !! TokenHash (op_token op) in
  (unix_sec now' < unix_sec e → lf_query lf = false → lf_unread lf (TokenHash (op_token op)) = false →
     known = Some (capSet (cl_Capabilities c)))
  ∧ (unix_sec e < unix_sec now' → known = None).
Proof.
  intros v1 v2 Ha Hsave Hops He Hera Hera' Hp known.
  pose proof (accepts_parsed _ _ _ Ha) as [Hu _].
  pose proof (v_run_keeps_row _ ops' _ c e Hu He Hops (accepted_has_row _ _ _ _ Ha Hsave He))
    as (p' & Hp' & Hrow).
  fold v2 in Hp'. rewrite Hp in Hp'. injection Hp' as <-.
  subst known. rewrite restart_lookup by apply TokenHash_nonempty. rewrite Hrow. unfold row_live. simpl.
  split; [intros Hlt -> ->|intros Hlt].
  - apply nano_lt_seconds in Hlt; [|done..]. apply string_lt_asym, string_ltb_nlt in Hlt.
    rewrite Hlt. simpl. by rewrite list_to_set_elements_L.
  - apply nano_lt_seconds, string_ltb_lt in Hlt; [|done..]. by rewrite Hlt.
Qed.
End ucan.

(** ** The capability sets of the commands *)

(** Every set the commands issue is carved out of the root's, and the read-only
    ones grant neither sending, polling nor writing. *)
Theorem command_capabilities_attenuate :
  capSet PeerSessionCapabilities ⊆ capSet AllCapabilities
  ∧ capSet FleetWriteCapabilities ⊆ capSet PeerSessionCapabilities
  ∧ capSet FleetReadCapabilities ⊆ capSet FleetWriteCapabilities
  ∧ capSet CLICapabilities ⊆ capSet PeerSessionCapabilities
  ∧ "memory/write" ∉ capSet FleetReadCapabilities
  ∧ "msg/poll" ∉ capSet CLICapabilities ∧ "msg/send" ∉ capSet FleetReadCapabilities
  ∧ "nats/subscribe" ∉ capSet PeerSessionCapabilities.
Proof. repeat apply conj; vm_decide. Qed.

(** ** Witnesses *)
#[local] Existing Instance demo_jwt.

Definition day0 : Z := 1767225600 * Second.
Definition minted (r : result string string) : string := match r with Ok t => t | Err e => e end.

(** The broker's key signs a root token; a machine's token is minted from it. *)
Definition root_key : PrivateKey := 1%Z.
Definition machine_key : PrivateKey := 2%Z.
Definition stranger_key : PrivateKey := 3%Z.

Definition demo_root : string := minted (MintRootToken day0 root_key AllCapabilities (365 * 24 * Hour)).
Definition demo_child : string :=
  minted (MintToken day0 root_key (Public machine_key) CLICapabilities (24 * Hour) demo_root).

(** A broker that has registered its root token, over an empty table. *)
Definition demo_validator : TokenValidator :=
  RegisterToken day0 (WithPersister (NewTokenValidator (Public root_key)) (Some (NewPersister ∅)))
    demo_root AllCapabilities.

Definition claims_of (tok : string) : UCANClaims :=
  match ParseUnverified tok with Ok c => c | Err _ => mkClaims "" "" [] None None None "" [] "" "" end.

#[local] Typeclasses Opaque demo_root demo_child demo_validator claims_of.

Lemma plain_caps_decide caps :
  forallb (λ s, is_ascii s) (Resource <$> caps) = true → plain_caps caps.
Proof. unfold plain_caps. rewrite forallb_forall, Forall_forall. setoid_rewrite list_elem_of_In. auto. Qed.

Lemma root_token_validates_witness :
  ∃ tok c, (Validate (day0 + Hour) demo_validator tok).2 = Ok c
           ∧ HasCapability c "memory/write" = true.
Proof.
  destruct (root_token_validates day0 (day0 + Hour) root_key AllCapabilities (24 * Hour)
    demo_validator) as (tok & c & _ & Hv & Hc & _); [|vm_compute; by repeat split|done|done|].
  - apply plain_caps_decide. vm_decide.
  - exists tok, c. split; [done|]. apply Hc. vm_decide.
Defined.

Lemma delegated_token_validates_witness :
  ∃ tok c, MintToken day0 root_key (Public machine_key) CLICapabilities (24 * Hour) demo_root = Ok tok
           ∧ (Validate (day0 + Hour) demo_validator tok).2 = Ok c.
Proof.
  destruct (delegated_token_validates day0 (day0 + Hour) root_key (Public machine_key)
    CLICapabilities (24 * Hour) demo_root (claims_of demo_root) demo_validator)
    as (tok & c & Hm & Hv & _); [|vm_compute; by repeat split|done|vm_decide| | |].
  - apply plain_caps_decide. vm_decide.
  - vm_decide.
  - vm_decide.
  - exists tok, c. split; [exact Hm|exact Hv].
Defined.

Lemma mint_attenuates_witness :
  ∃ pc, ParseUnverified demo_root = Ok pc ∧ capSet CLICapabilities ⊆ capSet (cl_Capabilities pc).
Proof.
  apply (mint_attenuates day0 root_key (Public machine_key) CLICapabilities (24 * Hour) demo_root
    demo_child). vm_decide.
Defined.

Lemma validate_sound_witness :
  ∃ pub, pubKeyFromString (cl_Issuer (claims_of demo_child)) = Ok pub
         ∧ Verifies pub demo_child = true.
Proof.
  destruct (validate_sound (day0 + Hour) demo_validator demo_child (claims_of demo_child))
    as [H _]; [vm_decide|]. exact H.
Defined.

Lemma refused_token_forgotten_witness :
  (Validate (day0 + 48 * Hour) demo_validator demo_child).1 = demo_validator.
Proof.
  destruct (refused_token_forgotten (day0 + 48 * Hour) demo_validator demo_child Hour
    "parse token: token has invalid claims: token is expired") as [H _].
  apply H. vm_decide.
Defined.

Lemma grace_window_witness :
  match cl_ExpiresAt (claims_of demo_child) with
  | Some e => day0 + 24 * Hour + 30 * Minute ≤ e + Hour
  | None => True
  end.
Proof.
  destruct (grace_window (day0 + 24 * Hour + 30 * Minute) demo_validator demo_child Hour
    (claims_of demo_child)) as [H _]; [vm_decide|]. exact H.
Defined.

Lemma authority_confined_witness :
  ∃ op, op ∈ [OpRegister day0 demo_root AllCapabilities; OpValidate day0 demo_child]
        ∧ granted (Public root_key) op "msg/send".
Proof.
  destruct (authority_confined (NewTokenValidator (Public root_key))
    [OpRegister day0 demo_root AllCapabilities; OpValidate day0 demo_child] "msg/send")
    as [(h & cs & Hk & _)|H].
  - exists (TokenHash demo_child), (capSet CLICapabilities). split; [vm_decide|].
    vm_decide.
  - simpl in Hk. by rewrite lookup_empty in Hk.
  - exact H.
Defined.

(** The machine's token may send and list; a stranger who has read it signs
    itself a token that may do everything. *)
Lemma any_key_takes_parent_capabilities_witness :
  HasCapability (claims_of demo_child) "memory/write" = false
  ∧ ∃ tok c, (Validate day0 demo_validator tok).2 = Ok c ∧ Verifies (Public stranger_key) tok = true
             ∧ HasCapability c "memory/write" = true.
Proof.
  split; [vm_decide|].
  destruct (any_key_takes_parent_capabilities day0 stranger_key Hour demo_child
    (claims_of demo_child) AllCapabilities demo_validator) as (tok & c & Hs & Hv & Hc).
  - vm_decide.
  - vm_decide.
  - vm_decide.
  - apply plain_caps_decide. vm_decide.
  - vm_compute. by repeat split.
  - vm_decide.
  - intros cs Hcs.
    assert (knownTokens demo_validator !! cl_Proof (claims_of demo_child)
      = Some (capSet AllCapabilities)) as Hk by vm_decide.
    rewrite Hk in Hcs. by injection Hcs as <-.
  - exists tok, c. split; [done|]. split.
    + apply (demo_signed_verifies _ _ _ Hs).
    + apply Hc. vm_decide.
Defined.

(** The machine's token is accepted and saved; then the save of another token
    fails; then the machine's token comes again. *)
Definition demo_other : string :=
  minted (MintToken day0 root_key (Public stranger_key) FleetReadCapabilities (24 * Hour) demo_root).
Definition flaky_validator : TokenValidator :=
  RegisterToken day0
    (WithPersister (NewTokenValidator (Public root_key)) (Some (mkPersister ∅ [false; false; true; false])))
    demo_root AllCapabilities.
Definition flaky_table : tokenPersister :=
  default (NewPersister ∅)
    (persister (foldl v_step flaky_validator
                  [OpValidate day0 demo_child; OpValidate day0 demo_other; OpValidate day0 demo_child])).
#[local] Typeclasses Opaque demo_other flaky_validator flaky_table.

Lemma restart_keeps_live_tokens_witness :
  size (tp_rows flaky_table) = 2%nat
  ∧ knownTokens (restart_validator (day0 + Hour) (Public root_key) no_load_faults flaky_table)
      !! TokenHash demo_child = Some (capSet CLICapabilities).
Proof.
  split; [vm_decide|].
  refine (proj1 (restart_keeps_live_tokens flaky_validator [] (OpValidate day0 demo_child)
    [OpValidate day0 demo_other; OpValidate day0 demo_child] (claims_of demo_child)
    (day0 + 24 * Hour) flaky_table no_load_faults (day0 + Hour) _ _ _ _ _ _ _) _ eq_refl eq_refl).
  - change ((Validate day0 flaky_validator demo_child).2 = Ok (claims_of demo_child)). vm_decide.
  - eexists. split; [vm_compute; reflexivity|done].
  - constructor; [left; vm_decide|]. constructor; [by right|constructor].
  - vm_decide.
  - split; vm_decide.
  - split; vm_decide.
  - vm_compute. reflexivity.
  - vm_decide.
Defined.

(** ** Where the code departs from its description *)

(** A parent of one hour signs a child of a year. *)
Definition short_parent : string := minted (MintRootToken day0 root_key AllCapabilities Hour).
Definition long_child : string :=
  minted (MintToken day0 root_key (Public machine_key) CLICapabilities (365 * 24 * Hour) short_parent).

Definition short_validator : TokenValidator :=
  RegisterToken day0 (WithPersister (NewTokenValidator (Public root_key)) (Some (NewPersister ∅)))
    short_parent AllCapabilities.

(** A child outlives its parent: two hours on the parent is refused and the
    child accepted, until a restart forgets the parent. *)
Theorem child_outlives_parent :
  let later := day0 + 2 * Hour in
  is_ok (Validate later short_validator short_parent).2 = false
  ∧ is_ok (Validate later short_validator long_child).2 = true
  ∧ match persister short_validator with
    | Some p => (Validate later (restart_validator later (Public root_key) no_load_faults p) long_child).2
                 = Err "unknown proof: parent token not registered"
    | None => False
    end.
Proof. vm_compute. done. Qed.
