(* ===== verification/Server.v ===== *)
(** * The broker's HTTP surface ([auth_middleware.go], [runBroker])

    One request at a time: the authentication middleware, the routes with the
    capability each requires, the rate limits, and the token refresh.  A request
    carries the outcome of decoding its body; [None] as a response is a handler
    that panicked, whose connection [net/http] closes. *)

From S2P Require Import Prelude GoStrings GoTime Ttl Base64 Ucan RateLimiter Types Store Prog World.
From S2P Require Import Broker Dispatch.

(** ** Addresses ([net.SplitHostPort], [stripPort], [shortKID]) *)

Fixpoint LastIndexByte (s : string) (c : ascii) : option nat :=
  match s with
  | "" => None
  | String d s' =>
      match LastIndexByte s' c with
      | Some n => Some (S n)
      | None => if Ascii.eqb d c then Some O else None
      end
  end.

Definition has_byte (s : string) (c : ascii) : bool :=
  match IndexByte s c with Some _ => true | None => false end.

(** The host of a host:port text; [None] where Go reports an error. *)
Definition SplitHostPort (hostport : string) : option string :=
  match LastIndexByte hostport ":" with
  | None => None
  | Some i =>
      if HasPrefix hostport "[" then
        match IndexByte hostport "]" with
        | None => None
        | Some e =>
            if (S e =? i)%nat then
              if has_byte (str_drop 1 hostport) "[" || has_byte (str_drop (S e) hostport) "]" then None
              else Some (str_take (e - 1) (str_drop 1 hostport))
            else None
        end
      else
        let host := str_take i hostport in
        if has_byte host ":" || has_byte hostport "[" || has_byte hostport "]" then None
        else Some host
  end.

Definition stripPort (addr : string) : string := default addr (SplitHostPort addr).

Definition shortKID (s : string) : string :=
  if (String.length s <=? 8)%nat then s else str_take 8 s.

(** ** Requests and responses *)

(** A route with the outcome of [decodeBody]; [/events] carries the limit that
    its query leaves; [known] paths have a route for another method. *)
Inductive Call : Type :=
| GetHealth
| PostChallenge (b : result string ChallengeRequest)
| PostRefreshToken
| PostRegister (b : result string RegisterRequest)
| PostHeartbeat (b : result string HeartbeatRequest)
| PostSetSummary (b : result string SetSummaryRequest)
| PostAckMessage (b : result string AckMessageRequest)
| PostClaimAgent (b : result string ClaimAgentRequest)
| PostListPeers (b : result string ListPeersRequest)
| PostSendMessage (b : result string SendMessageRequest)
| PostPollMessages (b : result string PollMessagesRequest)
| PostPeekMessages (b : result string PollMessagesRequest)
| PostUnregister (b : result string UnregisterRequest)
| GetEvents (limit : Z)
| GetFleetMemory
| PostFleetMemory (b : result string string)
| NoRoute (path : string) (known : bool).

Definition path_of (c : Call) : string :=
  match c with
  | GetHealth => "/health"
  | PostChallenge _ => "/challenge"
  | PostRefreshToken => "/refresh-token"
  | PostRegister _ => "/register"
  | PostHeartbeat _ => "/heartbeat"
  | PostSetSummary _ => "/set-summary"
  | PostAckMessage _ => "/ack-message"
  | PostClaimAgent _ => "/claim-agent"
  | PostListPeers _ => "/list-peers"
  | PostSendMessage _ => "/send-message"
  | PostPollMessages _ => "/poll-messages"
  | PostPeekMessages _ => "/peek-messages"
  | PostUnregister _ => "/unregister"
  | GetEvents _ => "/events"
  | GetFleetMemory | PostFleetMemory _ => "/fleet-memory"
  | NoRoute p _ => p
  end.

Record HttpRequest : Type := mkHttpRequest {
  rq_Call : Call;
  rq_Authorization : string;
  rq_RemoteAddr : string;
}.

Inductive Body : Type :=
| JsonHealth (h : HealthResponse)
| JsonChallenge (c : ChallengeResponse)
| JsonToken (t : string)
| JsonOk
| JsonBroker (r : Response)
| Markdown (s : string)
| AuthError (error code : string)
| RateLimited
| PlainError (s : string).

Record HttpResponse : Type := mkHttpResponse { rs_Status : Z; rs_Body : Body }.

(** ** State and configuration *)
Record Server : Type := mkServer {
  sv_world : World;
  sv_validator : option TokenValidator;
  sv_sendRL : rateLimiter;
  sv_registerRL : rateLimiter;
}.

Definition set_world (sv : Server) (w : World) : Server :=
  mkServer w (sv_validator sv) (sv_sendRL sv) (sv_registerRL sv).
Definition set_validator (sv : Server) (v : TokenValidator) : Server :=
  mkServer (sv_world sv) (Some v) (sv_sendRL sv) (sv_registerRL sv).

(** What the handlers read from files and configuration. *)
Class ServerEnv {J : Jwt} : Type := {
  (** [LoadKeyPair(configDir())]. *)
  se_keypair : result string KeyPair;
  (** [loadBrokerRootToken(configDir())]. *)
  se_root_token : result string string;
  (** [cfg.DefaultChildTTL], [cfg.MachineName]. *)
  se_default_ttl : string;
  se_machine : string;
  (** [ed25519.Sign]. *)
  se_sign : PrivateKey → string → string;
}.

Section server.
Context {E : Env} {J : Jwt} {S : ServerEnv}.

Definition respond (status : Z) (b : Body) : option HttpResponse := Some (mkHttpResponse status b).

Definition writeAuthError (status : Z) (message code : string) : option HttpResponse :=
  respond status (AuthError message code).

Definition http_error (message : string) (status : Z) : option HttpResponse :=
  respond status (PlainError message).

(** ** The middleware *)
Definition bypassed (path : string) : bool :=
  String.eqb path "/health" || String.eqb path "/challenge" || String.eqb path "/refresh-token".

(** The answer to a token that [Validate] refused with [msg]. *)
Definition refusal (msg : string) : option HttpResponse :=
  if Contains msg "expired" then writeAuthError 401 "token expired" "TOKEN_EXPIRED"
  else if Contains msg "proof" || Contains msg "chain" then
    writeAuthError 401 "invalid delegation chain" "BAD_PROOF"
  else writeAuthError 401 msg "INVALID_TOKEN".

(** [Validate] on a nil validator: the token is parsed and its subject
    compared before the nil pointer is followed. *)
Definition nil_Validate (now : Z) (tokenStr : string) : option string :=
  match ParseWithClaims (WithLeeway (30 * Second)) now tokenStr issuer_key with
  | Err e => Some ("parse token: " +:+ e)
  | Ok c => if String.eqb (cl_Subject c) "claude-peers" then None
            else Some ("invalid subject: " +:+ Quote (cl_Subject c))
  end.

Definition ucanMiddleware (now : Z) (sv : Server) (rq : HttpRequest)
    (next : option UCANClaims → Server → Server * option HttpResponse)
  : Server * option HttpResponse :=
  if bypassed (path_of (rq_Call rq)) then next None sv
  else if String.eqb (rq_Authorization rq) "" then
    (sv, writeAuthError 401 "missing authorization header" "NO_AUTH")
  else
    let tokenStr := TrimPrefix (rq_Authorization rq) "Bearer " in
    if String.eqb tokenStr (rq_Authorization rq) then
      (sv, writeAuthError 401 "missing authorization header" "NO_AUTH")
    else
      match sv_validator sv with
      | None =>
          match nil_Validate now tokenStr with
          | Some msg => (sv, refusal msg)
          | None => (sv, None)
          end
      | Some v =>
          match Validate now v tokenStr with
          | (v', Err msg) => (set_validator sv v', refusal msg)
          | (v', Ok claims) => next (Some claims) (set_validator sv v')
          end
      end.

Definition requireCapability (resource : string)
    (handler : UCANClaims → Server → Server * option HttpResponse)
    (claims : option UCANClaims) (sv : Server) : Server * option HttpResponse :=
  match claims with
  | Some c =>
      if HasCapability c resource then handler c sv
      else (sv, writeAuthError 403 ("insufficient capability: " +:+ resource) "MISSING_CAPABILITY")
  | None => (sv, writeAuthError 403 ("insufficient capability: " +:+ resource) "MISSING_CAPABILITY")
  end.

(** ** Handlers *)

(** An operation of the broker, run on the server's world. *)
Definition broker_call (rq : Request) (sv : Server) : Server * Response :=
  let '(w, r) := run (dispatch rq) (sv_world sv) in (set_world sv w, r).

(** [decodeBody], then the operation. *)
Definition with_body {A} (b : result string A) (k : A → Server → Server * option HttpResponse)
    (sv : Server) : Server * option HttpResponse :=
  match b with Err e => (sv, http_error e 400) | Ok x => k x sv end.

Definition json_call (rq : Request) (sv : Server) : Server * option HttpResponse :=
  let '(sv', r) := broker_call rq sv in (sv', respond 200 (JsonBroker r)).

(** Calls answered by [{"ok": true}]. *)
Definition ok_call (rq : Request) (sv : Server) : Server * option HttpResponse :=
  let '(sv', _) := broker_call rq sv in (sv', respond 200 JsonOk).

Definition handle_health (sv : Server) : Server * option HttpResponse :=
  let '(sv', r) := broker_call RqCount sv in
  (sv', respond 200 (JsonHealth (mkHealthResponse "ok"
           (match r with RsCount n => n | _ => 0 end) se_machine))).

Definition handle_challenge (b : result string ChallengeRequest) (sv : Server)
  : Server * option HttpResponse :=
  with_body b (λ req sv,
    match se_keypair with
    | Err _ => (sv, http_error "broker has no keypair" 500)
    | Ok kp =>
        (sv, respond 200 (JsonChallenge (mkChallengeResponse (chal_Nonce req)
               (EncodeToString (se_sign (kp_PrivateKey kp) (chal_Nonce req)))
               (pubKeyToString (kp_PublicKey kp)))))
    end) sv.

Definition handle_register (now : Z) (ip : string) (b : result string RegisterRequest)
    (sv : Server) : Server * option HttpResponse :=
  let '(rl, ok) := allow (sv_registerRL sv) ip now in
  let sv := mkServer (sv_world sv) (sv_validator sv) (sv_sendRL sv) rl in
  if negb ok then (sv, respond 429 RateLimited)
  else with_body b (λ req sv,
    match broker_call (RqRegister req) sv with
    | (sv', RsRegister r) => (sv', respond (if regr_OK r then 200 else 409) (JsonBroker (RsRegister r)))
    | (sv', _) => (sv', None)
    end) sv.

Definition handle_claim (b : result string ClaimAgentRequest) (sv : Server)
  : Server * option HttpResponse :=
  with_body b (λ req sv,
    match broker_call (RqClaim req) sv with
    | (sv', RsClaim r) =>
        (sv', respond (if claimr_OK r then 200
                       else if negb (String.eqb (claimr_HeldBySession r) "") then 409 else 400)
                (JsonBroker (RsClaim r)))
    | (sv', _) => (sv', None)
    end) sv.

(** The sender id must be present, when the token names an audience. *)
Definition handle_send (now : Z) (ip : string) (claims : UCANClaims)
    (b : result string SendMessageRequest) (sv : Server) : Server * option HttpResponse :=
  let '(rl, ok) := allow (sv_sendRL sv) ip now in
  let sv := mkServer (sv_world sv) (sv_validator sv) rl (sv_registerRL sv) in
  if negb ok then (sv, respond 429 RateLimited)
  else with_body b (λ req sv,
    if negb (match cl_Audience claims with [] => true | _ => false end)
       && String.eqb (send_FromID req) ""
    then (sv, http_error "from_id is required" 400)
    else json_call (RqSend req) sv) sv.

Definition handle_get_memory (sv : Server) : Server * option HttpResponse :=
  match broker_call RqGetMemory sv with
  | (sv', RsMemory m) => (sv', respond 200 (Markdown m))
  | (sv', _) => (sv', None)
  end.

(** *** [/refresh-token] *)

(** The new token for accepted [claims]: same audience, same capabilities,
    minted from the broker's root token. *)
Definition mint_refresh (now : Z) (claims : UCANClaims) : result HttpResponse string :=
  match se_keypair with
  | Err _ => Err (mkHttpResponse 500 (PlainError "broker has no keypair"))
  | Ok kp =>
      match cl_Audience claims with
      | [] => Err (mkHttpResponse 400 (AuthError "token has no audience" "INVALID_TOKEN"))
      | aud :: _ =>
          match pubKeyFromString aud with
          | Err _ => Err (mkHttpResponse 400 (AuthError "invalid audience key" "INVALID_TOKEN"))
          | Ok audiencePub =>
              match pubKeyFromString (cl_Issuer claims) with
              | Err _ => Err (mkHttpResponse 400 (AuthError "invalid issuer key" "INVALID_TOKEN"))
              | Ok issuerPub =>
                  if String.eqb issuerPub audiencePub then
                    Err (mkHttpResponse 403
                      (AuthError "root tokens cannot be refreshed via this endpoint" "ROOT_TOKEN"))
                  else
                    match se_root_token with
                    | Err _ => Err (mkHttpResponse 500 (PlainError "broker root token unavailable"))
                    | Ok parentToken =>
                        match MintToken now (kp_PrivateKey kp) audiencePub (cl_Capabilities claims)
                                (defaultChildTTL se_default_ttl) parentToken with
                        | Err e => Err (mkHttpResponse 500 (PlainError ("mint token: " +:+ e)))
                        | Ok tok => Ok tok
                        end
                    end
              end
          end
      end
  end.

(** A valid token, or one that expired less than an hour ago. *)
Definition refresh_claims (now : Z) (v : TokenValidator) (tokenStr : string)
  : TokenValidator * result string UCANClaims :=
  match Validate now v tokenStr with
  | (v', Ok c) => (v', Ok c)
  | (v', Err _) => ValidateWithGrace now v' tokenStr Hour
  end.

Definition handle_refresh (now : Z) (auth : string) (sv : Server) : Server * option HttpResponse :=
  if String.eqb auth "" then (sv, writeAuthError 401 "missing authorization header" "NO_AUTH")
  else
    let tokenStr := TrimPrefix auth "Bearer " in
    if String.eqb tokenStr auth then (sv, writeAuthError 401 "missing bearer token" "NO_AUTH")
    else
      match sv_validator sv with
      | None => (sv, http_error "broker has no validator" 500)
      | Some v =>
          match refresh_claims now v tokenStr with
          | (v', Err e) => (set_validator sv v', writeAuthError 401 e "TOKEN_EXPIRED")
          | (v', Ok claims) =>
              match mint_refresh now claims with
              | Err r => (set_validator sv v', Some r)
              | Ok tok =>
                  (set_validator sv (RegisterToken now v' tok (cl_Capabilities claims)),
                   respond 200 (JsonToken tok))
              end
          end
      end.

(** ** The route table *)
Definition mux (now : Z) (rq : HttpRequest) (claims : option UCANClaims) (sv : Server)
  : Server * option HttpResponse :=
  let ip := stripPort (rq_RemoteAddr rq) in
  match rq_Call rq with
  | GetHealth => handle_health sv
  | PostChallenge b => handle_challenge b sv
  | PostRefreshToken => handle_refresh now (rq_Authorization rq) sv
  | PostRegister b => requireCapability "peer/register" (λ _, handle_register now ip b) claims sv
  | PostHeartbeat b =>
      requireCapability "peer/heartbeat" (λ _, with_body b (λ r, json_call (RqHeartbeat r))) claims sv
  | PostSetSummary b =>
      requireCapability "peer/set-summary" (λ _, with_body b (λ r, ok_call (RqSetSummary r))) claims sv
  | PostAckMessage b =>
      requireCapability "msg/ack" (λ _, with_body b (λ r, ok_call (RqAck r))) claims sv
  | PostClaimAgent b => requireCapability "peer/set-summary" (λ _, handle_claim b) claims sv
  | PostListPeers b =>
      requireCapability "peer/list" (λ _, with_body b (λ r, json_call (RqListPeers r))) claims sv
  | PostSendMessage b => requireCapability "msg/send" (λ c, handle_send now ip c b) claims sv
  | PostPollMessages b =>
      requireCapability "msg/poll" (λ _, with_body b (λ r, json_call (RqPoll r))) claims sv
  | PostPeekMessages b =>
      requireCapability "msg/poll" (λ _, with_body b (λ r, json_call (RqPeek r))) claims sv
  | PostUnregister b =>
      requireCapability "peer/unregister" (λ _, with_body b (λ r, ok_call (RqUnregister r))) claims sv
  | GetEvents limit => requireCapability "events/read" (λ _, json_call (RqEvents limit)) claims sv
  | GetFleetMemory => requireCapability "memory/read" (λ _, handle_get_memory) claims sv
  | PostFleetMemory b =>
      requireCapability "memory/write" (λ _, with_body b (λ r, ok_call (RqSetMemory r))) claims sv
  | NoRoute _ false => (sv, http_error "404 page not found" 404)
  | NoRoute _ true => (sv, http_error "Method Not Allowed" 405)
  end.

Definition serve (now : Z) (sv : Server) (rq : HttpRequest) : Server * option HttpResponse :=
  ucanMiddleware now sv rq (mux now rq).
End server.
