(* ===== verification/ServerSpec.v ===== *)
(** * What the HTTP surface guarantees

    Nothing a client can see changes without an accepted token that carries the
    capability of its route; and what [/refresh-token] hands out. *)

From S2P Require Import Prelude GoStrings GoTime Ttl Base64 Ucan DemoJwt UcanSpec RateLimiter Types.
From S2P Require Import Store Prog World Broker Dispatch Demo Server.

(** The part of the world that requests can observe. *)
Definition visible (w : World) : DB * string * list (string * FleetEvent) :=
  (w_db w, w_fleetMemory w, w_published w).

(** The capability of a route; [None] for the routes that need no token. *)
Definition required (c : Call) : option string :=
  match c with
  | GetHealth | PostChallenge _ | PostRefreshToken | NoRoute _ _ => None
  | PostRegister _ => Some "peer/register"
  | PostHeartbeat _ => Some "peer/heartbeat"
  | PostSetSummary _ | PostClaimAgent _ => Some "peer/set-summary"
  | PostAckMessage _ => Some "msg/ack"
  | PostListPeers _ => Some "peer/list"
  | PostSendMessage _ => Some "msg/send"
  | PostPollMessages _ | PostPeekMessages _ => Some "msg/poll"
  | PostUnregister _ => Some "peer/unregister"
  | GetEvents _ => Some "events/read"
  | GetFleetMemory => Some "memory/read"
  | PostFleetMemory _ => Some "memory/write"
  end.

(** The token of a request. *)
Definition bearer (rq : HttpRequest) : string := TrimPrefix (rq_Authorization rq) "Bearer ".

Section server.
Context {E : Env} {J : Jwt} {S : ServerEnv}.

(** The request's token is accepted and carries the capability of its route. *)
Definition authorised (now : Z) (sv : Server) (rq : HttpRequest) : Prop :=
  ∃ v c r, sv_validator sv = Some v ∧ (Validate now v (bearer rq)).2 = Ok c
           ∧ required (rq_Call rq) = Some r ∧ HasCapability c r = true.

(** ** Helper lemmas *)
Lemma refresh_world now auth sv : sv_world (handle_refresh now auth sv).1 = sv_world sv.
Proof.
  unfold handle_refresh. destruct (String.eqb auth ""); [done|].
  destruct (String.eqb _ auth); [done|]. destruct (sv_validator sv) as [v|]; [|done].
  destruct (refresh_claims _ _ _) as [v' [c|e]]; [|done]. by destruct (mint_refresh now c).
Qed.

Lemma challenge_world b sv : sv_world (handle_challenge b sv).1 = sv_world sv.
Proof. unfold handle_challenge, with_body. destruct b; [|done]. by destruct se_keypair. Qed.

Lemma requireCapability_cases r h claims sv :
  (∃ c, claims = Some c ∧ HasCapability c r = true ∧ requireCapability r h claims sv = h c sv)
  ∨ requireCapability r h claims sv
    = (sv, respond 403 (AuthError ("insufficient capability: " +:+ r) "MISSING_CAPABILITY")).
Proof.
  unfold requireCapability. destruct claims as [c|]; [|by right].
  destruct (HasCapability c r) eqn:Eh; [left; eauto|by right].
Qed.

(** A route whose capability is missing does nothing. *)
Lemma mux_refuses now rq claims sv r :
  required (rq_Call rq) = Some r →
  (∃ c, claims = Some c ∧ HasCapability c r = true)
  ∨ mux now rq claims sv
    = (sv, respond 403 (AuthError ("insufficient capability: " +:+ r) "MISSING_CAPABILITY")).
Proof.
  intros Hr. unfold mux. destruct (rq_Call rq) eqn:Ec; simpl in Hr; try done; injection Hr as <-;
    (match goal with |- _ ∨ requireCapability ?r ?h claims sv = _ =>
      destruct (requireCapability_cases r h claims sv) as [(c & ? & ? & _)|?]
    end; [left; by exists c|by right]).
Qed.

Lemma mux_open now rq claims sv :
  required (rq_Call rq) = None → visible (sv_world (mux now rq claims sv).1) = visible (sv_world sv).
Proof.
  unfold mux. destruct (rq_Call rq) as [| | | | | | | | | | | | | | | |p known]; simpl; try done; intros _.
  - by rewrite challenge_world.
  - by rewrite refresh_world.
  - by destruct known.
Qed.

(** C5: Whatever a request changes in the world clients see, its token was
    accepted and carries the capability of the route. *)
Theorem changes_are_authorised now sv rq :
  visible (sv_world (serve now sv rq).1) ≠ visible (sv_world sv) → authorised now sv rq.
Proof.
  unfold serve, ucanMiddleware. fold (bearer rq).
  destruct (required (rq_Call rq)) as [r|] eqn:Hr.
  - assert (bypassed (path_of (rq_Call rq)) = false) as ->.
    { unfold bypassed. by destruct (rq_Call rq). }
    destruct (String.eqb (rq_Authorization rq) ""); [done|].
    destruct (String.eqb (bearer rq) _); [done|].
    destruct (sv_validator sv) as [v|] eqn:Ev; [|by destruct (nil_Validate _ _)].
    destruct (Validate now v (bearer rq)) as [v' [c|e]] eqn:Eval; [|done].
    destruct (mux_refuses now rq (Some c) (set_validator sv v') r Hr) as [(c' & [= <-] & Hc)| ->];
      [|done].
    intros _. exists v, c, r. by rewrite Eval.
  - intros Hne. destruct Hne.
    destruct (bypassed _); [by apply mux_open|].
    destruct (String.eqb (rq_Authorization rq) ""); [done|].
    destruct (String.eqb (bearer rq) _); [done|].
    destruct (sv_validator sv) as [v|]; [|by destruct (nil_Validate _ _)].
    destruct (Validate now v (bearer rq)) as [v' [c|e]]; [|done]. by rewrite mux_open.
Qed.

(** A sender is whoever it says: the answer to [/send-message] depends on the
    text of the request and not on the identity its token carries. *)
Theorem send_ignores_identity now ip c1 c2 req sv :
  send_FromID req ≠ "" →
  handle_send now ip c1 (Ok req) sv = handle_send now ip c2 (Ok req) sv.
Proof.
  intros Hne%String.eqb_neq. unfold handle_send. destruct (allow _ _ _) as [rl []]; [|done].
  simpl. by rewrite Hne, !andb_false_r.
Qed.

Context {L : JwtLaws J}.

(** *** A broker without a key pair *)

(** No protected route is served, and nothing changes; a token that parses is
    not answered with 401: its handler follows the nil validator and panics. *)
Theorem no_keypair_serves_nothing now sv rq :
  sv_validator sv = None → bypassed (path_of (rq_Call rq)) = false →
  (serve now sv rq).1 = sv
  ∧ ((serve now sv rq).2 = None ∨ ∃ msg code, (serve now sv rq).2 = writeAuthError 401 msg code)
  ∧ (∀ c pub, rq_Authorization rq ≠ "" → bearer rq ≠ rq_Authorization rq →
       ParseUnverified (bearer rq) = Ok c → issuer_key c = Ok pub →
       Verifies pub (bearer rq) = true → times_ok (WithLeeway (30 * Second)) now c →
       cl_Subject c = "claude-peers" → (serve now sv rq).2 = None).
Proof.
  intros Hv Hb. unfold serve, ucanMiddleware. rewrite Hb, Hv. fold (bearer rq).
  destruct (String.eqb_spec (rq_Authorization rq) "") as [He|He].
  { split; [done|]. split; [right; by repeat eexists|]. by intros c pub []. }
  destruct (String.eqb_spec (bearer rq) (rq_Authorization rq)) as [Hq|Hq].
  { split; [done|]. split; [right; by repeat eexists|]. by intros c pub _ []. }
  split; [by destruct (nil_Validate _ _)|]. split.
  - destruct (nil_Validate now (bearer rq)) as [msg|]; [right|by left].
    unfold refusal. destruct (Contains msg "expired"), (Contains msg "proof" || Contains msg "chain")%bool;
      by repeat eexists.
  - intros c pub _ _ Hc Hk Hver Ht Hsub. unfold nil_Validate.
    rewrite (parse_complete _ _ _ _ c pub), Hsub by done. done.
Qed.

(** *** Refresh *)
Lemma refresh_claims_cases now v tok :
  (∃ c, refresh_claims now v tok = (remember now v tok (capSet (cl_Capabilities c)), Ok c)
        ∧ match cl_ExpiresAt c with Some e => now ≤ e + Hour | None => True end)
  ∨ ∃ e, refresh_claims now v tok = (v, Err e).
Proof.
  unfold refresh_claims. destruct (Validate_cases now v tok) as [(c & Hp & _ & ->)|[e ->]].
  - left. exists c. split; [done|]. apply parse_sound in Hp as (_ & [He _] & _).
    destruct (cl_ExpiresAt c); [|done]. unfold Hour, Minute, Second in *. lia.
  - destruct (ValidateWithGrace_cases now v tok Hour) as [(c & _ & _ & Hg & ->)|[e' ->]];
      [left|by right; eexists].
    exists c. split; [done|]. destruct (cl_ExpiresAt c); [lia|done].
Qed.

Lemma mint_refresh_ok now c tok :
  mint_refresh now c = Ok tok →
  ∃ kp aud rest pub root, se_keypair = Ok kp ∧ cl_Audience c = aud :: rest
    ∧ pubKeyFromString aud = Ok pub ∧ pubKeyFromString (cl_Issuer c) ≠ Ok pub
    ∧ se_root_token = Ok root
    ∧ MintToken now (kp_PrivateKey kp) pub (cl_Capabilities c) (defaultChildTTL se_default_ttl) root = Ok tok.
Proof.
  unfold mint_refresh. destruct se_keypair as [kp|]; [|done].
  destruct (cl_Audience c) as [|aud rest]; [done|].
  destruct (pubKeyFromString aud) as [pub|] eqn:Ea; [|done].
  destruct (pubKeyFromString (cl_Issuer c)) as [iss|]; [|done].
  destruct (String.eqb_spec iss pub) as [|Hne]; [done|].
  destruct se_root_token as [root|]; [|done].
  destruct (MintToken _ _ _ _ _ root) as [t|] eqn:Em; [|done]. intros [= ->].
  exists kp, aud, rest, pub, root. repeat split; try done. congruence.
Qed.

Lemma refusal_not_token now c r tok : mint_refresh now c = Err r → r ≠ mkHttpResponse 200 (JsonToken tok).
Proof. unfold mint_refresh. intros H ->. repeat case_match; by simplify_eq. Qed.

Lemma remember_superset now v tok h caps :
  (∃ cs, knownTokens v !! h = Some cs ∧ capSet caps ⊆ cs) →
  ∃ cs, knownTokens (remember now v tok (capSet caps)) !! h = Some cs ∧ capSet caps ⊆ cs.
Proof.
  intros (cs & Hk & Hsub). rewrite remember_known.
  destruct (decide (h = TokenHash tok)) as [->|Hne].
  - rewrite lookup_insert_eq. eauto.
  - rewrite lookup_insert_ne by done. eauto.
Qed.

(** C28: A refreshed token goes to the audience of the token presented, with its
    capabilities and no more, within an hour of its expiry, and never for a
    token its own audience issued. *)
Theorem refresh_preserves_grant now auth sv sv' tok :
  handle_refresh now auth sv = (sv', respond 200 (JsonToken tok)) →
  ∃ v c kp pub root, sv_validator sv = Some v
    ∧ (refresh_claims now v (TrimPrefix auth "Bearer ")).2 = Ok c
    ∧ match cl_ExpiresAt c with Some e => now ≤ e + Hour | None => True end
    ∧ (pubKeyFromString <$> head (cl_Audience c)) = Some (Ok pub)
    ∧ pubKeyFromString (cl_Issuer c) ≠ Ok pub
    ∧ MintToken now (kp_PrivateKey kp) pub (cl_Capabilities c) (defaultChildTTL se_default_ttl) root = Ok tok.
Proof.
  unfold handle_refresh. destruct (String.eqb auth ""); [done|].
  destruct (String.eqb _ auth); [done|]. destruct (sv_validator sv) as [v|]; [|done].
  destruct (refresh_claims_cases now v (TrimPrefix auth "Bearer ")) as [(c & Hr & Hexp)|[e ->]];
    [rewrite Hr|done].
  destruct (mint_refresh now c) as [t|r] eqn:Em; [|intros [= _ ->]; by eapply refusal_not_token in Em].
  intros [= _ ->].
  apply mint_refresh_ok in Em as (kp & aud & rest & pub & root & _ & Ha & Hp & Hi & _ & Hm).
  exists v, c, kp, pub, root. rewrite Ha. simpl. rewrite Hp. split_and!; try done. by rewrite Hr.
Qed.

(** A token within its lifetime or the grace hour is renewed: the new token is
    accepted at once and for the broker's default lifetime. *)
Theorem refresh_renews now now' auth sv v c kp aud rest pub iss root rc :
  let ttl := defaultChildTTL se_default_ttl in
  auth ≠ "" → TrimPrefix auth "Bearer " ≠ auth → sv_validator sv = Some v →
  (refresh_claims now v (TrimPrefix auth "Bearer ")).2 = Ok c →
  se_keypair = Ok kp → cl_Audience c = aud :: rest → pubKeyFromString aud = Ok pub →
  pubKeyFromString (cl_Issuer c) = Ok iss → iss ≠ pub →
  se_root_token = Ok root → ParseUnverified root = Ok rc →
  knownTokens v !! TokenHash root = Some (capSet (cl_Capabilities rc)) →
  capSet (cl_Capabilities c) ⊆ capSet (cl_Capabilities rc) →
  plain_caps (cl_Capabilities c) → datable now ttl → now' ≤ now + ttl →
  ∃ sv' tok v' c', handle_refresh now auth sv = (sv', respond 200 (JsonToken tok))
    ∧ sv_validator sv' = Some v' ∧ (Validate now' v' tok).2 = Ok c'
    ∧ cl_Audience c' = [pubKeyToString pub] ∧ cl_Capabilities c' = cl_Capabilities c
    ∧ cl_ExpiresAt c' = Some (NewNumericDate (now + ttl)) ∧ sv_world sv' = sv_world sv.
Proof.
  intros ttl Hauth Htrim Hv Hc Hkp Ha Hp Hi Hne Hroot Hrc Hk Hsub Hplain Hd Hnow.
  destruct (refresh_claims_cases now v (TrimPrefix auth "Bearer ")) as [(c0 & Hr & _)|[e Hr]];
    rewrite Hr in Hc; [|done]. injection Hc as ->.
  destruct (key_claims_signed (kp_PrivateKey kp) pub now ttl (cl_Capabilities c) (TokenHash root) Hplain Hd
    (EncodeToString_ascii _)) as (tok & Hs & _ & Hparse).
  assert (mint_refresh now c = Ok tok) as Hm.
  { unfold mint_refresh. rewrite Hkp, Ha, Hp, Hi, (proj2 (String.eqb_neq _ _) Hne), Hroot.
    unfold MintToken. rewrite Hrc, (proj2 (first_outside_none _ _) Hsub). fold ttl.
    unfold key_claims in Hs. by rewrite Hs. }
  set (v' := RegisterToken now (remember now v (TrimPrefix auth "Bearer ")
               (capSet (cl_Capabilities c))) tok (cl_Capabilities c)).
  exists (set_validator sv v'), tok, v',
    (key_claims (kp_PrivateKey kp) pub now ttl (cl_Capabilities c) (TokenHash root)).
  split; [|split; [done|]].
  { unfold handle_refresh. apply String.eqb_neq in Hauth, Htrim.
    by rewrite Hauth, Htrim, Hv, Hr, Hm. }
  split; [|done]. specialize (Hparse now'). pose proof (date_range (now + ttl)).
  unfold Validate. rewrite Hparse by (unfold Second in *; lia).
  assert (∃ cs, knownTokens v' !! TokenHash root = Some cs
    ∧ capSet (cl_Capabilities c) ⊆ cs) as (cs & Hcs & Hsub').
  { apply remember_superset, remember_superset. eauto. }
  assert (check_claims v' (key_claims (kp_PrivateKey kp) pub now ttl (cl_Capabilities c) (TokenHash root))
    = Ok tt) as ->; [|done].
  apply check_claims_ok. split; [done|]. right. split; [apply TokenHash_nonempty|]. eauto.
Qed.
End server.

(** ** Witnesses *)
#[local] Existing Instances demo_env demo_jwt.

Definition demo_server_env : @ServerEnv demo_jwt := {|
  se_keypair := Ok (mkKeyPair root_key (Public root_key));
  se_root_token := Ok demo_root;
  se_default_ttl := "30d";
  se_machine := "workstation";
  se_sign k nonce := Public k;
|}.
#[local] Existing Instance demo_server_env.

Definition demo_server : Server :=
  mkServer new_world (Some demo_validator) (newRateLimiter 10 Minute) (newRateLimiter 5 Minute).

Definition session_token : string :=
  minted (MintToken day0 root_key (Public machine_key) PeerSessionCapabilities (24 * Hour) demo_root).

Definition join_request : HttpRequest :=
  mkHttpRequest (PostRegister (Ok (join_as "planner"))) ("Bearer " +:+ session_token) "100.64.0.7:5123".

#[local] Typeclasses Opaque demo_server session_token demo_validator demo_root demo_child claims_of.

Definition session_count (w : World) : nat := length (peers (visible w).1.1).

Lemma changes_are_authorised_witness : authorised day0 demo_server join_request.
Proof.
  apply changes_are_authorised. intros Heq.
  assert (session_count (sv_world (serve day0 demo_server join_request).1) = 1%nat) as H1 by vm_decide.
  unfold session_count in H1. rewrite Heq in H1. discriminate.
Defined.

(** The same request to a broker that found no key pair. *)
Lemma no_keypair_serves_nothing_witness :
  (serve day0 (mkServer new_world None (newRateLimiter 10 Minute) (newRateLimiter 5 Minute))
     join_request).2 = None.
Proof.
  apply (no_keypair_serves_nothing day0
    (mkServer new_world None (newRateLimiter 10 Minute) (newRateLimiter 5 Minute)) join_request)
    with (c := claims_of session_token) (pub := Public root_key).
  - done.
  - done.
  - vm_decide.
  - vm_decide.
  - vm_decide.
  - vm_decide.
  - vm_decide.
  - split; vm_compute; done.
  - vm_decide.
Defined.

Lemma send_ignores_identity_witness :
  let req := mkSendMessageRequest "somebody else" "planner" "" "hello" in
  handle_send day0 "100.64.0.7" (claims_of session_token) (Ok req) demo_server
  = handle_send day0 "100.64.0.7" (claims_of demo_child) (Ok req) demo_server.
Proof. intros req. apply send_ignores_identity. discriminate. Defined.

(** Half an hour after its expiry the machine's token is still renewed. *)
Definition grace_time : Z := day0 + 24 * Hour + 30 * Minute.
Definition child_header : string := "Bearer " +:+ demo_child.
Definition renewed : string :=
  minted (MintToken grace_time root_key (Public machine_key) CLICapabilities (30 * 24 * Hour) demo_root).

#[local] Typeclasses Opaque renewed child_header.

Lemma refresh_preserves_grant_witness :
  ∃ c, (refresh_claims grace_time demo_validator (TrimPrefix child_header "Bearer ")).2 = Ok c
       ∧ match cl_ExpiresAt c with Some e => grace_time ≤ e + Hour | None => True end.
Proof.
  destruct (refresh_preserves_grant grace_time child_header demo_server
    (handle_refresh grace_time child_header demo_server).1 renewed)
    as (v & c & _ & _ & _ & Hv & Hc & He & _).
  - assert ((handle_refresh grace_time child_header demo_server).2
      = respond 200 (JsonToken renewed)) as <- by (vm_compute; done).
    apply surjective_pairing.
  - exists c. split; [|exact He]. injection Hv as <-. exact Hc.
Defined.

Lemma refresh_renews_witness :
  ∃ sv' tok v' c', handle_refresh grace_time child_header demo_server
                   = (sv', respond 200 (JsonToken tok))
    ∧ sv_validator sv' = Some v' ∧ (Validate (grace_time + 29 * 24 * Hour) v' tok).2 = Ok c'.
Proof.
  destruct (refresh_renews grace_time (grace_time + 29 * 24 * Hour) child_header demo_server
    demo_validator (claims_of demo_child) (mkKeyPair root_key (Public root_key)) (pubKeyToString (Public machine_key)) []
    (Public machine_key) (Public root_key) demo_root (claims_of demo_root))
    as (sv' & tok & v' & c' & H1 & H2 & H3 & _).
  - vm_decide.
  - vm_decide.
  - done.
  - vm_decide.
  - done.
  - vm_decide.
  - vm_decide.
  - vm_decide.
  - vm_decide.
  - done.
  - vm_decide.
  - vm_decide.
  - vm_decide.
  - apply plain_caps_decide. vm_decide.
  - split; split; vm_decide.
  - vm_decide.
  - exists sv', tok, v', c'. split; [exact H1|]. split; [exact H2|exact H3].
Defined.
