(* ===== verification/Startup.v ===== *)
(** * Starting the broker ([newBroker], [runBroker])

    What a broker makes of the database file it finds: the migration of the old
    schema, the backfill of the name history, the known tokens and the fleet
    memory; then the server that [runBroker] serves. *)

From S2P Require Import Prelude GoStrings GoTime Types Store Prog World Broker Dispatch Demo.
From S2P Require Import BrokerInv BrokerOps Ttl Base64 Ucan RateLimiter DemoJwt Server ServerSpec.

(** ** The database file *)

(** A table of the file, with its columns. *)
Record Table (A : Type) : Type := mkTable { columns : list string; rows : list A }.
Arguments mkTable {A} columns rows.
Arguments columns {A} t.
Arguments rows {A} t.

(** A missing table of the current schema is an empty one, except for the two
    that are migrated. *)
Record Disk : Type := mkDisk {
  dk_peers : option (Table PeerRow);
  dk_messages : option (Table MsgRow);
  dk_msg_seq : Z;
  dk_events : list EventRow;
  dk_event_seq : Z;
  dk_kv : gmap string string;
  dk_names : gmap string string;
  dk_tokens : gmap string TokenRow;
}.

Definition peer_columns : list string :=
  ["id"; "agent_name"; "pid"; "machine"; "cwd"; "git_root"; "tty"; "project"; "branch";
   "summary"; "started_at"; "last_seen"].
Definition message_columns : list string :=
  ["id"; "to_agent"; "to_session"; "from_session"; "from_agent"; "text"; "sent_at";
   "delivered_at"; "ack_at"; "ack_session"; "attempts"].

(** The file a broker leaves behind. *)
Definition disk_of (db : DB) (tokens : gmap string TokenRow) : Disk :=
  mkDisk (Some (mkTable peer_columns (peers db))) (Some (mkTable message_columns (messages db)))
    (msg_seq db) (events db) (event_seq db) (kv db) (agent_names_seen db) tokens.

(** ** Schema migration *)

(** [pragma] is the outcome of [PRAGMA table_info]: an error, or the table. *)
Definition colMissing {A} (pragma : result string (option (Table A))) (col : string) : bool :=
  match pragma with
  | Err _ => true
  | Ok None => true
  | Ok (Some t) => negb (bool_decide (col ∈ columns t))
  end.

(** The rows left after [DROP TABLE IF EXISTS] and [CREATE TABLE IF NOT EXISTS]. *)
Definition migrate {A} (fault : option string) (t : option (Table A)) (col : string) : list A :=
  if colMissing (match fault with Some e => Err e | None => Ok t end) col then []
  else match t with Some t => rows t | None => [] end.

(** Dropping a table forgets its AUTOINCREMENT counter. *)
Definition migrate_seq {A} (fault : option string) (t : option (Table A)) (col : string) (seq : Z) : Z :=
  if colMissing (match fault with Some e => Err e | None => Ok t end) col then 0 else seq.

(** ** Backfill of [agent_names_seen] *)

(** [INSERT OR IGNORE ... SELECT agent_name, started_at FROM peers
    WHERE agent_name != '']. *)
Definition backfill_peers (l : list PeerRow) (names : gmap string string) : gmap string string :=
  foldl (λ m p, if String.eqb (pr_agent_name p) "" then m
                else record_name (pr_agent_name p) (pr_started_at p) m) names l.

(** [SELECT to_agent, MIN(sent_at) FROM messages WHERE to_agent != '' GROUP BY to_agent]. *)
Definition first_sent (l : list MsgRow) : gmap string string :=
  foldl (λ m r,
    if String.eqb (m_to_agent r) "" then m
    else <[m_to_agent r :=
             match m !! m_to_agent r with
             | Some t => if string_ltb (m_sent_at r) t then m_sent_at r else t
             | None => m_sent_at r
             end]> m) ∅ l.

(** [INSERT OR IGNORE] of those rows: the ones present win. *)
Definition backfill_messages (l : list MsgRow) (names : gmap string string) : gmap string string :=
  names ∪ first_sent l.

(** ** [loadBrokerRootToken] *)

(** The two token files as loaded; [payload] decodes the middle part of a token
    into issuer and audience.  Also the root token file it leaves, when saving
    works. *)
Definition loadBrokerRootToken (root_file token_file : result string string)
    (payload : string → option (string * list string)) (save_ok : bool)
  : option string * result string string :=
  match root_file with
  | Ok token => (Some token, Ok token)
  | Err _ =>
      match token_file with
      | Err e => (None, Err ("no root token or peer token found: " +:+ e))
      | Ok token =>
          let refused := (None, Err "token.jwt is not a root token and root-token.jwt does not exist") in
          match SplitN token "." 3 with
          | [_; part; _] =>
              match payload part with
              | Some (iss, aud :: _) =>
                  if String.eqb iss aud then (if save_ok then Some token else None, Ok token)
                  else refused
              | _ => refused
              end
          | _ => refused
          end
      end
  end.

(** ** [newBroker] *)
Section startup.
Context {J : Jwt} {S : ServerEnv}.

(** [faults]: the errors of the two [PRAGMA] queries. *)
Definition open_db (faults : option string * option string) (d : Disk) : DB :=
  let ps := migrate faults.1 (dk_peers d) "agent_name" in
  let ms := migrate faults.2 (dk_messages d) "to_agent" in
  mkDB ps ms (migrate_seq faults.2 (dk_messages d) "to_agent" (dk_msg_seq d))
    (dk_events d) (dk_event_seq d) (dk_kv d)
    (backfill_messages ms (backfill_peers ps (dk_names d))).

(** The errors of the token table: reading it, and the saves to come. *)
Record token_faults : Type := mkTokenFaults { tf_load : load_faults; tf_saves : list bool }.

Definition no_token_faults : token_faults := mkTokenFaults no_load_faults [].

Definition open_validator (tf : token_faults) (now : Z) (d : Disk) : option TokenValidator :=
  match se_keypair with
  | Err _ => None
  | Ok kp =>
      let v := restart_validator now (kp_PublicKey kp) (tf_load tf)
                 (mkPersister (dk_tokens d) (tf_saves tf)) in
      match se_root_token with
      | Err _ => Some v
      | Ok rootToken => Some (RegisterToken now v rootToken AllCapabilities)
      end
  end.

Definition newBroker (faults : option string * option string) (tf : token_faults) (now : Z) (d : Disk)
  : World * option TokenValidator :=
  let db := open_db faults d in
  (mkWorld db (default "" (kv db !! "fleet_memory")) [] 0 0 0, open_validator tf now d).

(** [runBroker]: ten sends and five registrations a minute and address. *)
Definition runBroker (faults : option string * option string) (tf : token_faults) (now : Z) (d : Disk)
  : Server :=
  let '(w, v) := newBroker faults tf now d in
  mkServer w v (newRateLimiter 10 Minute) (newRateLimiter 5 Minute).
End startup.

(** ** Lemmas on the backfill *)
Lemma record_name_lookup a now m b :
  record_name a now m !! b
  = match m !! b with Some t => Some t | None => if String.eqb a b then Some now else None end.
Proof.
  unfold record_name. destruct (String.eqb_spec a b) as [->|Hne].
  - destruct (m !! b) eqn:E; [done|]. by rewrite lookup_insert_eq.
  - destruct (m !! a); [by destruct (m !! b)|]. rewrite lookup_insert_ne by done.
    by destruct (m !! b).
Qed.

Lemma backfill_peers_keeps l names a t :
  names !! a = Some t → backfill_peers l names !! a = Some t.
Proof.
  unfold backfill_peers. revert names. induction l as [|p l IH]; intros names Ha; [done|]. simpl.
  apply IH. destruct (String.eqb _ _); [done|]. by rewrite record_name_lookup, Ha.
Qed.

Lemma backfill_peers_seen l names a :
  is_Some (backfill_peers l names !! a)
  ↔ is_Some (names !! a) ∨ a ≠ "" ∧ ∃ p, p ∈ l ∧ pr_agent_name p = a.
Proof.
  unfold backfill_peers. revert names. induction l as [|p l IH]; intros names; simpl.
  { split; [by left|]. intros [?|(_ & p & Hp & _)]; [done|]. by apply elem_of_nil in Hp. }
  rewrite IH. setoid_rewrite elem_of_cons. destruct (String.eqb_spec (pr_agent_name p) "") as [He|Hne].
  - naive_solver.
  - rewrite record_name_lookup. destruct (names !! a) eqn:Ea; [naive_solver|].
    destruct (String.eqb_spec (pr_agent_name p) a); naive_solver.
Qed.

Lemma first_sent_seen l a : is_Some (first_sent l !! a) ↔ a ≠ "" ∧ ∃ m, m ∈ l ∧ m_to_agent m = a.
Proof.
  unfold first_sent. assert (is_Some ((∅ : gmap string string) !! a) ↔ False) as Hempty.
  { rewrite lookup_empty. split; [by intros []|done]. }
  revert Hempty. generalize (∅ : gmap string string) as m0. intros m0 Hm0.
  enough (∀ m0 : gmap string string, is_Some (foldl (λ m r,
    if String.eqb (m_to_agent r) "" then m
    else <[m_to_agent r :=
             match m !! m_to_agent r with
             | Some t => if string_ltb (m_sent_at r) t then m_sent_at r else t
             | None => m_sent_at r
             end]> m) m0 l !! a) ↔ is_Some (m0 !! a) ∨ a ≠ "" ∧ ∃ m, m ∈ l ∧ m_to_agent m = a)
    as Hall by (rewrite Hall; tauto).
  clear m0 Hm0. induction l as [|r l IH]; intros m0; simpl.
  { split; [by left|]. intros [?|(_ & m & Hm & _)]; [done|]. by apply elem_of_nil in Hm. }
  rewrite IH. setoid_rewrite elem_of_cons. destruct (String.eqb_spec (m_to_agent r) "") as [He|Hne].
  - naive_solver.
  - destruct (decide (m_to_agent r = a)) as [<-|Hd].
    + rewrite lookup_insert_eq. naive_solver.
    + rewrite lookup_insert_ne by done. naive_solver.
Qed.

Lemma backfill_names l ms names a :
  is_Some (backfill_messages ms (backfill_peers l names) !! a)
  ↔ is_Some (names !! a)
    ∨ a ≠ "" ∧ ((∃ p, p ∈ l ∧ pr_agent_name p = a) ∨ ∃ m, m ∈ ms ∧ m_to_agent m = a).
Proof.
  unfold backfill_messages. rewrite lookup_union_is_Some, backfill_peers_seen, first_sent_seen. tauto.
Qed.

Lemma record_name_known a now m : is_Some (m !! a) → record_name a now m = m.
Proof. unfold record_name. by intros [t ->]. Qed.

Lemma backfill_peers_known l names :
  (∀ p, p ∈ l → pr_agent_name p ≠ "" → is_Some (names !! pr_agent_name p)) →
  backfill_peers l names = names.
Proof.
  unfold backfill_peers. intros Hk. induction l as [|p l IH]; [done|]. simpl.
  destruct (String.eqb_spec (pr_agent_name p) "") as [He|Hne].
  - apply IH. intros q Hq. apply Hk. by right.
  - rewrite record_name_known by (apply Hk; [by left|done]). apply IH. intros q Hq. apply Hk. by right.
Qed.

Lemma backfill_known l ms names :
  let names' := backfill_messages ms (backfill_peers l names) in
  backfill_messages ms (backfill_peers l names') = names'.
Proof.
  intros names'. rewrite backfill_peers_known.
  - unfold names', backfill_messages. rewrite <-(assoc_L (∪)). f_equal. apply map_union_idemp.
  - intros p Hp Hne. apply backfill_names. right. split; [done|]. left. by exists p.
Qed.

(** ** Lemmas on the fleet memory *)
Definition stored_memory (db : DB) : string := default "" (kv db !! "fleet_memory").

Definition same_kv (db db' : DB) : Prop := kv db' = kv db.

#[export] Instance same_kv_refl : Reflexive same_kv.
Proof. by intros db. Qed.

Lemma issued_kv rq f : issued rq f → (∀ c, rq ≠ RqSetMemory c) → respects same_kv f.
Proof.
  unfold same_kv. intros Hf Hrq db db' n Heq.
  destruct Hf; try (by injection Heq as <- <-); try (by edestruct Hrq);
    unfold insert_peer, insert_name_seen, insert_message, update_agent_name, insert_event in Heq;
    repeat case_match; simplify_eq/=; done.
Qed.

Lemma exec_step_memory {E : Env} f w : w_fleetMemory (exec_step f w).1 = w_fleetMemory w.
Proof. unfold exec_step. by repeat case_match. Qed.

(** The memory in use is the one in the table. *)
Definition memory_stored (w w' : World) : Prop :=
  stored_memory (w_db w) = w_fleetMemory w → stored_memory (w_db w') = w_fleetMemory w'.

#[export] Instance memory_stored_preorder : PreOrder memory_stored.
Proof. unfold memory_stored. split; [by intros w ?|]. intros w1 w2 w3; auto. Qed.

Lemma dispatch_memory_stored {E : Env} (Hok : ∀ n, env_fault n = None) rq :
  all_acts memory_stored (dispatch rq).
Proof.
  apply dispatch_acts_world.
  - intros w w' [Hdb Hm]. unfold memory_stored. by rewrite Hdb, Hm.
  - intros f w Hf Hrq Heq. rewrite exec_step_memory, <-Heq. unfold stored_memory.
    enough (kv (w_db (exec_step f w).1) = kv (w_db w)) as -> by done.
    apply (exec_step_respects same_kv). by eapply issued_kv.
  - intros c w _ _. unfold exec_step. rewrite Hok. simpl. unfold stored_memory.
    simpl. by rewrite lookup_insert_eq.
Qed.

(** ** Properties *)
Section properties.
Context {J : Jwt} {S : ServerEnv}.

(** C30: A restart on the current schema keeps sessions, messages, counters, events
    and stored values; the name history keeps its entries and gains exactly the
    names that live sessions hold and stored messages are addressed to; a
    second restart changes nothing. *)
Theorem restart_keeps_state db tokens :
  let db' := open_db (None, None) (disk_of db tokens) in
  peers db' = peers db ∧ messages db' = messages db ∧ msg_seq db' = msg_seq db
  ∧ events db' = events db ∧ event_seq db' = event_seq db ∧ kv db' = kv db
  ∧ (∀ a t, agent_names_seen db !! a = Some t → agent_names_seen db' !! a = Some t)
  ∧ (∀ a, is_Some (agent_names_seen db' !! a) ↔
       is_Some (agent_names_seen db !! a)
       ∨ a ≠ "" ∧ ((∃ p, p ∈ peers db ∧ pr_agent_name p = a)
                  ∨ ∃ m, m ∈ messages db ∧ m_to_agent m = a))
  ∧ open_db (None, None) (disk_of db' tokens) = db'.
Proof.
  intros db'. do 6 (split; [done|]). split; [|split].
  - intros a t Ha. unfold db'. simpl. unfold backfill_messages. apply lookup_union_Some_l.
    by apply backfill_peers_keeps.
  - intros a. apply backfill_names.
  - unfold db', open_db. simpl. f_equal. apply backfill_known.
Qed.

(** The fleet memory survives a restart: after any interleaving of handlers on
    a database that answers, the next broker starts with the memory in use. *)
Theorem fleet_memory_durable {E : Env} faults tf tf' now d pool' w' tokens now' :
  (∀ n, env_fault n = None) →
  steps dispatch ([], (newBroker faults tf now d).1) (pool', w') →
  w_fleetMemory (newBroker (None, None) tf' now' (disk_of (w_db w') tokens)).1 = w_fleetMemory w'.
Proof.
  intros Hok Hs.
  apply (steps_all_acts dispatch memory_stored ([], (newBroker faults tf now d).1) (pool', w'))
    in Hs as [Hm _]; [|intros rq; by apply dispatch_memory_stored|constructor].
  by apply Hm.
Qed.

(** A [PRAGMA] that fails counts as a missing column: the table is dropped with
    all the messages in it. *)
Theorem failed_pragma_drops_messages e d :
  messages (open_db (None, Some e) d) = [] ∧ msg_seq (open_db (None, Some e) d) = 0.
Proof. done. Qed.

(** Only a root token file, or a self-issued token, is taken for the root. *)
Theorem root_token_is_self_issued root token payload save_ok tok :
  (loadBrokerRootToken root token payload save_ok).2 = Ok tok →
  root = Ok tok
  ∨ token = Ok tok ∧ ∃ h p s iss auds, SplitN tok "." 3 = [h; p; s]
      ∧ payload p = Some (iss, iss :: auds).
Proof.
  unfold loadBrokerRootToken. destruct root as [t|e]; [intros [= ->]; by left|].
  destruct token as [t|e']; [|done]. intros H. right.
  destruct (SplitN t "." 3) as [|h [|p [|s [|? ?]]]] eqn:Es; try done.
  destruct (payload p) as [[iss [|aud auds]]|] eqn:Ep; try done.
  destruct (String.eqb_spec iss aud) as [->|]; [|done]. injection H as ->. eauto 10.
Qed.
End properties.

(** ** Witnesses *)
#[local] Existing Instance demo_env.

Definition demo_notes : World :=
  after [RqSetMemory "rebase before pushing"; join "planner"; RqSetMemory "use the staging host"].

#[local] Existing Instances demo_jwt demo_server_env.

Lemma fleet_memory_durable_witness :
  w_fleetMemory (newBroker (None, None) no_token_faults 0 (disk_of (w_db demo_notes) ∅)).1 = "use the staging host".
Proof.
  destruct (after_steps [RqSetMemory "rebase before pushing"; join "planner";
                         RqSetMemory "use the staging host"]) as [pool Hs].
  rewrite (fleet_memory_durable (None, None) no_token_faults no_token_faults 0 (disk_of empty_db ∅) pool demo_notes ∅ 0);
    [vm_compute; done|done|exact Hs].
Defined.

Lemma root_token_is_self_issued_witness :
  let payload p := if String.eqb p "p" then Some ("key", ["key"]) else None in
  (Err "no file" : result string string) = Ok "h.p.s"
  ∨ (Ok "h.p.s" : result string string) = Ok "h.p.s"
    ∧ ∃ h p s iss auds, SplitN "h.p.s" "." 3 = [h; p; s] ∧ payload p = Some (iss, iss :: auds).
Proof.
  intros payload.
  apply (root_token_is_self_issued (Err "no file") (Ok "h.p.s") payload true "h.p.s"). done.
Defined.

(** ** Where the code departs from its description *)

(** A message to a misspelt name, which nobody ever held. *)
Definition typo : SendMessageRequest := send_agent "00000000" "biulder" "please build".
Definition demo_typo : World := after [join "planner"; RqSend typo].
Definition demo_typo_restarted : World :=
  (newBroker (None, None) no_token_faults 0 (disk_of (w_db demo_typo) ∅)).1.

(** The name is reported as never held, until the broker restarts: the backfill
    takes it from the message history, and the same send is then reported as one
    to an agent that is offline. *)
Theorem restart_blesses_typos :
  sendr_DeliveryStatus (run (sendMessage typo) demo_typo).2 = DeliveryStatusQueuedUnknown
  ∧ sendr_DeliveryStatus (run (sendMessage typo) demo_typo_restarted).2 = DeliveryStatusQueuedOffline.
Proof. vm_compute. done. Qed.
