(* ===== verification/Config.v ===== *)
(** * Configuration ([config.go], [broker_tls.go], [fleet_nats.go], [fleet_git.go])

    Where settings come from and what is derived from them: defaults, the
    configuration file, the environment and the broker's flags; the TLS domains;
    the NATS address; the agent's declared name and project. *)

From S2P Require Import Prelude GoStrings.

(** ** [Config] *)
Record Config : Type := mkConfig {
  cfg_Role : string;
  cfg_BrokerURL : string;
  cfg_Listen : string;
  cfg_MachineName : string;
  cfg_DBPath : string;
  cfg_StaleTimeout : Z;
  cfg_NatsURL : string;
  cfg_NatsToken : string;
  cfg_NatsNKeySeed : string;
  cfg_LLMBaseURL : string;
  cfg_LLMModel : string;
  cfg_LLMAPIKey : string;
  cfg_DefaultChildTTL : string;
  cfg_TLSDomain : string;
  cfg_TLSEmail : string;
  cfg_TLSCacheDir : string;
  cfg_TLSAcmeStaging : bool;
}.

(** [defaultConfig], from the host name and the default database path. *)
Definition defaultConfig (hostname dbPath : string) : Config :=
  mkConfig "client" "http://127.0.0.1:7899" "127.0.0.1:7899" hostname dbPath 20 "" "" ""
    "http://127.0.0.1:4000/v1" "claude-haiku" "" "24h" "" "" "" false.

(** [if v := os.Getenv(key); v != "" { field = v }]. *)
Definition override (env : string → string) (key field : string) : string :=
  if String.eqb (env key) "" then field else env key.

(** [loadConfig]; [file] is the effect of unmarshalling the configuration file
    onto a value, when the file can be read. *)
Definition loadConfig (hostname dbPath : string) (file : option (Config → Config))
    (env : string → string) : Config :=
  let d := defaultConfig hostname dbPath in
  let c := match file with Some f => f d | None => d end in
  let url := override env "CLAUDE_PEERS_BROKER_URL" (cfg_BrokerURL c) in
  let listen := override env "CLAUDE_PEERS_LISTEN" (cfg_Listen c) in
  let staging := env "CLAUDE_PEERS_TLS_ACME_STAGING" in
  let port := env "CLAUDE_PEERS_PORT" in
  mkConfig (cfg_Role c)
    (if negb (String.eqb port "") && String.eqb url (cfg_BrokerURL d)
     then "http://127.0.0.1:" +:+ port else url)
    (if negb (String.eqb port "") then "127.0.0.1:" +:+ port else listen)
    (override env "CLAUDE_PEERS_MACHINE" (cfg_MachineName c))
    (override env "CLAUDE_PEERS_DB" (cfg_DBPath c))
    (cfg_StaleTimeout c)
    (override env "CLAUDE_PEERS_NATS" (cfg_NatsURL c))
    (override env "CLAUDE_PEERS_NATS_TOKEN" (cfg_NatsToken c))
    (override env "CLAUDE_PEERS_NATS_NKEY" (cfg_NatsNKeySeed c))
    (override env "CLAUDE_PEERS_LLM_URL" (cfg_LLMBaseURL c))
    (override env "CLAUDE_PEERS_LLM_MODEL" (cfg_LLMModel c))
    (override env "CLAUDE_PEERS_LLM_API_KEY" (cfg_LLMAPIKey c))
    (override env "CLAUDE_PEERS_DEFAULT_TTL" (cfg_DefaultChildTTL c))
    (override env "CLAUDE_PEERS_TLS_DOMAIN" (cfg_TLSDomain c))
    (override env "CLAUDE_PEERS_TLS_EMAIL" (cfg_TLSEmail c))
    (override env "CLAUDE_PEERS_TLS_CACHE_DIR" (cfg_TLSCacheDir c))
    (String.eqb staging "1" || String.eqb staging "true" || cfg_TLSAcmeStaging c).

(** ** The broker's flags ([parseBrokerFlags]) *)
Definition set_tls (c : Config) (domain email dir : string) (staging : bool) : Config :=
  mkConfig (cfg_Role c) (cfg_BrokerURL c) (cfg_Listen c) (cfg_MachineName c) (cfg_DBPath c)
    (cfg_StaleTimeout c) (cfg_NatsURL c) (cfg_NatsToken c) (cfg_NatsNKeySeed c) (cfg_LLMBaseURL c)
    (cfg_LLMModel c) (cfg_LLMAPIKey c) (cfg_DefaultChildTTL c) domain email dir staging.

Inductive TlsFlag : Type := TlsDomain | TlsEmail | TlsCacheDir.

Definition set_flag (f : TlsFlag) (v : string) (c : Config) : Config :=
  match f with
  | TlsDomain => set_tls c v (cfg_TLSEmail c) (cfg_TLSCacheDir c) (cfg_TLSAcmeStaging c)
  | TlsEmail => set_tls c (cfg_TLSDomain c) v (cfg_TLSCacheDir c) (cfg_TLSAcmeStaging c)
  | TlsCacheDir => set_tls c (cfg_TLSDomain c) (cfg_TLSEmail c) v (cfg_TLSAcmeStaging c)
  end.

Definition set_staging (b : bool) (c : Config) : Config :=
  set_tls c (cfg_TLSDomain c) (cfg_TLSEmail c) (cfg_TLSCacheDir c) b.

Definition value_flag (key : string) : option TlsFlag :=
  if String.eqb key "--tls-domain" then Some TlsDomain
  else if String.eqb key "--tls-email" then Some TlsEmail
  else if String.eqb key "--tls-cache-dir" then Some TlsCacheDir
  else None.

(** [key=val] split at the first [=] past the first byte. *)
Definition split_flag (a : string) : string * option string :=
  match IndexByte a "=" with
  | Some (S n) => (str_take (S n) a, Some (str_drop (S (S n)) a))
  | _ => (a, None)
  end.

(** The error is the offending argument and whether its value is missing. *)
Fixpoint parseBrokerFlags (args : list string) (c : Config) : result (string * bool) Config :=
  match args with
  | [] => Ok c
  | a :: rest =>
      let '(key, inline) := split_flag a in
      match value_flag key with
      | Some f =>
          match inline, rest with
          | Some v, _ => parseBrokerFlags rest (set_flag f v c)
          | None, v :: rest' => parseBrokerFlags rest' (set_flag f v c)
          | None, [] => Err (key, true)
          end
      | None =>
          if String.eqb key "--tls-acme-staging" then
            parseBrokerFlags rest
              (set_staging (match inline with
                            | Some v => String.eqb v "true" || String.eqb v "1"
                            | None => true
                            end) c)
          else Err (a, false)
      end
  end.

(** ** TLS ([broker_tls.go], [tlsConfigFromGlobalConfig]) *)
Record TLSConfig : Type := mkTLSConfig {
  tls_Domains : list string;
  tls_Email : string;
  tls_CacheDir : string;
  tls_AcmeStaging : bool;
}.

Definition Enabled (c : TLSConfig) : bool := match tls_Domains c with [] => false | _ => true end.

Inductive TlsErr : Type :=
| EmptyDomain
| LocalhostDomain (d : string)
| IPDomain (d : string)
| NoCacheDir.

(** [isIP] is [net.ParseIP(d) != nil]. *)
Definition domain_error (isIP : string → bool) (d : string) : option TlsErr :=
  if String.eqb d "" then Some EmptyDomain
  else if String.eqb d "localhost" || HasPrefix d "localhost." then Some (LocalhostDomain d)
  else if isIP d then Some (IPDomain d)
  else None.

Fixpoint first_error {A E} (f : A → option E) (l : list A) : option E :=
  match l with
  | [] => None
  | x :: l' => match f x with Some e => Some e | None => first_error f l' end
  end.

Definition ValidateTLS (isIP : string → bool) (c : TLSConfig) : option TlsErr :=
  if negb (Enabled c) then None
  else
    match first_error (domain_error isIP) (tls_Domains c) with
    | Some e => Some e
    | None => if String.eqb (tls_CacheDir c) "" then Some NoCacheDir else None
    end.

Definition non_empty (s : string) : bool := negb (String.eqb s "").

Definition parseTLSDomains (raw : string) : list string :=
  if String.eqb raw "" then []
  else List.filter non_empty (TrimSpace <$> Split raw ",").

(** [defaultDir] is [filepath.Join(configDir(), "autocert")]. *)
Definition tlsConfigFromGlobalConfig (defaultDir : string) (c : Config) : TLSConfig :=
  match parseTLSDomains (cfg_TLSDomain c) with
  | [] => mkTLSConfig [] "" "" false
  | domains =>
      mkTLSConfig domains (cfg_TLSEmail c)
        (if String.eqb (cfg_TLSCacheDir c) "" then defaultDir else cfg_TLSCacheDir c)
        (cfg_TLSAcmeStaging c)
  end.

(** ** The NATS address ([natsURL]) *)
Definition natsDefaultURL : string := "nats://127.0.0.1:4222".

Definition strip_scheme (host prefix : string) : string :=
  if (String.length prefix <? String.length host)%nat && HasPrefix host prefix
  then str_drop (String.length prefix) host else host.

Definition natsURL (c : Config) : string :=
  if non_empty (cfg_NatsURL c) then cfg_NatsURL c
  else if non_empty (cfg_BrokerURL c) then
    let host := strip_scheme (strip_scheme (cfg_BrokerURL c) "http://") "https://" in
    let host := match IndexByte host ":" with Some i => str_take i host | None => host end in
    "nats://" +:+ host +:+ ":4222"
  else natsDefaultURL.

(** ** Identity ([fleet_git.go]) *)

(** A clean absolute path, as [filepath.Abs] returns it, by its segments. *)
Abbreviation path := (list string).

Fixpoint strip_common (p q : path) : path * path :=
  match p, q with
  | x :: p', y :: q' => if String.eqb x y then strip_common p' q' else (p, q)
  | _, _ => (p, q)
  end.

(** [filepath.Rel(root, p)]. *)
Definition Rel (root p : path) : string :=
  let '(up, down) := strip_common root p in
  match up, down with
  | [], [] => "."
  | _, _ => Join (((λ _, "..") <$> up) ++ down) "/"
  end.

Definition isInside (p root : path) : bool :=
  String.eqb (Rel root p) "." || negb (HasPrefix (Rel root p) "..").

(** The name an agent file declares: its first line, trimmed. *)
Definition agent_line (data : string) : string :=
  TrimSpace (match SplitN (TrimSpace data) "010" 2 with l :: _ => l | [] => "" end).

(** The walk of [findAgentFile], on the reversed directory; [fs] reads the agent
    file of a directory. *)
Fixpoint walk_up (inside : bool) (rhome : path) (fs : path → option string) (rdir : path) : string :=
  let name := match fs (reverse rdir) with Some data => agent_line data | None => "" end in
  if non_empty name then name
  else if negb inside then ""
  else if bool_decide (rdir = rhome) then ""
  else match rdir with [] => "" | _ :: up => walk_up inside rhome fs up end.

(** [home] is [None] when it is unknown. *)
Definition findAgentFile (fs : path → option string) (cwd : path) (home : option path) : string :=
  let inside := match home with Some h => isInside cwd h | None => false end in
  walk_up inside (reverse (default [] home)) fs (reverse cwd).

Definition resolveAgentName (flag env : string) (fs : path → option string) (cwd : path)
    (home : option path) : string :=
  if non_empty flag then TrimSpace flag
  else if non_empty env then TrimSpace env
  else findAgentFile fs cwd home.

Definition splitNonEmpty (s : string) : list string :=
  if String.eqb s "" then [] else List.filter non_empty (Split s "010").

Definition filterEmpty (ss : list string) : list string := List.filter non_empty ss.

(** [base] is [filepath.Base(root)]. *)
Definition autoProject (cwd root home base : string) : string :=
  if non_empty root then base
  else if String.eqb cwd home || String.eqb home "" then ""
  else
    let rel := TrimPrefix cwd (home +:+ "/") in
    match filterEmpty (Split (TrimPrefix rel "/") "/") with
    | [] => ""
    | [a] => a
    | a :: b :: _ => a +:+ "/" +:+ b
    end.

(** ** Lemmas *)
Lemma non_empty_true s : non_empty s = true ↔ s ≠ "".
Proof. unfold non_empty. rewrite negb_true_iff. apply String.eqb_neq. Qed.

Lemma first_error_none {A E} (f : A → option E) l :
  first_error f l = None ↔ ∀ x, x ∈ l → f x = None.
Proof.
  induction l as [|x l IH]; simpl.
  - split; [|done]. intros _ x Hx. by apply elem_of_nil in Hx.
  - destruct (f x) as [e|] eqn:E1.
    + split; [done|]. intros H. specialize (H x ltac:(by left)). congruence.
    + rewrite IH. split; intros H y; [|intros Hy; apply H; by right].
      intros [->|Hy]%elem_of_cons; [done|by apply H].
Qed.

Lemma parseTLSDomains_non_empty raw d : d ∈ parseTLSDomains raw → d ≠ "".
Proof.
  unfold parseTLSDomains. destruct (String.eqb raw ""); [by intros ?%elem_of_nil|].
  intros [Hd _]%elem_of_bfilter. by apply non_empty_true.
Qed.

Lemma strip_common_spec p q : ∃ r, p = r ++ (strip_common p q).1 ∧ q = r ++ (strip_common p q).2.
Proof.
  revert q. induction p as [|x p IH]; intros [|y q]; [by exists []..|]. simpl.
  destruct (String.eqb_spec x y) as [->|]; [|by exists []].
  destruct (IH q) as (r & Hp & Hq). exists (y :: r). simpl. by rewrite <-Hp, <-Hq.
Qed.

Lemma dotdot_rel l :
  String.eqb (Join (".." :: l) "/") "." = false ∧ HasPrefix (Join (".." :: l) "/") ".." = true.
Proof. destruct l as [|y l]; [done|]. by rewrite Join_cons2, !string_app_cons. Qed.

Lemma isInside_prefix p root : isInside p root = true → ∃ down, p = root ++ down.
Proof.
  unfold isInside, Rel. destruct (strip_common_spec root p) as (r & Hr & Hp).
  destruct (strip_common root p) as [[|x up] down]; cbn [fst snd] in *.
  - intros _. exists down. by rewrite Hr, app_nil_r in *.
  - destruct (dotdot_rel (((λ _, "..") <$> up) ++ down)) as [H1 H2].
    change (String.eqb (Join (".." :: (((λ _, "..") <$> up) ++ down)) "/") "."
      || negb (HasPrefix (Join (".." :: (((λ _, "..") <$> up) ++ down)) "/") "..") = true
      → ∃ down0, p = root ++ down0).
    by rewrite H1, H2.
Qed.

(** ** Properties *)

(** The configuration the broker builds never trips the checks on empty entries
    and cache directory: it is refused exactly for localhost names and IP
    addresses. *)
Theorem tls_config_valid_iff isIP dir c :
  dir ≠ "" →
  ValidateTLS isIP (tlsConfigFromGlobalConfig dir c) = None ↔
  ∀ d, d ∈ parseTLSDomains (cfg_TLSDomain c) →
    d ≠ "localhost" ∧ HasPrefix d "localhost." = false ∧ isIP d = false.
Proof.
  intros Hdir. unfold tlsConfigFromGlobalConfig, ValidateTLS.
  pose proof (parseTLSDomains_non_empty (cfg_TLSDomain c)) as Hne.
  destruct (parseTLSDomains (cfg_TLSDomain c)) as [|d0 ds]; simpl.
  { split; [|done]. intros _ d Hd. by apply elem_of_nil in Hd. }
  assert ((if String.eqb (if String.eqb (cfg_TLSCacheDir c) "" then dir else cfg_TLSCacheDir c) ""
           then Some NoCacheDir else None) = None) as ->.
  { destruct (String.eqb (cfg_TLSCacheDir c) "") eqn:E; [|by rewrite E].
    by apply String.eqb_neq in Hdir as ->. }
  change (match domain_error isIP d0 with Some e => Some e | None => first_error (domain_error isIP) ds end)
    with (first_error (domain_error isIP) (d0 :: ds)).
  assert (∀ d, d ∈ d0 :: ds → (domain_error isIP d = None ↔
    d ≠ "localhost" ∧ HasPrefix d "localhost." = false ∧ isIP d = false)) as Hd.
  { intros d Hin. unfold domain_error. rewrite (proj2 (String.eqb_neq _ _) (Hne d Hin)).
    destruct (String.eqb_spec d "localhost"), (HasPrefix d "localhost."), (isIP d); simpl;
      split; try done; intros (? & ? & ?); done. }
  split.
  - intros H d Hin. apply Hd; [done|]. revert d Hin. apply first_error_none.
    by destruct (first_error _ _).
  - intros H. assert (first_error (domain_error isIP) (d0 :: ds) = None) as ->; [|done].
    apply first_error_none. intros d Hin. by apply Hd, H.
Qed.

Lemma walk_up_scope (inside : bool) (rhome rdir : path) (fs fs' : path → option string) :
  (∀ up, (if inside then rhome `suffix_of` up ∧ up `suffix_of` rdir else up = rdir) →
         fs (reverse up) = fs' (reverse up)) →
  (inside = true → rhome `suffix_of` rdir) →
  walk_up inside rhome fs rdir = walk_up inside rhome fs' rdir.
Proof.
  revert fs fs'. induction rdir as [|x rdir IH]; intros fs fs' Heq Hsuf; simpl.
  - rewrite (Heq []); [done|]. destruct inside; [|done]. split; [by apply Hsuf|done].
  - rewrite (Heq (x :: rdir)); [|destruct inside; [|done]; split; [by apply Hsuf|done]].
    destruct (non_empty _); [done|]. destruct inside; [simpl|done].
    case_bool_decide as Hd; [done|]. apply IH.
    + intros up [H1 H2]. apply Heq. split; [done|]. by apply suffix_cons_r.
    + intros _. destruct (Hsuf eq_refl) as [[|y l] Hl]; [by rewrite Hl in Hd|].
      exists l. by injection Hl.
Qed.

(** The agent file is looked for in the working directory and, inside the home
    directory only, in the directories between the two: no other file has a say
    in who a session claims to be. *)
Theorem agent_file_scope (fs fs' : path → option string) (cwd : path) (home : option path) :
  (∀ d, d = cwd ∨ (∃ h, home = Some h ∧ h `prefix_of` d ∧ d `prefix_of` cwd) → fs d = fs' d) →
  findAgentFile fs cwd home = findAgentFile fs' cwd home.
Proof.
  intros Heq. unfold findAgentFile. apply walk_up_scope.
  - intros up Hup. destruct home as [h|]; simpl in *.
    + destruct (isInside cwd h); [|apply Heq; left; by rewrite Hup, reverse_involutive].
      destruct Hup as [Hh Hc]. apply Heq. right. exists h. split; [done|].
      apply suffix_prefix_reverse in Hh, Hc. by rewrite !reverse_involutive in *.
    + apply Heq. left. by rewrite Hup, reverse_involutive.
  - destruct home as [h|]; [|done]. intros [down ->]%isInside_prefix. simpl.
    rewrite reverse_app. by exists (reverse down).
Qed.

(** A directory whose name starts with two dots counts as outside of the home
    directory it lies in. *)
Theorem dotdot_directory_outside_home :
  isInside ["home"; "u"; "..work"; "app"] ["home"; "u"] = false
  ∧ findAgentFile (λ d, if bool_decide (d = ["home"; "u"; "..work"]) then Some "planner" else None)
      ["home"; "u"; "..work"; "app"] (Some ["home"; "u"]) = ""
  ∧ findAgentFile (λ d, if bool_decide (d = ["home"; "u"; "work"]) then Some "planner" else None)
      ["home"; "u"; "work"; "app"] (Some ["home"; "u"]) = "planner".
Proof. vm_compute. done. Qed.

(** An IPv6 broker address yields a NATS address without its host. *)
Theorem nats_url_ipv6 c :
  cfg_NatsURL c = "" → cfg_BrokerURL c = "http://[::1]:7899" → natsURL c = "nats://[:4222".
Proof. unfold natsURL. by intros -> ->. Qed.

(** ** Witnesses *)
Definition demo_config : Config := defaultConfig "workstation" "/home/u/.claude-peers.db".

Lemma tls_config_valid_iff_witness :
  ValidateTLS (λ _, false)
    (tlsConfigFromGlobalConfig "/home/u/.config/claude-peers/autocert"
       (set_flag TlsDomain " broker.example.com , ,alt.example.com" demo_config)) = None.
Proof.
  apply tls_config_valid_iff; [done|]. intros d Hd. vm_compute in Hd.
  apply elem_of_cons in Hd as [->|Hd]; [by split_and!|].
  apply elem_of_cons in Hd as [->|Hd]; [by split_and!|]. by apply elem_of_nil in Hd.
Defined.

(** A file in a sibling directory makes no difference. *)
Lemma agent_file_scope_witness :
  findAgentFile (λ d, if bool_decide (d = ["tmp"]) then Some "intruder" else None)
    ["home"; "u"; "work"] (Some ["home"; "u"]) = ""
  ∧ findAgentFile (λ d, if bool_decide (d = ["tmp"]) then Some "intruder" else None)
      ["home"; "u"; "work"] (Some ["home"; "u"])
    = findAgentFile (λ _, None) ["home"; "u"; "work"] (Some ["home"; "u"]).
Proof.
  split; [vm_compute; done|]. apply agent_file_scope. intros d Hd.
  rewrite bool_decide_eq_false_2; [done|]. intros ->.
  destruct Hd as [Hd|(h & Hh & [k Hk] & _)]; [done|]. injection Hh as <-. done.
Defined.

Lemma nats_url_ipv6_witness :
  natsURL (mkConfig "client" "http://[::1]:7899" "" "" "" 20 "" "" "" "" "" "" "" "" "" "" false)
  = "nats://[:4222".
Proof. by apply nats_url_ipv6. Defined.
