(* ===== verification/Listen.v ===== *)
(** * How the broker listens ([broker_tls.go], the end of [runBroker])

    The preparation of the certificate cache, the certificate manager and the
    choice between TLS on port 443 and plain HTTP.  Directories and certificates
    belong to the operating system and the autocert library: the outcomes of
    their calls are arguments. *)

From S2P Require Import Prelude GoStrings Config.

(** ** Operations *)
Definition acmeStagingDirectoryURL : string :=
  "https://acme-staging-v02.api.letsencrypt.org/directory".

Inductive ListenErr : Type :=
| TlsInvalid (e : TlsErr)
| CacheMkdir (dir e : string)
| CacheStat (dir e : string)
| CacheNotDir (dir : string)
| CacheTooOpen (dir : string) (perm : Z)
| ListenFailed (e : string).

(** [os.MkdirAll] and [os.Stat] of the cache directory: an error, or whether it
    is a directory and its permission bits. *)
Record CacheFs : Type := mkCacheFs {
  cache_mkdir : string → option string;
  cache_stat : string → result string (bool * Z);
}.

Definition ensureCacheDir (os : CacheFs) (dir : string) : option ListenErr :=
  match cache_mkdir os dir with
  | Some e => Some (CacheMkdir dir e)
  | None =>
      match cache_stat os dir with
      | Err e => Some (CacheStat dir e)
      | Ok (isDir, perm) =>
          if negb isDir then Some (CacheNotDir dir)
          else if negb (Z.land perm 63 =? 0) then Some (CacheTooOpen dir perm)
          else None
      end
  end.

(** The fields of [autocert.Manager] that are set; no directory URL is the
    default of the library. *)
Record Manager : Type := mkManager {
  mg_Cache : string;
  mg_HostWhitelist : list string;
  mg_Email : string;
  mg_DirectoryURL : option string;
}.

Definition newAutocertManager (isIP : string → bool) (os : CacheFs) (c : TLSConfig)
  : result ListenErr Manager :=
  match ValidateTLS isIP c with
  | Some e => Err (TlsInvalid e)
  | None =>
      match ensureCacheDir os (tls_CacheDir c) with
      | Some e => Err e
      | None =>
          Ok (mkManager (tls_CacheDir c) (tls_Domains c) (tls_Email c)
                (if tls_AcmeStaging c then Some acmeStagingDirectoryURL else None))
      end
  end.

Inductive Listener : Type :=
| ListenTLS (m : Manager)
| ListenPlain (addr : string).

(** [net_listen] is the outcome of [net.Listen]. *)
Definition broker_listener (isIP : string → bool) (os : CacheFs) (net_listen : string → option string)
    (defaultDir : string) (c : Config) : result ListenErr Listener :=
  let tlsCfg := tlsConfigFromGlobalConfig defaultDir c in
  if Enabled tlsCfg then
    match newAutocertManager isIP os tlsCfg with
    | Err e => Err e
    | Ok m => Ok (ListenTLS m)
    end
  else
    match net_listen (cfg_Listen c) with
    | Some e => Err (ListenFailed e)
    | None => Ok (ListenPlain (cfg_Listen c))
    end.

(** ** Lemmas *)
Lemma Enabled_iff dir c :
  Enabled (tlsConfigFromGlobalConfig dir c) = true ↔ parseTLSDomains (cfg_TLSDomain c) ≠ [].
Proof. unfold tlsConfigFromGlobalConfig, Enabled. by destruct (parseTLSDomains (cfg_TLSDomain c)). Qed.

Lemma Domains_of_config dir c :
  tls_Domains (tlsConfigFromGlobalConfig dir c) = parseTLSDomains (cfg_TLSDomain c).
Proof. unfold tlsConfigFromGlobalConfig. by destruct (parseTLSDomains (cfg_TLSDomain c)). Qed.

Lemma domain_error_none isIP d :
  domain_error isIP d = None →
  d ≠ "" ∧ d ≠ "localhost" ∧ HasPrefix d "localhost." = false ∧ isIP d = false.
Proof.
  unfold domain_error. destruct (String.eqb_spec d ""), (String.eqb_spec d "localhost"),
    (HasPrefix d "localhost."), (isIP d); by simpl.
Qed.

Lemma ensureCacheDir_none os dir :
  ensureCacheDir os dir = None →
  ∃ perm, cache_stat os dir = Ok (true, perm) ∧ Z.land perm 63 = 0.
Proof.
  unfold ensureCacheDir. destruct (cache_mkdir os dir); [done|].
  destruct (cache_stat os dir) as [[[] perm]|e]; [|done..]. simpl.
  destruct (Z.eqb_spec (Z.land perm 63) 0); [|done]. by exists perm.
Qed.

(** ** Properties *)

(** C37: A broker with TLS domains never falls back to plain HTTP: it serves TLS for
    exactly the configured domains, all of them proper names, with a cache
    directory that no other user can read, or it does not start. *)
Theorem tls_never_downgrades isIP os net_listen dir c l :
  broker_listener isIP os net_listen dir c = Ok l →
  let domains := parseTLSDomains (cfg_TLSDomain c) in
  match l with
  | ListenPlain addr => domains = [] ∧ addr = cfg_Listen c
  | ListenTLS m =>
      domains ≠ [] ∧ mg_HostWhitelist m = domains
      ∧ (∀ d, d ∈ domains →
           d ≠ "" ∧ d ≠ "localhost" ∧ HasPrefix d "localhost." = false ∧ isIP d = false)
      ∧ ∃ perm, cache_stat os (mg_Cache m) = Ok (true, perm) ∧ Z.land perm 63 = 0
  end.
Proof.
  intros H. cbv zeta. revert H. unfold broker_listener.
  pose proof (Enabled_iff dir c) as Hen. pose proof (Domains_of_config dir c) as Hdom.
  destruct (Enabled (tlsConfigFromGlobalConfig dir c)) eqn:E.
  - unfold newAutocertManager, ValidateTLS. rewrite E. cbn [negb].
    destruct (first_error _ _) eqn:Ef; [done|].
    destruct (String.eqb (tls_CacheDir _) ""); [done|].
    destruct (ensureCacheDir _ _) eqn:Ec; [done|]. intros [= <-]. cbn [mg_HostWhitelist mg_Cache].
    split; [by apply Hen|]. split; [done|]. split; [|by apply ensureCacheDir_none].
    rewrite Hdom in Ef. intros d Hd. apply domain_error_none. revert d Hd. by apply first_error_none.
  - destruct (net_listen _); [done|]. intros [= <-]. split; [|done].
    destruct (parseTLSDomains _); [done|]. by destruct Hen as [_ Hen]; discriminate Hen.
Qed.

(** ** Witness *)
Definition private_cache : CacheFs := mkCacheFs (λ _, None) (λ _, Ok (true, 448)).

Lemma tls_never_downgrades_witness :
  match broker_listener (λ _, false) private_cache (λ _, None) "/home/u/.config/claude-peers/autocert"
          (set_flag TlsDomain "broker.example.com" demo_config) with
  | Ok (ListenTLS m) => mg_HostWhitelist m = ["broker.example.com"]
  | _ => False
  end.
Proof.
  destruct (broker_listener (λ _, false) private_cache (λ _, None) "/home/u/.config/claude-peers/autocert"
          (set_flag TlsDomain "broker.example.com" demo_config)) as [l|e] eqn:El; [|discriminate El].
  pose proof (tls_never_downgrades _ _ _ _ _ _ El) as H. destruct l as [m|addr]; [|discriminate El].
  destruct H as (_ & Hm & _). exact Hm.
Defined.
