(* ===== verification/Summary.v ===== *)
(** * Summaries of a session ([fleet_git.go])

    What a session says it works on: the files git reports, the prompt made of
    them, and the choice and cutting of an answer.  The outputs of programs and of
    the language model are arguments. *)

From S2P Require Import Prelude GoStrings Files Config.

(** ** Operations *)

(** The output of a git command, empty when it fails ([gitRoot], [gitBranch]). *)
Definition git_line (out : result string string) : string :=
  match out with Ok s => TrimSpace s | Err _ => "" end.

(** The loop that appends the files of the log that are new. *)
Fixpoint append_new (files : list string) (seen : gset string) (log : list string) : list string :=
  match log with
  | [] => files
  | f :: rest =>
      if bool_decide (f ∈ seen) then append_new files seen rest
      else append_new (files ++ [f]) ({[ f ]} ∪ seen) rest
  end.

(** [diff] and [log] are what the two git commands printed. *)
Definition recentFiles (diff log : string) (limit : nat) : list string :=
  let files := splitNonEmpty (TrimSpace diff) in
  if (limit <=? length files)%nat then take limit files
  else
    let files := append_new files (list_to_set files) (splitNonEmpty (TrimSpace log)) in
    if (limit <? length files)%nat then take limit files else files.

Definition newline : string := String (ascii_of_nat 10) "".

Definition summary_prompt (cwd root branch : string) (files : list string) : string :=
  "One sentence: what is this developer working on? Be specific. No preamble."
  +:+ newline +:+ newline
  +:+ Join (["Dir: " +:+ cwd]
            ++ (if String.eqb root "" then [] else ["Repo: " +:+ path_base root])
            ++ (if String.eqb branch "" then [] else ["Branch: " +:+ branch])
            ++ (match files with [] => [] | _ => ["Recent files: " +:+ Join files ", "] end)) newline.

(** [out]: what the claude program printed, when it is there and succeeds. *)
Definition claudeCLISummary (out : option string) : string :=
  match out with
  | None => ""
  | Some s =>
      let result := TrimSpace s in
      if (120 <? String.length result)%nat then str_take 117 result +:+ "..." else result
  end.

(** [cmp.Or]: the first value that is not empty. *)
Fixpoint cmp_or (l : list string) : string :=
  match l with [] => "" | x :: rest => if String.eqb x "" then cmp_or rest else x end.

(** Key, address and model of the language model; [None] when it is not asked. *)
Definition llm_request (env : string → string) (settingsKey : string) (c : Config)
  : option (string * string * string) :=
  let apiKey := cmp_or [env "OPENAI_API_KEY"; env "ANTHROPIC_API_KEY"; settingsKey; cfg_LLMAPIKey c] in
  let baseURL := cmp_or [env "LITELLM_BASE_URL"; env "ANTHROPIC_BASE_URL"; cfg_LLMBaseURL c] in
  if String.eqb apiKey "" || String.eqb baseURL "" then None
  else Some (apiKey, baseURL +:+ "/v1/chat/completions",
             cmp_or [env "CLAUDE_PEERS_SUMMARY_MODEL"; cfg_LLMModel c]).

(** [answer] is the list of contents a request is answered with, or an error. *)
Definition llmAPISummary (env : string → string) (settingsKey : string) (c : Config)
    (answer : string * string * string → result string (list string)) : string :=
  match llm_request env settingsKey c with
  | None => ""
  | Some rq => match answer rq with Ok (content :: _) => TrimSpace content | _ => "" end
  end.

Definition generateSummary (cwd root branch : string) (files : list string)
    (cli : string → option string) (env : string → string) (settingsKey : string) (c : Config)
    (answer : string → string * string * string → result string (list string)) : string :=
  let prompt := summary_prompt cwd root branch files in
  let summary := claudeCLISummary (cli prompt) in
  if String.eqb summary "" then llmAPISummary env settingsKey c (answer prompt) else summary.

(** [readClaudeSettingsKey]; [decode] looks the variable up in the settings. *)
Definition readClaudeSettingsKey (home : option string) (decode : string → option string)
    (fs : FileSys) : string :=
  match home with
  | None => ""
  | Some h =>
      match (ReadFile (path_join [h; ".claude"; "settings.json"]) fs).2 with
      | Err _ => ""
      | Ok data => default "" (decode data)
      end
  end.

Definition getTTY (ps : result string string) : string :=
  match ps with
  | Err _ => ""
  | Ok out =>
      let tty := TrimSpace out in
      if String.eqb tty "" || String.eqb tty "?" || String.eqb tty "??" then "" else tty
  end.

(** ** Reference: duplicates dropped, the first kept *)
Fixpoint firsts (l : list string) : list string :=
  match l with
  | [] => []
  | x :: rest => x :: List.filter (λ y, negb (String.eqb y x)) (firsts rest)
  end.

Definition outside (seen : gset string) (f : string) : bool := negb (bool_decide (f ∈ seen)).

Lemma outside_cons seen x y :
  outside ({[ x ]} ∪ seen) y = outside seen y && negb (String.eqb y x).
Proof.
  unfold outside. rewrite <-negb_orb. f_equal. destruct (String.eqb_spec y x) as [->|Hne].
  - rewrite bool_decide_eq_true_2 by set_solver. by rewrite orb_true_r.
  - rewrite orb_false_r. apply bool_decide_ext. set_solver.
Qed.

Lemma append_new_spec files seen log :
  append_new files seen log = files ++ List.filter (outside seen) (firsts log).
Proof.
  revert files seen. induction log as [|x log IH]; intros files seen; simpl.
  { by rewrite app_nil_r. }
  unfold outside at 1. destruct (bool_decide (x ∈ seen)) eqn:Ex; simpl.
  - rewrite IH, bfilter_bfilter. f_equal. apply bfilter_ext, Forall_forall. intros y _.
    unfold outside. destruct (String.eqb_spec y x) as [->|]; [by rewrite Ex|]. done.
  - rewrite IH, <-app_assoc. f_equal. simpl. f_equal. rewrite bfilter_bfilter.
    apply bfilter_ext, Forall_forall. intros y _. by rewrite outside_cons, andb_comm.
Qed.

Lemma firsts_app l k : NoDup l → firsts (l ++ k) = l ++ List.filter (outside (list_to_set l)) (firsts k).
Proof.
  induction l as [|x l IH]; intros Hnd; simpl.
  - symmetry. apply bfilter_all, Forall_forall. intros y _. unfold outside. by rewrite bool_decide_eq_false_2 by set_solver.
  - apply NoDup_cons in Hnd as [Hni Hnd]. f_equal. rewrite (IH Hnd), List.filter_app. f_equal.
    + apply bfilter_all, Forall_forall. intros y Hy. apply negb_true_iff, String.eqb_neq. by intros ->.
    + rewrite bfilter_bfilter. apply bfilter_ext, Forall_forall. intros y _. by rewrite outside_cons.
Qed.

(** ** Properties *)

(** The files of a summary are the first [limit] of what git reports, changed
    files before committed ones, each once. *)
Theorem recentFiles_first_of_all diff log limit :
  NoDup (splitNonEmpty (TrimSpace diff)) →
  recentFiles diff log limit
  = take limit (firsts (splitNonEmpty (TrimSpace diff) ++ splitNonEmpty (TrimSpace log))).
Proof.
  intros Hnd. unfold recentFiles. rewrite firsts_app by done.
  set (files := splitNonEmpty (TrimSpace diff)) in *. rewrite append_new_spec.
  destruct (limit <=? length files)%nat eqn:El.
  - apply Nat.leb_le in El. by rewrite take_app_le.
  - destruct (limit <? _)%nat eqn:E; [done|]. apply Nat.ltb_ge in E. by rewrite take_ge.
Qed.

(** A summary from the command line program has at most 120 bytes, and a longer
    answer is cut, never dropped. *)
Theorem cli_summary_bounded out :
  (String.length (claudeCLISummary (Some out)) ≤ 120)%nat
  ∧ (claudeCLISummary (Some out) = "" ↔ TrimSpace out = "").
Proof.
  unfold claudeCLISummary. destruct (120 <? String.length (TrimSpace out))%nat eqn:E.
  - apply Nat.ltb_lt in E. split.
    + rewrite string_length_app. pose proof (str_take_length 117 (TrimSpace out)).
      change (String.length "...") with 3%nat. lia.
    + split; [|by intros Ht; rewrite Ht in E; simpl in E; lia].
      by destruct (TrimSpace out).
  - apply Nat.ltb_ge in E. done.
Qed.

(** With the default settings the address that is asked has its version twice. *)
Theorem default_llm_url_doubled hostname db env key c :
  c = defaultConfig hostname db → key ≠ "" →
  env "OPENAI_API_KEY" = key → env "LITELLM_BASE_URL" = "" → env "ANTHROPIC_BASE_URL" = "" →
  ∃ model, llm_request env "" c = Some (key, "http://127.0.0.1:4000/v1/v1/chat/completions", model).
Proof.
  intros -> Hk%String.eqb_neq He H1 H2. unfold llm_request. cbn [cmp_or].
  rewrite He, H1, H2, Hk. simpl. rewrite Hk. simpl. eauto.
Qed.

(** ** Witnesses *)
Lemma recentFiles_first_of_all_witness :
  recentFiles ("b.go" +:+ newline +:+ "a.go" +:+ newline)
    ("c.go" +:+ newline +:+ "a.go" +:+ newline +:+ "d.go") 3 = ["b.go"; "a.go"; "c.go"].
Proof.
  rewrite (recentFiles_first_of_all ("b.go" +:+ newline +:+ "a.go" +:+ newline)
    ("c.go" +:+ newline +:+ "a.go" +:+ newline +:+ "d.go") 3); [vm_compute; reflexivity|vm_decide].
Defined.

Lemma default_llm_url_doubled_witness :
  ∃ model, llm_request (λ v, if String.eqb v "OPENAI_API_KEY" then "sk" else "") ""
    (defaultConfig "hub" "/home/dev/.claude-peers.db")
    = Some ("sk", "http://127.0.0.1:4000/v1/v1/chat/completions", model).
Proof. by apply (default_llm_url_doubled "hub" "/home/dev/.claude-peers.db"). Defined.
