(* ===== verification/KeyFiles.v ===== *)
(** * Key and token files ([auth_ucan_keys.go], [fleet_nats_auth.go])

    How key pairs, public keys and tokens are stored in the configuration
    directory and read back, and which credential the NATS connection uses.  The
    DER and PEM encodings are those of [crypto/x509] and [encoding/pem]: the
    class [KeyCodec], with the round trips they promise as [KeyCodecLaws]. *)

From S2P Require Import Prelude GoStrings GoTime Base64 Ucan DemoJwt Files Config.

(** ** File names *)
Definition privateKeyFile : string := "identity.pem".
Definition publicKeyFile : string := "identity.pub".
Definition rootPubKeyFile : string := "root.pub".
Definition tokenFile : string := "token.jwt".
Definition rootTokenFile : string := "root-token.jwt".
Definition nkeyFile : string := "nats.nk".

(** Go's octal literals 0600 and 0644. *)
Definition mode_0600 : Z := 384.
Definition mode_0644 : Z := 420.

(** ** Encodings *)

(** What [x509] parses: an ed25519 key, or a key of another kind. *)
Inductive ParsedKey (K : Type) : Type :=
| Ed25519 (k : K)
| OtherKey.
Arguments Ed25519 {K} k.
Arguments OtherKey {K}.

Class KeyCodec {J : Jwt} : Type := {
  MarshalPKCS8PrivateKey : PrivateKey → result string string;
  ParsePKCS8PrivateKey : string → result string (ParsedKey PrivateKey);
  MarshalPKIXPublicKey : PublicKey → result string string;
  ParsePKIXPublicKey : string → result string (ParsedKey PublicKey);
  (** [pem.EncodeToMemory] and [pem.Decode], of a block's type and bytes. *)
  EncodeToMemory : string → string → string;
  pem_Decode : string → option (string * string);
}.

Class KeyCodecLaws {J : Jwt} (C : KeyCodec) : Prop := {
  pkcs8_roundtrip k : ∃ der, MarshalPKCS8PrivateKey k = Ok der
                             ∧ ParsePKCS8PrivateKey der = Ok (Ed25519 k);
  pkix_roundtrip pub : String.length pub = PublicKeySize →
    ∃ der, MarshalPKIXPublicKey pub = Ok der ∧ ParsePKIXPublicKey der = Ok (Ed25519 pub);
  pem_roundtrip t der : pem_Decode (EncodeToMemory t der) = Some (t, der);
}.

Section keys.
Context {J : Jwt} {C : KeyCodec}.

(** [entropy] is the key that [ed25519.GenerateKey] draws, or its error. *)
Definition GenerateKeyPair (entropy : result string PrivateKey) : result string KeyPair :=
  match entropy with
  | Err e => Err ("generate ed25519 key: " +:+ e)
  | Ok priv => Ok (mkKeyPair priv (Public priv))
  end.

(** ** Key files *)
Definition SaveKeyPair (kp : KeyPair) (dir : string) : io unit :=
  privBytes ← wrap "marshal private key" (lift (MarshalPKCS8PrivateKey (kp_PrivateKey kp)));
  _ ← wrap "write private key"
        (WriteFile (path_join [dir; privateKeyFile]) (EncodeToMemory "PRIVATE KEY" privBytes) mode_0600);
  pubBytes ← wrap "marshal public key" (lift (MarshalPKIXPublicKey (kp_PublicKey kp)));
  wrap "write public key"
    (WriteFile (path_join [dir; publicKeyFile]) (EncodeToMemory "PUBLIC KEY" pubBytes) mode_0644).

(** The checks [LoadKeyPair] makes on the contents of the private key file. *)
Definition parse_private (data : string) : result string PrivateKey :=
  match pem_Decode data with
  | None => Err "decode private key PEM"
  | Some (_, der) =>
      match ParsePKCS8PrivateKey der with
      | Err e => Err ("parse private key: " +:+ e)
      | Ok OtherKey => Err "private key is not ed25519"
      | Ok (Ed25519 k) => Ok k
      end
  end.

Definition parse_public (data : string) : result string PublicKey :=
  match pem_Decode data with
  | None => Err "decode public key PEM"
  | Some (_, der) =>
      match ParsePKIXPublicKey der with
      | Err e => Err ("parse public key: " +:+ e)
      | Ok OtherKey => Err "public key is not ed25519"
      | Ok (Ed25519 pub) => Ok pub
      end
  end.

Definition LoadPublicKey (path : string) : io PublicKey :=
  data ← wrap "read public key" (ReadFile path);
  lift (parse_public data).

Definition LoadKeyPair (dir : string) : io KeyPair :=
  privData ← wrap "read private key" (ReadFile (path_join [dir; privateKeyFile]));
  edPriv ← lift (parse_private privData);
  edPub ← LoadPublicKey (path_join [dir; publicKeyFile]);
  mret (mkKeyPair edPriv edPub).

Definition SavePublicKey (pub : PublicKey) (path : string) : io unit :=
  pubBytes ← wrap "marshal public key" (lift (MarshalPKIXPublicKey pub));
  WriteFile path (EncodeToMemory "PUBLIC KEY" pubBytes) mode_0644.
End keys.

(** ** Token files *)
Definition SaveToken (token dir : string) : io unit :=
  WriteFile (path_join [dir; tokenFile]) token mode_0600.

Definition LoadToken (dir : string) : io string :=
  data ← wrap "read token" (ReadFile (path_join [dir; tokenFile]));
  mret (TrimSpace data).

Definition SaveRootToken (token dir : string) : io unit :=
  WriteFile (path_join [dir; rootTokenFile]) token mode_0600.

Definition LoadRootToken (dir : string) : io string :=
  data ← wrap "read root token" (ReadFile (path_join [dir; rootTokenFile]));
  mret (TrimSpace data).

(** ** NATS credentials *)
Definition loadNKeySeed (dir : string) : io string :=
  data ← ReadFile (path_join [dir; nkeyFile]);
  mret (TrimSpace data).

Definition saveNKeySeed (seed dir : string) : io unit :=
  WriteFile (path_join [dir; nkeyFile]) seed mode_0600.

(** The option handed to the NATS library; [None] is no authentication. *)
Inductive NatsAuth : Type :=
| NKeyAuth (seed : string)
| TokenAuth (token : string).

Definition natsAuthOption (c : Config) (dir : string) (fs : FileSys) : option NatsAuth :=
  let explicit :=
    if non_empty (cfg_NatsNKeySeed c) then
      match (ReadFile (cfg_NatsNKeySeed c) fs).2 with
      | Ok seed => TrimSpace seed
      | Err _ => ""
      end
    else "" in
  if non_empty explicit then Some (NKeyAuth explicit)
  else
    match (loadNKeySeed dir fs).2 with
    | Ok seed =>
        if non_empty seed then Some (NKeyAuth seed)
        else if non_empty (cfg_NatsToken c) then Some (TokenAuth (cfg_NatsToken c)) else None
    | Err _ => if non_empty (cfg_NatsToken c) then Some (TokenAuth (cfg_NatsToken c)) else None
    end.

(** ** Lemmas *)

(** No two files of the directory share a path. *)
Definition dir_files : list string :=
  [privateKeyFile; publicKeyFile; rootPubKeyFile; tokenFile; rootTokenFile; nkeyFile; "config.json"].

Lemma dir_files_plain f : f ∈ dir_files → plain_name f = true.
Proof. unfold dir_files. rewrite !elem_of_cons, elem_of_nil. by intros [->|[->|[->|[->|[->|[->|[->|[]]]]]]]]. Qed.

Lemma dir_files_apart dir f g :
  f ∈ dir_files → g ∈ dir_files → f ≠ g → path_join [dir; f] ≠ path_join [dir; g].
Proof. intros Hf Hg Hne Heq. by apply Hne, (path_join_inj dir); [apply dir_files_plain..|]. Qed.

(** [path_join [dir; f] = path_join [dir; g]] between two constants is absurd. *)
Ltac apart :=
  apply dir_files_apart; [vm_decide|vm_decide|discriminate].

Lemma LoadToken_holds dir fs t :
  holds fs (path_join [dir; tokenFile]) t → LoadToken dir fs = (fs, Ok (TrimSpace t)).
Proof.
  intros H%readable. unfold LoadToken, wrap, mbind, io_bind. by rewrite H.
Qed.

Lemma LoadRootToken_holds dir fs t :
  holds fs (path_join [dir; rootTokenFile]) t → LoadRootToken dir fs = (fs, Ok (TrimSpace t)).
Proof.
  intros H%readable. unfold LoadRootToken, wrap, mbind, io_bind. by rewrite H.
Qed.

Lemma str_snoc_view s : s = "" ∨ ∃ t d, s = t +:+ String d "".
Proof.
  induction s as [|c s [->|(t & d & ->)]]; [by left|right; by exists "", c|].
  right. by exists (String c t), d.
Qed.

(** Printable text survives trimming. *)
Lemma TrimSpace_printable s : str_all is_plain s = true → TrimSpace s = s.
Proof.
  intros Hs. destruct s as [|c s]; [done|].
  destruct (str_snoc_view (String c s)) as [|(t & d & Ht)]; [done|].
  pose proof Hs as Hd. rewrite Ht, str_all_app in Hd.
  apply andb_true_iff in Hd as [_ Hd]. simpl in Hd, Hs.
  apply andb_true_iff in Hd as [Hd _], Hs as [Hc _].
  by apply (TrimSpace_plain c s t d).
Qed.

Section keys.
Context {J : Jwt} {L : JwtLaws J} {C : KeyCodec} {CL : KeyCodecLaws C}.

Lemma TrimSpace_token k c tok : SignedString k c = Ok tok → TrimSpace tok = tok.
Proof. intros [_ Hp]%sign_compact. by apply TrimSpace_printable. Qed.

(** The contents of a saved public key. *)
Definition public_file (pub : PublicKey) (data : string) : Prop := parse_public data = Ok pub.
Definition private_file (k : PrivateKey) (data : string) : Prop := parse_private data = Ok k.

Lemma LoadPublicKey_holds path fs data pub :
  holds fs path data → public_file pub data → LoadPublicKey path fs = (fs, Ok pub).
Proof.
  intros H%readable Hp. unfold LoadPublicKey, wrap, mbind, io_bind, lift. by rewrite H, Hp.
Qed.

Lemma LoadKeyPair_holds dir fs data data' k pub :
  holds fs (path_join [dir; privateKeyFile]) data → private_file k data →
  holds fs (path_join [dir; publicKeyFile]) data' → public_file pub data' →
  LoadKeyPair dir fs = (fs, Ok (mkKeyPair k pub)).
Proof.
  intros H%readable Hp H' Hp'. unfold LoadKeyPair, wrap, mbind, io_bind, lift.
  rewrite H, Hp, (LoadPublicKey_holds _ _ data' pub) by done. done.
Qed.

(** Saving a public key, when it works, puts its encoding in place. *)
Lemma SavePublicKey_inv pub path fs fs' :
  SavePublicKey pub path fs = (fs', Ok tt) → String.length pub = PublicKeySize →
  ∃ data, fs' = put_file path data mode_0644 fs ∧ public_file pub data.
Proof.
  intros Hs Hl. destruct (pkix_roundtrip pub Hl) as (der & Hm & Hp).
  apply io_bind_ok in Hs as (fs1 & der' & Hd%wrap_ok & Hw). injection Hd as <- Hd.
  assert (der' = der) as -> by congruence. apply WriteFile_inv in Hw as ->.
  eexists. split; [done|]. unfold public_file, parse_public. by rewrite pem_roundtrip, Hp.
Qed.

Lemma SaveKeyPair_inv k pub dir fs fs' :
  SaveKeyPair (mkKeyPair k pub) dir fs = (fs', Ok tt) → String.length pub = PublicKeySize →
  ∃ data data', private_file k data ∧ public_file pub data'
    ∧ fs' = put_file (path_join [dir; publicKeyFile]) data' mode_0644
              (put_file (path_join [dir; privateKeyFile]) data mode_0600 fs).
Proof.
  intros Hs Hl. destruct (pkcs8_roundtrip k) as (der & Hm & Hp).
  apply io_bind_ok in Hs as (fs1 & der' & Hd%wrap_ok & Hs). injection Hd as <- Hd.
  simpl in Hd. assert (der' = der) as -> by congruence.
  apply io_bind_ok in Hs as (fs2 & [] & Hw%wrap_ok%WriteFile_inv & Hs). subst fs2.
  apply io_bind_ok in Hs as (fs3 & der' & Hd'%wrap_ok & Hs%wrap_ok).
  destruct (SavePublicKey_inv pub (path_join [dir; publicKeyFile])
    (put_file (path_join [dir; privateKeyFile]) (EncodeToMemory "PRIVATE KEY" der) mode_0600 fs) fs')
    as (data' & -> & Hp'); [|done|].
  { unfold SavePublicKey, mbind, io_bind, wrap, lift. injection Hd' as <- Hd'. simpl in Hd'.
    by rewrite Hd'. }
  exists (EncodeToMemory "PRIVATE KEY" der), data'. split; [|done].
  unfold private_file, parse_private. by rewrite pem_roundtrip, Hp.
Qed.

(** ** Properties *)

(** A key pair that was saved without an error is loaded again as it was, and
    no other file changes. *)
Theorem key_pair_roundtrip k dir fs fs' :
  SaveKeyPair (mkKeyPair k (Public k)) dir fs = (fs', Ok tt) →
  read_fault fs (path_join [dir; privateKeyFile]) = None →
  read_fault fs (path_join [dir; publicKeyFile]) = None →
  LoadKeyPair dir fs' = (fs', Ok (mkKeyPair k (Public k)))
  ∧ touches (λ p, p = path_join [dir; privateKeyFile] ∨ p = path_join [dir; publicKeyFile]) fs fs'.
Proof.
  intros Hs H1 H2. apply SaveKeyPair_inv in Hs as (data & data' & Hd & Hd' & ->); [|apply public_length].
  split.
  - eapply LoadKeyPair_holds; [|done| |done].
    + apply holds_put_ne; [apart|]. by apply holds_put.
    + by apply holds_put.
  - etrans; (eapply touches_mono; [|apply put_touches]); simpl; auto.
Qed.
End keys.

(** A token that was saved without an error is loaded again as it was, up to
    the white space around it; the root token's file is another one. *)
Theorem token_roundtrip t dir fs fs' :
  SaveToken t dir fs = (fs', Ok tt) →
  read_fault fs (path_join [dir; tokenFile]) = None →
  LoadToken dir fs' = (fs', Ok (TrimSpace t))
  ∧ (LoadRootToken dir fs').2 = (LoadRootToken dir fs).2.
Proof.
  intros ->%WriteFile_inv Hr. split; [by apply LoadToken_holds, holds_put|].
  unfold LoadRootToken, wrap, mbind, io_bind, ReadFile. cbn [files read_fault put_file set_files].
  rewrite lookup_insert_ne by apart. split_cases.
Qed.

Section secrets.
Context {J : Jwt} {C : KeyCodec}.

(** Only the owner may use the file at [path], if it is there. *)
Definition private_at (path : string) (fs : FileSys) : Prop :=
  ∀ f, files fs !! path = Some f → Z.land (f_mode f) 63 = 0.

Definition secret_files : list string := [privateKeyFile; tokenFile; rootTokenFile; nkeyFile].

(** The operations that save one. *)
Inductive saves_secret (dir : string) : io unit → Prop :=
| saves_key kp : saves_secret dir (SaveKeyPair kp dir)
| saves_token t : saves_secret dir (SaveToken t dir)
| saves_root t : saves_secret dir (SaveRootToken t dir)
| saves_seed s : saves_secret dir (saveNKeySeed s dir).

Lemma put_private path p data perm fs :
  private_at path fs → (p = path → Z.land perm 63 = 0) → private_at path (put_file p data perm fs).
Proof.
  intros Hf Hp f. cbn [files put_file set_files]. destruct (decide (p = path)) as [->|Hne].
  - rewrite lookup_insert_eq. intros [= <-]. unfold written.
    cbn [f_mode]. destruct (files fs !! path) as [g|] eqn:Eg; [by apply Hf|].
    rewrite <-Z.land_assoc, (Z.land_comm (Z.lnot _)), Z.land_assoc, Hp by done. apply Z.land_0_l.
  - rewrite lookup_insert_ne by done. apply Hf.
Qed.

Lemma WriteFile_private path p data perm fs :
  private_at path fs → (p = path → Z.land perm 63 = 0) →
  private_at path (WriteFile p data perm fs).1.
Proof.
  intros Hf Hp. unfold WriteFile.
  destruct (write_fault fs p) as [[]|]; simpl; [done|by apply put_private..].
Qed.

Lemma io_private {A B} path (m : io A) (f : A → io B) fs :
  private_at path (m fs).1 → (∀ a fs', private_at path fs' → private_at path (f a fs').1) →
  private_at path ((m ≫= f) fs).1.
Proof. unfold mbind, io_bind. destruct (m fs) as [fs' [a|e]]; simpl; auto. Qed.

Lemma wrap_fst {A} text (m : io A) fs : (wrap text m fs).1 = (m fs).1.
Proof. unfold wrap. by destruct (m fs) as [fs' [a|e]]. Qed.

(** C36: Whatever the umask and however a save ends, a secret that its owner alone
    may use, or that is not there yet, is left so. *)
Theorem secrets_stay_private dir f op fs :
  f ∈ secret_files → saves_secret dir op →
  private_at (path_join [dir; f]) fs → private_at (path_join [dir; f]) (op fs).1.
Proof.
  intros Hf Hop Hp. destruct Hop; try by apply WriteFile_private.
  unfold SaveKeyPair. repeat (apply io_private; [rewrite wrap_fst|intros; rewrite ?wrap_fst]);
    try done; try by apply WriteFile_private.
  apply WriteFile_private; [done|]. intros Heq. exfalso. revert Heq.
  unfold secret_files in Hf. rewrite !elem_of_cons, elem_of_nil in Hf.
  destruct Hf as [->|[->|[->|[->|[]]]]]; apart.
Qed.
End secrets.

(** A seed file that can be read and is not blank. *)
Definition seed_at (path : string) (fs : FileSys) : option string :=
  match (ReadFile path fs).2 with
  | Ok data => if non_empty (TrimSpace data) then Some (TrimSpace data) else None
  | Err _ => None
  end.

(** The credentials in the order of their priority: the seed at the configured
    path, the seed of the configuration directory, the token. *)
Definition credentials (c : Config) (dir : string) (fs : FileSys) : list (option NatsAuth) :=
  [NKeyAuth <$> (if non_empty (cfg_NatsNKeySeed c) then seed_at (cfg_NatsNKeySeed c) fs else None);
   NKeyAuth <$> seed_at (path_join [dir; nkeyFile]) fs;
   if non_empty (cfg_NatsToken c) then Some (TokenAuth (cfg_NatsToken c)) else None].

(** The NATS connection uses the first credential there is; a seed that cannot
    be read or is blank counts as missing. *)
Theorem nats_auth_priority c dir fs :
  natsAuthOption c dir fs = head (omap id (credentials c dir fs)).
Proof.
  unfold natsAuthOption, credentials, seed_at, loadNKeySeed, mbind, io_bind.
  set (own := ReadFile (path_join [dir; nkeyFile]) fs).
  destruct own as [fs1 [s1|e1]]; simpl;
    destruct (non_empty (cfg_NatsNKeySeed c)); simpl;
    try (destruct (read_fault fs (cfg_NatsNKeySeed c)); simpl);
    try (destruct (files fs !! cfg_NatsNKeySeed c); simpl); split_cases.
Qed.

(** ** Witnesses *)
#[local] Existing Instances demo_jwt demo_jwt_laws.

(** A concrete encoding of keys that satisfies the laws. *)
#[export] Instance demo_codec : @KeyCodec demo_jwt := {|
  MarshalPKCS8PrivateKey k := Ok (date_text (Some k));
  ParsePKCS8PrivateKey der :=
    match text_date der with Some k => Ok (Ed25519 k) | None => Err "asn1: structure error" end;
  MarshalPKIXPublicKey pub := Ok pub;
  ParsePKIXPublicKey der :=
    Ok (if (String.length der =? PublicKeySize)%nat then Ed25519 der else OtherKey);
  EncodeToMemory t der := put t (put der "");
  pem_Decode text :=
    match get text with
    | Some (t, r) => match get r with Some (der, _) => Some (t, der) | None => None end
    | None => None
    end;
|}.

#[export] Instance demo_codec_laws : KeyCodecLaws demo_codec.
Proof.
  split.
  - intros k. exists (date_text (Some k)). split; [done|].
    cbn [ParsePKCS8PrivateKey demo_codec]. by rewrite text_date_text.
  - intros pub Hl. eexists. split; [done|]. simpl. by rewrite Hl, Nat.eqb_refl.
  - intros t der. simpl. by rewrite !get_put.
Qed.

Definition demo_dir : string := "/home/dev/.config/claude-peers".
Definition demo_key : PrivateKey := 7%Z.

Lemma key_pair_roundtrip_witness :
  (LoadKeyPair demo_dir (SaveKeyPair (mkKeyPair demo_key (Public demo_key)) demo_dir blank_disk).1).2
  = Ok (mkKeyPair demo_key (Public demo_key)).
Proof.
  destruct (key_pair_roundtrip demo_key demo_dir blank_disk
    (SaveKeyPair (mkKeyPair demo_key (Public demo_key)) demo_dir blank_disk).1) as [H _]; [done..|].
  by rewrite H.
Defined.

Lemma token_roundtrip_witness :
  (LoadToken demo_dir (SaveToken "e30.e30.c2ln" demo_dir blank_disk).1).2 = Ok "e30.e30.c2ln".
Proof.
  destruct (token_roundtrip "e30.e30.c2ln" demo_dir blank_disk
    (SaveToken "e30.e30.c2ln" demo_dir blank_disk).1) as [H _]; [done..|]. by rewrite H.
Defined.

(** The device takes four bytes of a token only; the file is private all the
    same. *)
Definition full_disk : FileSys :=
  mkFileSys ∅ 0 (λ _, Some (ShortWrite 4 "no space left on device")) (λ _, None) (λ _, None) (λ _, None)
    (λ _, None).

Lemma secrets_stay_private_witness :
  private_at (path_join [demo_dir; tokenFile]) (SaveToken "e30.e30.c2ln" demo_dir full_disk).1.
Proof.
  apply (secrets_stay_private demo_dir tokenFile); [vm_decide|constructor|]. intros f. done.
Defined.
