(* ===== verification/Cli.v ===== *)
(** * The command line ([main.go], [run_wrapper.go])

    The hand-written flag parsers, and the argument vector of
    [claude-peers run]. *)

From S2P Require Import Prelude GoStrings GoTime Ttl.

(** ** [parseGlobalFlags] *)

(** The remaining arguments and the agent name; [None] where the code exits
    because [--as] is last. *)
Fixpoint parseGlobalFlags (agentNameOverride : string) (args : list string)
  : option (list string * string) :=
  match args with
  | [] => Some ([], agentNameOverride)
  | a :: rest =>
      if String.eqb a "--as" then
        match rest with
        | [] => None
        | v :: rest' => parseGlobalFlags v rest'
        end
      else if HasPrefix a "--as=" then parseGlobalFlags (TrimPrefix a "--as=") rest
      else
        match parseGlobalFlags agentNameOverride rest with
        | Some (out, o) => Some (a :: out, o)
        | None => None
        end
  end.

(** ** [parseIssueTokenArgs] *)
Record issueTokenArgs : Type := mkIssueTokenArgs {
  it_positional : list string;
  it_ttl : Z;
  it_ttlFromFlag : bool;
}.

Inductive IssueErr : Type :=
| TtlMissing
| TtlBad (e : TtlErr).

Fixpoint issue_loop (args : list string) (out : issueTokenArgs) : result IssueErr issueTokenArgs :=
  match args with
  | [] => Ok out
  | a :: rest =>
      if String.eqb a "--ttl" then
        match rest with
        | [] => Err TtlMissing
        | raw :: rest' =>
            match ParseFlexibleDuration raw with
            | Err e => Err (TtlBad e)
            | Ok d => issue_loop rest' (mkIssueTokenArgs (it_positional out) d true)
            end
        end
      else if HasPrefix a "--ttl=" then
        match ParseFlexibleDuration (TrimPrefix a "--ttl=") with
        | Err e => Err (TtlBad e)
        | Ok d => issue_loop rest (mkIssueTokenArgs (it_positional out) d true)
        end
      else issue_loop rest (mkIssueTokenArgs (it_positional out ++ [a]) (it_ttl out) (it_ttlFromFlag out))
  end.

Definition parseIssueTokenArgs (DefaultChildTTL : string) (args : list string)
  : result IssueErr issueTokenArgs :=
  issue_loop args (mkIssueTokenArgs [] (defaultChildTTL DefaultChildTTL) false).

(** ** [buildRunArgv] *)
Definition channelFlag : string := "--dangerously-load-development-channels".
Definition channelValue : string := "server:claude-peers".

(** What the walk over the arguments gathers. *)
Record RunArgs : Type := mkRunArgs {
  ra_passthrough : list string;
  ra_env : list string;
  ra_skipChannel : bool;
  ra_hasChannelFlag : bool;
}.

Definition pass (a : string) (r : RunArgs) : RunArgs :=
  mkRunArgs (a :: ra_passthrough r) (ra_env r) (ra_skipChannel r) (ra_hasChannelFlag r).
Definition skip_channel (r : RunArgs) : RunArgs :=
  mkRunArgs (ra_passthrough r) (ra_env r) true (ra_hasChannelFlag r).
Definition has_channel (r : RunArgs) : RunArgs :=
  mkRunArgs (ra_passthrough r) (ra_env r) (ra_skipChannel r) true.
Definition set_agent (v : string) (r : RunArgs) : RunArgs :=
  mkRunArgs (ra_passthrough r) (("CLAUDE_PEERS_AGENT=" +:+ v) :: ra_env r) (ra_skipChannel r)
    (ra_hasChannelFlag r).

Fixpoint run_args (args : list string) : RunArgs :=
  match args with
  | [] => mkRunArgs [] [] false false
  | a :: rest =>
      if String.eqb a "-p" || String.eqb a "--print" || HasPrefix a "--print=" then
        skip_channel (pass a (run_args rest))
      else if String.eqb a channelFlag then
        match rest with
        | v :: rest' => has_channel (pass a (pass v (run_args rest')))
        | [] => has_channel (pass a (mkRunArgs [] [] false false))
        end
      else if HasPrefix a (channelFlag +:+ "=") then has_channel (pass a (run_args rest))
      else if String.eqb a "--as" then
        match rest with
        | v :: rest' => set_agent v (run_args rest')
        | [] => pass a (mkRunArgs [] [] false false)
        end
      else if HasPrefix a "--as=" then set_agent (TrimPrefix a "--as=") (run_args rest)
      else pass a (run_args rest)
  end.

Definition buildRunArgv (userArgs : list string) : list string * list string :=
  let r := run_args userArgs in
  ("claude"
     :: (if negb (ra_hasChannelFlag r) && negb (ra_skipChannel r) then [channelFlag; channelValue] else [])
     ++ ra_passthrough r,
   ra_env r).

(** [claude-peers run]: [main] strips the global flags from the whole argument
    vector first, then hands what follows the sub-command to [buildRunArgv]. *)
Definition main_run (osArgs : list string) : option (list string * list string) :=
  match parseGlobalFlags "" osArgs with
  | Some (args, _) => Some (buildRunArgv (drop 2 args))
  | None => None
  end.

(** ** Lemmas *)

(** Neither form of the [--as] flag. *)
Definition not_as (a : string) : Prop := String.eqb a "--as" = false ∧ HasPrefix a "--as=" = false.

(** The recursion of the parsers takes one argument or two. *)
Lemma list_ind2 {A} (P : list A → Prop) :
  P [] → (∀ x, P [x]) → (∀ x y l, P l → P (y :: l) → P (x :: y :: l)) → ∀ l, P l.
Proof.
  intros H0 H1 H2 l. enough (P l ∧ ∀ x, P (x :: l)) as [? _] by done.
  induction l as [|y l [IH1 IH2]]; [by split|]. split; [apply IH2|]. intros x. by apply H2.
Qed.

Lemma parseGlobalFlags_not_as args o out o' :
  parseGlobalFlags o args = Some (out, o') → Forall not_as out.
Proof.
  revert o out o'. induction args as [|a|a b args IH1 IH2] using list_ind2; intros o out o'; simpl.
  - by intros [= <- _].
  - destruct (String.eqb a "--as") eqn:E1; [done|].
    destruct (HasPrefix a "--as=") eqn:E2; intros [= <- _]; by repeat constructor.
  - destruct (String.eqb a "--as") eqn:E1; [apply IH1|].
    destruct (HasPrefix a "--as=") eqn:E2; [apply IH2|].
    change (match parseGlobalFlags o (b :: args) with
            | Some (out, o) => Some (a :: out, o) | None => None end = Some (out, o')
            → Forall not_as out).
    destruct (parseGlobalFlags o (b :: args)) as [[out1 o1]|] eqn:E; [|done].
    intros [= <- <-]. constructor; [done|]. by eapply IH2.
Qed.

Lemma parseGlobalFlags_pre o pre args :
  Forall not_as pre →
  parseGlobalFlags o (pre ++ args)
  = match parseGlobalFlags o args with Some (out, o') => Some (pre ++ out, o') | None => None end.
Proof.
  induction 1 as [|a pre [H1 H2] _ IH]; [cbn [app]; by destruct (parseGlobalFlags o args) as [[]|]|].
  cbn [app parseGlobalFlags]. rewrite H1, H2, IH. by destruct (parseGlobalFlags o args) as [[]|].
Qed.

Lemma parseGlobalFlags_plain o args : Forall not_as args → parseGlobalFlags o args = Some (args, o).
Proof.
  intros H. pose proof (parseGlobalFlags_pre o args [] H) as Hp. rewrite app_nil_r in Hp.
  rewrite Hp. simpl. by rewrite app_nil_r.
Qed.

Lemma parseGlobalFlags_inline o name args :
  parseGlobalFlags o (("--as=" +:+ name) :: args) = parseGlobalFlags name args.
Proof.
  cbn [parseGlobalFlags]. change (String.eqb ("--as=" +:+ name) "--as") with false. cbv iota.
  by rewrite HasPrefix_app, TrimPrefix_app.
Qed.

Lemma run_args_env args : Forall not_as args → ra_env (run_args args) = [].
Proof.
  induction args as [|a|a b args IH1 IH2] using list_ind2; intros Hall; [done| |].
  - apply Forall_cons in Hall as [[Ha1 Ha2] _]. cbn [run_args]. rewrite Ha1, Ha2. by repeat case_match.
  - apply Forall_cons in Hall as [[Ha1 Ha2] Hall]. specialize (IH2 Hall).
    apply Forall_cons in Hall as [_ Hall]. specialize (IH1 Hall).
    assert (ra_env (run_args (a :: b :: args))
      = if negb (String.eqb a "-p" || String.eqb a "--print" || HasPrefix a "--print=")
           && String.eqb a channelFlag
        then ra_env (run_args args) else ra_env (run_args (b :: args))) as ->.
    { cbn [run_args]. rewrite Ha1, Ha2.
      destruct (String.eqb a "-p" || String.eqb a "--print" || HasPrefix a "--print="); [done|].
      destruct (String.eqb a channelFlag); [done|]. by destruct (HasPrefix a (channelFlag +:+ "=")). }
    by destruct (_ && _).
Qed.

Lemma run_args_clean args :
  ra_hasChannelFlag (run_args args) || ra_skipChannel (run_args args) = false →
  channelFlag ∉ ra_passthrough (run_args args) ∧ "-p" ∉ ra_passthrough (run_args args).
Proof.
  assert (∀ a l, String.eqb a "-p" || String.eqb a "--print" || HasPrefix a "--print=" = false →
    String.eqb a channelFlag = false → channelFlag ∉ l ∧ "-p" ∉ l → channelFlag ∉ a :: l ∧ "-p" ∉ a :: l)
    as Hcons.
  { intros a l [[Hp _]%orb_false_iff _]%orb_false_iff Hc [H1 H2].
    apply String.eqb_neq in Hp, Hc. rewrite !not_elem_of_cons. by split. }
  induction args as [|a|a b args IH1 IH2] using list_ind2.
  - intros _. split; apply not_elem_of_nil.
  - cbn [run_args].
    destruct (String.eqb a "-p" || String.eqb a "--print" || HasPrefix a "--print=") eqn:Ep;
      [by rewrite orb_true_r|].
    destruct (String.eqb a channelFlag) eqn:Ec; [done|].
    destruct (HasPrefix a (channelFlag +:+ "=")); [done|].
    destruct (String.eqb a "--as"); [|destruct (HasPrefix a "--as=")];
      intros _; simpl; try (by split; apply not_elem_of_nil);
      apply Hcons; try done; split; apply not_elem_of_nil.
  - change (run_args (a :: b :: args)) with
      (if String.eqb a "-p" || String.eqb a "--print" || HasPrefix a "--print=" then
        skip_channel (pass a (run_args (b :: args)))
      else if String.eqb a channelFlag then has_channel (pass a (pass b (run_args args)))
      else if HasPrefix a (channelFlag +:+ "=") then has_channel (pass a (run_args (b :: args)))
      else if String.eqb a "--as" then set_agent b (run_args args)
      else if HasPrefix a "--as=" then set_agent (TrimPrefix a "--as=") (run_args (b :: args))
      else pass a (run_args (b :: args))).
    destruct (String.eqb a "-p" || String.eqb a "--print" || HasPrefix a "--print=") eqn:Ep;
      [by rewrite orb_true_r|].
    destruct (String.eqb a channelFlag) eqn:Ec; [done|].
    destruct (HasPrefix a (channelFlag +:+ "=")); [done|].
    destruct (String.eqb a "--as"); [apply IH1|]. destruct (HasPrefix a "--as="); [apply IH2|].
    intros Hno. apply Hcons; [done..|]. by apply IH2.
Qed.

Lemma issue_loop_bounds args out out' :
  MinChildTokenTTL ≤ it_ttl out ≤ MaxChildTokenTTL → issue_loop args out = Ok out' →
  MinChildTokenTTL ≤ it_ttl out' ≤ MaxChildTokenTTL.
Proof.
  revert out. induction args as [|a|a b args IH1 IH2] using list_ind2; intros out Hb.
  - by intros [= <-].
  - cbn [issue_loop]. destruct (String.eqb a "--ttl"); [done|].
    destruct (HasPrefix a "--ttl="); [|by intros [= <-]].
    destruct (ParseFlexibleDuration _) as [d|] eqn:E; [|done]. intros [= <-].
    by apply ParseFlexibleDuration_range in E.
  - change (issue_loop (a :: b :: args) out) with
      (if String.eqb a "--ttl" then
         match ParseFlexibleDuration b with
         | Err e => Err (TtlBad e)
         | Ok d => issue_loop args (mkIssueTokenArgs (it_positional out) d true)
         end
       else if HasPrefix a "--ttl=" then
         match ParseFlexibleDuration (TrimPrefix a "--ttl=") with
         | Err e => Err (TtlBad e)
         | Ok d => issue_loop (b :: args) (mkIssueTokenArgs (it_positional out) d true)
         end
       else issue_loop (b :: args)
              (mkIssueTokenArgs (it_positional out ++ [a]) (it_ttl out) (it_ttlFromFlag out))).
    destruct (String.eqb a "--ttl"); [|destruct (HasPrefix a "--ttl=")].
    + destruct (ParseFlexibleDuration b) as [d|] eqn:E; [|done].
      apply IH1. by apply ParseFlexibleDuration_range in E.
    + destruct (ParseFlexibleDuration _) as [d|] eqn:E; [|done].
      apply IH2. by apply ParseFlexibleDuration_range in E.
    + by apply IH2.
Qed.

(** ** Properties *)

(** The agent name given to [claude-peers run --as] never reaches the child: the
    flag is gone before the wrapper looks for it. *)
Theorem run_loses_agent_name osArgs argv env :
  main_run osArgs = Some (argv, env) → env = [].
Proof.
  unfold main_run. destruct (parseGlobalFlags "" osArgs) as [[args o]|] eqn:E; [|done].
  apply parseGlobalFlags_not_as in E. intros [= _ <-]. apply run_args_env.
  by apply Forall_drop.
Qed.

(** Unless the user already names a channel or asks to print, the child gets the
    channel flag first, and once. *)
Theorem run_channel_flag args :
  (ra_hasChannelFlag (run_args args) || ra_skipChannel (run_args args) = true →
     (buildRunArgv args).1 = "claude" :: ra_passthrough (run_args args))
  ∧ (ra_hasChannelFlag (run_args args) || ra_skipChannel (run_args args) = false →
     (buildRunArgv args).1 = "claude" :: channelFlag :: channelValue :: ra_passthrough (run_args args)
     ∧ channelFlag ∉ ra_passthrough (run_args args) ∧ "-p" ∉ ra_passthrough (run_args args)).
Proof.
  unfold buildRunArgv. simpl. split.
  - by destruct (ra_hasChannelFlag _), (ra_skipChannel _).
  - intros Hno. pose proof (run_args_clean args Hno) as Hc.
    apply orb_false_iff in Hno as [-> ->]. done.
Qed.

(** Every lifetime [issue-token] settles on lies between a minute and a year. *)
Theorem issue_token_ttl_bounds c args out :
  parseIssueTokenArgs c args = Ok out → MinChildTokenTTL ≤ it_ttl out ≤ MaxChildTokenTTL.
Proof.
  apply issue_loop_bounds. simpl. unfold defaultChildTTL.
  destruct (String.eqb c ""); [by compute|].
  destruct (ParseFlexibleDuration c) as [d|] eqn:E; [|by compute].
  by apply ParseFlexibleDuration_range in E.
Qed.

(** ** Witnesses *)
Lemma run_loses_agent_name_witness :
  buildRunArgv ["--as"; "planner"; "--resume"] =
    (["claude"; channelFlag; channelValue; "--resume"], ["CLAUDE_PEERS_AGENT=planner"])
  ∧ ∃ env, main_run ["claude-peers"; "run"; "--as"; "planner"; "--resume"] =
      Some (["claude"; channelFlag; channelValue; "--resume"], env) ∧ env = [].
Proof.
  split; [vm_compute; done|]. eexists. split; [vm_compute; reflexivity|].
  apply (run_loses_agent_name ["claude-peers"; "run"; "--as"; "planner"; "--resume"]
    ["claude"; channelFlag; channelValue; "--resume"]). vm_compute. reflexivity.
Defined.

Lemma run_channel_flag_witness :
  (buildRunArgv ["-p"; "hello"]).1 = ["claude"; "-p"; "hello"].
Proof. exact (proj1 (run_channel_flag ["-p"; "hello"]) eq_refl). Defined.

Lemma issue_token_ttl_bounds_witness :
  parseIssueTokenArgs "" ["key.pub"; "--ttl"; "30d"; "cli"]
    = Ok (mkIssueTokenArgs ["key.pub"; "cli"] (720 * Hour) true)
  ∧ MinChildTokenTTL ≤ 720 * Hour ≤ MaxChildTokenTTL.
Proof.
  split; [vm_compute; done|].
  apply (issue_token_ttl_bounds "" ["key.pub"; "--ttl"; "30d"; "cli"]
    (mkIssueTokenArgs ["key.pub"; "cli"] (720 * Hour) true)). vm_compute. done.
Defined.
