(* ===== verification/Commands.v ===== *)
(** * The commands that set a machine up ([main.go], [config.go])

    [init], [mint-root], [issue-token], [save-token], [refresh-token],
    [generate-nkey], [config] and the dispatch of [main], over the file system.
    A command ends with the lines it printed and its exit status. *)

From S2P Require Import Prelude GoStrings GoTime Ttl Base64 Ucan Files Config KeyFiles Cli.

(** ** Ends of commands *)
Record Outcome : Type := mkOutcome {
  oc_stdout : list string;
  oc_stderr : list string;
  oc_exit : Z;
}.

Definition Cmd : Type := FileSys → FileSys * Outcome.

Definition finish (out : list string) : Cmd := λ fs, (fs, mkOutcome out [] 0).

(** [fmt.Fprint(os.Stderr, ...); os.Exit(code)]. *)
Definition die (code : Z) (err : list string) : Cmd := λ fs, (fs, mkOutcome [] err code).

(** A call whose error ends the command with status 1 and the text before it. *)
Definition or_die {A} (text : string) (m : io A) (k : A → Cmd) : Cmd := λ fs,
  match m fs with
  | (fs', Ok a) => k a fs'
  | (fs', Err e) => die 1 [text +:+ ": " +:+ e] fs'
  end.

Definition print_err (err : list string) (c : Cmd) : Cmd := λ fs,
  let '(fs', o) := c fs in (fs', mkOutcome (oc_stdout o) (err ++ oc_stderr o) (oc_exit o)).

(** A call whose error is ignored. *)
Definition ignoring {A} (m : io A) (c : Cmd) : Cmd := λ fs, c (m fs).1.

(** ** The machine *)
Class Machine : Type := {
  (** [os.UserHomeDir], empty when it is unknown; [os.Getenv]; [os.Hostname]. *)
  mc_home : string;
  mc_getenv : string → string;
  mc_hostname : string;
  (** [t.Format(time.RFC3339)] in the zone of the machine. *)
  mc_local_time : Z → string;
  (** [json.MarshalIndent] of a configuration. *)
  mc_marshal : Config → result string string;
  (** The text of an error of [parseIssueTokenArgs]. *)
  mc_issue_error : IssueErr → string;
}.

Section commands.
Context {J : Jwt} {C : KeyCodec} {M : Machine}.

Definition defaultDBPath : string := path_join [mc_home; ".claude-peers.db"].
Definition configDir : string := path_join [mc_home; ".config"; "claude-peers"].
Definition configPath : string :=
  if non_empty (mc_getenv "CLAUDE_PEERS_CONFIG") then mc_getenv "CLAUDE_PEERS_CONFIG"
  else path_join [configDir; "config.json"].

Definition in_config (file : string) : string := path_join [configDir; file].

Definition writeConfig (c : Config) : io unit :=
  _ ← MkdirAll configDir;
  data ← lift (mc_marshal c);
  WriteFile configPath data mode_0644.

(** ** [init] *)
Definition init_config (role listen url : string) : Config :=
  let c := defaultConfig mc_hostname defaultDBPath in
  mkConfig role url listen (cfg_MachineName c) (cfg_DBPath c) (cfg_StaleTimeout c) (cfg_NatsURL c)
    (cfg_NatsToken c) (cfg_NatsNKeySeed c) (cfg_LLMBaseURL c) (cfg_LLMModel c) (cfg_LLMAPIKey c)
    (cfg_DefaultChildTTL c) (cfg_TLSDomain c) (cfg_TLSEmail c) (cfg_TLSCacheDir c)
    (cfg_TLSAcmeStaging c).

Definition init_usage : list string :=
  ["Usage:";
   "  claude-peers init broker                  Set up as broker (generates keypair + root token)";
   "  claude-peers init client <broker-url>     Connect to a remote broker";
   "";
   "Examples:";
   "  claude-peers init broker";
   "  claude-peers init client http://your-server:7899"].

(** What [init] prints once the configuration is written. *)
Definition init_report (c : Config) : list string :=
  let broker := String.eqb (cfg_Role c) "broker" in
  ["Config written to " +:+ configPath;
   "";
   "  role:         " +:+ cfg_Role c;
   "  machine_name: " +:+ cfg_MachineName c;
   "  broker_url:   " +:+ cfg_BrokerURL c;
   "  identity:     " +:+ in_config privateKeyFile;
   "  public key:   " +:+ in_config publicKeyFile]
  ++ (if broker then
        ["  root.pub:     " +:+ in_config rootPubKeyFile;
         "  root token:   " +:+ in_config rootTokenFile;
         "  token:        " +:+ in_config tokenFile;
         "  listen:       " +:+ cfg_Listen c;
         "  db_path:      " +:+ cfg_DBPath c]
      else [])
  ++ [""]
  ++ (if broker then ["Start the broker with: claude-peers broker"]
      else
        ["Next steps:";
         "  1. Copy root.pub from broker machine to " +:+ in_config rootPubKeyFile;
         "  2. On the broker, run: claude-peers issue-token <this-machine.pub> peer-session";
         "  3. Save the issued token: claude-peers save-token <jwt>"]).

Definition write_and_report (c : Config) : Cmd :=
  or_die "Error writing config" (writeConfig c) (λ _, finish (init_report c)).

Definition year : Z := 365 * 24 * Hour.

Definition init_broker (now : Z) (entropy : result string PrivateKey) : Cmd :=
  let c := init_config "broker" "0.0.0.0:7899" "http://127.0.0.1:7899" in
  or_die "Error generating keypair" (lift (GenerateKeyPair entropy)) (λ kp,
  or_die "Error saving keypair" (SaveKeyPair kp configDir) (λ _,
  or_die "Error saving root public key" (SavePublicKey (kp_PublicKey kp) (in_config rootPubKeyFile)) (λ _,
  or_die "Error minting root token" (lift (MintRootToken now (kp_PrivateKey kp) AllCapabilities year)) (λ token,
  or_die "Error saving root token" (SaveRootToken token configDir) (λ _,
  or_die "Error saving token" (SaveToken token configDir) (λ _,
  write_and_report c)))))).

Definition init_client (entropy : result string PrivateKey) (url : string) : Cmd :=
  let c := init_config "client" "127.0.0.1:7899" url in
  or_die "Error generating keypair" (lift (GenerateKeyPair entropy)) (λ kp,
  or_die "Error saving keypair" (SaveKeyPair kp configDir) (λ _,
  write_and_report c)).

Definition cliInit (now : Z) (entropy : result string PrivateKey) (args : list string) : Cmd :=
  match args with
  | [] => die 1 init_usage
  | role :: rest =>
      ignoring (MkdirAll configDir)
        (if String.eqb role "broker" then init_broker now entropy
         else if String.eqb role "client" then
           match rest with
           | [] => die 1 ["Error: client requires a broker URL";
                          "  claude-peers init client http://<broker-ip>:7899"]
           | url :: _ => init_client entropy url
           end
         else die 1 ["Unknown role: " +:+ role +:+ " (use 'broker' or 'client')"])
  end.

(** ** [mint-root] *)
Definition cliMintRoot (now : Z) : Cmd :=
  or_die "Error loading keypair" (LoadKeyPair configDir) (λ kp,
  or_die "Error minting root token" (lift (MintRootToken now (kp_PrivateKey kp) AllCapabilities year)) (λ token,
  or_die "Error saving root token" (SaveRootToken token configDir) (λ _,
  or_die "Error saving token" (SaveToken token configDir) (λ _,
  finish ["Root token minted and saved"])))).

(** ** [issue-token] *)
Definition role_capabilities (role : string) : option (list Capability) :=
  if String.eqb role "peer-session" then Some PeerSessionCapabilities
  else if String.eqb role "fleet-read" then Some FleetReadCapabilities
  else if String.eqb role "fleet-write" then Some FleetWriteCapabilities
  else if String.eqb role "cli" then Some CLICapabilities
  else None.

Definition issue_usage : list string :=
  ["Usage: claude-peers issue-token [--ttl <duration>] <machine-pub-path> <role>";
   "Roles: peer-session, fleet-read, fleet-write, cli";
   "TTL:   24h (default), 30d, 720h, 72h30m — max 365d"].

(** The parent token: the root token, or the peer token of old installations. *)
Definition load_parent : io string := λ fs,
  match LoadRootToken configDir fs with
  | (fs1, Ok t) => (fs1, Ok t)
  | (fs1, Err _) => LoadToken configDir fs1
  end.

Definition cliIssueToken (now : Z) (DefaultChildTTL : string) (args : list string) : Cmd :=
  match parseIssueTokenArgs DefaultChildTTL args with
  | Err e => die 2 [mc_issue_error e]
  | Ok parsed =>
      let ttl := it_ttl parsed in
      let ttlSource := if it_ttlFromFlag parsed then "flag" else "default" in
      match it_positional parsed with
      | pubPath :: role :: _ =>
          match role_capabilities role with
          | None =>
              die 1 ["Unknown role: " +:+ role +:+ " (use peer-session, fleet-read, fleet-write, or cli)"]
          | Some caps =>
              or_die "Error loading broker keypair" (LoadKeyPair configDir) (λ kp,
              or_die "Error loading broker root token" load_parent (λ parentToken,
              or_die "Error loading target public key" (LoadPublicKey pubPath) (λ targetPub,
              or_die "Error minting token"
                (lift (MintToken now (kp_PrivateKey kp) targetPub caps ttl parentToken)) (λ token,
              print_err
                ["issued " +:+ role +:+ " token for " +:+ path_base pubPath +:+ " (ttl="
                   +:+ DurationString ttl +:+ ", source=" +:+ ttlSource +:+ ", expires="
                   +:+ formatRFC3339 (now + ttl) +:+ ")"]
                (finish [token])))))
          end
      | _ => die 1 issue_usage
      end
  end.

(** ** [save-token] *)
Definition saved_line : string := "Token saved to " +:+ in_config tokenFile.

(** The report on the claims of a valid token. *)
Definition token_report (claims : UCANClaims) : list string :=
  ("Capabilities:" :: ((λ c, "  " +:+ Resource c) <$> cl_Capabilities claims))
  ++ match cl_ExpiresAt claims with
     | Some e => ["Expires: " +:+ mc_local_time e]
     | None => []
     end.

(** The validator is meant to know the root token as a parent; it is read from
    the file the token has just been saved to. *)
Definition save_token_validator (now : Z) (rootPub : PublicKey) (token : string) (fs : FileSys)
  : TokenValidator :=
  let v := NewTokenValidator rootPub in
  match (LoadToken configDir fs).2 with
  | Ok rootToken =>
      if String.eqb rootToken token then v else RegisterToken now v rootToken AllCapabilities
  | Err _ => v
  end.

Definition save_token_report (now : Z) (token : string) (fs : FileSys) : list string :=
  match (LoadPublicKey (in_config rootPubKeyFile) fs).2 with
  | Err _ => [saved_line; "WARNING: could not load root.pub for validation"]
  | Ok rootPub =>
      match (Validate now (save_token_validator now rootPub token fs) token).2 with
      | Err e => [saved_line; "WARNING: token validation failed: " +:+ e]
      | Ok claims => saved_line :: token_report claims
      end
  end.

Definition cliSaveToken (now : Z) (args : list string) : Cmd :=
  match args with
  | [] => die 1 ["Usage: claude-peers save-token <jwt-string>"]
  | token :: _ =>
      or_die "Error saving token" (SaveToken token configDir) (λ _ fs,
        finish (save_token_report now token fs) fs)
  end.

(** ** Refreshing ([doRefreshToken], [refresh-token]) *)

(** [post] is the answer of [POST /refresh-token] to a bearer token: a transport
    error, or status and body; [decode] reads the token out of a body. *)
Definition doRefreshToken (post : string → result string (Z * string))
    (decode : string → result string string) (authToken : string) : io string :=
  current ← (if non_empty authToken then mret authToken
             else wrap "no token to refresh" (LoadToken configDir));
  resp ← wrap "refresh request" (lift (post current));
  if negb (resp.1 =? 200) then
    fail ("refresh failed (" +:+ itoa resp.1 +:+ "): " +:+ resp.2)
  else
    token ← wrap "decode refresh response" (lift (decode resp.2));
    if String.eqb token "" then fail "broker returned empty token"
    else
      _ ← wrap "save refreshed token" (SaveToken token configDir);
      mret token.

(** The new expiry, printed when the token validates on its own. *)
Definition refresh_report (now : Z) (fs : FileSys) : list string :=
  match (LoadToken configDir fs).2, (LoadPublicKey (in_config rootPubKeyFile) fs).2 with
  | Ok t, Ok rootPub =>
      match (Validate now (NewTokenValidator rootPub) t).2 with
      | Ok claims =>
          match cl_ExpiresAt claims with
          | Some e => ["New expiry: " +:+ mc_local_time e]
          | None => []
          end
      | Err _ => []
      end
  | _, _ => []
  end.

Definition cliRefreshToken (now : Z) (post : string → result string (Z * string))
    (decode : string → result string string) (authToken : string) : Cmd :=
  or_die "Error" (doRefreshToken post decode authToken) (λ _ fs,
    finish (("Token refreshed and saved to " +:+ in_config tokenFile) :: refresh_report now fs) fs).

(** [loadAuthToken]. *)
Definition loadAuthToken (fs : FileSys) : string :=
  let v := mc_getenv "CLAUDE_PEERS_TOKEN" in
  if non_empty v then v else match (LoadToken configDir fs).2 with Ok t => t | Err _ => "" end.

(** ** [generate-nkey], [config] *)

(** [user] is the seed and public key that the nkeys library draws. *)
Definition cliGenerateNKey (user : result string (string * string)) : Cmd :=
  ignoring (MkdirAll configDir)
  (or_die "Error generating NKey" (lift user) (λ kp,
   or_die "Error saving NKey" (saveNKeySeed kp.1 configDir) (λ _,
   finish ["NKey generated:"; "  Seed:       " +:+ in_config nkeyFile; "  Public key: " +:+ kp.2; "";
           "Add this public key to the NATS server config."]))).

Definition cliShowConfig (cfg : Config) : list string :=
  ["Config: " +:+ configPath; "";
   "  role:         " +:+ cfg_Role cfg;
   "  machine_name: " +:+ cfg_MachineName cfg;
   "  broker_url:   " +:+ cfg_BrokerURL cfg;
   "  listen:       " +:+ cfg_Listen cfg;
   "  db_path:      " +:+ cfg_DBPath cfg;
   "  stale_timeout: " +:+ itoa (cfg_StaleTimeout cfg) +:+ "s"].
End commands.

(** ** The dispatch of [main] *)
Inductive Command : Type :=
| CBroker (flags : list string)
| CServer
| CInit (args : list string)
| CConfig
| CStatus
| CPeers
| CSend (to msg : string)
| CSendUsage
| CDream
| CDreamWatch
| CIssueToken (args : list string)
| CMintRoot
| CSaveToken (args : list string)
| CRefreshToken
| CGenerateNKey
| CKillBroker
| CReauthFleet
| CRun (args : list string)
| CUsage.

Definition sub_command (name : string) (args : list string) : Command :=
  if String.eqb name "broker" then CBroker args
  else if String.eqb name "server" then CServer
  else if String.eqb name "init" then CInit args
  else if String.eqb name "config" then CConfig
  else if String.eqb name "status" then CStatus
  else if String.eqb name "peers" then CPeers
  else if String.eqb name "send" then
    match args with to :: ((_ :: _) as words) => CSend to (Join words " ") | _ => CSendUsage end
  else if String.eqb name "dream" then CDream
  else if String.eqb name "dream-watch" then CDreamWatch
  else if String.eqb name "issue-token" then CIssueToken args
  else if String.eqb name "mint-root" then CMintRoot
  else if String.eqb name "save-token" then CSaveToken args
  else if String.eqb name "refresh-token" then CRefreshToken
  else if String.eqb name "generate-nkey" then CGenerateNKey
  else if String.eqb name "kill-broker" then CKillBroker
  else if String.eqb name "reauth-fleet" then CReauthFleet
  else if String.eqb name "run" then CRun args
  else CUsage.

(** The command and the agent name of an argument vector; [None] where [--as]
    lacks its value. *)
Definition main_command (osArgs : list string) : option (Command * string) :=
  match parseGlobalFlags "" osArgs with
  | None => None
  | Some (_ :: name :: args, agent) => Some (sub_command name args, agent)
  | Some (_, agent) => Some (CUsage, agent)
  end.

(** ** A concrete machine for witnesses *)
Definition demo_machine (name : string) : Machine := {|
  mc_home := "/home/dev";
  mc_getenv _ := "";
  mc_hostname := name;
  mc_local_time t := formatRFC3339 t;
  mc_marshal c := Ok (cfg_Role c +:+ " " +:+ cfg_BrokerURL c);
  mc_issue_error _ := "--ttl";
|}.
