(* ===== verification/Identity.v ===== *)
(** * Finding the broker and knowing it ([fleet_server.go])

    How a session makes sure that a broker runs ([ensureBroker]) and that it is
    the one whose public key it was given ([verifyBrokerIdentity]), and what the
    check amounts to against the broker's own [/challenge] route. *)

From S2P Require Import Prelude GoStrings GoTime Base64 Ucan DemoJwt UcanSpec RateLimiter Types Store.
From S2P Require Import Prog World Broker Dispatch Demo Server ServerSpec Files Config KeyFiles Commands.

(** ** [ensureBroker] *)

(** Only a broker on this machine is started. *)
Definition isLocalBroker (url : string) : bool :=
  Contains url "127.0.0.1" || Contains url "localhost".

(** The probes after the start; [alive] answers the [n]th one.  Also the number
    of probes made. *)
Fixpoint await_broker (attempts : nat) (alive : nat → bool) (n : nat) : nat * result string unit :=
  match attempts with
  | O => (n, Err "broker failed to start after 6s")
  | S k => if alive n then (S n, Ok tt) else await_broker k alive (S n)
  end.

(** [exe] and [started] are the outcomes of [os.Executable] and [cmd.Start]. *)
Definition ensureBroker (url : string) (exe : result string string) (started : result string unit)
    (alive : nat → bool) : nat * result string unit :=
  if alive 0%nat then (1%nat, Ok tt)
  else if negb (isLocalBroker url) then (1%nat, Err ("remote broker at " +:+ url +:+ " is not reachable"))
  else
    match exe, started with
    | Err e, _ => (1%nat, Err e)
    | Ok _, Err e => (1%nat, Err ("start broker: " +:+ e))
    | Ok _, Ok _ => await_broker 30 alive 1
    end.

(** ** [verifyBrokerIdentity] *)

(** Without an error the broker is verified, or the check was given up with a
    warning. *)
Inductive Verdict : Type :=
| Verified
| Skipped (warning : string).

(** [challenge] is the answer of [POST /challenge] to a nonce: a transport error,
    or a status with the outcome of decoding the body. *)
Abbreviation challenge_call := (string → result string (Z * result string ChallengeResponse)).

Class Ed25519 {J : Jwt} : Type := {
  ed_sign : PrivateKey → string → string;
  ed_verify : PublicKey → string → string → bool;
}.

(** What [crypto/ed25519] promises. *)
Class Ed25519Laws {J : Jwt} (D : Ed25519) : Prop := {
  sign_verifies k m : ed_verify (Public k) m (ed_sign k m) = true;
}.

Section identity.
Context {J : Jwt} {D : Ed25519} {C : KeyCodec} {M : Machine}.

Definition check_response (rootPub : PublicKey) (nonce : string) (c : ChallengeResponse)
  : result string Verdict :=
  if negb (String.eqb (chalr_Nonce c) nonce) then Err "broker returned wrong nonce"
  else
    match DecodeString (chalr_Signature c) with
    | Err i => Err ("decode signature: illegal base64 data at input byte " +:+ itoa i)
    | Ok sig =>
        if ed_verify rootPub nonce sig then Ok Verified
        else Err "BROKER IDENTITY VERIFICATION FAILED: signature does not match root.pub"
    end.

(** [nonceBytes] is the outcome of [rand.Read]. *)
Definition verify_with (rootPub : PublicKey) (nonceBytes : result string string)
    (challenge : challenge_call) : result string Verdict :=
  match nonceBytes with
  | Err e => Err ("generate nonce: " +:+ e)
  | Ok b =>
      let nonce := EncodeToString b in
      match challenge nonce with
      | Err e => Ok (Skipped ("broker challenge failed: " +:+ e))
      | Ok (status, body) =>
          if negb (status =? 200) then Ok (Skipped ("broker challenge returned " +:+ itoa status))
          else
            match body with
            | Err e => Err ("decode challenge response: " +:+ e)
            | Ok c => check_response rootPub nonce c
            end
      end
  end.

Definition verifyBrokerIdentity (nonceBytes : result string string) (challenge : challenge_call)
    (fs : FileSys) : result string Verdict :=
  match (LoadPublicKey (in_config rootPubKeyFile) fs).2 with
  | Err _ => Ok (Skipped "no root.pub found, skipping broker verification")
  | Ok rootPub => verify_with rootPub nonceBytes challenge
  end.

(** What [runServer] does with the outcome: log a warning and go on. *)
Definition identity_warning (r : result string Verdict) : option string :=
  match r with
  | Err e => Some e
  | Ok (Skipped w) => Some w
  | Ok Verified => None
  end.
End identity.

(** The [/challenge] route of a broker, as a session that bears [auth] sees it. *)
Definition challenge_route {E : Env} {J : Jwt} {S : ServerEnv} (now : Z) (auth addr : string)
    (sv : Server) : challenge_call := λ nonce,
  match (serve now sv (mkHttpRequest (PostChallenge (Ok (mkChallengeRequest nonce))) auth addr)).2 with
  | None => Err "EOF"
  | Some r =>
      Ok (rs_Status r, match rs_Body r with JsonChallenge c => Ok c | _ => Err "invalid character" end)
  end.

(** ** Lemmas *)
Lemma await_broker_spec k alive n :
  match await_broker k alive n with
  | (m, Ok _) => (n < m ≤ n + k)%nat ∧ alive (pred m) = true
  | (m, Err _) => m = (n + k)%nat ∧ ∀ i, (n ≤ i < n + k)%nat → alive i = false
  end.
Proof.
  revert n. induction k as [|k IH]; intros n; simpl; [split; lia|].
  destruct (alive n) eqn:Ea; [split; [lia|done]|]. specialize (IH (S n)).
  destruct (await_broker k alive (S n)) as [m [[]|e]].
  - destruct IH as [? ?]. split; [lia|done].
  - destruct IH as [-> Hall]. split; [lia|]. intros i Hi.
    destruct (decide (i = n)) as [->|]; [done|]. apply Hall. lia.
Qed.

(** ** Properties *)

(** A session looks for its broker at most thirty-one times: it goes on as soon
    as a probe is answered, and gives up on a local broker only after thirty
    further probes, on a remote one at once. *)
Theorem ensureBroker_bounded url exe started alive :
  let '(probes, r) := ensureBroker url exe started alive in
  (1 ≤ probes ≤ 31)%nat
  ∧ match r with
    | Ok _ => alive (pred probes) = true
    | Err _ => alive 0%nat = false
        ∧ (isLocalBroker url = true → is_ok exe = true → is_ok started = true →
           probes = 31%nat ∧ ∀ i, (i < 31)%nat → alive i = false)
    end.
Proof.
  unfold ensureBroker. destruct (alive 0%nat) eqn:E0; [split; [lia|done]|].
  destruct (isLocalBroker url); cbn [negb]; cbv iota; [|split; [lia|done]].
  destruct exe as [x|e]; [|split; [lia|done]]. destruct started as [[]|e]; [|split; [lia|done]].
  pose proof (await_broker_spec 30 alive 1) as H. revert H.
  destruct (await_broker 30 alive 1) as [m [[]|e]]; intros H; cbv beta iota in H.
  - destruct H as [Hm Ha]. split; [lia|done].
  - destruct H as [-> Hall]. split; [lia|]. split; [done|]. intros _ _ _. split; [done|].
    intros [|i] Hi; [done|]. apply Hall. lia.
Qed.

Section properties.
Context {J : Jwt} {L : JwtLaws J} {D : Ed25519} {DL : Ed25519Laws D} {C : KeyCodec} {M : Machine}.

Lemma challenge_answered {E : Env} {S : ServerEnv} k now auth addr sv nonce :
  se_keypair = Ok (mkKeyPair k (Public k)) →
  challenge_route now auth addr sv nonce
  = Ok (200, Ok (mkChallengeResponse nonce (EncodeToString (se_sign k nonce)) (pubKeyToString (Public k)))).
Proof.
  intros Hk.
  change (challenge_route now auth addr sv nonce)
    with (match (handle_challenge (Ok (mkChallengeRequest nonce)) sv).2 with
          | None => Err "EOF"
          | Some r => Ok (rs_Status r, match rs_Body r with
                                       | JsonChallenge c => Ok c
                                       | _ => Err "invalid character"
                                       end)
          end : result string (Z * result string ChallengeResponse)).
  unfold handle_challenge, with_body. by rewrite Hk.
Qed.

(** A broker counts as verified only if it returned the fresh nonce with a
    signature that verifies under the stored root key. *)
Theorem verified_is_genuine nonceBytes challenge fs :
  verifyBrokerIdentity nonceBytes challenge fs = Ok Verified →
  ∃ rootPub b c sig, (LoadPublicKey (in_config rootPubKeyFile) fs).2 = Ok rootPub
    ∧ nonceBytes = Ok b ∧ challenge (EncodeToString b) = Ok (200, Ok c)
    ∧ chalr_Nonce c = EncodeToString b ∧ DecodeString (chalr_Signature c) = Ok sig
    ∧ ed_verify rootPub (EncodeToString b) sig = true.
Proof.
  unfold verifyBrokerIdentity. destruct (LoadPublicKey _ fs) as [fs1 [rootPub|e]]; [|done].
  unfold verify_with. destruct nonceBytes as [b|e]; [|done]. simpl.
  destruct (challenge (EncodeToString b)) as [[status body]|e] eqn:Ec; [|done].
  destruct (Z.eqb_spec status 200) as [->|]; [|done]. destruct body as [c|e]; [|done]. simpl.
  unfold check_response. destruct (String.eqb_spec (chalr_Nonce c) (EncodeToString b)) as [Hn|]; [|done].
  simpl. destruct (DecodeString (chalr_Signature c)) as [sig|i] eqn:Ed; [|done].
  destruct (ed_verify rootPub (EncodeToString b) sig) eqn:Ev; [|done]. intros _. eauto 10.
Qed.

(** C35: The broker of the fleet is verified by every session that has its public
    key, with or without a token and whatever state the broker is in. *)
Theorem genuine_broker_verified {E : Env} {S : ServerEnv} k b fs now auth addr sv :
  se_keypair = Ok (mkKeyPair k (Public k)) → (∀ m, se_sign k m = ed_sign k m) →
  (LoadPublicKey (in_config rootPubKeyFile) fs).2 = Ok (Public k) →
  verifyBrokerIdentity (Ok b) (challenge_route now auth addr sv) fs = Ok Verified.
Proof.
  intros Hk Hs Hpub. unfold verifyBrokerIdentity. rewrite Hpub. unfold verify_with.
  rewrite (challenge_answered k) by done. cbn [negb Z.eqb Pos.eqb]. unfold check_response.
  cbn [chalr_Nonce chalr_Signature]. rewrite String.eqb_refl. cbn [negb].
  rewrite DecodeString_EncodeToString, Hs, sign_verifies. done.
Qed.

(** The check stops nobody: a server that answers the challenge with any status
    but 200 raises no error, and even a failed check is only a warning. *)
Theorem refused_challenge_is_skipped nonceBytes challenge fs b status body :
  nonceBytes = Ok b → challenge (EncodeToString b) = Ok (status, body) → status ≠ 200 →
  ∃ w, verifyBrokerIdentity nonceBytes challenge fs = Ok (Skipped w).
Proof.
  intros -> Hc Hs. unfold verifyBrokerIdentity.
  destruct (LoadPublicKey _ fs) as [fs1 [rootPub|e]]; [|by eexists]. simpl.
  rewrite Hc. destruct (Z.eqb_spec status 200); [done|]. by eexists.
Qed.
End properties.

(** ** Witnesses *)
#[local] Existing Instances demo_env demo_jwt demo_jwt_laws demo_server_env.

(** A signature that is the signer's public key: enough for the law. *)
#[local] Instance demo_ed25519 : @Ed25519 demo_jwt := {|
  ed_sign k m := Public k;
  ed_verify pub m sig := String.eqb sig pub;
|}.
#[local] Instance demo_ed25519_laws : Ed25519Laws demo_ed25519.
Proof. split. intros k m. apply String.eqb_refl. Qed.

#[local] Instance here : Machine := {|
  mc_home := "/home/dev"; mc_getenv _ := ""; mc_hostname := "laptop";
  mc_local_time t := formatRFC3339 t; mc_marshal c := Ok ""; mc_issue_error _ := "";
|}.

Definition paired_disk : FileSys :=
  (SavePublicKey (Public root_key) (in_config rootPubKeyFile) blank_disk).1.

#[local] Typeclasses Opaque demo_server paired_disk.

Lemma genuine_broker_verified_witness :
  verifyBrokerIdentity (Ok "nonce") (challenge_route day0 "" "100.64.0.7:5123" demo_server) paired_disk
  = Ok Verified.
Proof. apply (genuine_broker_verified root_key); [done|done|vm_decide]. Defined.

Lemma verified_is_genuine_witness :
  ∃ c, challenge_route day0 "" "100.64.0.7:5123" demo_server (EncodeToString "nonce") = Ok (200, Ok c)
       ∧ chalr_Nonce c = EncodeToString "nonce".
Proof.
  destruct (verified_is_genuine (Ok "nonce") (challenge_route day0 "" "100.64.0.7:5123" demo_server)
    paired_disk) as (pub & b & c & sig & _ & Hb & Hc & Hn & _).
  - vm_compute. reflexivity.
  - injection Hb as <-. exists c. by split.
Defined.

(** An impostor that does not know the route is not found out. *)
Lemma refused_challenge_is_skipped_witness :
  ∃ w, verifyBrokerIdentity (Ok "nonce") (λ _, Ok (404, Err "404 page not found")) paired_disk
       = Ok (Skipped w).
Proof. by eapply (refused_challenge_is_skipped _ _ _ "nonce" 404). Defined.
