(* ===== verification/Json.v ===== *)
(** * JSON values and JSON-RPC messages ([fleet_mcp.go])

    The values the MCP server writes, a small language of schemas to say what
    shape they have, and the JSON-RPC 2.0 envelope. *)

From S2P Require Import Prelude GoStrings.

(** ** Values *)
Inductive Json : Type :=
| JNull
| JBool (b : bool)
| JNum (z : Z)
| JStr (s : string)
| JArr (l : list Json)
| JObj (fields : list (string * Json)).

Definition jfield (k : string) (v : Json) : option Json :=
  match v with
  | JObj fs => snd <$> find (λ kv, String.eqb kv.1 k) fs
  | _ => None
  end.

(** ** Schemas *)

(** An object has the required fields, and no field beyond them and the
    optional ones. *)
Inductive Schema : Type :=
| SAny
| SBool
| SNum
| SStr
| SConst (s : string)
| SArr (s : Schema)
| SMap (s : Schema)
| SObj (required optional : list (string * Schema)).

Definition has_key {A} (k : string) (l : list (string * A)) : bool :=
  existsb (λ kv, String.eqb kv.1 k) l.

Fixpoint conforms (s : Schema) (v : Json) {struct s} : bool :=
  match s, v with
  | SAny, _ => true
  | SBool, JBool _ => true
  | SNum, JNum _ => true
  | SStr, JStr _ => true
  | SConst c, JStr t => String.eqb c t
  | SArr s', JArr l => forallb (conforms s') l
  | SMap s', JObj fs => forallb (λ kv, conforms s' kv.2) fs
  | SObj req opt, JObj fs =>
      forallb (λ ks, match find (λ kv, String.eqb kv.1 ks.1) fs with
                     | Some kv => conforms ks.2 kv.2
                     | None => false
                     end) req
      && forallb (λ ks, match find (λ kv, String.eqb kv.1 ks.1) fs with
                        | Some kv => conforms ks.2 kv.2
                        | None => true
                        end) opt
      && forallb (λ kv, has_key kv.1 req || has_key kv.1 opt) fs
  | _, _ => false
  end.

(** ** JSON-RPC messages *)

(** [jsonrpcRequest]; an absent id is [None]. *)
Record jsonrpcRequest (P : Type) : Type := mkRpcRequest {
  rpc_ID : option Json;
  rpc_Method : string;
  rpc_Params : P;
}.
Arguments mkRpcRequest {P}.
Arguments rpc_ID {P}.
Arguments rpc_Method {P}.
Arguments rpc_Params {P}.

(** What the transport writes: [respond], [respondError], [writeNotification]. *)
Inductive RpcMessage : Type :=
| RpcResult (id : option Json) (result : Json)
| RpcError (id : option Json) (code : Z) (message : string)
| RpcNotification (method : string) (params : Json).

(** The line written for a message; a nil id is written as [null]. *)
Definition rpc_json (m : RpcMessage) : Json :=
  match m with
  | RpcResult id r => JObj [("jsonrpc", JStr "2.0"); ("id", default JNull id); ("result", r)]
  | RpcError id code msg =>
      JObj [("jsonrpc", JStr "2.0"); ("id", default JNull id);
            ("error", JObj [("code", JNum code); ("message", JStr msg)])]
  | RpcNotification method params =>
      JObj [("jsonrpc", JStr "2.0"); ("method", JStr method); ("params", params)]
  end.

Definition response_schema (result : Schema) : Schema :=
  SObj [("jsonrpc", SConst "2.0"); ("id", SAny); ("result", result)] [].
Definition error_schema : Schema :=
  SObj [("jsonrpc", SConst "2.0"); ("id", SAny);
        ("error", SObj [("code", SNum); ("message", SStr)] [])] [].
Definition notification_schema (params : Schema) : Schema :=
  SObj [("jsonrpc", SConst "2.0"); ("method", SStr); ("params", params)] [].

Lemma response_conforms s id r :
  conforms s r = true → conforms (response_schema s) (rpc_json (RpcResult id r)) = true.
Proof. intros H. simpl. by rewrite H. Qed.

Lemma error_conforms id code msg : conforms error_schema (rpc_json (RpcError id code msg)) = true.
Proof. done. Qed.

Lemma notification_conforms s m p :
  conforms s p = true → conforms (notification_schema s) (rpc_json (RpcNotification m p)) = true.
Proof. intros H. simpl. by rewrite H. Qed.
