(* ===== verification/Client.v ===== *)
(** * The session's side ([fleet_server.go], [main.go])

    The MCP server of a session: registration with its fallback, the heartbeat
    that notices an eviction, routing of sends, the push loop and the draining
    of messages.  The broker is an interface; each call may fail in transport. *)

From S2P Require Import Prelude GoStrings GoTime Types Store Prog World Broker.

(** ** The interface *)

(** What a session calls, over a state [St] of everything on the other side.
    [Err] is an error of [brokerFetch]; a conflict response is an [Ok]. *)
Class BrokerApi (St : Type) : Type := {
  api_register : RegisterRequest → St → St * result string RegisterResponse;
  api_heartbeat : HeartbeatRequest → St → St * result string HeartbeatResponse;
  api_list : ListPeersRequest → St → St * result string (list Peer);
  api_send : SendMessageRequest → St → St * result string SendMessageResponse;
  api_poll : PollMessagesRequest → St → St * result string PollMessagesResponse;
  api_peek : PollMessagesRequest → St → St * result string PollMessagesResponse;
  api_ack : AckMessageRequest → St → St * result string unit;
  api_claim : ClaimAgentRequest → St → St * result string ClaimAgentResponse;
  api_set_summary : SetSummaryRequest → St → St * result string unit;
  api_unregister : UnregisterRequest → St → St * result string unit;
  api_events : Z → St → St * result string (list Event);
  api_memory : St → St * result string string;
  api_set_memory : string → St → St * result string unit;
}.

(** The broker of this development behind the interface, with no transport in
    between. *)
Definition direct {A B} (op : A → handler B) (x : A) (w : World) : World * result string B :=
  let '(w', r) := run (op x) w in (w', Ok r).

#[export] Instance broker_api {E : Env} : BrokerApi World := {|
  api_register := direct register;
  api_heartbeat := direct heartbeat;
  api_list := direct listPeers;
  api_send := direct sendMessage;
  api_poll := direct pollMessages;
  api_peek := direct peekMessages;
  api_ack := direct ackMessage;
  api_claim := direct claimAgent;
  api_set_summary := direct setSummary;
  api_unregister := direct unregister;
  api_events := direct (λ limit, r ← recentEvents limit; Ret (default [] r));
  api_memory := direct (λ _ : unit, getFleetMemory) tt;
  api_set_memory := direct setFleetMemory;
|}.

(** ** Requests ([cliFetch], [cliFetchOnce]) *)

(** The error of a response: a 409 whose body decodes is not one. *)
Definition interpret {A} (status : Z) (body : string) (decoded : result string A) : result string A :=
  if status =? 200 then decoded
  else
    match status =? 409, decoded with
    | true, Ok x => Ok x
    | _, _ => Err (itoa status +:+ ": " +:+ body)
    end.

Definition token_expired (e : string) : bool :=
  Contains e "TOKEN_EXPIRED" || Contains e "token expired".

(** One attempt, and another after a successful token refresh when the first
    failed on an expired token. *)
Definition cliFetch {St A} (once : St → St * result string A) (refresh : St → St * bool) (s : St)
  : St * result string A :=
  match once s with
  | (s1, Ok x) => (s1, Ok x)
  | (s1, Err e) =>
      if token_expired e then
        match refresh s1 with
        | (s2, true) => once s2
        | (s2, false) => (s2, Err e)
        end
      else (s1, Err e)
  end.

(** ** State *)
Record SessionState : Type := mkSessionState {
  st_SessionID : string;
  st_AgentName : string;
  st_ConfiguredAgentName : string;
  st_EphemeralFallback : bool;
  st_CWD : string;
  st_Machine : string;
  st_PID : Z;
  st_ParentPID : Z;
  st_RegisteredAt : string;
}.

(** A running session: its id, the state file, the ids already pushed. *)
Record Session : Type := mkSession {
  sn_id : string;
  sn_state : SessionState;
  sn_pushed : gset Z;
}.

(** What does not change while the process runs. *)
Record Profile : Type := mkProfile {
  pf_request : RegisterRequest;
  pf_parent : Z;
}.

Definition with_name (req : RegisterRequest) (name summary : string) : RegisterRequest :=
  mkRegisterRequest name (reg_PID req) (reg_Machine req) (reg_CWD req) (reg_GitRoot req)
    (reg_TTY req) (reg_Project req) (reg_Branch req) summary.

Definition state_file (p : Profile) (id name now : string) : SessionState :=
  let configured := reg_AgentName (pf_request p) in
  mkSessionState id name configured
    (negb (String.eqb configured "") && String.eqb name "")
    (reg_CWD (pf_request p)) (reg_Machine (pf_request p)) (reg_PID (pf_request p)) (pf_parent p) now.

Definition quoted_empty : string := String (ascii_of_nat 34) (String (ascii_of_nat 34) "").

Section client.
Context {St : Type} {B : BrokerApi St}.

(** ** Registration, with the ephemeral fallback *)

(** The registered id and the name it is registered under; [verb] and
    [retry] head the error texts. *)
Definition register_fallback (verb retry : string) (req : RegisterRequest) (st : St)
  : St * result string (string * string) :=
  match api_register req st with
  | (st1, Err e) => (st1, Err (verb +:+ ": " +:+ e))
  | (st1, Ok reg) =>
      if negb (regr_OK reg) && negb (String.eqb (reg_AgentName req) "") then
        match api_register (with_name req "" (reg_Summary req)) st1 with
        | (st2, Err e) => (st2, Err (retry +:+ ": " +:+ e))
        | (st2, Ok reg2) =>
            (st2, if regr_OK reg2 then Ok (regr_ID reg2, "")
                  else Err (verb +:+ " failed: " +:+ regr_Error reg2))
        end
      else
        (st1, if regr_OK reg then Ok (regr_ID reg, reg_AgentName req)
              else Err (verb +:+ " failed: " +:+ regr_Error reg))
  end.

(** The registration of [runServer]; its second error quotes the name after it
    has been cleared. *)
Definition start_session (p : Profile) (now : string) (st : St) : St * result string Session :=
  match register_fallback "register"
          ("register (ephemeral fallback after " +:+ quoted_empty +:+ " collision)")
          (pf_request p) st with
  | (st', Err e) => (st', Err e)
  | (st', Ok (id, name)) => (st', Ok (mkSession id (state_file p id name now) ∅))
  end.

(** [rebindToBroker]. *)
Definition rebindToBroker (p : Profile) (now : string) (s : Session) (st : St)
  : St * result string Session :=
  match register_fallback "re-register" "re-register ephemeral" (with_name (pf_request p) (reg_AgentName (pf_request p)) "") st with
  | (st', Err e) => (st', Err e)
  | (st', Ok (id, name)) => (st', Ok (mkSession id (state_file p id name now) (sn_pushed s)))
  end.

(** One tick of the heartbeat loop. *)
Definition heartbeat_tick (p : Profile) (now : string) (s : Session) (st : St) : St * Session :=
  match api_heartbeat (mkHeartbeatRequest (sn_id s)) st with
  | (st1, Err _) => (st1, s)
  | (st1, Ok resp) =>
      if negb (hbr_OK resp) && String.eqb (hbr_Reason resp) HeartbeatReasonUnknownSession then
        match rebindToBroker p now s st1 with
        | (st2, Ok s') => (st2, s')
        | (st2, Err _) => (st2, s)
        end
      else (st1, s)
  end.

(** ** Sending ([cliSend], tool [send_message]) *)

(** The target is the id of a live session without a name. *)
Definition targets_session (to : string) (peers : list Peer) : bool :=
  existsb (λ p, String.eqb (peer_ID p) to && String.eqb (peer_AgentName p) "") peers.

Definition send_request (from to msg : string) (peers : list Peer) : SendMessageRequest :=
  if targets_session to peers && negb (String.eqb to "")
  then mkSendMessageRequest from "" to msg
  else mkSendMessageRequest from to "" msg.

Definition all_peers : ListPeersRequest := mkListPeersRequest "all" "" "" "" "".

(** A failed listing is an empty one. *)
Definition send_to (from to msg : string) (st : St) : St * result string SendMessageResponse :=
  match api_list all_peers st with
  | (st1, r) => api_send (send_request from to msg (match r with Ok l => l | Err _ => [] end)) st1
  end.

(** ** The push loop ([pollAndPush]) *)
Definition push_new (pushed : gset Z) (msgs : list Message) : gset Z * list Message :=
  foldl (λ acc m,
    if bool_decide (msg_ID m ∈ acc.1) then acc else ({[ msg_ID m ]} ∪ acc.1, acc.2 ++ [m]))
    (pushed, []) msgs.

(** The session and the messages written to the channel. *)
Definition pollAndPush (s : Session) (st : St) : St * (Session * list Message) :=
  match api_peek (mkPollMessagesRequest (sn_id s)) st with
  | (st1, Err _) => (st1, (s, []))
  | (st1, Ok resp) =>
      match pollr_Messages resp with
      | [] => (st1, (s, []))
      | msgs =>
          let '(st2, _) := api_list all_peers st1 in
          let '(pushed, out) := push_new (sn_pushed s) msgs in
          (st2, (mkSession (sn_id s) (sn_state s) pushed, out))
      end
  end.

(** ** Draining (tool [check_messages]) *)
Definition ack_all (myID : string) (msgs : list Message) (st : St) : St :=
  foldl (λ st m, (api_ack (mkAckMessageRequest myID (msg_ID m)) st).1) st msgs.

Definition check_messages (myID : string) (st : St) : St * result string (list Message) :=
  match api_poll (mkPollMessagesRequest myID) st with
  | (st1, Err e) => (st1, Err ("Error checking messages: " +:+ e))
  | (st1, Ok resp) =>
      match pollr_Messages resp with
      | [] => (st1, Ok [])
      | msgs =>
          let '(st2, _) := api_list all_peers st1 in
          (ack_all myID msgs st2, Ok msgs)
      end
  end.

(** ** Claiming (tool [claim_agent_name], [updateSessionStateAgentName]) *)
Definition claimed_session (name : string) (s : Session) : Session :=
  let f := sn_state s in
  mkSession (sn_id s)
    (mkSessionState (st_SessionID f) name (st_ConfiguredAgentName f) false (st_CWD f)
       (st_Machine f) (st_PID f) (st_ParentPID f) (st_RegisteredAt f)) (sn_pushed s).

Definition claim_name (name : string) (s : Session) (st : St) : St * result string Session :=
  if String.eqb name "" then (st, Err "name is required")
  else
    match api_claim (mkClaimAgentRequest (sn_id s) name) st with
    | (st1, Err e) => (st1, Err ("Error claiming agent name: " +:+ e))
    | (st1, Ok resp) =>
        if claimr_OK resp then (st1, Ok (claimed_session name s))
        else (st1, Err (claimr_Error resp))
    end.
End client.
