(* ===== verification/ClientSpec.v ===== *)
(** * What a session can count on

    The session's side run against the broker of this development: recovery
    after an eviction, sends that are never lost to a wrong guess, pushes that
    do not repeat, and messages that are settled once they have been shown. *)

From S2P Require Import Prelude GoStrings GoTime Types Store Prog World Broker Dispatch Demo.
From S2P Require Import BrokerInv BrokerWp BrokerOps Lifecycle Mail Client.

(** Name the broker behind the interface. *)
Ltac calls :=
  cbn [api_register api_heartbeat api_list api_send api_poll api_peek api_ack broker_api].

(** ** Helper lemmas *)
Lemma direct_elim {A B} (op : A → handler B) x w (Q : B → World → Prop) :
  wp (op x) w Q → ∃ y w', direct op x w = (w', Ok y) ∧ Q y w'.
Proof. unfold wp, direct. destruct (run (op x) w) as [w' y]. eauto. Qed.

Lemma joined_peers req id now db : peers (joined req id now db) = peers db ++ [new_row req id now].
Proof. unfold joined. by destruct (String.eqb _ _). Qed.

Lemma joined_select_agent_name req id now db :
  session_exists id db = false →
  select_agent_name id (joined req id now db) = Some (reg_AgentName req).
Proof.
  intros Hid. unfold select_agent_name. rewrite joined_peers, find_app.
  apply existsb_false_iff, find_none_iff in Hid. rewrite Hid. simpl.
  unfold has_id. simpl. by rewrite String.eqb_refl.
Qed.

Lemma joined_session_exists req id now db :
  session_exists id (joined req id now db) = true.
Proof.
  unfold session_exists. rewrite joined_peers. apply existsb_true_iff.
  exists (new_row req id now). split; [apply elem_of_app; right; by left|]. apply String.eqb_refl.
Qed.

Lemma select_agent_name_core id db db' :
  same_core db db' → select_agent_name id db' = select_agent_name id db.
Proof. intros (Hp & _). unfold select_agent_name. by rewrite Hp. Qed.

(** Nobody but the session itself may hold the name it asks for. *)
Definition granted (a : string) (db : DB) : string :=
  match select_holder a db with
  | Some _ => ""
  | None => a
  end.

Lemma with_own_name req : with_name req (reg_AgentName req) (reg_Summary req) = req.
Proof. by destruct req. Qed.

(** *** Listing *)
Lemma listed_all machine cwd root db :
  let req := mkListPeersRequest "all" machine cwd root "" in
  List.filter (λ p, negb (negb (String.eqb (lp_ExcludeID req) "")
                            && String.eqb (peer_ID p) (lp_ExcludeID req)))
    (row_peer <$> select_peers req db) = row_peer <$> peers db.
Proof.
  intros req. assert (select_peers req db = peers db) as ->.
  { unfold select_peers. apply bfilter_all. by apply Forall_forall. }
  apply bfilter_all. by apply Forall_forall.
Qed.

Lemma targets_session_exists to db :
  targets_session to (row_peer <$> peers db) = true → session_exists to db = true.
Proof.
  unfold targets_session, session_exists. rewrite !existsb_true_iff.
  intros (q & (r & -> & Hr)%list_elem_of_fmap & [Hi _]%andb_true_iff). by exists r.
Qed.

(** *** Pushing *)
Definition unpushed (pushed : gset Z) (m : Message) : bool :=
  negb (bool_decide (msg_ID m ∈ pushed)).

Lemma push_new_acc pushed out msgs :
  NoDup (msg_ID <$> msgs) →
  foldl (λ acc m,
      if bool_decide (msg_ID m ∈ acc.1) then acc else ({[ msg_ID m ]} ∪ acc.1, acc.2 ++ [m]))
    (pushed, out) msgs
  = (pushed ∪ list_to_set (msg_ID <$> msgs), out ++ List.filter (unpushed pushed) msgs).
Proof.
  revert pushed out. induction msgs as [|m msgs IH]; intros pushed out Hnd.
  { csimpl. rewrite app_nil_r. f_equal. set_solver. }
  apply NoDup_cons in Hnd as [Hni Hnd]. csimpl. unfold unpushed at 1.
  destruct (bool_decide (msg_ID m ∈ pushed)) eqn:Ed; cbn [negb]; rewrite IH by done.
  - apply bool_decide_eq_true in Ed. f_equal. set_solver.
  - f_equal; [set_solver|]. rewrite <-app_assoc. simpl. do 2 f_equal.
    apply bfilter_ext, Forall_forall. intros m' Hm'. unfold unpushed. f_equal.
    apply bool_decide_ext. rewrite elem_of_union, elem_of_singleton.
    split; [|by auto]. intros [Heq|]; [|done]. destruct Hni. rewrite <-Heq.
    by apply list_elem_of_fmap_2.
Qed.

Lemma push_new_spec pushed msgs :
  NoDup (msg_ID <$> msgs) →
  push_new pushed msgs
  = (pushed ∪ list_to_set (msg_ID <$> msgs), List.filter (unpushed pushed) msgs).
Proof. apply (push_new_acc pushed []). Qed.

Lemma mailbox_NoDup id db : msgs_inv db → NoDup (msg_ID <$> mailbox id db).
Proof.
  intros Hinv%msgs_inv_NoDup. unfold mailbox. rewrite <-list_fmap_compose.
  change (msg_ID ∘ row_message) with m_id. unfold select_pending.
  rewrite order_by_sent_perm. by apply NoDup_bfilter.
Qed.

(** *** Draining *)
Lemma direct_ack {E : Env} (Hok : no_faults) req w :
  ∃ w', direct ackMessage req w = (w', Ok tt)
        ∧ w_db w' = acked req (formatRFC3339Nano (env_clock (w_ticks w))) (w_db w).
Proof.
  destruct (direct_elim ackMessage req w
    (λ _ w', w_db w' = acked req (formatRFC3339Nano (env_clock (w_ticks w))) (w_db w)))
    as ([] & w' & Hd & Hw); [|by exists w']. by apply (wp_ackMessage Hok).
Qed.

Lemma ack_all_phases {E : Env} (Hok : no_faults) id msgs w :
  NoDup (msg_ID <$> msgs) → ∀ i,
  phase i (w_db (ack_all id msgs w)) =
    if bool_decide (i ∈ msg_ID <$> msgs) then acked_by id (phase i (w_db w)) else phase i (w_db w).
Proof.
  unfold ack_all. revert w. induction msgs as [|m msgs IH]; intros w Hnd i; [done|].
  apply NoDup_cons in Hnd as [Hni Hnd]. csimpl.
  destruct (direct_ack Hok (mkAckMessageRequest id (msg_ID m)) w) as (w1 & -> & Hw1). simpl.
  rewrite IH by done. rewrite Hw1, acked_phase. simpl.
  destruct (i =? msg_ID m) eqn:Ei; zify_bool.
  - subst i. by rewrite bool_decide_eq_false_2, bool_decide_eq_true_2 by (done || by left).
  - rewrite (bool_decide_ext (i ∈ msg_ID m :: _) (i ∈ msg_ID <$> msgs)); [done|].
    rewrite elem_of_cons. tauto.
Qed.

(** What the mailbox holds is settled once polled and acknowledged. *)
Lemma mailbox_settles id db i :
  msgs_inv db → i ∈ msg_ID <$> mailbox id db → acked_by id (polled_by id (phase i db)) = Settled id.
Proof.
  intros Hinv. unfold mailbox. rewrite <-list_fmap_compose.
  change (msg_ID ∘ row_message) with m_id. intros Hin.
  destruct (pollable (phase i db)) eqn:Ep.
  - destruct (phase i db); try done; simpl; by rewrite String.eqb_refl.
  - by destruct (not_pollable db i id (poll_agent id db) Hinv Ep).
Qed.

Lemma mailbox_nil id db :
  mailbox id db = [] ↔ Forall (λ m, is_pending id (poll_agent id db) m = false) (messages db).
Proof.
  unfold mailbox, select_pending. split.
  - intros Hn%fmap_nil_inv. apply Forall_forall. intros m Hm. apply not_true_iff_false. intros Hp.
    assert (m ∈ order_by_sent (List.filter (is_pending id (poll_agent id db)) (messages db))) as Hin.
    { rewrite order_by_sent_perm. by apply elem_of_bfilter. }
    rewrite Hn in Hin. by apply elem_of_nil in Hin.
  - intros Hf. by rewrite bfilter_none.
Qed.

Lemma mailbox_acked id req now db : mailbox id db = [] → mailbox id (acked req now db) = [].
Proof.
  rewrite !mailbox_nil. intros Hf. simpl. apply Forall_forall.
  intros y (m & -> & Hm)%elem_of_update_where. rewrite Forall_forall in Hf. specialize (Hf m Hm).
  by destruct (ackable _ _ m).
Qed.

Lemma ack_all_mailbox {E : Env} (Hok : no_faults) id msgs w :
  mailbox id (w_db w) = [] → msgs_inv (w_db w) →
  mailbox id (w_db (ack_all id msgs w)) = [] ∧ msgs_inv (w_db (ack_all id msgs w)).
Proof.
  unfold ack_all. revert w. induction msgs as [|m msgs IH]; intros w Hw Hinv; [done|]. simpl.
  destruct (direct_ack Hok (mkAckMessageRequest id (msg_ID m)) w) as (w1 & -> & Hw1). simpl.
  apply IH; rewrite Hw1; [by apply mailbox_acked|]. apply msgs_inv_update; auto with broker.
Qed.

(** ** The operations as a client sees them *)
Section client.
Context {E : Env} (Hok : no_faults).

Lemma direct_list_all machine cwd root w :
  ∃ w', direct listPeers (mkListPeersRequest "all" machine cwd root "") w
        = (w', Ok (row_peer <$> peers (w_db w)))
        ∧ w_db w' = w_db w ∧ w_draws w' = w_draws w.
Proof.
  destruct (direct_elim listPeers (mkListPeersRequest "all" machine cwd root "") w
    (λ r w', r = row_peer <$> peers (w_db w) ∧ w_db w' = w_db w ∧ w_draws w' = w_draws w))
    as (r & w' & Hd & -> & Hw); [|by exists w'].
  apply (wp_listPeers Hok). intros w' Hdb Hdr. by rewrite listed_all.
Qed.

Lemma direct_list w :
  ∃ w', direct listPeers all_peers w = (w', Ok (row_peer <$> peers (w_db w)))
        ∧ w_db w' = w_db w ∧ w_draws w' = w_draws w.
Proof. apply direct_list_all. Qed.

Lemma direct_send req w a s q st :
  msg_seq (w_db w) < max_int64 → route req (w_db w) = Some (a, s, q, st) →
  ∃ w' now, direct sendMessage req w
      = (w', Ok (mkSendMessageResponse true (msg_seq (w_db w) + 1) q st ""))
    ∧ same_core (stored req a s now (w_db w)) (w_db w').
Proof.
  intros Hseq Hr. destruct (direct_elim sendMessage req w
    (λ r w', r = mkSendMessageResponse true (msg_seq (w_db w) + 1) q st ""
       ∧ same_core (stored req a s (formatRFC3339Nano (env_clock (w_ticks w))) (w_db w)) (w_db w')))
    as (r & w' & Hd & -> & Hcore); [|by exists w', (formatRFC3339Nano (env_clock (w_ticks w)))].
  apply (wp_sendMessage Hok); [done|]. rewrite Hr. intros w' Hcore _. done.
Qed.

Lemma direct_peek id w :
  ∃ w', direct peekMessages (mkPollMessagesRequest id) w
        = (w', Ok (mkPollMessagesResponse (mailbox id (w_db w)))) ∧ w_db w' = w_db w.
Proof.
  destruct (direct_elim peekMessages (mkPollMessagesRequest id) w
    (λ r w', r = mkPollMessagesResponse (mailbox id (w_db w)) ∧ w_db w' = w_db w))
    as (r & w' & Hd & -> & Hw); [|by exists w'].
  by apply (wp_peekMessages Hok).
Qed.

Lemma direct_poll id w :
  msgs_inv (w_db w) →
  ∃ w', direct pollMessages (mkPollMessagesRequest id) w
        = (w', Ok (mkPollMessagesResponse (mailbox id (w_db w))))
        ∧ w_db w' = delivered id (formatRFC3339Nano (env_clock (w_ticks w))) (w_db w).
Proof.
  intros Hinv. destruct (direct_elim pollMessages (mkPollMessagesRequest id) w
    (λ r w', r = mkPollMessagesResponse (mailbox id (w_db w))
       ∧ w_db w' = delivered id (formatRFC3339Nano (env_clock (w_ticks w))) (w_db w)))
    as (r & w' & Hd & -> & Hw); [|by exists w'].
  by apply (wp_pollMessages Hok).
Qed.

Lemma direct_register_joined req w :
  (reg_AgentName req = "" ∨ select_holder (reg_AgentName req) (w_db w) = None) →
  session_exists (hex_encode (env_rand (w_draws w))) (w_db w) = false →
  ∃ w' now, direct register req w
    = (w', Ok (mkRegisterResponse true (hex_encode (env_rand (w_draws w))) "" "" "" "" ""))
    ∧ same_core (joined req (hex_encode (env_rand (w_draws w))) now (w_db w)) (w_db w').
Proof.
  intros Hh Hid. destruct (direct_elim register req w
    (λ r w', r = mkRegisterResponse true (hex_encode (env_rand (w_draws w))) "" "" "" "" ""
       ∧ same_core (joined req (hex_encode (env_rand (w_draws w)))
           (formatRFC3339Nano (env_clock (w_ticks w))) (w_db w)) (w_db w')))
    as (r & w' & Hd & -> & Hw); [|by exists w', (formatRFC3339Nano (env_clock (w_ticks w)))].
  by apply (wp_register_joined Hok).
Qed.

Lemma direct_register_conflict req h w :
  reg_AgentName req ≠ "" → select_holder (reg_AgentName req) (w_db w) = Some h →
  ∃ w' r, direct register req w = (w', Ok r)
    ∧ regr_OK r = false ∧ w_db w' = w_db w ∧ w_draws w' = w_draws w.
Proof.
  intros Hne Hh. destruct (direct_elim register req w
    (λ r w', regr_OK r = false ∧ w_db w' = w_db w ∧ w_draws w' = w_draws w))
    as (r & w' & Hd & Hw); [|by exists w', r].
  by apply (wp_register_conflict Hok _ h).
Qed.

(** Registration with the fallback always registers: under the name when it is
    free, otherwise without one. *)
Lemma register_fallback_ok verb retry req w :
  session_exists (hex_encode (env_rand (w_draws w))) (w_db w) = false →
  ∃ w' now,
    register_fallback verb retry req w
    = (w', Ok (hex_encode (env_rand (w_draws w)), granted (reg_AgentName req) (w_db w)))
    ∧ same_core (joined (with_name req (granted (reg_AgentName req) (w_db w)) (reg_Summary req))
                   (hex_encode (env_rand (w_draws w))) now (w_db w)) (w_db w').
Proof.
  intros Hid. unfold register_fallback, granted. calls.
  destruct (String.eqb_spec (reg_AgentName req) "") as [He|Hne].
  - destruct (direct_register_joined req w (or_introl He) Hid) as (w' & now & -> & Hw).
    simpl. exists w', now.
    assert (match select_holder (reg_AgentName req) (w_db w) with
            | Some _ => "" | None => reg_AgentName req end = reg_AgentName req) as ->
      by (by destruct (select_holder _ _)).
    by rewrite with_own_name.
  - destruct (select_holder (reg_AgentName req) (w_db w)) as [h|] eqn:Hh.
    + destruct (direct_register_conflict req h w Hne Hh) as (w1 & r & -> & -> & Hdb & Hdr). simpl.
      destruct (direct_register_joined (with_name req "" (reg_Summary req)) w1)
        as (w2 & now & -> & Hw); [by left|by rewrite Hdb, Hdr|].
      simpl. exists w2, now. rewrite Hdb, Hdr in *. done.
    + destruct (direct_register_joined req w (or_intror Hh) Hid) as (w' & now & -> & Hw).
      simpl. exists w', now. by rewrite with_own_name.
Qed.

Lemma direct_heartbeat id w :
  ∃ w', direct heartbeat (mkHeartbeatRequest id) w
    = (w', Ok (if session_exists id (w_db w) then mkHeartbeatResponse true ""
               else mkHeartbeatResponse false HeartbeatReasonUnknownSession))
    ∧ w_draws w' = w_draws w
    ∧ w_db w' = set_peers (w_db w) (update_where (has_id id)
           (set_last_seen (formatRFC3339Nano (env_clock (w_ticks w)))) (peers (w_db w))).
Proof.
  destruct (direct_elim heartbeat (mkHeartbeatRequest id) w (λ r w',
    r = (if session_exists id (w_db w) then mkHeartbeatResponse true ""
         else mkHeartbeatResponse false HeartbeatReasonUnknownSession)
    ∧ w_draws w' = w_draws w
    ∧ w_db w' = set_peers (w_db w) (update_where (has_id id)
           (set_last_seen (formatRFC3339Nano (env_clock (w_ticks w)))) (peers (w_db w)))))
    as (r & w' & Hd & -> & Hw); [|by exists w'].
  by apply (wp_heartbeat Hok).
Qed.

Lemma heartbeat_tick_known p now s w :
  session_exists (sn_id s) (w_db w) = true → (heartbeat_tick p now s w).2 = s.
Proof.
  intros Hx. unfold heartbeat_tick. calls.
  destruct (direct_heartbeat (sn_id s) w) as (w' & -> & _). by rewrite Hx.
Qed.

(** C32: A session that the broker has forgotten comes back at its next heartbeat
    under a new id: with its configured name when that is still free, and then
    with all the mail waiting for the name, otherwise without a name and marked
    as a fallback.  The next heartbeat then leaves it alone. *)
Theorem evicted_session_returns p now s w :
  msgs_inv (w_db w) → session_exists (sn_id s) (w_db w) = false →
  let id := hex_encode (env_rand (w_draws w)) in
  session_exists id (w_db w) = false →
  let name := granted (reg_AgentName (pf_request p)) (w_db w) in
  ∃ w' s', heartbeat_tick p now s w = (w', s')
    ∧ sn_id s' = id ∧ sn_pushed s' = sn_pushed s
    ∧ st_AgentName (sn_state s') = name
    ∧ st_EphemeralFallback (sn_state s')
      = negb (String.eqb (reg_AgentName (pf_request p)) "") && String.eqb name ""
    ∧ select_agent_name id (w_db w') = Some name
    ∧ (∀ m, m ∈ messages (w_db w) → m_to_agent m = name → name ≠ "" → m_delivered_at m = None →
         ∃ msg, msg ∈ mailbox id (w_db w') ∧ shows msg m)
    ∧ (heartbeat_tick p now s' w').2 = s'.
Proof.
  intros Hinv Hx id Hid name. unfold heartbeat_tick at 1. calls.
  destruct (direct_heartbeat (sn_id s) w) as (w1 & -> & Hdr & Hdb). rewrite Hx. simpl.
  assert (w_db w1 = w_db w) as Hsame.
  { rewrite Hdb, update_where_none by (by apply existsb_false_iff). by destruct (w_db w). }
  unfold rebindToBroker. set (req := with_name _ _ _).
  destruct (register_fallback_ok "re-register" "re-register ephemeral" req w1)
    as (w' & t & -> & Hcore); [by rewrite Hdr, Hsame|].
  rewrite Hdr, Hsame in *. change (granted (reg_AgentName req) (w_db w)) with name in *.
  fold id in Hcore |- *. set (s' := mkSession id _ _). exists w', s'.
  split; [done|]. split; [done|]. split; [done|]. split; [done|]. split; [done|]. split.
  { rewrite (select_agent_name_core _ _ _ Hcore). by rewrite joined_select_agent_name. }
  split.
  - intros m Hm Ha Hne Hd. rewrite (mailbox_core _ _ _ Hcore). by apply joined_mailbox.
  - apply heartbeat_tick_known. simpl. rewrite (session_exists_core _ _ _ Hcore).
    apply joined_session_exists.
Qed.

(** A send always ends in a stored message: the target is an id only when a
    live session without a name has it, so a name is never mistaken for a
    session that is not there. *)
Theorem send_always_stored from to msg w :
  to ≠ "" → 0 ≤ msg_seq (w_db w) < max_int64 →
  ∃ w' r m, send_to from to msg w = (w', Ok r)
    ∧ sendr_OK r = true ∧ m ∈ messages (w_db w') ∧ m_id m = sendr_MessageID r
    ∧ m_text m = msg ∧ m_from_session m = from ∧ m_delivered_at m = None
    ∧ (m_to_agent m = to
       ∨ m_to_agent m = "" ∧ m_to_session m = to ∧ session_exists to (w_db w) = true).
Proof.
  intros Hne Hseq. unfold send_to. calls. destruct (direct_list w) as (w1 & -> & Hdb & _). simpl.
  set (req := send_request from to msg (row_peer <$> peers (w_db w))).
  assert (∃ a s q st, route req (w_db w) = Some (a, s, q, st)
    ∧ (a = to ∨ a = "" ∧ s = to ∧ session_exists to (w_db w) = true)) as (a & s & q & st & Hr & Ha).
  { subst req. unfold send_request, route. apply String.eqb_neq in Hne. rewrite Hne.
    destruct (targets_session to _) eqn:Et; simpl; rewrite Hne; simpl.
    - rewrite targets_session_exists by done. eauto 10 using targets_session_exists.
    - destruct (select_holder to (w_db w)) as [h|]; [destruct (String.eqb (pr_id h) "")|];
        eauto 10. }
  destruct (direct_send req w1 a s q st) as (w' & now & Hd & Hcore); [rewrite Hdb; lia|by rewrite Hdb|].
  rewrite Hdb in Hd, Hcore. eexists w', _, _. split; [exact Hd|]. split; [done|].
  split; [by apply (stored_elem req a s now)|]. simpl.
  assert (send_Text req = msg ∧ send_FromID req = from) as [-> ->]; [|done].
  subst req. unfold send_request. by destruct (_ && _)%bool.
Qed.

(** The push loop shows each message once, takes none from the queue, and
    leaves every one of them for [check_messages]. *)
Theorem push_once s w :
  msgs_inv (w_db w) →
  ∃ w' s', pollAndPush s w
      = (w', (s', List.filter (unpushed (sn_pushed s)) (mailbox (sn_id s) (w_db w))))
    ∧ w_db w' = w_db w ∧ sn_id s' = sn_id s
    ∧ sn_pushed s' = sn_pushed s ∪ list_to_set (msg_ID <$> mailbox (sn_id s) (w_db w))
    ∧ (pollAndPush s' w').2.2 = [].
Proof.
  assert (∀ s w, msgs_inv (w_db w) → ∃ w' s', pollAndPush s w
      = (w', (s', List.filter (unpushed (sn_pushed s)) (mailbox (sn_id s) (w_db w))))
    ∧ w_db w' = w_db w ∧ sn_id s' = sn_id s
    ∧ sn_pushed s' = sn_pushed s ∪ list_to_set (msg_ID <$> mailbox (sn_id s) (w_db w)))
    as Hpush.
  { clear s w. intros s w Hinv. unfold pollAndPush. calls.
    destruct (direct_peek (sn_id s) w) as (w1 & -> & Hdb). cbn [pollr_Messages].
    pose proof (mailbox_NoDup (sn_id s) _ Hinv) as Hnd.
    destruct (mailbox (sn_id s) (w_db w)) as [|m msgs] eqn:Em.
    - exists w1, s. split; [done|]. csimpl. split; [done|]. split; [done|]. set_solver.
    - destruct (direct_list w1) as (w2 & -> & Hdb2 & _). simpl.
      rewrite (push_new_spec (sn_pushed s) (m :: msgs)) by done.
      eexists w2, _. split; [done|]. simpl. by rewrite Hdb2. }
  intros Hinv. destruct (Hpush s w Hinv) as (w' & s' & Heq & Hdb & Hid & Hp).
  exists w', s'. split; [done|]. split; [done|]. split; [done|]. split; [done|].
  destruct (Hpush s' w') as (w2 & s2 & -> & _); [by rewrite Hdb|]. simpl.
  rewrite Hdb, Hid, Hp. apply bfilter_none, Forall_forall. intros m Hm. unfold unpushed.
  rewrite bool_decide_eq_true_2; [done|]. apply elem_of_union_r, elem_of_list_to_set.
  by apply list_elem_of_fmap_2.
Qed.

(** [check_messages] shows the whole mailbox, settles exactly what it shows,
    and finds nothing the next time. *)
Theorem check_settles_what_it_shows id w :
  msgs_inv (w_db w) →
  ∃ w', check_messages id w = (w', Ok (mailbox id (w_db w)))
    ∧ (∀ i, phase i (w_db w') =
         if bool_decide (i ∈ msg_ID <$> mailbox id (w_db w)) then Settled id
         else phase i (w_db w))
    ∧ mailbox id (w_db w') = [] ∧ msgs_inv (w_db w').
Proof.
  intros Hinv. unfold check_messages. calls.
  destruct (direct_poll id w Hinv) as (w1 & -> & Hdb). cbn [pollr_Messages].
  pose proof (mailbox_NoDup id _ Hinv) as Hnd.
  pose proof (mailbox_delivered id (formatRFC3339Nano (env_clock (w_ticks w))) (w_db w)) as Hmb.
  assert (∀ i, phase i (w_db w1) = if bool_decide (i ∈ msg_ID <$> mailbox id (w_db w))
    then polled_by id (phase i (w_db w)) else phase i (w_db w)) as Hph.
  { intros i. rewrite Hdb. by apply delivered_phase. }
  rewrite <-Hdb in Hmb.
  pose proof (λ i, mailbox_settles id (w_db w) i Hinv) as Hset.
  destruct (mailbox id (w_db w)) as [|m msgs] eqn:Em.
  - exists w1. split; [done|]. split; [|by rewrite Hdb; split; [rewrite <-Hdb|apply delivered_msgs_inv]].
    intros i. by rewrite Hph, bool_decide_eq_false_2 by apply not_elem_of_nil.
  - destruct (direct_list w1) as (w2 & -> & Hdb2 & _). cbn beta iota zeta. eexists. split; [done|]. split.
    + intros i. rewrite (ack_all_phases Hok id (m :: msgs) w2 Hnd). rewrite Hdb2, Hph.
      destruct (bool_decide_reflect (i ∈ msg_ID <$> m :: msgs)); auto.
    + apply (ack_all_mailbox Hok); rewrite Hdb2; [done|]. rewrite Hdb. by apply delivered_msgs_inv.
Qed.
End client.

(** ** Witnesses *)
#[local] Existing Instance demo_env.

Definition builder_profile : Profile := mkProfile (join_as "builder") 4000.

Definition builder_session : Session :=
  mkSession "0000000f" (state_file builder_profile "0000000f" "builder" "") ∅.

(** "builder" was evicted while a message for it arrived; with [demo_taken],
    another session has taken the name since. *)
Definition demo_evicted : World :=
  after [join "planner"; RqSend (send_agent "00000000" "builder" "please build")].
Definition demo_taken : World := after [join "planner"; join "builder"].

Lemma evicted_session_returns_witness :
  (∃ w' s', heartbeat_tick builder_profile "" builder_session demo_evicted = (w', s')
     ∧ st_AgentName (sn_state s') = "builder" ∧ st_EphemeralFallback (sn_state s') = false
     ∧ ∃ msg, msg ∈ mailbox (sn_id s') (w_db w') ∧ msg_Text msg = "please build")
  ∧ ∃ w' s', heartbeat_tick builder_profile "" builder_session demo_taken = (w', s')
     ∧ st_AgentName (sn_state s') = "" ∧ st_EphemeralFallback (sn_state s') = true.
Proof.
  split.
  - destruct (evicted_session_returns demo_no_faults builder_profile "" builder_session demo_evicted)
      as (w' & s' & Heq & Hid & _ & Hn & Hf & _ & Hmail & _);
      [apply after_msgs_inv|vm_compute; done|vm_compute; done|].
    assert (granted (reg_AgentName (pf_request builder_profile)) (w_db demo_evicted) = "builder")
      as Hg by (vm_compute; done).
    exists w', s'. split; [done|]. rewrite Hn, Hf, Hg, Hid. split; [done|]. split; [done|].
    destruct (Hmail (mkMsgRow 1 "builder" "" "00000000" "planner" "please build"
      "2026-01-01T00:00:01.5Z" None None None 0)) as (msg & Hin & _ & Ht & _);
      [vm_compute; left|by rewrite Hg|by rewrite Hg|done|]. by exists msg.
  - destruct (evicted_session_returns demo_no_faults builder_profile "" builder_session demo_taken)
      as (w' & s' & Heq & _ & _ & Hn & Hf & _);
      [apply after_msgs_inv|vm_compute; done|vm_compute; done|].
    assert (granted (reg_AgentName (pf_request builder_profile)) (w_db demo_taken) = "")
      as Hg by (vm_compute; done).
    exists w', s'. by rewrite Hn, Hf, Hg.
Defined.

Lemma send_always_stored_witness :
  ∃ w' r, send_to "00000000" "0000000f" "to a name that looks like an id" demo_taken = (w', Ok r)
          ∧ sendr_OK r = true.
Proof.
  destruct (send_always_stored demo_no_faults "00000000" "0000000f"
    "to a name that looks like an id" demo_taken) as (w' & r & m & Heq & Hr & _);
    [done|vm_compute; by split|]. by exists w', r.
Defined.

Definition builder_live : Session :=
  mkSession "00000001" (state_file builder_profile "00000001" "builder" "") {[ 1 ]}.

(** Two messages for "builder"; the first has been pushed. *)
Definition demo_two_mails : World :=
  after [join "planner"; join "builder"; RqSend (send_agent "00000000" "builder" "one");
         RqSend (send_agent "00000000" "builder" "two")].

Lemma push_once_witness :
  msg_Text <$> (pollAndPush builder_live demo_two_mails).2.2 = ["two"].
Proof.
  destruct (push_once demo_no_faults builder_live demo_two_mails) as (w' & s' & -> & _);
    [apply after_msgs_inv|]. vm_compute. done.
Defined.

Lemma check_settles_what_it_shows_witness :
  ∃ w' l, check_messages "00000001" demo_two_mails = (w', Ok l)
    ∧ msg_Text <$> l = ["one"; "two"]
    ∧ phase 1 (w_db w') = Settled "00000001" ∧ phase 2 (w_db w') = Settled "00000001".
Proof.
  destruct (check_settles_what_it_shows demo_no_faults "00000001" demo_two_mails)
    as (w' & Heq & Hph & _); [apply after_msgs_inv|].
  eexists w', _. split; [exact Heq|]. rewrite !Hph.
  split; [vm_compute; done|]. split; vm_compute; done.
Defined.
