(* ===== verification/Api.v ===== *)
(** * Calls of the broker as data

    The operations of the interface [BrokerApi] as a type of calls, so that a
    goroutine of a session can be described by the calls it makes, whether they
    run at once ([call_api]) or as handlers of the broker that other requests
    come between ([request_of]). *)

From S2P Require Import Prelude GoStrings GoTime Types Store Prog World Broker Dispatch Client.

Inductive ApiOp : Type → Type :=
| OpRegister (r : RegisterRequest) : ApiOp RegisterResponse
| OpHeartbeat (r : HeartbeatRequest) : ApiOp HeartbeatResponse
| OpList (r : ListPeersRequest) : ApiOp (list Peer)
| OpSend (r : SendMessageRequest) : ApiOp SendMessageResponse
| OpPoll (r : PollMessagesRequest) : ApiOp PollMessagesResponse
| OpPeek (r : PollMessagesRequest) : ApiOp PollMessagesResponse
| OpAck (r : AckMessageRequest) : ApiOp unit
| OpClaim (r : ClaimAgentRequest) : ApiOp ClaimAgentResponse
| OpSetSummary (r : SetSummaryRequest) : ApiOp unit
| OpUnregister (r : UnregisterRequest) : ApiOp unit
| OpEvents (limit : Z) : ApiOp (list Event)
| OpMemory : ApiOp string
| OpSetMemory (content : string) : ApiOp unit.

Definition call_api {St} {B : BrokerApi St} {A} (o : ApiOp A) : St → St * result string A :=
  match o with
  | OpRegister r => api_register r
  | OpHeartbeat r => api_heartbeat r
  | OpList r => api_list r
  | OpSend r => api_send r
  | OpPoll r => api_poll r
  | OpPeek r => api_peek r
  | OpAck r => api_ack r
  | OpClaim r => api_claim r
  | OpSetSummary r => api_set_summary r
  | OpUnregister r => api_unregister r
  | OpEvents n => api_events n
  | OpMemory => api_memory
  | OpSetMemory c => api_set_memory c
  end.

(** The operation of the broker behind a call. *)
Definition request_of {A} (o : ApiOp A) : Request :=
  match o with
  | OpRegister r => RqRegister r
  | OpHeartbeat r => RqHeartbeat r
  | OpList r => RqListPeers r
  | OpSend r => RqSend r
  | OpPoll r => RqPoll r
  | OpPeek r => RqPeek r
  | OpAck r => RqAck r
  | OpClaim r => RqClaim r
  | OpSetSummary r => RqSetSummary r
  | OpUnregister r => RqUnregister r
  | OpEvents n => RqEvents n
  | OpMemory => RqGetMemory
  | OpSetMemory c => RqSetMemory c
  end.

(** The answer as the caller reads it; a handler never answers with the type
    of another. *)
Definition response_of {A} (o : ApiOp A) (rs : Response) : result string A :=
  let odd {B} : result string B := Err "invalid character" in
  match o in ApiOp A' return result string A' with
  | OpRegister _ => match rs with RsRegister x => Ok x | _ => odd end
  | OpHeartbeat _ => match rs with RsHeartbeat x => Ok x | _ => odd end
  | OpList _ => match rs with RsListPeers x => Ok x | _ => odd end
  | OpSend _ => match rs with RsSend x => Ok x | _ => odd end
  | OpPoll _ | OpPeek _ => match rs with RsMessages x => Ok x | _ => odd end
  | OpClaim _ => match rs with RsClaim x => Ok x | _ => odd end
  | OpAck _ | OpSetSummary _ | OpUnregister _ | OpSetMemory _ => Ok tt
  | OpEvents _ => match rs with RsEvents x => Ok (default [] x) | _ => odd end
  | OpMemory => match rs with RsMemory x => Ok x | _ => odd end
  end.

(** ** The broker behind the calls *)
Section api.
Context {E : Env}.

Ltac by_ops o :=
  destruct o; cbn [request_of dispatch call_api api_register api_heartbeat api_list api_send api_poll
    api_peek api_ack api_claim api_set_summary api_unregister api_events api_memory api_set_memory
    broker_api]; unfold direct; rewrite ?run_bind;
  match goal with |- context [run ?p ?w] => destruct (run p w) as [w' x] end.

(** A call that nothing interrupts is a run of its handler. *)
Lemma call_dispatch {A} (o : ApiOp A) w :
  call_api o w = ((run (dispatch (request_of o)) w).1, response_of o (run (dispatch (request_of o)) w).2).
Proof. by_ops o; by try destruct x. Qed.

Lemma call_api_ok {A} (o : ApiOp A) w : ∃ x, (call_api o w).2 = Ok x.
Proof. by_ops o; by eexists. Qed.
End api.
