(* ===== verification/Thread.v ===== *)
(** * Goroutines as threads over a process

    A goroutine of a session works on the memory of its process, one atomic step
    at a time, and calls the broker.  A thread says what it does between its
    calls and how it goes on with their answers; it can run alone against any
    [BrokerApi] ([alone]), or together with others ([Fleet]). *)

From S2P Require Import Prelude GoStrings GoTime Types Store Prog World Broker Client Api.

(** ** Threads *)
Inductive thread (M A : Type) : Type :=
| Done (a : A)
| Local {B : Type} (f : M → M * B) (k : B → thread M A)
| Call {B : Type} (o : ApiOp B) (k : result string B → thread M A).
Arguments Done {M A} a.
Arguments Local {M A B} f k.
Arguments Call {M A B} o k.

Fixpoint thread_bind {M A C} (t : thread M A) (c : A → thread M C) : thread M C :=
  match t with
  | Done a => c a
  | Local f k => Local f (λ b, thread_bind (k b) c)
  | Call o k => Call o (λ r, thread_bind (k r) c)
  end.

Declare Scope thread_scope.
Delimit Scope thread_scope with thread.
Notation "x ← y ; z" := (thread_bind y (λ x, z))
  (at level 20, y at level 100, z at level 200, only parsing) : thread_scope.
Notation "' x ← y ; z" := (thread_bind y (λ x, z))
  (at level 20, x pattern, y at level 100, z at level 200, only parsing) : thread_scope.

Definition local {M B} (f : M → M * B) : thread M B := Local f Done.
Definition call {M B} (o : ApiOp B) : thread M (result string B) := Call o Done.

Fixpoint each {M A} (l : list A) (body : A → thread M unit) : thread M unit :=
  match l with
  | [] => Done tt
  | x :: l' => thread_bind (body x) (λ _, each l' body)
  end.

(** ** Running alone *)
Section alone.
Context {St : Type} {B : BrokerApi St}.

Fixpoint alone {M A} (t : thread M A) (m : M) (st : St) : St * (M * A) :=
  match t with
  | Done a => (st, (m, a))
  | Local f k => let '(m', b) := f m in alone (k b) m' st
  | Call o k => let '(st', r) := call_api o st in alone (k r) m st'
  end.

Lemma alone_bind {M A C} (t : thread M A) (c : A → thread M C) m st :
  alone (thread_bind t c) m st = let '(st', (m', a)) := alone t m st in alone (c a) m' st'.
Proof.
  revert m st. induction t as [a|D f k IH|D o k IH]; intros m st; [done|..]; simpl.
  - destruct (f m) as [m' b]. apply IH.
  - destruct (call_api o st) as [st' r]. apply IH.
Qed.

Lemma alone_local {M D} (f : M → M * D) m st : alone (local f) m st = (st, f m).
Proof. unfold local. simpl. by destruct (f m). Qed.

Lemma alone_call {M D} (o : ApiOp D) (m : M) st :
  alone (call o) m st = ((call_api o st).1, (m, (call_api o st).2)).
Proof. unfold call. simpl. by destruct (call_api o st). Qed.
End alone.

(** ** What every local step does *)
Fixpoint locals {M A} (R : relation M) (t : thread M A) : Prop :=
  match t with
  | Done _ => True
  | Local f k => (∀ m, R m (f m).1) ∧ ∀ b, locals R (k b)
  | Call o k => ∀ r, locals R (k r)
  end.

Lemma locals_bind {M A C} R (t : thread M A) (c : A → thread M C) :
  locals R t → (∀ a, locals R (c a)) → locals R (thread_bind t c).
Proof.
  intros Ht Hc. induction t as [a|D f k IH|D o k IH]; [apply Hc|..]; simpl in *.
  - destruct Ht as [Hf Hk]. split; [done|]. intros b. by apply IH.
  - intros r. by apply IH.
Qed.

Lemma locals_local {M D} R (f : M → M * D) : (∀ m, R m (f m).1) → locals R (local f).
Proof. by split. Qed.

Lemma locals_call {M D} R (o : ApiOp D) : locals (M := M) R (call o).
Proof. by intros r. Qed.

Lemma locals_each {M A} R (l : list A) (body : A → thread M unit) :
  (∀ x, locals R (body x)) → locals R (each l body).
Proof. intros Hb. induction l as [|x l IH]; [done|]. by apply locals_bind; [apply Hb|]. Qed.

(** What a thread returns, and the rule for a thread whose continuation relies on
    it. *)
Fixpoint returns {M A} (Q : A → Prop) (t : thread M A) : Prop :=
  match t with
  | Done a => Q a
  | Local f k => ∀ b, returns Q (k b)
  | Call o k => ∀ r, returns Q (k r)
  end.

Lemma returns_bind {M A C} (P : A → Prop) (Q : C → Prop) (t : thread M A) (c : A → thread M C) :
  returns P t → (∀ a, P a → returns Q (c a)) → returns Q (thread_bind t c).
Proof. intros Ht Hc. induction t as [a|D f k IH|D o k IH]; simpl in *; auto. Qed.

(** The same, looking at what its local steps compute. *)
Fixpoint yields {M A} (Q : A → Prop) (t : thread M A) : Prop :=
  match t with
  | Done a => Q a
  | Local f k => ∀ m, yields Q (k (f m).2)
  | Call o k => ∀ r, yields Q (k r)
  end.

Lemma returns_yields {M A} (Q : A → Prop) (t : thread M A) : returns Q t → yields Q t.
Proof. induction t as [a|D f k IH|D o k IH]; simpl; auto. Qed.

Lemma locals_bind_returns {M A C} R (Q : A → Prop) (t : thread M A) (c : A → thread M C) :
  locals R t → returns Q t → (∀ a, Q a → locals R (c a)) → locals R (thread_bind t c).
Proof.
  intros Ht Hq Hc. induction t as [a|D f k IH|D o k IH]; simpl in *; [by apply Hc|..].
  - destruct Ht as [Hf Hk]. split; [done|]. auto.
  - auto.
Qed.

Lemma locals_mono {M A} (R R' : relation M) (t : thread M A) :
  (∀ m m', R m m' → R' m m') → locals R t → locals R' t.
Proof. intros HR. induction t as [a|D f k IH|D o k IH]; simpl; auto. intros [Hf Hk]. auto. Qed.

(** The last local step of a thread establishes [Q], from any memory in [I]. *)
Fixpoint attains {M A} (I Q : M → Prop) (t : thread M A) : Prop :=
  match t with
  | Done _ => False
  | Local f k => (∀ m, I m → Q (f m).1 ∧ ∃ a, k (f m).2 = Done a) ∨ ∀ b, attains I Q (k b)
  | Call o k => ∀ r, attains I Q (k r)
  end.

(** ** What a thread is still to write

    [log] reads the entries a memory has accumulated: a thread that owes [l]
    appends exactly the entries [l] before it is done, whatever its calls are
    answered. *)
Section owes.
Context {M X : Type} (log : M → list X).

Fixpoint owes {A} (l : list X) (t : thread M A) : Prop :=
  match t with
  | Done _ => l = []
  | Local f k => ∃ now later, l = now ++ later ∧ (∀ m, log (f m).1 = log m ++ now) ∧ ∀ b, owes later (k b)
  | Call o k => ∀ r, owes l (k r)
  end.

Lemma owes_bind {A C} l1 l2 (t : thread M A) (c : A → thread M C) :
  owes l1 t → (∀ a, owes l2 (c a)) → owes (l1 ++ l2) (thread_bind t c).
Proof.
  intros Ht Hc. revert l1 Ht. induction t as [a|D f k IH|D o k IH]; intros l1 Ht; simpl in *.
  - subst l1. apply Hc.
  - destruct Ht as (now & later & -> & Hf & Hk). exists now, (later ++ l2).
    split; [by rewrite app_assoc|]. split; [done|]. intros b. by apply IH.
  - intros r. by apply IH.
Qed.

Lemma owes_quiet {A C} l (t : thread M A) (c : A → thread M C) :
  owes [] t → (∀ a, owes l (c a)) → owes l (thread_bind t c).
Proof. apply (owes_bind []). Qed.

Lemma owes_local {D} l (f : M → M * D) : (∀ m, log (f m).1 = log m ++ l) → owes l (local f).
Proof. intros Hf. exists l, []. by rewrite app_nil_r. Qed.

Lemma owes_call {D} (o : ApiOp D) : owes [] (call (M := M) o).
Proof. by intros r. Qed.

Lemma owes_each {A} (l : list A) (body : A → thread M unit) :
  (∀ x, owes [] (body x)) → owes [] (each l body).
Proof. intros Hb. induction l as [|x l IH]; [done|]. by apply owes_quiet; [apply Hb|]. Qed.
End owes.

(** Take a thread apart into its parts. *)
Ltac locals_step :=
  lazymatch goal with
  | |- locals _ (thread_bind _ _) => apply locals_bind; [|intros ?]
  | |- locals _ (local _) => apply locals_local; intros ?
  | |- locals _ (call _) => apply locals_call
  | |- locals _ (each _ _) => apply locals_each; intros ?
  | |- locals _ (Done _) => exact I
  | |- locals _ (match ?x with _ => _ end) => destruct x
  | |- locals _ (let '_ := ?x in _) => destruct x
  end.

Ltac owes_step :=
  lazymatch goal with
  | |- owes _ [] (each _ _) => apply owes_each; intros ?
  | |- owes _ [] (call _) => apply owes_call
  | |- owes _ _ (Done _) => reflexivity
  | |- owes _ _ (local _) => apply owes_local; intros ?
  | |- owes _ _ (match ?x with _ => _ end) => destruct x
  end.
