(* ===== verification/Fetch.v ===== *)
(** * A caller and the broker ([cliFetch], [cliFetchOnce], [doRefreshToken])

    The two halves put together: a caller with its token and its files on one
    side, the HTTP surface of the broker on the other, and between them a network
    that may lose a request or its reply.  A request whose token has expired is
    refreshed and repeated.  The texts of response bodies are the class
    [BodyText]. *)

From S2P Require Import Prelude GoStrings GoTime Ttl Base64 Ucan DemoJwt UcanSpec RateLimiter Types.
From S2P Require Import Store Prog World Broker Dispatch Demo Server ServerSpec Files Config KeyFiles.
From S2P Require Import Commands Client.

(** ** Texts of bodies *)
Class BodyText : Type := {
  (** What [encoding/json] and [http.Error] write for a body. *)
  body_text : Body → string;
  (** The [token] field of a JSON text. *)
  decode_token : string → result string string;
}.

(** JSON keeps printable text as it is, and is read back. *)
Class BodyTextLaws (T : BodyText) : Prop := {
  error_text m c : str_all is_plain c = true → ∃ p q, body_text (AuthError m c) = p +:+ c +:+ q;
  token_text t : str_all is_plain t = true → decode_token (body_text (JsonToken t)) = Ok t;
}.

(** ** Operations *)

(** What becomes of a request: it is served and its reply read; or [client.Do]
    fails with an error, before the broker has got the request, or when the broker
    has served it and the reply is lost, late or cut short. *)
Inductive Delivery : Type :=
| Delivered
| NotSent (e : string)
| ReplyLost (e : string).

(** The caller: its files, [authToken], the broker it talks to, and the fate of
    its requests to come, in order; past the end of the list they are delivered. *)
Record Caller : Type := mkCaller {
  ca_files : FileSys;
  ca_auth : string;
  ca_server : Server;
  ca_network : list Delivery;
}.

Definition next_delivery (s : Caller) : Delivery :=
  match ca_network s with [] => Delivered | d :: _ => d end.

Section fetch.
Context {E : Env} {J : Jwt} {S : ServerEnv} {M : Machine} {T : BodyText} (addr : string) (now : Z).

Definition authorization (token : string) : string :=
  if non_empty token then "Bearer " +:+ token else "".

(** The request is made: what the caller is left with, and the response or the
    error of [client.Do].  A panic of a handler closes the connection. *)
Definition client_do (req : HttpRequest) (s : Caller) : Caller * result string HttpResponse :=
  let after sv := mkCaller (ca_files s) (ca_auth s) sv (tail (ca_network s)) in
  let '(sv, resp) := serve now (ca_server s) req in
  match next_delivery s with
  | NotSent e => (after (ca_server s), Err e)
  | ReplyLost e => (after sv, Err e)
  | Delivered => (after sv, match resp with None => Err "EOF" | Some r => Ok r end)
  end.

Definition cliFetchOnce {A} (call : Call) (decode : Body → result string A) (s : Caller)
  : Caller * result string A :=
  match client_do (mkHttpRequest call (authorization (ca_auth s)) addr) s with
  | (s', Err e) => (s', Err e)
  | (s', Ok r) => (s', interpret (rs_Status r) (body_text (rs_Body r)) (decode (rs_Body r)))
  end.

(** The token that is sent to [/refresh-token], if there is one. *)
Definition current_token (s : Caller) : option string :=
  if non_empty (ca_auth s) then Some (ca_auth s)
  else match (LoadToken configDir (ca_files s)).2 with Ok t => Some t | Err _ => None end.

(** [doRefreshToken] against the broker; whether it succeeded. *)
Definition refreshToken (s : Caller) : Caller * bool :=
  match current_token s with
  | None => (s, false)
  | Some current =>
      let '(s', answer) := client_do (mkHttpRequest PostRefreshToken ("Bearer " +:+ current) addr) s in
      let post (_ : string) :=
        match answer with Err e => Err e | Ok r => Ok (rs_Status r, body_text (rs_Body r)) end in
      match doRefreshToken post decode_token (ca_auth s) (ca_files s) with
      | (fs, Ok token) => (mkCaller fs token (ca_server s') (ca_network s'), true)
      | (fs, Err _) => (mkCaller fs (ca_auth s) (ca_server s') (ca_network s'), false)
      end
  end.

Definition fetch {A} (call : Call) (decode : Body → result string A) : Caller → Caller * result string A :=
  cliFetch (cliFetchOnce call decode) refreshToken.

(** ** Lemmas *)
Lemma authorization_bearer token :
  token ≠ "" →
  authorization token ≠ "" ∧ TrimPrefix (authorization token) "Bearer " = token
  ∧ TrimPrefix (authorization token) "Bearer " ≠ authorization token.
Proof.
  intros Hne%String.eqb_neq. unfold authorization, non_empty. rewrite Hne. simpl negb. cbv iota.
  rewrite TrimPrefix_app. split; [done|]. split; [done|].
  intros H. apply (f_equal String.length) in H. rewrite string_length_app in H. simpl in H. lia.
Qed.

(** A request with a token the validator accepts reaches its handler. *)
Lemma serve_accepted sv v v' call token c :
  bypassed (path_of call) = false → token ≠ "" → sv_validator sv = Some v →
  Validate now v token = (v', Ok c) →
  serve now sv (mkHttpRequest call (authorization token) addr)
  = mux now (mkHttpRequest call (authorization token) addr) (Some c) (set_validator sv v').
Proof.
  intros Hb Hne Hv Hval. destruct (authorization_bearer token Hne) as (Ha%String.eqb_neq & Ht & Hq%String.eqb_neq).
  unfold serve, ucanMiddleware. cbn [rq_Call rq_Authorization]. by rewrite Hb, Ha, Hq, Hv, Ht, Hval.
Qed.

Lemma serve_expired sv v call token e :
  bypassed (path_of call) = false → token ≠ "" → sv_validator sv = Some v →
  Validate now v token = (v, Err e) → Contains e "expired" = true →
  serve now sv (mkHttpRequest call (authorization token) addr)
  = (sv, writeAuthError 401 "token expired" "TOKEN_EXPIRED").
Proof.
  intros Hb Hne Hv Hval He. destruct (authorization_bearer token Hne) as (Ha%String.eqb_neq & Ht & Hq%String.eqb_neq).
  unfold serve, ucanMiddleware. cbn [rq_Call rq_Authorization]. rewrite Hb, Ha, Hq, Hv, Ht, Hval.
  unfold refusal. rewrite He. f_equal. unfold set_validator. rewrite <-Hv. by destruct sv.
Qed.

Context {L : JwtLaws J} {TL : BodyTextLaws T}.

Lemma refreshToken_run s sv' tok :
  next_delivery s = Delivered → ca_auth s ≠ "" → tok ≠ "" → str_all is_plain tok = true →
  write_fault (ca_files s) (in_config tokenFile) = None →
  handle_refresh now (authorization (ca_auth s)) (ca_server s) = (sv', respond 200 (JsonToken tok)) →
  refreshToken s
  = (mkCaller (put_file (in_config tokenFile) tok mode_0600 (ca_files s)) tok sv' (tail (ca_network s)), true).
Proof.
  intros Hnet Hauth Htok Hplain Hw Hr. unfold refreshToken, current_token, authorization in *.
  assert (non_empty (ca_auth s) = true) as Hn by (unfold non_empty; by apply String.eqb_neq in Hauth as ->).
  rewrite Hn in *. unfold client_do, serve, ucanMiddleware. rewrite Hnet. cbn [rq_Call path_of]. change (bypassed "/refresh-token") with true.
  cbv iota. unfold mux. cbn [rq_Call rq_Authorization]. rewrite Hr. cbn [respond rs_Status rs_Body].
  unfold doRefreshToken, wrap, lift, mbind, io_bind, mret, io_ret. rewrite Hn.
  cbn [fst snd]. change (negb (200 =? 200)) with false. cbv iota. rewrite token_text by done.
  apply String.eqb_neq in Htok. rewrite Htok. unfold SaveToken. fold (in_config tokenFile). by rewrite WriteFile_ok.
Qed.

Lemma refreshed_token_printable auth sv sv' tok :
  handle_refresh now auth sv = (sv', respond 200 (JsonToken tok)) → tok ≠ "" ∧ str_all is_plain tok = true.
Proof.
  unfold handle_refresh. destruct (String.eqb auth ""); [done|].
  destruct (String.eqb _ auth); [done|]. destruct (sv_validator sv) as [v|]; [|done].
  destruct (refresh_claims _ _ _) as [v' [c|e]]; [|done].
  destruct (mint_refresh now c) as [t|r] eqn:Em; [|intros [= _ ->]; by eapply refusal_not_token in Em].
  intros [= _ ->]. apply mint_refresh_ok in Em as (kp & aud & rest & pub & root & _ & _ & _ & _ & _ & Hm).
  revert Hm. unfold MintToken. destruct (ParseUnverified root); [|done].
  destruct (first_outside _ _); [done|]. apply sign_compact.
Qed.

(** The first attempt with an expired token is the error the client waits for. *)
Lemma fetch_expired {A} call (decode : Body → result string A) s v e s2 :
  next_delivery s = Delivered → ca_auth s ≠ "" → bypassed (path_of call) = false → sv_validator (ca_server s) = Some v →
  Validate now v (ca_auth s) = (v, Err e) → Contains e "expired" = true →
  refreshToken (mkCaller (ca_files s) (ca_auth s) (ca_server s) (tail (ca_network s))) = (s2, true) →
  fetch call decode s = cliFetchOnce call decode s2.
Proof.
  intros Hnet Hauth Hb Hv Hval He Hr. unfold fetch, cliFetch.
  assert (∃ p q, cliFetchOnce call decode s
    = (mkCaller (ca_files s) (ca_auth s) (ca_server s) (tail (ca_network s)),
       Err (p +:+ "TOKEN_EXPIRED" +:+ q))) as (p & q & ->).
  { unfold cliFetchOnce, client_do. rewrite (serve_expired _ v _ _ e), Hnet by done.
    cbn [writeAuthError respond rs_Status rs_Body].
    destruct (error_text "token expired" "TOKEN_EXPIRED") as (p & q & Ht); [done|].
    exists (itoa 401 +:+ ": " +:+ p), q. by rewrite Ht. }
  unfold token_expired. by rewrite Contains_refl_app, Hr.
Qed.

(** ** Properties *)

(** C12: An expired session recovers by itself: for an hour after the expiry of a
    token that somebody else has signed for its holder (the broker renews no
    token that is its signer's own, as its root token is), a request made with
    [cliFetch] is answered as if it had been made with a fresh token, which the
    broker accepts with the same capabilities and which is on disk for the next
    program, provided the network delivers the refused request and the renewal. *)
Theorem expired_session_recovers {A} call (decode : Body → result string A) s v e c kp aud rest pub iss root rc net :
  let sv := ca_server s in
  let ttl := defaultChildTTL se_default_ttl in
  ca_network s = Delivered :: Delivered :: net →
  ca_auth s ≠ "" → bypassed (path_of call) = false →
  write_fault (ca_files s) (in_config tokenFile) = None →
  sv_validator sv = Some v →
  (Validate now v (ca_auth s)).2 = Err e → Contains e "expired" = true →
  (ValidateWithGrace now v (ca_auth s) Hour).2 = Ok c →
  se_keypair = Ok kp → cl_Audience c = aud :: rest → pubKeyFromString aud = Ok pub →
  pubKeyFromString (cl_Issuer c) = Ok iss → iss ≠ pub →
  se_root_token = Ok root → ParseUnverified root = Ok rc →
  knownTokens v !! TokenHash root = Some (capSet (cl_Capabilities rc)) →
  capSet (cl_Capabilities c) ⊆ capSet (cl_Capabilities rc) →
  plain_caps (cl_Capabilities c) → datable now ttl →
  ∃ tok fs sv' sv2 c',
    fetch call decode s = cliFetchOnce call decode (mkCaller fs tok sv' net)
    ∧ serve now sv' (mkHttpRequest call (authorization tok) addr)
      = mux now (mkHttpRequest call (authorization tok) addr) (Some c') sv2
    ∧ cl_Capabilities c' = cl_Capabilities c ∧ sv_world sv2 = sv_world sv
    ∧ files fs !! in_config tokenFile = Some (written (ca_files s) (in_config tokenFile) tok mode_0600).
Proof.
  intros sv ttl Hnet Hauth Hb Hw Hv Hval He Hgrace Hkp Ha Hp Hi Hne Hroot Hrc Hk Hsub Hplain Hd.
  assert (Validate now v (ca_auth s) = (v, Err e)) as Hval'.
  { destruct (Validate_cases now v (ca_auth s)) as [(c0 & _ & _ & Hv0)|[e0 Hv0]]; rewrite Hv0 in Hval |- *;
      simpl in Hval; [discriminate Hval|congruence]. }
  destruct (authorization_bearer (ca_auth s) Hauth) as (Ha1 & Ht1 & Hq1).
  destruct (refresh_renews now now (authorization (ca_auth s)) sv v c kp aud rest pub iss root rc)
    as (sv' & tok & v' & c' & Hr & Hv' & Hc' & _ & Hcaps & _ & Hworld); try done.
  { rewrite Ht1. unfold refresh_claims. by rewrite Hval'. }
  { pose proof (defaultChildTTL_bounds se_default_ttl) as Hb'. unfold MinChildTokenTTL, Minute, Second in Hb'. lia. }
  destruct (refreshed_token_printable _ _ _ _ Hr) as [Htok Hprint].
  pose proof (refreshToken_run (mkCaller (ca_files s) (ca_auth s) (ca_server s) (Delivered :: net))
    sv' tok eq_refl Hauth Htok Hprint Hw Hr) as Href.
  assert (Validate now v' tok = ((Validate now v' tok).1, Ok c')) as Hacc.
  { rewrite <-Hc'. apply surjective_pairing. }
  eexists tok, _, sv', _, c'. split; [|split; [|split; [|split]]].
  - apply (fetch_expired call decode s v e); [|done..|by rewrite Hnet]. unfold next_delivery. by rewrite Hnet.
  - by apply (serve_accepted sv' v').
  - exact Hcaps.
  - exact Hworld.
  - apply lookup_insert_eq.
Qed.
End fetch.

(** ** Witness *)
#[local] Existing Instances demo_env demo_jwt demo_jwt_laws.

(** Bodies are written after a label. *)
Definition demo_body_text : BodyText := {|
  body_text b := match b with JsonToken t => "token " +:+ t | AuthError m c => m +:+ " " +:+ c +:+ "." | _ => "" end;
  decode_token s := if HasPrefix s "token " then Ok (TrimPrefix s "token ") else Err "no token";
|}.

Lemma demo_body_text_laws : BodyTextLaws demo_body_text.
Proof.
  split.
  - intros m c _. exists (m +:+ " "), ".". simpl. by rewrite <-string_app_assoc.
  - intros t _. unfold decode_token, body_text, demo_body_text. by rewrite HasPrefix_app, TrimPrefix_app.
Qed.

#[local] Existing Instances demo_body_text demo_body_text_laws demo_server_env.

(** The machine's session half an hour after its token expired. *)
Definition laptop_machine : Machine := demo_machine "laptop".
Definition late_caller : Caller := mkCaller blank_disk demo_child demo_server [Delivered; Delivered; ReplyLost "EOF"].
Definition late_call : Call := PostSendMessage (Ok (mkSendMessageRequest "cli" "planner" "" "still here")).
Definition decode_send (b : Body) : result string SendMessageResponse :=
  match b with JsonBroker (RsSend r) => Ok r | _ => Err "unexpected" end.

#[local] Typeclasses Opaque late_caller demo_server demo_child demo_root demo_validator claims_of.

Lemma expired_session_recovers_witness :
  ∃ tok fs sv', fetch (M := laptop_machine) "100.64.0.7:5123" grace_time late_call decode_send late_caller
    = cliFetchOnce "100.64.0.7:5123" grace_time late_call decode_send
        (mkCaller fs tok sv' [ReplyLost "EOF"]).
Proof.
  destruct (expired_session_recovers (M := laptop_machine) "100.64.0.7:5123" grace_time late_call decode_send
    late_caller demo_validator "parse token: token has invalid claims: token is expired"
    (claims_of demo_child) (mkKeyPair root_key (Public root_key))
    (pubKeyToString (Public machine_key)) [] (Public machine_key) (Public root_key) demo_root (claims_of demo_root)
    [ReplyLost "EOF"])
    as (tok & fs & sv' & sv2 & c' & H & _).
  - reflexivity.
  - vm_decide.
  - reflexivity.
  - reflexivity.
  - reflexivity.
  - vm_decide.
  - vm_compute. reflexivity.
  - vm_decide.
  - reflexivity.
  - vm_decide.
  - vm_decide.
  - vm_decide.
  - vm_decide.
  - reflexivity.
  - vm_decide.
  - vm_decide.
  - vm_decide.
  - apply plain_caps_decide. vm_decide.
  - split; split; vm_decide.
  - exists tok, fs, sv'. exact H.
Defined.
