(* ===== verification/Http.v ===== *)
(** * A session over HTTP

    The interface [BrokerApi] that a session is written against, implemented by
    requests to the HTTP surface with the session's token, and what it promises
    compared with the broker itself: every call has the effect and the answer of
    the broker's operation, or fails and leaves no trace that anybody can see, or
    fails because the reply was lost on the network, with the operation done. *)

From S2P Require Import Prelude GoStrings GoTime Ttl Base64 Ucan DemoJwt UcanSpec RateLimiter Types.
From S2P Require Import Store Prog World Broker Dispatch Demo Server ServerSpec Files Config KeyFiles.
From S2P Require Import Commands Client Api Fetch.

(** ** Calls over HTTP *)

(** The route of a call. *)
Definition route_of {A} (o : ApiOp A) : Call :=
  match o with
  | OpRegister r => PostRegister (Ok r)
  | OpHeartbeat r => PostHeartbeat (Ok r)
  | OpList r => PostListPeers (Ok r)
  | OpSend r => PostSendMessage (Ok r)
  | OpPoll r => PostPollMessages (Ok r)
  | OpPeek r => PostPeekMessages (Ok r)
  | OpAck r => PostAckMessage (Ok r)
  | OpClaim r => PostClaimAgent (Ok r)
  | OpSetSummary r => PostSetSummary (Ok r)
  | OpUnregister r => PostUnregister (Ok r)
  | OpEvents n => GetEvents n
  | OpMemory => GetFleetMemory
  | OpSetMemory c => PostFleetMemory (Ok c)
  end.

(** What a caller reads out of a body; anything else does not decode. *)
Definition not_json {A} : result string A := Err "invalid character".
Definition read_ok (b : Body) : result string unit :=
  match b with JsonOk => Ok tt | _ => not_json end.
Definition reply_of {A} (o : ApiOp A) : Body → result string A :=
  match o in ApiOp A' return Body → result string A' with
  | OpRegister _ => λ b, match b with JsonBroker (RsRegister x) => Ok x | _ => not_json end
  | OpHeartbeat _ => λ b, match b with JsonBroker (RsHeartbeat x) => Ok x | _ => not_json end
  | OpList _ => λ b, match b with JsonBroker (RsListPeers x) => Ok x | _ => not_json end
  | OpSend _ => λ b, match b with JsonBroker (RsSend x) => Ok x | _ => not_json end
  | OpPoll _ | OpPeek _ => λ b, match b with JsonBroker (RsMessages x) => Ok x | _ => not_json end
  | OpClaim _ => λ b, match b with JsonBroker (RsClaim x) => Ok x | _ => not_json end
  | OpAck _ | OpSetSummary _ | OpUnregister _ | OpSetMemory _ => read_ok
  | OpEvents _ => λ b, match b with JsonBroker (RsEvents x) => Ok (default [] x) | _ => not_json end
  | OpMemory => λ b, match b with Markdown m => Ok m | _ => not_json end
  end.

(** ** Programs that always end with one value *)
Definition ends_with {A} (x : A) (p : handler A) : Prop := ∀ w, (run p w).2 = x.

Lemma ends_ret {A} (x : A) : ends_with x (Ret x).
Proof. done. Qed.

Lemma ends_bind {A B} (x : A) (p : handler B) (k : B → handler A) :
  (∀ b, ends_with x (k b)) → ends_with x (prog_bind p k).
Proof. intros Hk w. rewrite run_bind. destruct (run p w) as [w' b]. apply Hk. Qed.

Lemma run_query_row {E : Env} {A} (f : DB → option A) w :
  ∃ o w', run (query_row f) w = (w', o) ∧ visible w' = visible w.
Proof. eexists _, (next_stmt w). split; reflexivity. Qed.

(** ** The interface over HTTP *)
Section http.
Context {E : Env} {J : Jwt} {S : ServerEnv} {M : Machine} {T : BodyText} (addr : string) (now : Z).

Definition once {A} (o : ApiOp A) : Caller → Caller * result string A :=
  cliFetchOnce addr now (route_of o) (reply_of o).

(** [cliFetch], except for the fleet memory, which is requested without a
    retry. *)
Definition http_call {A} (o : ApiOp A) : Caller → Caller * result string A :=
  match o with
  | OpMemory | OpSetMemory _ => once o
  | _ => fetch addr now (route_of o) (reply_of o)
  end.

Definition http_api : BrokerApi Caller := {|
  api_register r := http_call (OpRegister r);
  api_heartbeat r := http_call (OpHeartbeat r);
  api_list r := http_call (OpList r);
  api_send r := http_call (OpSend r);
  api_poll r := http_call (OpPoll r);
  api_peek r := http_call (OpPeek r);
  api_ack r := http_call (OpAck r);
  api_claim r := http_call (OpClaim r);
  api_set_summary r := http_call (OpSetSummary r);
  api_unregister r := http_call (OpUnregister r);
  api_events n := http_call (OpEvents n);
  api_memory := http_call OpMemory;
  api_set_memory c := http_call (OpSetMemory c);
|}.

(** ** When a call is let through *)

(** The token is accepted and carries the capability of the route. *)
Definition capable {A} (o : ApiOp A) (s : Caller) : option UCANClaims :=
  match sv_validator (ca_server s), required (route_of o) with
  | Some v, Some r =>
      match (Validate now v (ca_auth s)).2 with
      | Ok c => if non_empty (ca_auth s) && HasCapability c r then Some c else None
      | Err _ => None
      end
  | _, _ => None
  end.

(** The limits of [/register] and [/send-message]. *)
Definition within_limits {A} (o : ApiOp A) (c : UCANClaims) (sv : Server) : bool :=
  match o with
  | OpRegister _ => (allow (sv_registerRL sv) (stripPort addr) now).2
  | OpSend r =>
      (allow (sv_sendRL sv) (stripPort addr) now).2
      && (match cl_Audience c with [] => true | _ => false end || non_empty (send_FromID r))
  | _ => true
  end.

Definition let_through {A} (o : ApiOp A) (s : Caller) : bool :=
  match capable o s with Some c => within_limits o c (ca_server s) | None => false end.

(** A claim that is refused without a holder is answered with status 400. *)
Definition bad_claim {A} (o : ApiOp A) : result string A → bool :=
  match o in ApiOp A' return result string A' → bool with
  | OpClaim _ => λ r, match r with
                      | Ok resp => negb (claimr_OK resp) && negb (non_empty (claimr_HeldBySession resp))
                      | Err _ => false
                      end
  | _ => λ _, false
  end.

Definition world_of (s : Caller) : World := sv_world (ca_server s).

(** ** Lemmas *)

(** The body of the answer to a call. *)
Definition body_of {A} (o : ApiOp A) (rs : Response) : Body :=
  match o with
  | OpAck _ | OpSetSummary _ | OpUnregister _ | OpSetMemory _ => JsonOk
  | OpMemory => Markdown (match rs with RsMemory m => m | _ => "" end)
  | _ => JsonBroker rs
  end.

Lemma dispatch_api {A} (o : ApiOp A) w :
  ∃ rs, run (dispatch (request_of o)) w = ((call_api o w).1, rs)
        ∧ reply_of o (body_of o rs) = (call_api o w).2.
Proof.
  destruct o; cbn [request_of dispatch call_api api_register api_heartbeat api_list api_send api_poll
    api_peek api_ack api_claim api_set_summary api_unregister api_events api_memory api_set_memory
    broker_api]; unfold direct; rewrite ?run_bind;
    (match goal with |- context [run ?p w] => destruct (run p w) as [w' x] end);
    try destruct x; eexists; split; reflexivity.
Qed.

(** An answer that a caller takes for a failure. *)
Definition failed {A} (o : ApiOp A) (resp : option HttpResponse) : Prop :=
  match resp with
  | None => True
  | Some r => rs_Status r ≠ 200 ∧ is_ok (reply_of o (rs_Body r)) = false
  end.

Lemma no_reply {A} (o : ApiOp A) b :
  match b with AuthError _ _ | RateLimited | PlainError _ => True | _ => False end →
  is_ok (reply_of o b) = false.
Proof. by destruct o, b. Qed.

Lemma auth_failed {A} (o : ApiOp A) status m code : status ≠ 200 → failed o (writeAuthError status m code).
Proof. intros Hs. split; [done|]. by apply no_reply. Qed.

Lemma route_protected {A} (o : ApiOp A) : ∃ r, required (route_of o) = Some r ∧ bypassed (path_of (route_of o)) = false.
Proof. destruct o; eexists; split; reflexivity. Qed.

Definition request {A} (o : ApiOp A) (s : Caller) : HttpRequest :=
  mkHttpRequest (route_of o) (authorization (ca_auth s)) addr.

(** The middleware lets a request through, or refuses it and changes nothing but
    the validator's memory. *)
Lemma serve_cases {A} (o : ApiOp A) s :
  match capable o s with
  | Some c => ∃ v r, serve now (ca_server s) (request o s)
                = mux now (request o s) (Some c) (set_validator (ca_server s) v)
                ∧ required (route_of o) = Some r ∧ HasCapability c r = true
  | None => let '(sv, resp) := serve now (ca_server s) (request o s) in
            sv_world sv = world_of s ∧ failed o resp
  end.
Proof.
  destruct (route_protected o) as (r & Hr & Hb). unfold capable. rewrite Hr.
  assert (∀ c sv, HasCapability c r = false → mux now (request o s) (Some c) sv
    = (sv, respond 403 (AuthError ("insufficient capability: " +:+ r) "MISSING_CAPABILITY"))) as Hmux.
  { intros c sv Hc. destruct (mux_refuses now (request o s) (Some c) sv r Hr) as [(c' & [= <-] & Hc')|H];
      [congruence|exact H]. }
  unfold serve, ucanMiddleware. cbn [request rq_Call rq_Authorization]. rewrite Hb.
  destruct (String.eqb_spec (ca_auth s) "") as [He|He].
  { unfold authorization, non_empty. rewrite He. simpl.
    destruct (sv_validator _) as [v|]; [destruct (Validate now v "").2; simpl|];
      (split; [done|by apply auth_failed]). }
  destruct (authorization_bearer (ca_auth s) He) as (Ha%String.eqb_neq & Ht & Hq%String.eqb_neq).
  assert (non_empty (ca_auth s) = true) as Hn by (unfold non_empty; by apply String.eqb_neq in He as ->).
  rewrite Ha, Hq, Ht, Hn. cbn [andb].
  assert (∀ msg, failed o (refusal msg)) as Href.
  { intros msg. unfold refusal. destruct (Contains msg "expired"), (Contains msg "proof" || Contains msg "chain")%bool;
      by apply auth_failed. }
  destruct (sv_validator (ca_server s)) as [v|].
  - destruct (Validate now v (ca_auth s)) as [v' [c|e]]; cbn [snd].
    + destruct (HasCapability c r) eqn:Ec; [by exists v', r|].
      fold (request o s). rewrite Hmux by done. split; [done|by apply auth_failed].
    + by split.
  - destruct (nil_Validate now (ca_auth s)); by split.
Qed.

Lemma failed_limit {A} (o : ApiOp A) : failed o (respond 429 RateLimited).
Proof. split; [done|]. by apply no_reply. Qed.

Lemma serve_refused {A} (o : ApiOp A) s :
  let_through o s = false →
  let '(sv, resp) := serve now (ca_server s) (request o s) in
  sv_world sv = world_of s ∧ failed o resp.
Proof.
  unfold let_through. pose proof (serve_cases o s) as H. destruct (capable o s) as [c|]; [|done].
  destruct H as (v & r & -> & Hr & Hc). destruct o; cbn [within_limits]; try discriminate; intros Hl;
    unfold mux; cbn [request rq_Call route_of rq_RemoteAddr] in *;
    unfold requireCapability; injection Hr as <-; rewrite Hc.
  - unfold handle_register. cbn [sv_registerRL set_validator].
    destruct (allow _ _ _) as [rl ok]. cbn [snd] in Hl. subst ok. split; [done|apply failed_limit].
  - unfold handle_send. cbn [sv_sendRL set_validator].
    destruct (allow _ _ _) as [rl ok]. cbn [snd] in Hl. destruct ok; cbn [negb andb] in *;
      [|split; [done|apply failed_limit]].
    unfold with_body, non_empty in *. destruct (cl_Audience c); [done|].
    cbn [orb] in Hl. apply negb_false_iff in Hl. rewrite Hl. split; [done|]. split; [done|done].
Qed.

(** What a handler leaves when it runs the operation. *)
Lemma broker_call_run rq sv :
  broker_call rq sv = (set_world sv (run (dispatch rq) (sv_world sv)).1, (run (dispatch rq) (sv_world sv)).2).
Proof. unfold broker_call. by destruct (run (dispatch rq) (sv_world sv)). Qed.

Lemma serve_answered {A} (o : ApiOp A) s :
  let_through o s = true →
  ∃ sv status rs, serve now (ca_server s) (request o s) = (sv, respond status (body_of o rs))
    ∧ run (dispatch (request_of o)) (world_of s) = (sv_world sv, rs)
    ∧ (if bad_claim o (reply_of o (body_of o rs)) then status = 400 else status = 200 ∨ status = 409).
Proof.
  unfold let_through. pose proof (serve_cases o s) as H. destruct (capable o s) as [c|]; [|done].
  destruct H as (v & r & -> & Hr & Hc). intros Hl.
  destruct o; unfold mux; cbn [request rq_Call route_of rq_RemoteAddr request_of within_limits] in *;
    unfold requireCapability; injection Hr as <-; rewrite Hc;
    try (unfold with_body, json_call, ok_call; rewrite broker_call_run;
         cbn [sv_world set_validator]; eexists _, 200, _; split; [reflexivity|];
         split; [apply surjective_pairing|by left]).
  - unfold handle_register. cbn [sv_registerRL set_validator].
    destruct (allow _ _ _) as [rl ok]. cbn [snd] in Hl. subst ok. cbn [negb].
    unfold with_body. rewrite broker_call_run. cbn [sv_world set_validator dispatch].
    fold (world_of s). rewrite run_bind. destruct (run (register r0) (world_of s)) as [w' x].
    eexists _, _, (RsRegister x). split; [reflexivity|]. split; [done|].
    cbn. destruct (regr_OK x); auto.
  - unfold handle_send. cbn [sv_sendRL set_validator].
    destruct (allow _ _ _) as [rl ok]. cbn [snd] in Hl. apply andb_true_iff in Hl as [-> Ha]. cbn [negb].
    unfold with_body, json_call. rewrite broker_call_run.
    assert (negb (match cl_Audience c with [] => true | _ => false end) && String.eqb (send_FromID r0) "" = false)
      as -> by (unfold non_empty in Ha; by destruct (cl_Audience c), (String.eqb (send_FromID r0) "")).
    eexists _, 200, _. split; [reflexivity|]. split; [apply surjective_pairing|by left].
  - unfold handle_claim, with_body. rewrite broker_call_run. cbn [sv_world set_validator dispatch].
    fold (world_of s). rewrite run_bind. destruct (run (claimAgent r0) (world_of s)) as [w' x].
    eexists _, _, (RsClaim x). split; [reflexivity|]. split; [done|].
    cbn. unfold non_empty. destruct (claimr_OK x); cbn; [by left|].
    destruct (String.eqb (claimr_HeldBySession x) ""); cbn; [done|by right].
  - unfold handle_get_memory. rewrite broker_call_run. cbn [sv_world set_validator dispatch].
    fold (world_of s). rewrite run_bind. destruct (run getFleetMemory (world_of s)) as [w' x].
    eexists _, 200, (RsMemory x). split; [reflexivity|]. split; [done|by left].
Qed.

(** The effect of a request that reaches the broker. *)
Definition effect {A} (o : ApiOp A) (s : Caller) : World :=
  if let_through o s then (call_api o (world_of s)).1 else world_of s.

Lemma serve_effect {A} (o : ApiOp A) s :
  sv_world (serve now (ca_server s) (request o s)).1 = effect o s.
Proof.
  unfold effect. destruct (let_through o s) eqn:El.
  - destruct (serve_answered o s El) as (sv & status & rs & -> & Hrun & _).
    destruct (dispatch_api o (world_of s)) as (rs' & Hrun' & _). rewrite Hrun in Hrun'.
    injection Hrun' as Hw _. exact Hw.
  - pose proof (serve_refused o s El) as H. by destruct (serve _ _ _), H.
Qed.

Lemma once_network {A} (o : ApiOp A) s : ca_network (once o s).1 = tail (ca_network s).
Proof.
  unfold once, cliFetchOnce, client_do. destruct (serve _ _ _) as [sv resp].
  destruct (next_delivery s); [by destruct resp|done..].
Qed.

(** One attempt: lost on the way, or on the way back, with the effect of the
    operation; or the broker's effect and answer, or a failure that changes
    nothing. *)
Lemma once_cases {A} (o : ApiOp A) s :
  let '(s', r) := once o s in
  match next_delivery s with
  | NotSent e => world_of s' = world_of s ∧ r = Err e
  | ReplyLost e => world_of s' = effect o s ∧ r = Err e
  | Delivered =>
      if let_through o s then
        world_of s' = (call_api o (world_of s)).1
        ∧ (if bad_claim o (call_api o (world_of s)).2 then is_ok r = false
           else r = (call_api o (world_of s)).2)
      else world_of s' = world_of s ∧ is_ok r = false
  end.
Proof.
  unfold once, cliFetchOnce, client_do. fold (request o s). pose proof (serve_effect o s) as He.
  destruct (next_delivery s) eqn:Ed; [|by destruct (serve _ _ _)|by destruct (serve _ _ _)].
  destruct (let_through o s) eqn:El.
  - clear He. destruct (serve_answered o s El) as (sv & status & rs & -> & Hrun & Hst).
    destruct (dispatch_api o (world_of s)) as (rs' & Hrun' & Hreply).
    rewrite Hrun in Hrun'. injection Hrun' as Hw ->. cbn [world_of ca_server respond rs_Status rs_Body].
    split; [done|]. rewrite Hreply in *. destruct (bad_claim _ _); [by subst status|].
    destruct (call_api_ok o (world_of s)) as [x Hx]. rewrite Hx. unfold interpret. by destruct Hst as [-> | ->].
  - clear He. pose proof (serve_refused o s El) as H. destruct (serve now (ca_server s) (request o s)) as [sv resp].
    destruct H as [Hw Hf]. destruct resp as [r|]; [|done]. split; [done|]. destruct Hf as [Hs Hf].
    unfold interpret. apply Z.eqb_neq in Hs. rewrite Hs. destruct (rs_Status r =? 409); [|done].
    by destruct (reply_of o (rs_Body r)).
Qed.

(** A claim that is refused has only asked questions. *)
Lemma refused_claim_visible req w :
  claimr_OK (run (claimAgent req) w).2 = false → visible (run (claimAgent req) w).1 = visible w.
Proof.
  unfold claimAgent. destruct (String.eqb (claim_AgentName req) ""); [done|].
  rewrite run_bind. destruct (run_query_row (select_agent_name (claim_SessionID req)) w) as (o1 & w1 & -> & H1).
  destruct o1 as [n|]; [|done]. destruct (negb (String.eqb n "")); [done|].
  rewrite run_bind. destruct (run_query_row (select_holder (claim_AgentName req)) w1) as (o2 & w2 & -> & H2).
  destruct o2 as [h|]; [simpl; congruence|]. intros Hno. exfalso. revert Hno.
  match goal with |- claimr_OK (run ?p w2).2 = false → _ => assert (Hp : ends_with (mkClaimAgentResponse true "" "" "" "" "") p) end.
  { repeat (apply ends_bind; intros ?). apply ends_ret. }
  by rewrite Hp.
Qed.

Lemma bad_claim_visible {A} (o : ApiOp A) w :
  bad_claim o (call_api o w).2 = true → visible (call_api o w).1 = visible w.
Proof.
  destruct o; try done. cbn [bad_claim call_api api_claim broker_api]. unfold direct.
  pose proof (refused_claim_visible r w) as Hv. destruct (run (claimAgent r) w) as [w' x]. cbn [fst snd] in *.
  intros [Hx _]%andb_true_iff. apply Hv. by apply negb_true_iff.
Qed.

Lemma refreshToken_world s : world_of (refreshToken addr now s).1 = world_of s.
Proof.
  unfold refreshToken. destruct (current_token s) as [current|]; [|done].
  unfold client_do, serve, ucanMiddleware. cbn [rq_Call path_of]. change (bypassed "/refresh-token") with true.
  cbv iota. unfold mux. cbn [rq_Call rq_Authorization].
  pose proof (refresh_world now ("Bearer " +:+ current) (ca_server s)) as Hw.
  destruct (handle_refresh now _ (ca_server s)) as [sv resp].
  by destruct (next_delivery s); destruct (doRefreshToken _ _ _ _) as [fs [tok|e']].
Qed.

Lemma refreshToken_network s :
  ca_network (refreshToken addr now s).1 ⊆ ca_network s.
Proof.
  unfold refreshToken. destruct (current_token s) as [current|]; [|done].
  unfold client_do. destruct (serve _ _ _) as [sv resp].
  assert (tail (ca_network s) ⊆ ca_network s) as Ht by (destruct (ca_network s); set_solver).
  by destruct (next_delivery s); destruct (doRefreshToken _ _ _ _) as [fs [tok|e']].
Qed.

(** The broker's effect and answer up to what nobody can see; a failure without
    a trace; or the effect without the answer, when the network lost a reply. *)
Definition at_most_once {A} (o : ApiOp A) (s : Caller) (out : Caller * result string A) : Prop :=
  (is_ok out.2 = false ∧ visible (world_of out.1) = visible (world_of s))
  ∨ (∃ w, visible w = visible (world_of s) ∧ call_api o w = (world_of out.1, out.2))
  ∨ ∃ w e, visible w = visible (world_of s) ∧ (call_api o w).1 = world_of out.1 ∧ out.2 = Err e
      ∧ ReplyLost e ∈ ca_network s.

(** The errors of [client.Do] do not read like those of an expired token. *)
Definition plain_losses (s : Caller) : Prop :=
  ∀ e, ReplyLost e ∈ ca_network s → token_expired e = false.

Lemma once_at_most_once {A} (o : ApiOp A) s : at_most_once o s (once o s).
Proof.
  pose proof (once_cases o s) as H. destruct (once o s) as [s' r]. unfold at_most_once. cbn [fst snd].
  destruct (next_delivery s) as [|e|e] eqn:Ed.
  - destruct (let_through o s); [|left; destruct H as [-> Hr]; done].
    destruct H as [Hw Hr]. destruct (bad_claim o _) eqn:Eb.
    + left. rewrite Hw. by rewrite bad_claim_visible.
    + right; left. exists (world_of s). split; [done|]. rewrite Hw, Hr. apply surjective_pairing.
  - left. by destruct H as [-> ->].
  - destruct H as [Hw ->]. unfold effect in Hw. destruct (let_through o s); [|left; by rewrite Hw].
    right; right. exists (world_of s), e. split; [done|]. split; [done|]. split; [done|].
    unfold next_delivery in Ed. destruct (ca_network s) as [|d net]; [done|]. subst d. by left.
Qed.

Lemma fetch_at_most_once {A} (o : ApiOp A) s :
  plain_losses s → at_most_once o s (fetch addr now (route_of o) (reply_of o) s).
Proof.
  intros Hnet. unfold fetch, cliFetch. fold (once o). pose proof (once_at_most_once o s) as H1.
  pose proof (once_network o s) as Hn1. destruct (once o s) as [s1 [x|e]]; [exact H1|]. cbn [fst] in Hn1.
  destruct (token_expired e) eqn:Et; [|exact H1].
  assert (visible (world_of s1) = visible (world_of s)) as Hv1.
  { destruct H1 as [[_ H]|[(w & _ & H)|(w & e' & _ & _ & He & Hin)]]; [exact H| |].
    - destruct (call_api_ok o w) as [y Hy]. by rewrite H in Hy.
    - injection He as <-. by rewrite (Hnet e) in Et. }
  pose proof (refreshToken_world s1) as Hr. pose proof (refreshToken_network s1) as Hn2.
  destruct (refreshToken addr now s1) as [s2 []]; cbn [fst] in Hr, Hn2; rewrite <-Hr in Hv1; [|by left].
  destruct (once_at_most_once o s2) as [[Hk Hv]|[(w & Hw & Hc)|(w & e' & Hw & Hc & He & Hin)]].
  - left. split; [done|]. by rewrite Hv.
  - right; left. exists w. split; [by rewrite Hw|done].
  - right; right. exists w, e'. split; [by rewrite Hw|]. split; [done|]. split; [done|].
    apply Hn2 in Hin. rewrite Hn1 in Hin. destruct (ca_network s); [done|]. by right.
Qed.

Lemma http_call_through {A} (o : ApiOp A) s :
  next_delivery s = Delivered → let_through o s = true → bad_claim o (call_api o (world_of s)).2 = false →
  http_call o s = once o s.
Proof.
  intros Hd Hl Hb. enough (fetch addr now (route_of o) (reply_of o) s = once o s) by by destruct o.
  unfold fetch, cliFetch. fold (once o). pose proof (once_cases o s) as H.
  destruct (once o s) as [s1 [x|e]]; [done|]. rewrite Hd, Hl, Hb in H. destruct H as [_ H].
  destruct (call_api_ok o (world_of s)) as [y Hy]. by rewrite Hy in H.
Qed.

Lemma call_http {A} (o : ApiOp A) s : call_api (B := http_api) o s = http_call o s.
Proof. by destruct o. Qed.

(** ** Properties *)

(** C13: A session over HTTP makes each call of the broker at most once, a refreshed
    token and a retry included.  A call has the effect and the answer of the
    broker's operation; or fails without a trace that anybody can see; or, only
    when the network has lost the reply to one of its requests, has the effect of
    the operation and fails with the error of that loss.  And a call that is
    delivered, and that token and limits let through, has effect and answer
    exactly, claims refused without a holder apart. *)
Theorem http_refines_broker {A} (o : ApiOp A) s :
  plain_losses s →
  let '(s', r) := call_api (B := http_api) o s in
  ((is_ok r = false ∧ visible (world_of s') = visible (world_of s))
   ∨ (∃ w, visible w = visible (world_of s) ∧ call_api o w = (world_of s', r))
   ∨ ∃ w e, visible w = visible (world_of s) ∧ (call_api o w).1 = world_of s' ∧ r = Err e
       ∧ ReplyLost e ∈ ca_network s)
  ∧ (next_delivery s = Delivered → let_through o s = true →
     bad_claim o (call_api o (world_of s)).2 = false → call_api o (world_of s) = (world_of s', r)).
Proof.
  intros Hnet. rewrite call_http. destruct (http_call o s) as [s' r] eqn:Eh. split.
  - assert (at_most_once o s (http_call o s)) as H; [|by rewrite Eh in H].
    destruct o; first [by apply fetch_at_most_once|apply once_at_most_once].
  - intros Hd Hl Hb. rewrite (http_call_through o s Hd Hl Hb) in Eh.
    pose proof (once_cases o s) as H. rewrite Eh, Hd, Hl, Hb in H. destruct H as [Hw Hr].
    rewrite Hw, Hr. apply surjective_pairing.
Qed.

(** The refusal of a claim reaches the tool only when another session holds the
    name: the others come as an error with status 400, so the text that the tool
    has for a refusal without a holder is never shown. *)
Theorem refused_claim_names_holder req s s' resp :
  call_api (B := http_api) (OpClaim req) s = (s', Ok resp) → claimr_OK resp = false →
  claimr_HeldBySession resp ≠ "".
Proof.
  assert (∀ s1 s2 x, once (OpClaim req) s1 = (s2, Ok x) → claimr_OK x = false → claimr_HeldBySession x ≠ "") as Honce.
  { intros s1 s2 x Ho Hx Hh. pose proof (once_cases (OpClaim req) s1) as H. rewrite Ho in H.
    destruct (next_delivery s1); [|by destruct H..].
    destruct (let_through _ s1); destruct H as [_ H]; [|done].
    destruct (bad_claim _ _) eqn:Eb; [done|]. rewrite <-H in Eb. cbn in Eb. unfold non_empty in Eb.
    rewrite Hx, Hh in Eb. discriminate. }
  rewrite call_http. cbn [http_call]. unfold fetch, cliFetch. fold (once (OpClaim req)).
  destruct (once (OpClaim req) s) as [s1 [x|e]] eqn:Eo; [intros [= <- <-]; by eapply Honce|].
  destruct (token_expired e); [|done]. destruct (refreshToken addr now s1) as [s2 []]; [|done].
  intros H. by eapply Honce.
Qed.
End http.

(** ** Witnesses *)
#[local] Existing Instances demo_env demo_jwt demo_jwt_laws demo_body_text demo_body_text_laws demo_server_env.

(** A session of the machine with a valid token, and a broker on which "planner"
    and a nameless session are live. *)
Definition busy_server : Server :=
  mkServer (after [join "planner"; join ""]) (Some demo_validator) (newRateLimiter 10 Minute)
    (newRateLimiter 5 Minute).
Definition member : Caller := mkCaller blank_disk session_token busy_server [].
Definition member_api : BrokerApi Caller := http_api (M := laptop_machine) "100.64.0.7:5123" day0.

#[local] Typeclasses Opaque busy_server member session_token demo_validator demo_root claims_of.

(** The same session, with a broker that hears it and is not heard. *)
Definition unheard : Caller :=
  mkCaller blank_disk session_token busy_server [ReplyLost "context deadline exceeded"].

(** A listing over a working network, and a claim whose answer is lost: the
    session is told of an error and has the name. *)
Lemma http_refines_broker_witness :
  call_api (B := broker_api) (OpList all_peers) (world_of member)
    = (world_of (call_api (B := member_api) (OpList all_peers) member).1,
       (call_api (B := member_api) (OpList all_peers) member).2)
  ∧ let lost := call_api (B := member_api) (OpClaim (mkClaimAgentRequest "00000001" "coder")) unheard in
    lost.2 = Err "context deadline exceeded"
    ∧ select_agent_name "00000001" (w_db (world_of lost.1)) = Some "coder".
Proof.
  split; [|split; vm_compute; reflexivity].
  pose proof (http_refines_broker (M := laptop_machine) "100.64.0.7:5123" day0 (OpList all_peers) member) as H.
  fold member_api in H. destruct (call_api (B := member_api) (OpList all_peers) member) as [s' r].
  destruct H as [_ H]; [intros e He; by apply elem_of_nil in He|]. apply H; [|vm_compute; reflexivity|]; reflexivity.
Defined.

Definition second_planner : ClaimAgentRequest := mkClaimAgentRequest "00000001" "planner".

Lemma refused_claim_names_holder_witness :
  match (call_api (B := member_api) (OpClaim second_planner) member).2 with
  | Ok resp => claimr_HeldBySession resp ≠ ""
  | Err _ => False
  end.
Proof.
  destruct (call_api (B := member_api) (OpClaim second_planner) member) as [s' [resp|e]] eqn:Ec;
    [|apply (f_equal (λ x, is_ok x.2)) in Ec; vm_compute in Ec; discriminate Ec].
  cbn [snd]. apply (refused_claim_names_holder (M := laptop_machine) "100.64.0.7:5123" day0 second_planner member s' resp).
  - exact Ec.
  - apply (f_equal (λ x, match x.2 with Ok y => claimr_OK y | Err _ => true end)) in Ec.
    cbn [snd] in Ec. rewrite <-Ec. vm_compute. reflexivity.
Defined.
