(* ===== verification/Memory.v ===== *)
(** * Fleet memory ([fleet_dream.go], [buildFleetContext] of [fleet_mcp.go])

    The Markdown snapshot of the fleet and the files it is kept in, and the
    context a session is given when it starts.  Go ranges over a map of machines
    in an order of its own: [order] is that order, any arrangement of the keys. *)

From Stdlib Require Import Floats.SpecFloat.
From S2P Require Import Prelude GoStrings GoTime Types Store Prog World Broker Files Client.

(** ** Paths and ages *)

(** [home] is empty when it is unknown. *)
Definition shortenPath (home p : string) : string :=
  if HasPrefix p home then "~" +:+ str_drop (String.length home) p else p.

Definition fadd : spec_float → spec_float → spec_float := SFadd 53 1024.

(** [int(f)]: truncation towards zero. *)
Definition trunc_int (f : spec_float) : Z :=
  match f with
  | S754_finite s m e => let n := Z.shiftl (Zpos m) e in if s then - n else n
  | _ => 0
  end.

(** [Duration.Seconds], [.Minutes] and [.Hours], for [unit]. *)
Definition in_unit (unit d : Z) : spec_float :=
  fadd (float64 (Z.quot d unit)) (fdiv (float64 (Z.rem d unit)) (float64 unit)).

(** [time.Time.Sub] saturates. *)
Definition time_sub (t u : Z) : Z := Z.max min_int64 (Z.min max_int64 (t - u)).

(** [parse] is [time.Parse(time.RFC3339, _)]. *)
Definition timeAgoStr (parse : string → option Z) (now : Z) (iso : string) : string :=
  match parse iso with
  | None => "?"
  | Some t =>
      let d := time_sub now t in
      if d <? Minute then itoa (trunc_int (in_unit Second d)) +:+ "s"
      else if d <? Hour then itoa (trunc_int (in_unit Minute d)) +:+ "m"
      else if d <? 24 * Hour then itoa (trunc_int (in_unit Hour d)) +:+ "h"
      else itoa (trunc_int (fdiv (in_unit Hour d) (float64 24))) +:+ "d"
  end.

(** ** The snapshot ([buildFleetMemory]) *)
Definition fleetMemoryFile : string := "fleet-activity.md".

Definition nl : string := String (ascii_of_nat 10) "".

(** Lines, each ended by a newline. *)
Definition unlines (l : list string) : string := foldr (λ s r, s +:+ nl +:+ r) "" l.

(** [machines[p.Machine] = append(machines[p.Machine], p)]. *)
Definition on_machine (machine : string) (peers : list Peer) : list Peer :=
  List.filter (λ p, String.eqb (peer_Machine p) machine) peers.

Definition instance_line (home : string) (p : Peer) : string :=
  "- **" +:+ shortenPath home (peer_CWD p) +:+ "**"
  +:+ (let repo := if String.eqb (peer_GitRoot p) "" then ""
                   else List.last (Split (peer_GitRoot p) "/") "" in
       if String.eqb repo "" then "" else " (repo: " +:+ repo +:+ ")")
  +:+ (if String.eqb (peer_Summary p) "" then "" else ": " +:+ peer_Summary p).

Definition machine_lines (home : string) (peers : list Peer) (machine : string) : list string :=
  let mPeers := on_machine machine peers in
  ("### " +:+ machine +:+ " (" +:+ itoa (Z.of_nat (length mPeers)) +:+ " sessions)")
    :: (instance_line home <$> mPeers) ++ [""].

Definition type_label (t : string) : string :=
  if String.eqb t "peer_joined" then "joined"
  else if String.eqb t "peer_left" then "left"
  else if String.eqb t "summary_changed" then "working on"
  else if String.eqb t "message_sent" then "messaged"
  else t.

Definition activity_line (ago : string → string) (e : Event) : string :=
  "- " +:+ (if String.eqb (event_Machine e) "" then event_PeerID e else event_Machine e)
  +:+ " " +:+ type_label (event_Type e)
  +:+ (if negb (String.eqb (event_Data e) "") && String.eqb (event_Type e) "summary_changed"
       then ": " +:+ event_Data e else "")
  +:+ " (" +:+ ago (event_CreatedAt e) +:+ " ago)".

Definition activity_key (e : Event) : string := event_PeerID e +:+ ":" +:+ event_Type e.

(** The loop over the events: what it shows, with its two variables. *)
Fixpoint activity_loop (shown : Z) (seen : gset string) (events : list Event) : list Event :=
  match events with
  | [] => []
  | e :: rest =>
      if 15 <=? shown then []
      else if bool_decide (activity_key e ∈ seen) then activity_loop shown seen rest
      else e :: activity_loop (shown + 1) ({[ activity_key e ]} ∪ seen) rest
  end.

(** [order]: the keys of the machine map in the order of the range. *)
Definition buildFleetMemory (home : string) (parse : string → option Z) (now : Z)
    (order : list string) (peers : list Peer) (events : list Event) : string :=
  unlines
    (["---"; "name: fleet-activity";
      "description: Live fleet activity across all machines -- updated automatically by claude-peers dream";
      "type: project"; "---"; ""; "Last updated: " +:+ formatRFC3339 now; "";
      "## Active Claude Instances"; ""]
     ++ (match peers with
         | [] => ["No active instances."; ""]
         | _ => concat (machine_lines home peers <$> order)
         end)
     ++ ["## Recent Activity"; ""]
     ++ (match events with
         | [] => ["No recent events."]
         | _ => activity_line (timeAgoStr parse now) <$> activity_loop 0 ∅ events
         end)).

(** ** Where it is kept *)

(** [strings.ReplaceAll(s, a, b)] for single bytes. *)
Fixpoint replace_byte (a b : ascii) (s : string) : string :=
  match s with
  | "" => ""
  | String c s' => String (if Ascii.eqb c a then b else c) (replace_byte a b s')
  end.

(** [None] where indexing the empty key panics. *)
Definition claudeProjectKey (home : string) : option string :=
  let key := replace_byte "/" "-" home in
  match key with
  | "" => None
  | String c _ => Some (if Ascii.eqb c "-" then key else "-" +:+ key)
  end.

Definition claudeMemoryDir (home : string) : option string :=
  (λ key, path_join [home; ".claude"; "projects"; key; "memory"]) <$> claudeProjectKey home.

Definition index_entry : string :=
  "- [" +:+ fleetMemoryFile +:+ "](" +:+ fleetMemoryFile
    +:+ ") - Live fleet activity across all machines, auto-updated by claude-peers dream".

(** Errors of reading and writing are ignored. *)
Definition updateMemoryIndex (memDir : string) (fs : FileSys) : FileSys :=
  let indexPath := path_join [memDir; "MEMORY.md"] in
  let existing := match (ReadFile indexPath fs).2 with Ok d => d | Err _ => "" end in
  if Contains existing fleetMemoryFile then fs
  else
    let content := if String.eqb existing "" then "# Memory Index" +:+ nl +:+ nl else existing in
    (WriteFile indexPath (content +:+ index_entry +:+ nl) 420 fs).1.

(** The local half of [writeFleetMemory], and of [syncFleetMemory] for a body
    that was fetched; the errors of the calls are ignored. *)
Definition store_memory (memDir content : string) (fs : FileSys) : FileSys :=
  let fs1 := (MkdirAll memDir fs).1 in
  let fs2 := (WriteFile (path_join [memDir; fleetMemoryFile]) content 420 fs1).1 in
  updateMemoryIndex memDir fs2.

(** [syncFleetMemory]: nothing on an error or an empty body; [None] where it
    panics for want of a home directory. *)
Definition syncFleetMemory (home : string) (body : result string string) (fs : FileSys)
  : option FileSys :=
  match body with
  | Err _ | Ok "" => Some fs
  | Ok data => (λ dir, store_memory dir data fs) <$> claudeMemoryDir home
  end.

Section api.
Context {St : Type} {B : BrokerApi St}.

Definition fetchFleetState (st : St) : St * (list Peer * list Event) :=
  let '(st1, ps) := api_list (mkListPeersRequest "all" "" "/" "" "") st in
  let '(st2, es) := api_events 100 st1 in
  (st2, (match ps with Ok l => l | Err _ => [] end, match es with Ok l => l | Err _ => [] end)).

(** ** The context of a new session ([buildFleetContext]) *)
Definition peer_label (p : Peer) : string :=
  if String.eqb (peer_AgentName p) "" then "session " +:+ peer_ID p +:+ " (ephemeral)"
  else peer_AgentName p.

Definition context_peers (peers : list Peer) : string :=
  nl +:+ nl +:+ "--- FLEET CONTEXT (injected at session start) ---"
  +:+ nl +:+ itoa (Z.of_nat (length peers)) +:+ " active Claude session(s) on the network:"
  +:+ foldr (λ p r, nl +:+ "- " +:+ peer_label p +:+ " on " +:+ peer_Machine p
       +:+ (if String.eqb (peer_Summary p) "" then "" else " -- " +:+ peer_Summary p) +:+ r) "" peers.

Definition context_events (events : list Event) : string :=
  nl +:+ nl +:+ "Recent fleet events:"
  +:+ foldr (λ e r, nl +:+ "- [" +:+ event_Type e +:+ "] " +:+ event_PeerID e +:+ " "
       +:+ event_Data e +:+ r) "" events.

(** The first 500 bytes. *)
Definition memory_snippet (mem : string) : string :=
  if (500 <? String.length mem)%nat then str_take 500 mem +:+ "..." else mem.

Definition context_memory (body : string) : string :=
  let mem := memory_snippet body in
  if (10 <? String.length mem)%nat then nl +:+ nl +:+ "Fleet memory:" +:+ nl +:+ mem else "".

Definition buildFleetContext (st : St) : St * string :=
  let '(st1, ps) := api_list all_peers st in
  let '(st2, es) := api_events 5 st1 in
  let '(st3, m) := api_memory st2 in
  (st3, (match ps with Ok (p :: l) => context_peers (p :: l) | _ => "" end)
        +:+ (match es with Ok (e :: l) => context_events (e :: l) | _ => "" end)
        +:+ (match m with Ok body => context_memory body | Err _ => "" end)).
End api.

(** ** Lemmas *)

(** The events whose peer and type occur for the first time. *)
Fixpoint first_occurrences (events : list Event) : list Event :=
  match events with
  | [] => []
  | e :: rest =>
      e :: List.filter (λ e', negb (String.eqb (activity_key e') (activity_key e)))
             (first_occurrences rest)
  end.

Definition unseen (seen : gset string) (e : Event) : bool :=
  negb (bool_decide (activity_key e ∈ seen)).

Lemma unseen_cons seen e e' :
  unseen ({[ activity_key e ]} ∪ seen) e'
  = unseen seen e' && negb (String.eqb (activity_key e') (activity_key e)).
Proof.
  unfold unseen. rewrite <-negb_orb. f_equal.
  destruct (String.eqb_spec (activity_key e') (activity_key e)) as [->|Hne].
  - rewrite bool_decide_eq_true_2 by set_solver. by rewrite orb_true_r.
  - rewrite orb_false_r. apply bool_decide_ext. set_solver.
Qed.

Lemma activity_loop_spec shown seen events :
  activity_loop shown seen events
  = take (Z.to_nat (15 - shown)) (List.filter (unseen seen) (first_occurrences events)).
Proof.
  revert shown seen. induction events as [|e events IH]; intros shown seen; simpl.
  { by rewrite take_nil. }
  destruct (15 <=? shown) eqn:Es; zify_bool.
  { by replace (Z.to_nat (15 - shown)) with 0%nat by lia. }
  unfold unseen at 1. destruct (bool_decide (activity_key e ∈ seen)) eqn:Eb; simpl.
  - rewrite IH, bfilter_bfilter. f_equal. apply bfilter_ext, Forall_forall. intros e' _.
    unfold unseen. destruct (String.eqb_spec (activity_key e') (activity_key e)) as [->|].
    + by rewrite Eb.
    + simpl. by rewrite ?andb_true_r.
  - rewrite IH. replace (Z.to_nat (15 - shown)) with (S (Z.to_nat (15 - (shown + 1)))) by lia.
    simpl. do 2 f_equal. rewrite bfilter_bfilter. apply bfilter_ext, Forall_forall.
    intros e' _. by rewrite unseen_cons, andb_comm.
Qed.

Lemma first_occurrences_NoDup events : NoDup (activity_key <$> first_occurrences events).
Proof.
  induction events as [|e events IH]; [constructor|]. csimpl. constructor.
  - intros (e' & He & Hin)%list_elem_of_fmap. apply elem_of_bfilter in Hin as [Hk _].
    by rewrite He, String.eqb_refl in Hk.
  - by apply NoDup_bfilter.
Qed.

Lemma on_machine_elem m peers p : p ∈ on_machine m peers ↔ peer_Machine p = m ∧ p ∈ peers.
Proof. unfold on_machine. by rewrite elem_of_bfilter, String.eqb_eq. Qed.

Lemma on_machine_cons_ne m p peers :
  peer_Machine p ≠ m → on_machine m (p :: peers) = on_machine m peers.
Proof. intros Hne%String.eqb_neq. unfold on_machine. simpl. by rewrite Hne. Qed.

Lemma partition_machines order p peers :
  NoDup order → peer_Machine p ∈ order →
  concat ((λ m, on_machine m (p :: peers)) <$> order)
  ≡ₚ p :: concat ((λ m, on_machine m peers) <$> order).
Proof.
  induction order as [|m order IH]; intros Hnd Hin; [by apply elem_of_nil in Hin|].
  apply NoDup_cons in Hnd as [Hni Hnd]. rewrite !fmap_cons. cbn [concat].
  destruct (decide (peer_Machine p = m)) as [<-|Hne].
  - unfold on_machine at 1. simpl. rewrite String.eqb_refl. simpl. constructor.
    apply Permutation_app_head. replace ((λ m, on_machine m (p :: peers)) <$> order)
      with ((λ m, on_machine m peers) <$> order); [done|].
    apply list_fmap_ext. intros i m Hm. symmetry. apply on_machine_cons_ne.
    intros <-. apply Hni. by eapply list_elem_of_lookup_2.
  - rewrite on_machine_cons_ne by done. rewrite IH; [|done|].
    + symmetry. apply Permutation_middle.
    + by apply elem_of_cons in Hin as [?|?].
Qed.

(** What is written in front of a new entry. *)
Definition index_head (old : string) : string :=
  if String.eqb old "" then "# Memory Index" +:+ nl +:+ nl else old.

Lemma index_names_snapshot old :
  Contains (index_head old +:+ index_entry +:+ nl) fleetMemoryFile = true.
Proof.
  unfold index_entry. rewrite !string_app_assoc, <-(string_app_assoc (index_head old)).
  apply Contains_refl_app.
Qed.

Lemma updateMemoryIndex_run memDir fs old :
  holds fs (path_join [memDir; "MEMORY.md"]) old →
  write_fault fs (path_join [memDir; "MEMORY.md"]) = None →
  updateMemoryIndex memDir fs
  = if Contains old fleetMemoryFile then fs
    else put_file (path_join [memDir; "MEMORY.md"]) (index_head old +:+ index_entry +:+ nl) 420 fs.
Proof.
  intros Hold%readable Hw. unfold updateMemoryIndex. rewrite Hold. cbn [snd].
  destruct (Contains old fleetMemoryFile); [done|]. by rewrite WriteFile_ok.
Qed.

(** ** Properties *)

(** The activity section shows the first fifteen events that are new in peer
    and type, in their order: each pair once, and never more than fifteen. *)
Theorem activity_is_first_fifteen events :
  activity_loop 0 ∅ events = take 15 (first_occurrences events)
  ∧ NoDup (activity_key <$> activity_loop 0 ∅ events)
  ∧ (length (activity_loop 0 ∅ events) ≤ 15)%nat.
Proof.
  rewrite activity_loop_spec. rewrite bfilter_all by (by apply Forall_forall; intros e; set_solver).
  change (Z.to_nat (15 - 0)) with 15%nat. split; [done|]. split; [|rewrite length_take; lia].
  rewrite <-(firstn_map activity_key). eapply sublist_NoDup; [|apply sublist_take].
  apply first_occurrences_NoDup.
Qed.

(** Whatever order the machines are taken in, the snapshot has every session
    once. *)
Theorem snapshot_partitions_peers order peers :
  NoDup order → (∀ p, p ∈ peers → peer_Machine p ∈ order) →
  concat ((λ m, on_machine m peers) <$> order) ≡ₚ peers.
Proof.
  intros Hnd. induction peers as [|p peers IH]; intros Hin.
  - clear. induction order as [|m order IH]; [done|]. csimpl. by rewrite IH.
  - rewrite partition_machines by (try done; apply Hin; by left). constructor. apply IH.
    intros q Hq. apply Hin. by right.
Qed.

(** Writing the snapshot keeps what the index of the memory directory says,
    makes sure that it names the snapshot, and does so once only. *)
Theorem memory_index_kept memDir old fs :
  let index := path_join [memDir; "MEMORY.md"] in
  holds fs index old → write_fault fs index = None →
  let fs' := updateMemoryIndex memDir fs in
  (∃ head more, holds fs' index (head +:+ old +:+ more) ∧ (old ≠ "" → head = "")
      ∧ Contains (head +:+ old +:+ more) fleetMemoryFile = true)
  ∧ updateMemoryIndex memDir fs' = fs'.
Proof.
  intros index Hold Hw fs'. pose proof (updateMemoryIndex_run memDir fs old Hold Hw) as Hrun.
  destruct (Contains old fleetMemoryFile) eqn:Ec.
  - subst fs'. rewrite Hrun. split; [|done]. exists "", "".
    change ("" +:+ old +:+ "") with (old +:+ ""). by rewrite string_app_nil_r.
  - assert (∃ h, index_head old = h +:+ old ∧ (old ≠ "" → h = "")) as (h & Hh & Hnil).
    { unfold index_head. destruct (String.eqb_spec old "") as [->|]; [|by exists ""].
      eexists. split; [symmetry; apply string_app_nil_r|done]. }
    assert (read_fault fs index = None) as Hr.
    { unfold holds, ReadFile in Hold. simpl in Hold. by destruct (read_fault fs index). }
    assert (holds fs' index (index_head old +:+ index_entry +:+ nl)) as Hnew.
    { subst fs'. rewrite Hrun. by apply holds_put. }
    split.
    + exists h, (index_entry +:+ nl). rewrite <-string_app_assoc, <-Hh.
      split; [done|]. split; [done|]. apply index_names_snapshot.
    + assert (write_fault fs' index = None) as Hw' by (subst fs'; by rewrite Hrun).
      pose proof (updateMemoryIndex_run memDir fs' _ Hnew Hw') as Hrun'.
      by rewrite index_names_snapshot in Hrun'.
Qed.

(** A read error counts as an empty index: what the index said is overwritten. *)
Theorem index_lost_on_read_error memDir e fs :
  let index := path_join [memDir; "MEMORY.md"] in
  read_fault fs index = Some e → write_fault fs index = None →
  f_data <$> (files (updateMemoryIndex memDir fs) !! index)
  = Some ("# Memory Index" +:+ nl +:+ nl +:+ index_entry +:+ nl).
Proof.
  intros index Hr Hw. unfold updateMemoryIndex. fold index.
  assert (ReadFile index fs = (fs, Err e)) as -> by (unfold ReadFile; by rewrite Hr).
  cbn [snd]. change (Contains "" fleetMemoryFile) with false. cbv iota zeta.
  rewrite WriteFile_ok by done. unfold put_file. cbn [fst files set_files].
  by rewrite lookup_insert_eq.
Qed.

(** Without a home directory, a memory that was fetched makes the session
    panic. *)
Theorem no_home_panics body fs : body ≠ "" → syncFleetMemory "" (Ok body) fs = None.
Proof. by destruct body. Qed.

(** A home directory counts as a prefix of its namesakes: the sessions of
    another user are shown under a wrong path. *)
Theorem sibling_home_shortened :
  shortenPath "/home/al" "/home/alice/project" = "~ice/project".
Proof. done. Qed.

(** What a session is shown of the fleet memory is bounded. *)
Theorem snippet_bounded mem :
  (String.length (memory_snippet mem) ≤ 503)%nat
  ∧ ((String.length mem ≤ 500)%nat → memory_snippet mem = mem).
Proof.
  unfold memory_snippet. destruct (500 <? String.length mem)%nat eqn:E.
  - apply Nat.ltb_lt in E. split; [|lia]. rewrite string_length_app.
    pose proof (str_take_length 500 mem). simpl (String.length "..."). lia.
  - apply Nat.ltb_ge in E. split; [lia|done].
Qed.

(** ** Witnesses *)
Definition demo_peer (id machine : string) : Peer :=
  mkPeer id "" 1 machine "/home/dev" "" "" "" "" "" "" "".

Lemma snapshot_partitions_peers_witness :
  let peers := [demo_peer "a" "hub"; demo_peer "b" "laptop"; demo_peer "c" "hub"] in
  concat ((λ m, on_machine m peers) <$> ["laptop"; "hub"]) ≡ₚ peers.
Proof.
  intros peers. apply (snapshot_partitions_peers ["laptop"; "hub"] peers).
  - vm_decide.
  - intros p Hp. unfold peers in Hp. rewrite !elem_of_cons, elem_of_nil in Hp.
    destruct Hp as [->|[->|[->|[]]]]; vm_decide.
Defined.

Definition demo_memory_dir : string := "/home/dev/.claude/projects/-home-dev/memory".
Definition notes_disk : FileSys :=
  put_file (path_join [demo_memory_dir; "MEMORY.md"]) ("- [style](style.md)" +:+ nl) 420 blank_disk.

Lemma memory_index_kept_witness :
  updateMemoryIndex demo_memory_dir (updateMemoryIndex demo_memory_dir notes_disk)
  = updateMemoryIndex demo_memory_dir notes_disk.
Proof.
  destruct (memory_index_kept demo_memory_dir ("- [style](style.md)" +:+ nl) notes_disk) as [_ H];
    [done|done|]. exact H.
Defined.

(** The notes are there, and cannot be read just now. *)
Definition flaky_disk : FileSys :=
  mkFileSys (files notes_disk) 18 (λ _, None) (λ _, Some "input/output error") (λ _, None) (λ _, None)
    (λ _, None).

Lemma index_lost_on_read_error_witness :
  f_data <$> (files (updateMemoryIndex demo_memory_dir flaky_disk)
                !! path_join [demo_memory_dir; "MEMORY.md"])
  = Some ("# Memory Index" +:+ nl +:+ nl +:+ index_entry +:+ nl).
Proof. by apply (index_lost_on_read_error demo_memory_dir "input/output error" flaky_disk). Defined.

Lemma no_home_panics_witness : syncFleetMemory "" (Ok "## Active") blank_disk = None.
Proof. apply no_home_panics. discriminate. Defined.
