(* ===== verification/Dream.v ===== *)
(** * Keeping the fleet memory ([fleet_dream.go])

    [dream] and [dream-watch]: a snapshot is taken from the broker, written to
    the memory directory of this machine and pushed back to the broker, from
    where the sessions of other machines fetch it. *)

From S2P Require Import Prelude GoStrings GoTime Types Store Prog World Broker Dispatch Demo.
From S2P Require Import Files Client Memory.

(** ** Operations *)

(** Everything a command works on: its files and the other side. *)
Record Host (St : Type) : Type := mkHost { ho_files : FileSys; ho_peer : St }.
Arguments mkHost {St}.
Arguments ho_files {St}.
Arguments ho_peer {St}.

Section dream.
Context {St : Type} {B : BrokerApi St}.

(** [home] is the home directory, [parse] is [time.Parse(time.RFC3339, _)] and
    [order] the order in which Go ranges over the machines of the peers. *)
Context (home : string) (parse : string → option Z) (order : list Peer → list string).

(** The path, or [None] where it panics for want of a home directory. *)
Definition writeFleetMemory (content : string) (m : Host St) : option (Host St * string) :=
  match claudeMemoryDir home with
  | None => None
  | Some memDir =>
      let fs := store_memory memDir content (ho_files m) in
      let '(st, _) := api_set_memory content (ho_peer m) in
      Some (mkHost fs st, path_join [memDir; fleetMemoryFile])
  end.

(** What [cliDream], [consolidate], [dreamPollLoop] and the ticker have in
    common; also the numbers of peers and events. *)
Definition refresh (now : Z) (m : Host St) : option (Host St * (string * nat * nat)) :=
  let '(st, (peers, events)) := fetchFleetState (ho_peer m) in
  let content := buildFleetMemory home parse now (order peers) peers events in
  match writeFleetMemory content (mkHost (ho_files m) st) with
  | None => None
  | Some (m1, path) => Some (m1, (path, length peers, length events))
  end.

Definition cliDream (now : Z) (m : Host St) : option (Host St * list string) :=
  match refresh now m with
  | None => None
  | Some (m1, (path, peers, events)) =>
      Some (m1, ["[dream] Fleet memory updated: " +:+ path;
                 "[dream] " +:+ itoa (Z.of_nat peers) +:+ " peers, " +:+ itoa (Z.of_nat events) +:+ " events"])
  end.

(** ** [dream-watch] with NATS *)

(** What wakes the watcher: an event of the fleet, or the ticker. *)
Inductive Wake : Type :=
| WakeEvent (e : FleetEvent)
| WakeTick.

(** One wake-up, with the events collected since the last consolidation. *)
Definition on_wake (now : Z) (w : Wake) (events : list FleetEvent) (m : Host St)
  : option (Host St * list FleetEvent) :=
  match w with
  | WakeEvent e =>
      let events := events ++ [e] in
      if (30 <=? length events)%nat then (λ r, (r.1, [])) <$> refresh now m else Some (m, events)
  | WakeTick => (λ r, (r.1, [])) <$> refresh now m
  end.

Fixpoint watch (wakes : list (Z * Wake)) (events : list FleetEvent) (m : Host St)
  : option (Host St * list FleetEvent) :=
  match wakes with
  | [] => Some (m, events)
  | (now, w) :: rest =>
      match on_wake now w events m with
      | None => None
      | Some (m1, events1) => watch rest events1 m1
      end
  end.
End dream.

(** ** Lemmas *)
Lemma buildFleetMemory_nonempty home parse now order peers events :
  buildFleetMemory home parse now order peers events ≠ "".
Proof. by unfold buildFleetMemory. Qed.

Lemma store_memory_holds memDir content fs :
  let path := path_join [memDir; fleetMemoryFile] in
  write_fault fs path = None → read_fault fs path = None →
  holds (store_memory memDir content fs) path content.
Proof.
  intros path Hw Hr. unfold store_memory. cbn [MkdirAll fst]. fold path. rewrite WriteFile_ok by done.
  cbn [fst]. unfold updateMemoryIndex.
  destruct (Contains _ _); [by apply holds_put|].
  assert (path_join [memDir; "MEMORY.md"] ≠ path) as Hne.
  { intros Heq. apply path_join_inj in Heq; [discriminate|vm_decide|vm_decide]. }
  apply (touches_holds (eq (path_join [memDir; "MEMORY.md"])) _ _ path content
           (WriteFile_touches _ _ _ _)); [done|]. by apply holds_put.
Qed.

(** The requests of a session or a client do not touch the fleet memory. *)
Lemma play_keeps_memory {E : Env} reqs w :
  Forall (λ rq, ∀ c, rq ≠ RqSetMemory c) reqs →
  w_fleetMemory (play dispatch w reqs) = w_fleetMemory w.
Proof.
  revert w. induction reqs as [|rq reqs IH]; intros w; [done|].
  intros Hall. apply Forall_cons in Hall as [Hrq Hreqs].
  simpl. rewrite IH by done. set (same w w' := w_fleetMemory w' = w_fleetMemory w).
  assert (PreOrder same) as Hpo.
  { unfold same. split; [by intros x|]. intros x y z Hxy Hyz. congruence. }
  refine (run_all_acts same (dispatch rq) w _). apply dispatch_acts_world.
  - intros x y [_ Hm]. exact Hm.
  - intros f x _ _. unfold same, exec_step. destruct (env_fault _); [done|].
    by destruct (f (w_db x)) as [[]|].
  - intros c x ->. by destruct (Hrq c).
Qed.

Section properties.
Context {E : Env} (home : string) (parse : string → option Z) (order : list Peer → list string).

Lemma refresh_broker now fs (w : World) h r :
  refresh home parse order now (mkHost fs w) = Some (h, r) →
  ∃ peers events dir,
    (fetchFleetState w).2 = (peers, events) ∧ claudeMemoryDir home = Some dir
    ∧ r = (path_join [dir; fleetMemoryFile], length peers, length events)
    ∧ let content := buildFleetMemory home parse now (order peers) peers events in
      w_fleetMemory (ho_peer h) = content ∧ ho_files h = store_memory dir content fs.
Proof.
  unfold refresh, writeFleetMemory. cbn [ho_peer ho_files].
  destruct (fetchFleetState w) as [w1 [peers events]].
  destruct (claudeMemoryDir home) as [dir|]; [|done].
  destruct (api_set_memory _ w1) as [w2 u] eqn:Eset. intros [= <- <-].
  exists peers, events, dir. do 3 (split; [done|]). cbn [ho_peer ho_files]. split; [|done].
  revert Eset. cbn [api_set_memory broker_api]. unfold direct, setFleetMemory.
  rewrite run_act. intros [= <- _]. unfold exec_step.
  destruct (env_fault _); [done|]. by destruct (replace_kv _ _ _) as [[]|].
Qed.
End properties.

(** The events among the wake-ups. *)
Definition received (wakes : list (Z * Wake)) : list FleetEvent :=
  omap (λ w, match w.2 with WakeEvent e => Some e | WakeTick => None end) wakes.

Section watcher.
Context {St : Type} {B : BrokerApi St}.
Context (home : string) (parse : string → option Z) (order : list Peer → list string).
Context (Hhome : is_Some (claudeMemoryDir home)).

Lemma refresh_is_Some now (m : Host St) : is_Some (refresh home parse order now m).
Proof.
  unfold refresh, writeFleetMemory. destruct (fetchFleetState _) as [st [peers events]].
  destruct Hhome as [dir ->]. destruct (api_set_memory _ _). by eexists.
Qed.

Lemma on_wake_spec now w events (m : Host St) :
  (length events < 30)%nat →
  ∃ m' events', on_wake home parse order now w events m = Some (m', events')
    ∧ (length events' < 30)%nat ∧ events' `suffix_of` events ++ received [(now, w)]
    ∧ (w = WakeTick → events' = []).
Proof.
  intros Hlen. destruct (refresh_is_Some now m) as [r Hr]. unfold on_wake.
  destruct w as [e|].
  - rewrite length_app. simpl length. destruct (30 <=? length events + 1)%nat eqn:El.
    + rewrite Hr. do 2 eexists. split; [done|]. split; [simpl; lia|]. split; [apply suffix_nil|done].
    + apply Nat.leb_gt in El. do 2 eexists. split; [done|]. rewrite length_app.
      split; [simpl; lia|]. split; [reflexivity|done].
  - rewrite Hr. do 2 eexists. split; [done|]. split; [simpl; lia|]. split; [apply suffix_nil|done].
Qed.

Lemma watch_spec wakes events (m : Host St) :
  (length events < 30)%nat →
  ∃ m' waiting, watch home parse order wakes events m = Some (m', waiting)
    ∧ (length waiting < 30)%nat ∧ waiting `suffix_of` events ++ received wakes
    ∧ (snd <$> last wakes = Some WakeTick → waiting = []).
Proof.
  revert events m. induction wakes as [|[now w] rest IH]; intros events m Hlen.
  { exists m, events. rewrite app_nil_r. by repeat split. }
  destruct (on_wake_spec now w events m Hlen) as (m1 & events1 & Hw & Hlen1 & Hs1 & Ht).
  destruct (IH events1 m1 Hlen1) as (m2 & waiting & Hrest & Hlen2 & Hs2 & Hl).
  exists m2, waiting. simpl watch. rewrite Hw. split; [done|]. split; [done|]. split.
  - etrans; [exact Hs2|]. change (received ((now, w) :: rest)) with (received ([(now, w)] ++ rest)).
    unfold received at 2. rewrite omap_app, app_assoc. by apply suffix_app.
  - destruct rest as [|w' rest']; [|exact Hl]. intros [= ->].
    simpl in Hrest. injection Hrest as _ <-. by apply Ht.
Qed.
End watcher.

(** ** Properties *)

(** C31: The memory of the fleet travels: the snapshot that [dream] takes on one
    machine is what any other machine writes to its own memory directory when
    one of its sessions starts, whatever was asked of the broker in between and
    whatever statements the database refused, unless another snapshot was pushed. *)
Theorem snapshot_reaches_fleet {E : Env} home parse order now fs (w : World) h out reqs home2 fs2 dir2 :
  cliDream home parse order now (mkHost fs w) = Some (h, out) →
  Forall (λ rq, ∀ c, rq ≠ RqSetMemory c) reqs →
  claudeMemoryDir home2 = Some dir2 →
  let path := path_join [dir2; fleetMemoryFile] in
  write_fault fs2 path = None → read_fault fs2 path = None →
  ∃ peers events fs2',
    (fetchFleetState w).2 = (peers, events)
    ∧ syncFleetMemory home2 (api_memory (BrokerApi := @broker_api demo_env) (play dispatch (ho_peer h) reqs)).2 fs2 = Some fs2'
    ∧ holds fs2' path (buildFleetMemory home parse now (order peers) peers events).
Proof.
  intros Hdream Hreqs Hdir path Hw Hr. revert Hdream. unfold cliDream.
  destruct (refresh home parse order now (mkHost fs w)) as [[h' [[p np] ne]]|] eqn:Eref; [|done].
  intros [= -> _]. apply refresh_broker in Eref as (peers & events & dir & Hf & _ & _ & Hmem & _).
  exists peers, events. cbn [api_memory broker_api]. unfold direct, getFleetMemory. rewrite run_act.
  cbn [snd]. rewrite play_keeps_memory, Hmem by done.
  pose proof (buildFleetMemory_nonempty home parse now (order peers) peers events) as Hne.
  unfold syncFleetMemory. rewrite Hdir.
  destruct (buildFleetMemory _ _ _ _ _ _) as [|c content]; [done|].
  eexists. split; [done|]. split; [done|]. by apply store_memory_holds.
Qed.

(** The watcher never falls behind: fewer than thirty events wait, they are the
    latest ones, none after a tick of the clock, and where the home directory is
    known it goes on for ever. *)
Theorem watch_keeps_up {St : Type} {B : BrokerApi St} home parse order wakes (m : Host St) :
  is_Some (claudeMemoryDir home) →
  ∃ m' waiting, watch home parse order wakes [] m = Some (m', waiting)
    ∧ (length waiting < 30)%nat
    ∧ waiting `suffix_of` received wakes
    ∧ (snd <$> last wakes = Some WakeTick → waiting = []).
Proof.
  intros Hhome. apply (watch_spec home parse order Hhome wakes [] m). simpl. lia.
Qed.

(** ** Witnesses *)

(** Two machines of one fleet, and the machines of the peers in the order of
    the listing. *)
Definition machines_of (peers : list Peer) : list string := remove_dups (peer_Machine <$> peers).
Definition no_clock (_ : string) : option Z := None.
Definition dreamer : Host World := mkHost blank_disk (after [join "planner"]).

Definition dreamt : option (Host World * list string) :=
  cliDream (B := @broker_api demo_env) "/home/al" no_clock machines_of new_year dreamer.

Lemma snapshot_reaches_fleet_witness :
  match dreamt with
  | None => False
  | Some (h, out) =>
      ∃ fs2', syncFleetMemory "/home/bo"
                (api_memory (BrokerApi := @broker_api demo_env) (play (@dispatch demo_env) (ho_peer h) [join "builder"])).2 blank_disk = Some fs2'
  end.
Proof.
  destruct dreamt as [[h out]|] eqn:Hd; [|vm_compute in Hd; discriminate Hd].
  unfold dreamt, dreamer in Hd.
  destruct (snapshot_reaches_fleet "/home/al" no_clock machines_of new_year blank_disk
              (after [join "planner"]) h out [join "builder"] "/home/bo" blank_disk
              "/home/bo/.claude/projects/-home-bo/memory" Hd) as (peers & events & fs2' & _ & Hs & _).
  - repeat constructor. intros c. discriminate.
  - reflexivity.
  - reflexivity.
  - reflexivity.
  - exists fs2'. exact Hs.
Defined.

Definition fleet_event (ty : string) : FleetEvent := mkFleetEvent ty "" "" "" "" "" "".

Lemma watch_keeps_up_witness :
  ∃ m' waiting,
    watch (B := @broker_api demo_env) "/home/al" no_clock machines_of
      [(0, WakeEvent (fleet_event "peer_left")); (0, WakeTick)] [] dreamer = Some (m', waiting)
    ∧ waiting = [].
Proof.
  destruct (watch_keeps_up (B := @broker_api demo_env) "/home/al" no_clock machines_of
              [(0, WakeEvent (fleet_event "peer_left")); (0, WakeTick)] dreamer)
    as (m' & waiting & H & _ & _ & Hlast); [by eexists|].
  exists m', waiting. split; [exact H|]. by apply Hlast.
Defined.
