(* ===== verification/Nats.v ===== *)
(** * The NATS connection ([fleet_nats.go], [fleet_nats_auth.go])

    What the broker and [dream-watch] ask of the NATS library, in what order,
    and when they give a connection back.  The library is the function [answer]:
    the error of a call, if it fails. *)

From S2P Require Import Prelude GoStrings GoTime Files Config KeyFiles Memory.

(** ** Calls *)
Definition streamName : string := "FLEET".
Definition fleetSubjects : list string := ["fleet.>"].

(** The options of [natsConnectOptions]; the wait is a duration. *)
Record ConnectOptions : Type := mkConnectOptions {
  co_Name : string;
  co_ReconnectWait : Z;
  co_MaxReconnects : Z;
  co_Auth : option NatsAuth;
}.

(** The limits of [nats.StreamConfig]; ages are durations, sizes bytes. *)
Record StreamConfig : Type := mkStreamConfig {
  sc_Name : string;
  sc_Subjects : list string;
  sc_MaxAge : Z;
  sc_MaxBytes : Z;
  sc_MaxMsgsPerSubject : Z;
  sc_Duplicates : Z;
  sc_MaxMsgSize : Z;
}.

Definition streamCfg : StreamConfig :=
  mkStreamConfig streamName fleetSubjects (24 * Hour) (256 * 1024 * 1024) 10000 (2 * Minute) (32 * 1024).

Inductive NatsCall : Type :=
| Connect (url : string) (opts : ConnectOptions)
| JetStream
| StreamInfo (stream : string)
| AddStream (cfg : StreamConfig)
| UpdateStream (cfg : StreamConfig)
| DeleteConsumer (stream name : string)
| Subscribe (subject durable : string) (policy : list string)
| Drain
| CloseConn.

Definition natsConnectOptions (name : string) (auth : option NatsAuth) : ConnectOptions :=
  mkConnectOptions name (2 * Second) (-1) auth.

(** What the code reads of [nats.ConsumerInfo]. *)
Record ConsumerInfo : Type := mkConsumerInfo {
  ci_NumPending : Z;
  ci_DeliveredStream : Z;
  ci_DeliveredLast : option Z;
}.

Section nats.
Context (answer : NatsCall → option string).

Definition works (c : NatsCall) : bool := match answer c with None => true | Some _ => false end.

(** ** The publisher of the broker ([newNATSPublisher]) *)
Definition stale_consumer (now : Z) (info : ConsumerInfo) : bool :=
  (ci_NumPending info =? 0) && (0 <? ci_DeliveredStream info)
  && match ci_DeliveredLast info with
     | Some last => 24 * Hour <? time_sub now last
     | None => false
     end.

(** The consumers with the answers of [ConsumerInfo]. *)
Fixpoint cleanupStaleConsumers (now : Z) (consumers : list (string * option ConsumerInfo))
  : list NatsCall :=
  match consumers with
  | [] => []
  | (name, Some info) :: rest =>
      if stale_consumer now info then DeleteConsumer streamName name :: cleanupStaleConsumers now rest
      else cleanupStaleConsumers now rest
  | (_, None) :: rest => cleanupStaleConsumers now rest
  end.

(** A missing stream is created; an update that fails is only logged. *)
Definition ensure_stream : list NatsCall * bool :=
  if works (StreamInfo streamName) then ([StreamInfo streamName; UpdateStream streamCfg], true)
  else ([StreamInfo streamName; AddStream streamCfg], works (AddStream streamCfg)).

(** The calls made, and whether a publisher is returned. *)
Definition newNATSPublisher (c : Config) (auth : option NatsAuth) (now : Z)
    (consumers : list (string * option ConsumerInfo)) : list NatsCall * bool :=
  let conn := Connect (natsURL c) (natsConnectOptions "claude-peers-broker" auth) in
  if negb (works conn) then ([conn], false)
  else if negb (works JetStream) then ([conn; JetStream; CloseConn], false)
  else
    let '(setup, ok) := ensure_stream in
    if ok then ([conn; JetStream] ++ setup ++ cleanupStaleConsumers now consumers, true)
    else ([conn; JetStream] ++ setup ++ [CloseConn], false).

(** [close] on a publisher, or on nil. *)
Definition close_publisher (connected : bool) : list NatsCall :=
  if connected then [Drain; CloseConn] else [].

(** ** The subscription of [dream-watch] ([subscribeFleet]) *)
Definition subscribeFleet (c : Config) (auth : option NatsAuth) (consumerName : string)
    (opts : list string) : list NatsCall * bool :=
  let conn := Connect (natsURL c) (natsConnectOptions ("claude-peers-" +:+ consumerName) auth) in
  if negb (works conn) then ([conn], false)
  else if negb (works JetStream) then ([conn; JetStream; CloseConn], false)
  else
    let policy := match opts with [] => ["DeliverNew"] | _ => opts end in
    let sub := Subscribe "fleet.>" consumerName policy in
    if works sub then ([conn; JetStream; sub], true)
    else ([conn; JetStream; sub; CloseConn], false).
End nats.

(** ** Lemmas *)
Definition is_close (c : NatsCall) : bool := match c with CloseConn => true | _ => false end.
Definition is_connect (c : NatsCall) : bool := match c with Connect _ _ => true | _ => false end.

(** Connections opened less those closed. *)
Definition open_connections (answer : NatsCall → option string) (calls : list NatsCall) : Z :=
  Z.of_nat (length (List.filter (λ c, is_connect c && works answer c) calls))
  - Z.of_nat (length (List.filter is_close calls)).

Lemma cleanup_only_deletes now consumers call :
  call ∈ cleanupStaleConsumers now consumers →
  ∃ name info, call = DeleteConsumer streamName name ∧ (name, Some info) ∈ consumers
               ∧ stale_consumer now info = true.
Proof.
  induction consumers as [|[name [info|]] rest IH]; simpl; [by intros ?%elem_of_nil| |].
  - destruct (stale_consumer now info) eqn:Es.
    + intros [->|Hin]%elem_of_cons; [exists name, info; by split_and!; [|left|]|].
      destruct (IH Hin) as (n & i & ? & ? & ?). exists n, i. by split_and!; [|right|].
    + intros Hin. destruct (IH Hin) as (n & i & ? & ? & ?). exists n, i. by split_and!; [|right|].
  - intros Hin. destruct (IH Hin) as (n & i & ? & ? & ?). exists n, i. by split_and!; [|right|].
Qed.

Lemma cleanup_opens_nothing answer now consumers :
  open_connections answer (cleanupStaleConsumers now consumers) = 0.
Proof.
  induction consumers as [|[name [info|]] rest IH]; simpl; [done| |done].
  by destruct (stale_consumer now info).
Qed.

Lemma open_connections_app answer l1 l2 :
  open_connections answer (l1 ++ l2) = open_connections answer l1 + open_connections answer l2.
Proof. unfold open_connections. rewrite !List.filter_app, !length_app. lia. Qed.

(** ** Properties *)

(** A connection is handed out or given back: whatever call fails, the broker
    and the watcher hold one connection when they say so and none otherwise. *)
Theorem nats_connection_accounted answer c auth now consumers name opts :
  (let '(calls, ok) := newNATSPublisher answer c auth now consumers in
   open_connections answer calls = (if ok then 1 else 0)
   ∧ open_connections answer (calls ++ close_publisher ok) = 0)
  ∧ (let '(calls, ok) := subscribeFleet answer c auth name opts in
     open_connections answer calls = (if ok then 1 else 0)).
Proof.
  split.
  - assert (∀ ok, open_connections answer (close_publisher ok) = if ok then -1 else 0) as Hc by by intros [].
    destruct (newNATSPublisher answer c auth now consumers) as [calls ok] eqn:E.
    enough (open_connections answer calls = (if ok then 1 else 0)) as H.
    { split; [done|]. rewrite open_connections_app, H, Hc. by destruct ok. }
    revert E. unfold newNATSPublisher, ensure_stream.
    destruct (works answer (Connect _ _)) eqn:Ew; [|intros [= <- <-]]; simpl.
    2: { unfold open_connections. simpl. by rewrite Ew. }
    destruct (works answer JetStream) eqn:Ej; simpl; [|intros [= <- <-]].
    2: { unfold open_connections. simpl. by rewrite Ew. }
    destruct (works answer (StreamInfo streamName)) eqn:Es; [|destruct (works answer (AddStream streamCfg)) eqn:Ea];
      intros [= <- <-]; pose proof (cleanup_opens_nothing answer now consumers) as Hn;
      unfold open_connections in *; simpl; rewrite Ew; simpl; lia.
  - destruct (subscribeFleet answer c auth name opts) as [calls ok] eqn:E. revert E. unfold subscribeFleet.
    destruct (works answer (Connect _ _)) eqn:Ew; [|intros [= <- <-]]; simpl.
    2: { unfold open_connections. simpl. by rewrite Ew. }
    destruct (works answer JetStream) eqn:Ej; simpl; [|intros [= <- <-]].
    2: { unfold open_connections. simpl. by rewrite Ew. }
    destruct (works answer (Subscribe _ _ _)) eqn:Es; intros [= <- <-];
      unfold open_connections; simpl; by rewrite Ew.
Qed.

(** The broker deletes only consumers that have caught up and were idle for more
    than a day. *)
Theorem only_idle_consumers_deleted answer c auth now consumers stream name :
  DeleteConsumer stream name ∈ (newNATSPublisher answer c auth now consumers).1 →
  stream = streamName
  ∧ ∃ info last, (name, Some info) ∈ consumers ∧ ci_NumPending info = 0
      ∧ ci_DeliveredLast info = Some last ∧ 24 * Hour < time_sub now last.
Proof.
  intros Hin. assert (DeleteConsumer stream name ∈ cleanupStaleConsumers now consumers) as Hd.
  { revert Hin. unfold newNATSPublisher, ensure_stream.
    destruct (works answer (Connect _ _)), (works answer JetStream), (works answer (StreamInfo streamName)),
      (works answer (AddStream streamCfg)); simpl;
      rewrite ?elem_of_cons, ?elem_of_nil; naive_solver. }
  apply cleanup_only_deletes in Hd as (n & info & [= -> ->] & Hc & Hs). split; [done|].
  exists info. unfold stale_consumer in Hs. destruct (ci_DeliveredLast info) as [last|]; [|by rewrite andb_false_r in Hs].
  exists last. repeat (apply andb_true_iff in Hs as [Hs ?]). split_and!; try done; lia.
Qed.

(** ** Witness *)
Definition idle_consumer : ConsumerInfo := mkConsumerInfo 0 12 (Some 0).

Lemma only_idle_consumers_deleted_witness :
  24 * Hour < time_sub (25 * Hour) 0.
Proof.
  destruct (only_idle_consumers_deleted (λ _, None) demo_config None (25 * Hour)
              [("dream-watch", Some idle_consumer)] streamName "dream-watch")
    as (_ & info & last & Hin & _ & Hl & Hlt).
  - vm_compute. repeat (apply elem_of_list_further || apply elem_of_list_here || left || right).
  - apply list_elem_of_singleton in Hin. injection Hin as ->. injection Hl as <-. exact Hlt.
Defined.
