(* ===== verification/Tools.v ===== *)
(** * The MCP server of a session ([fleet_mcp.go], [runServer])

    The requests a session receives on its standard input and the messages it
    writes: the handshake, the list of tools, the tool calls with their texts,
    and the channel notifications of the push loop.  Requests, pushes and
    heartbeats take turns in any order. *)

From S2P Require Import Prelude GoStrings GoTime Types Store Prog World Broker Client Json Memory.

(** ** Answers of tools ([toolResult], [toolError]) *)
Inductive ToolAnswer : Type :=
| ToolText (text : string)
| ToolFailure (text : string)
| UnknownTool (name : string).

Definition text_content (text : string) : Json :=
  JArr [JObj [("type", JStr "text"); ("text", JStr text)]].

Definition tool_message (id : option Json) (a : ToolAnswer) : RpcMessage :=
  match a with
  | ToolText text => RpcResult id (JObj [("content", text_content text)])
  | ToolFailure text => RpcResult id (JObj [("content", text_content text); ("isError", JBool true)])
  | UnknownTool name => RpcError id (-32601) ("Unknown tool: " +:+ name)
  end.

(** ** [list_peers] *)

(** [writePeerRow], with the newlines that end its lines. *)
Definition writePeerRow (p : Peer) (isSelf : bool) : string :=
  (if String.eqb (peer_AgentName p) ""
   then "session " +:+ peer_ID p +:+ " on " +:+ peer_Machine p
          +:+ " (ephemeral -- not addressable by name)"
   else peer_AgentName p +:+ " (agent) on " +:+ peer_Machine p +:+ " [session " +:+ peer_ID p +:+ "]")
  +:+ (if isSelf then "  ← this session" else "") +:+ nl
  +:+ (if String.eqb (peer_Project p) "" then ""
       else "  Project: " +:+ peer_Project p
              +:+ (if String.eqb (peer_Branch p) "" then "" else " [" +:+ peer_Branch p +:+ "]") +:+ nl)
  +:+ "  CWD: " +:+ peer_CWD p +:+ nl
  +:+ (if String.eqb (peer_Summary p) "" then "" else "  Summary: " +:+ peer_Summary p +:+ nl)
  +:+ "  Last seen: " +:+ peer_LastSeen p +:+ nl +:+ nl.

(** The index of the session in the list; [None] for -1. *)
Fixpoint self_index (myID : string) (peers : list Peer) : option nat :=
  match peers with
  | [] => None
  | p :: rest => if String.eqb (peer_ID p) myID then Some O else S <$> self_index myID rest
  end.

(** The rows in the order they are written, with their marker: the session
    itself first. *)
Definition peer_rows (myID : string) (peers : list Peer) : list (Peer * bool) :=
  match self_index myID peers with
  | Some i =>
      match peers !! i with
      | Some self => (self, true) :: ((λ p, (p, false)) <$> (take i peers ++ drop (S i) peers))
      | None => (λ p, (p, false)) <$> peers
      end
  | None => (λ p, (p, false)) <$> peers
  end.

Definition write_rows (rows : list (Peer * bool)) : string :=
  foldr (λ r s, writePeerRow r.1 r.2 +:+ s) "" rows.

Definition not_in_registry (myID : string) : string :=
  "WARNING: this session [" +:+ myID +:+ "] is not in the peer registry. "
  +:+ "Registration may have failed; messages addressed to this session "
  +:+ "will not deliver. Try restarting the claude-peers MCP server." +:+ nl.

Definition list_text (myID scope : string) (peers : list Peer) : string :=
  match peers with
  | [] => "No peers registered (scope: " +:+ scope +:+ "). The broker has no sessions at all."
  | _ =>
      match peers, self_index myID peers with
      | [p], Some O =>
          "Only this session is registered (scope: " +:+ scope +:+ ", no other peers)." +:+ nl +:+ nl
          +:+ writePeerRow p true
      | _, i =>
          "Found " +:+ itoa (Z.of_nat (length peers)) +:+ " peer(s) (scope: " +:+ scope +:+ "):"
          +:+ nl +:+ nl +:+ write_rows (peer_rows myID peers)
          +:+ match i with Some _ => "" | None => not_in_registry myID end
      end
  end.

(** ** Other texts; [quote] is [%q] *)
Definition sent_text (quote : string → string) (to : string) (resp : SendMessageResponse) : string :=
  match sendr_DeliveryStatus resp with
  | DeliveryStatusBound =>
      "Message sent to " +:+ to +:+ " (recipient is online, message is bound for delivery)."
  | DeliveryStatusQueuedOffline =>
      "Agent " +:+ quote to +:+ " is offline. Message queued -- will deliver when that agent reconnects."
  | DeliveryStatusQueuedUnknown =>
      "WARNING: no session has ever claimed agent name " +:+ quote to
      +:+ " on this broker. Message is queued but may sit indefinitely if the name is wrong. Run list_peers to verify the recipient's agent name."
  | NoStatus =>
      if sendr_Queued resp then
        "Message queued for agent " +:+ quote to
        +:+ " (no live session holds it right now -- will deliver on reconnect)."
      else "Message sent to " +:+ to
  end.

Definition sender_of (m : Message) : string :=
  if String.eqb (msg_FromAgent m) "" then msg_FromSession m else msg_FromAgent m.

(** The first session of the list with the id. *)
Definition peer_by_id (id : string) (peers : list Peer) : option Peer :=
  find (λ p, String.eqb (peer_ID p) id) peers.

Definition message_text (peers : list Peer) (m : Message) : string :=
  let from := peer_by_id (msg_FromSession m) peers in
  let fromSummary := match from with Some p => peer_Summary p | None => "" end in
  "From " +:+ sender_of m +:+ " on " +:+ match from with Some p => peer_Machine p | None => "" end
  +:+ (if String.eqb fromSummary "" then "" else " (" +:+ fromSummary +:+ ")")
  +:+ " at " +:+ msg_SentAt m +:+ ":" +:+ nl +:+ msg_Text m +:+ nl +:+ nl +:+ "---" +:+ nl +:+ nl.

Definition messages_text (peers : list Peer) (msgs : list Message) : string :=
  itoa (Z.of_nat (length msgs)) +:+ " new message(s):" +:+ nl +:+ nl
  +:+ foldr (λ m s, message_text peers m +:+ s) "" msgs.

Definition refused_claim (quote : string → string) (name : string) (resp : ClaimAgentResponse) : string :=
  "Cannot claim " +:+ quote name +:+ ": " +:+ claimr_Error resp
  +:+ (if String.eqb (claimr_HeldBySession resp) "" then ""
       else nl +:+ "  held by session " +:+ claimr_HeldBySession resp +:+ " on " +:+ claimr_HeldByMachine resp
              +:+ " (cwd: " +:+ claimr_HeldByCWD resp +:+ ")" +:+ nl +:+ "  started: "
              +:+ claimr_HeldBySince resp).

(** ** Tool calls ([handleToolCall]) *)

(** The parameters after decoding; [call_Arg] reads a string argument, empty
    when it is missing. *)
Record ToolCall : Type := mkToolCall { call_Name : string; call_Arg : string → string }.

(** What [runServer] knows of the place it runs in. *)
Record Place : Type := mkPlace { pl_CWD : string; pl_GitRoot : string; pl_Machine : string }.

Section tools.
Context {St : Type} {B : BrokerApi St} (quote : string → string) (here : Place).

Definition call_list_peers (myID scope : string) (st : St) : St * ToolAnswer :=
  let req := mkListPeersRequest scope (if String.eqb scope "machine" then pl_Machine here else "")
               (pl_CWD here) (pl_GitRoot here) "" in
  match api_list req st with
  | (st1, Err e) => (st1, ToolFailure ("Error listing peers: " +:+ e))
  | (st1, Ok peers) => (st1, ToolText (list_text myID scope peers))
  end.

Definition call_send_message (myID to message : string) (st : St) : St * ToolAnswer :=
  if String.eqb to "" then (st, ToolFailure "to is required (agent name or session id)")
  else
    match send_to myID to message st with
    | (st1, Err e) => (st1, ToolFailure ("Error sending message: " +:+ e))
    | (st1, Ok resp) =>
        (st1, if sendr_OK resp then ToolText (sent_text quote to resp)
              else ToolFailure ("Failed to send: " +:+ sendr_Error resp))
    end.

Definition call_set_summary (myID summary : string) (st : St) : St * ToolAnswer :=
  match api_set_summary (mkSetSummaryRequest myID summary) st with
  | (st1, Err e) => (st1, ToolFailure ("Error setting summary: " +:+ e))
  | (st1, Ok _) => (st1, ToolText ("Summary updated: " +:+ quote summary))
  end.

Definition call_claim (name : string) (s : Session) (st : St) : St * (Session * ToolAnswer) :=
  if String.eqb name "" then (st, (s, ToolFailure "name is required"))
  else
    match api_claim (mkClaimAgentRequest (sn_id s) name) st with
    | (st1, Err e) => (st1, (s, ToolFailure ("Error claiming agent name: " +:+ e)))
    | (st1, Ok resp) =>
        if claimr_OK resp then
          (st1, (claimed_session name s,
             ToolText ("Claimed agent name: " +:+ name
               +:+ ". Other sessions can now address this session as " +:+ quote name
               +:+ " across restarts (as long as this session holds the name).")))
        else (st1, (s, ToolFailure (refused_claim quote name resp)))
    end.

Definition call_check_messages (myID : string) (st : St) : St * ToolAnswer :=
  match api_poll (mkPollMessagesRequest myID) st with
  | (st1, Err e) => (st1, ToolFailure ("Error checking messages: " +:+ e))
  | (st1, Ok resp) =>
      match pollr_Messages resp with
      | [] => (st1, ToolText "No new messages.")
      | msgs =>
          let '(st2, r) := api_list all_peers st1 in
          let peers := match r with Ok l => l | Err _ => [] end in
          (ack_all myID msgs st2, ToolText (messages_text peers msgs))
      end
  end.

Definition handleToolCall (call : ToolCall) (s : Session) (st : St) : St * (Session * ToolAnswer) :=
  let myID := sn_id s in
  let same '(st', a) := (st', (s, a)) in
  if String.eqb (call_Name call) "list_peers" then same (call_list_peers myID (call_Arg call "scope") st)
  else if String.eqb (call_Name call) "send_message" then
    same (call_send_message myID (call_Arg call "to") (call_Arg call "message") st)
  else if String.eqb (call_Name call) "set_summary" then
    same (call_set_summary myID (call_Arg call "summary") st)
  else if String.eqb (call_Name call) "claim_agent_name" then call_claim (call_Arg call "name") s st
  else if String.eqb (call_Name call) "check_messages" then same (call_check_messages myID st)
  else (st, (s, UnknownTool (call_Name call))).
End tools.
