(* ===== verification/StateFile.v ===== *)
(** * The session state file ([fleet_server.go])

    The file in which a session tells the process around it who it is:
    where it lives, how it is replaced as a whole, and that it follows the state
    the session keeps ([Client.SessionState]).  Its JSON encoding is a parameter
    with its round trip. *)

From S2P Require Import Prelude GoStrings GoTime DemoJwt Types Store Prog World Broker Files Client.

(** ** Operations *)

(** [json.MarshalIndent] and [json.Unmarshal] of the struct. *)
Class StateCodec : Type := {
  marshal_state : SessionState → result string string;
  unmarshal_state : string → result string SessionState;
}.

Class StateCodecLaws (C : StateCodec) : Prop := {
  state_roundtrip s : ∃ data, marshal_state s = Ok data ∧ unmarshal_state data = Ok s;
}.

(** [home] is [None] when it is unknown. *)
Definition sessionStateDir (xdg : string) (home : option string) : string :=
  if negb (String.eqb xdg "") then path_join [xdg; "claude-peers"]
  else match home with Some h => path_join [h; ".cache"; "claude-peers"] | None => "" end.

Definition state_name (ppid : Z) : string := "current-" +:+ itoa ppid +:+ ".json".

(** Temporary file, then rename; a failed rename takes the temporary file away
    again.  The mode is 0644. *)
Definition replace_file (path data : string) (fs : FileSys) : FileSys * bool :=
  let tmp := path +:+ ".tmp" in
  match WriteFile tmp data 420 fs with
  | (fs1, Err _) => (fs1, false)
  | (fs1, Ok _) =>
      match Rename tmp path fs1 with
      | (fs2, Err _) => ((Remove tmp fs2).1, false)
      | (fs2, Ok _) => (fs2, true)
      end
  end.

Section state.
Context {C : StateCodec}.

(** The path, or the empty string when the file could not be written. *)
Definition writeSessionStateFile (dir : string) (ppid : Z) (state : SessionState) (fs : FileSys)
  : FileSys * string :=
  if String.eqb dir "" then (fs, "")
  else
    match MkdirAll dir fs with
    | (fs1, Err _) => (fs1, "")
    | (fs1, Ok _) =>
        let path := path_join [dir; state_name ppid] in
        match marshal_state state with
        | Err _ => (fs1, "")
        | Ok data =>
            let '(fs2, ok) := replace_file path data fs1 in (fs2, if ok then path else "")
        end
    end.

Definition named_state (name : string) (s : SessionState) : SessionState :=
  mkSessionState (st_SessionID s) name (st_ConfiguredAgentName s) false (st_CWD s) (st_Machine s)
    (st_PID s) (st_ParentPID s) (st_RegisteredAt s).

Definition updateSessionStateAgentName (path newName : string) (fs : FileSys) : FileSys :=
  if String.eqb path "" then fs
  else
    match (ReadFile path fs).2 with
    | Err _ => fs
    | Ok data =>
        match unmarshal_state data with
        | Err _ => fs
        | Ok state =>
            match marshal_state (named_state newName state) with
            | Err _ => fs
            | Ok out => (replace_file path out fs).1
            end
        end
    end.

(** The file at [path] says what the session knows of itself. *)
Definition in_sync (path : string) (s : Session) (fs : FileSys) : Prop :=
  ∃ data, holds fs path data ∧ unmarshal_state data = Ok (sn_state s).
End state.

(** ** Lemmas *)
Lemma tmp_ne path : path +:+ ".tmp" ≠ path.
Proof.
  intros H. apply (f_equal String.length) in H. rewrite string_length_app in H. simpl in H. lia.
Qed.

Lemma state_name_plain ppid : plain_name (state_name ppid) = true.
Proof.
  assert (∀ s, str_all (λ c, negb (Ascii.eqb c "/")) s = true → IndexByte s "/" = None) as Hno.
  { induction s as [|c s IH]; [done|]. cbn [str_all IndexByte]. intros [Hc Hs]%andb_true_iff.
    apply negb_true_iff in Hc. by rewrite Hc, IH. }
  assert (∀ n, 0 ≤ n → str_all (λ c, negb (Ascii.eqb c "/")) (utoa n) = true) as Hu.
  { intros n Hn. destruct (utoa_spec n Hn) as (_ & Hd & _). revert Hd. apply str_all_impl.
    intros c Hc. destruct (Ascii.eqb_spec c "/") as [->|]; [discriminate Hc|done]. }
  unfold plain_name. assert (IndexByte (state_name ppid) "/" = None) as ->; [|done].
  apply Hno. unfold state_name, itoa. rewrite !str_all_app.
  destruct (ppid <? 0) eqn:E; zify_bool; rewrite ?str_all_app, Hu by lia; done.
Qed.

(** The name of a state file is that of no file with another last letter. *)
Lemma state_path_ends dir ppid p c :
  c ≠ "n"%char → path_join [dir; state_name ppid] ≠ p +:+ String c "".
Proof.
  assert (∀ s t a b, s +:+ String a "" = t +:+ String b "" → a = b) as Hlast.
  { induction s as [|x s IH]; intros [|y t] a b; simpl; [by intros [= ->]|..].
    - intros [= -> H]. destruct t; discriminate H.
    - intros [= -> H]. destruct s; discriminate H.
    - intros [= -> H]. by apply IH in H. }
  intros Hc Heq. rewrite path_join_plain in Heq by apply state_name_plain. unfold state_name in Heq.
  change ".json" with (".jso" +:+ "n") in Heq. rewrite <-!string_app_assoc in Heq.
  apply Hlast in Heq. congruence.
Qed.

Lemma WriteFile_other path p data perm fs :
  p ≠ path → files (WriteFile p data perm fs).1 !! path = files fs !! path.
Proof. intros Hne. by apply (WriteFile_touches p). Qed.

Lemma replace_file_cases path data fs :
  (∃ fs', replace_file path data fs = (fs', false) ∧ files fs' !! path = files fs !! path)
  ∨ ∃ fs' f, replace_file path data fs = (fs', true)
      ∧ files fs' !! path = Some f ∧ f_data f = data ∧ read_fault fs' = read_fault fs.
Proof.
  pose proof (tmp_ne path) as Hne. unfold replace_file.
  destruct (WriteFile (path +:+ ".tmp") data 420 fs) as [fs1 [[]|e]] eqn:Ew.
  - apply WriteFile_inv in Ew as ->. unfold Rename, put_file.
    cbn [rename_fault files set_files]. rewrite lookup_insert_eq.
    destruct (rename_fault fs path) as [e|].
    + left. eexists. split; [done|]. destruct (Remove_touches (path +:+ ".tmp") (put_file (path +:+ ".tmp") data 420 fs))
        as (_ & _ & _ & _ & _ & _ & Hp). unfold put_file in Hp. rewrite Hp by done.
      by apply lookup_insert_ne.
    + right. eexists _, _. split; [done|]. cbn [files set_files]. by rewrite lookup_insert_eq.
  - left. exists fs1. split; [done|]. pose proof (WriteFile_other path _ data 420 fs Hne) as Ho.
    by rewrite Ew in Ho.
Qed.

Lemma replace_file_healthy path data fs :
  write_fault fs (path +:+ ".tmp") = None → rename_fault fs path = None →
  ∃ fs' f, replace_file path data fs = (fs', true)
    ∧ files fs' !! path = Some f ∧ f_data f = data ∧ read_fault fs' = read_fault fs.
Proof.
  intros Hw Hr. unfold replace_file. rewrite WriteFile_ok by done. unfold Rename, put_file.
  cbn [rename_fault files set_files]. rewrite Hr, lookup_insert_eq. eexists _, _.
  split; [done|]. cbn [files set_files]. by rewrite lookup_insert_eq.
Qed.

Lemma data_holds path f data fs :
  files fs !! path = Some f → f_data f = data → read_fault fs path = None → holds fs path data.
Proof. intros Hf Hd Hr. unfold holds, ReadFile. cbn [snd]. by rewrite Hr, Hf, Hd. Qed.

(** ** Properties *)
Section properties.
Context {C : StateCodec} {CL : StateCodecLaws C}.

(** Whoever reads the state file finds the old text or the whole new one,
    however writing the temporary file ends and also in the middle of it; the path
    is returned exactly when the new text is in place. *)
Theorem state_file_atomic dir ppid state fs :
  let path := path_join [dir; state_name ppid] in
  let '(fs', r) := writeSessionStateFile dir ppid state fs in
  (∀ data, files (WriteFile (path +:+ ".tmp") data 420 fs).1 !! path = files fs !! path)
  ∧ ((r = "" ∧ files fs' !! path = files fs !! path)
     ∨ r = path ∧ ∃ f, files fs' !! path = Some f ∧ marshal_state state = Ok (f_data f)).
Proof.
  intros path. unfold writeSessionStateFile.
  assert (∀ data, files (WriteFile (path +:+ ".tmp") data 420 fs).1 !! path = files fs !! path)
    as Hmid by (intros data; apply WriteFile_other, tmp_ne).
  destruct (String.eqb dir ""); [by split; [|left]|]. unfold MkdirAll.
  destruct (mkdir_fault fs dir); [by split; [|left]|].
  destruct (marshal_state state) as [data|e]; [|by split; [|left]]. fold path.
  destruct (replace_file_cases path data fs) as [(fs' & -> & Hf)|(fs' & f & -> & Hf & Hd & _)].
  - split; [done|]. by left.
  - split; [done|]. right. split; [done|]. exists f. by rewrite Hd.
Qed.

(** The file follows the session: after a registration it holds the state of
    the session, and a claim keeps it so. *)
Theorem state_file_in_sync dir ppid s name fs :
  let path := path_join [dir; state_name ppid] in
  path ≠ "" → dir ≠ "" → mkdir_fault fs dir = None → write_fault fs (path +:+ ".tmp") = None →
  rename_fault fs path = None → read_fault fs path = None →
  (writeSessionStateFile dir ppid (sn_state s) fs).2 = path
  ∧ in_sync path s (writeSessionStateFile dir ppid (sn_state s) fs).1
  ∧ (in_sync path s fs →
     in_sync path (claimed_session name s) (updateSessionStateAgentName path name fs)).
Proof.
  intros path Hp Hdir Hm Hw Hren Hr. apply String.eqb_neq in Hp as Hp', Hdir as Hdir'.
  split; [|split].
  - unfold writeSessionStateFile, MkdirAll. rewrite Hdir', Hm.
    destruct (state_roundtrip (sn_state s)) as (data & -> & _). fold path.
    by destruct (replace_file_healthy path data fs Hw Hren) as (fs' & f & -> & _).
  - unfold writeSessionStateFile, MkdirAll. rewrite Hdir', Hm.
    destruct (state_roundtrip (sn_state s)) as (data & -> & Hu). fold path.
    destruct (replace_file_healthy path data fs Hw Hren) as (fs' & f & -> & Hf & Hd & Hrf).
    exists data. split; [|done]. eapply (data_holds path f); [done|done|]. simpl. congruence.
  - intros (data & Hh%readable & Hu). unfold updateSessionStateAgentName.
    rewrite Hp', Hh. cbn [snd]. rewrite Hu.
    destruct (state_roundtrip (named_state name (sn_state s))) as (out & -> & Hu').
    destruct (replace_file_healthy path out fs Hw Hren) as (fs' & f & -> & Hf & Hd & Hrf).
    exists out. split; [|done]. eapply (data_holds path f); [done|done|]. simpl. congruence.
Qed.
End properties.

(** ** Witnesses *)

Definition state_text (s : SessionState) : string :=
  put_list [st_SessionID s; st_AgentName s; st_ConfiguredAgentName s;
            if st_EphemeralFallback s then "1" else ""; st_CWD s; st_Machine s;
            date_text (Some (st_PID s)); date_text (Some (st_ParentPID s)); st_RegisteredAt s] "".

Definition text_state (t : string) : option SessionState :=
  match get_list 10 t with
  | Some ([id; name; conf; fb; cwd; machine; pid; ppid; at_], _) =>
      match text_date pid, text_date ppid with
      | Some p, Some pp =>
          Some (mkSessionState id name conf (negb (String.eqb fb "")) cwd machine p pp at_)
      | _, _ => None
      end
  | _ => None
  end.

#[local] Instance demo_state_codec : StateCodec := {|
  marshal_state s := Ok (state_text s);
  unmarshal_state d := match text_state d with Some s => Ok s | None => Err "unexpected end" end;
|}.

#[local] Instance demo_state_laws : StateCodecLaws demo_state_codec.
Proof.
  split. intros s. eexists. split; [done|]. cbn [unmarshal_state demo_state_codec].
  unfold text_state, state_text. rewrite get_put_list by (simpl; lia).
  rewrite !text_date_text. by destruct s as [? ? ? [] ? ? ? ? ?].
Qed.

Definition cache_dir : string := sessionStateDir "" (Some "/home/dev").

Definition fallback_session : Session :=
  mkSession "0000000a" (mkSessionState "0000000a" "" "builder" true "/home/dev" "laptop" 11 10 "") ∅.

(** The session fell back to no name, then claims one. *)
Lemma state_file_in_sync_witness :
  let fs := (writeSessionStateFile cache_dir 10 (sn_state fallback_session) blank_disk).1 in
  let path := path_join [cache_dir; state_name 10] in
  in_sync path (claimed_session "jim" fallback_session) (updateSessionStateAgentName path "jim" fs).
Proof.
  intros fs path.
  destruct (state_file_in_sync cache_dir 10 fallback_session "jim" blank_disk) as (_ & Hw & _);
    [vm_decide|vm_decide|done|done|done|done|].
  destruct (state_file_in_sync cache_dir 10 fallback_session "jim" fs) as (_ & _ & Hu);
    [vm_decide|vm_decide|vm_compute; done|vm_compute; done|vm_compute; done|vm_compute; done|].
  apply Hu, Hw.
Defined.
