(* ===== verification/AtomicFile.v ===== *)
(** * Replacing the state file, step by step ([fleet_server.go])

    [StateFile] treats the calls of [writeSessionStateFile] as one step each on a
    map from paths to contents.  Here names lead to inodes, opening truncates, and
    every system call is a step of a program, so that other processes and other
    goroutines may come in between. *)

From S2P Require Import Prelude Prog.

(** ** Names and inodes *)
Record InodeFs : Type := mkInodeFs {
  names : gmap string nat;
  inodes : gmap nat string;
  next_inode : nat;
}.

(** What a reader of the path gets. *)
Definition content (fs : InodeFs) (path : string) : option string :=
  names fs !! path ≫= λ i, inodes fs !! i.

(** The system calls behind [os.WriteFile], [os.Rename] and [os.Remove]. *)
Definition open_trunc (path : string) (fs : InodeFs) : InodeFs * nat :=
  match names fs !! path with
  | Some i => (mkInodeFs (names fs) (<[i := ""]> (inodes fs)) (next_inode fs), i)
  | None =>
      let i := next_inode fs in
      (mkInodeFs (<[path := i]> (names fs)) (<[i := ""]> (inodes fs)) (S i), i)
  end.

Definition write_fd (i : nat) (data : string) (fs : InodeFs) : InodeFs * unit :=
  (mkInodeFs (names fs) (<[i := data]> (inodes fs)) (next_inode fs), tt).

Definition rename (old new : string) (fs : InodeFs) : InodeFs * bool :=
  match names fs !! old with
  | Some i => (mkInodeFs (<[new := i]> (delete old (names fs))) (inodes fs) (next_inode fs), true)
  | None => (fs, false)
  end.

Definition remove (path : string) (fs : InodeFs) : InodeFs * unit :=
  (mkInodeFs (delete path (names fs)) (inodes fs) (next_inode fs), tt).

(** ** The writer *)

(** The tail of [writeSessionStateFile] and [updateSessionStateAgentName]. *)
Definition replace_steps (path data : string) : prog InodeFs bool :=
  let tmp := path +:+ ".tmp" in
  fd ← act (open_trunc tmp);
  _ ← act (write_fd fd data);
  ok ← act (rename tmp path);
  if ok then Ret true
  else
    _ ← act (remove tmp);
    Ret false.

(** The states a program passes through: what a reader may find at any time, and
    what a crash may leave. *)
Fixpoint visits {S A} (p : prog S A) (s : S) : list S :=
  s :: match p with Ret _ => [] | Act f k => visits (k (f s).2) (f s).1 end.

(** Names lead to inodes of their own, all of them handed out. *)
Definition fs_ok (fs : InodeFs) : Prop :=
  (∀ p q i, names fs !! p = Some i → names fs !! q = Some i → p = q)
  ∧ (∀ p i, names fs !! p = Some i → (i < next_inode fs)%nat).

(** ** Lemmas *)
Lemma open_trunc_spec path fs :
  fs_ok fs →
  let '(fs1, i) := open_trunc path fs in
  fs_ok fs1 ∧ names fs1 !! path = Some i
  ∧ ∀ q, q ≠ path → content fs1 q = content fs q ∧ names fs1 !! q = names fs !! q.
Proof.
  intros [Hinj Hlt]. unfold open_trunc. destruct (names fs !! path) as [i|] eqn:Ei.
  - split; [done|]. split; [done|]. intros q Hq. split; [|done]. unfold content. simpl.
    destruct (names fs !! q) as [j|] eqn:Ej; [|done]. simpl. rewrite lookup_insert_ne; [done|].
    intros ->. by apply Hq, (Hinj q path j).
  - assert (∀ q j, names fs !! q = Some j → j ≠ next_inode fs) as Hfresh.
    { intros q j Hj%Hlt. lia. }
    split; [split|split].
    + simpl. intros p q j. destruct (decide (p = path)) as [->|Hp], (decide (q = path)) as [->|Hq];
        rewrite ?lookup_insert_eq, ?lookup_insert_ne by done; [done|..].
      * intros [= <-] Hj. by apply Hfresh in Hj.
      * intros Hj [= <-]. by apply Hfresh in Hj.
      * apply Hinj.
    + simpl. intros p j. destruct (decide (p = path)) as [->|Hp].
      * rewrite lookup_insert_eq. intros [= <-]. lia.
      * rewrite lookup_insert_ne by done. intros Hj%Hlt. lia.
    + simpl. apply lookup_insert_eq.
    + intros q Hq. unfold content. simpl. rewrite lookup_insert_ne by done. split; [|done].
      destruct (names fs !! q) as [j|] eqn:Ej; [|done]. simpl.
      apply Hfresh in Ej. by rewrite lookup_insert_ne.
Qed.

Lemma write_fd_spec tmp i data fs :
  fs_ok fs → names fs !! tmp = Some i →
  let fs1 := (write_fd i data fs).1 in
  fs_ok fs1 ∧ names fs1 !! tmp = Some i ∧ content fs1 tmp = Some data
  ∧ ∀ q, q ≠ tmp → content fs1 q = content fs q ∧ names fs1 !! q = names fs !! q.
Proof.
  intros Hok Hi. split; [exact Hok|]. split; [exact Hi|]. split.
  - unfold content. simpl. rewrite Hi. simpl. apply lookup_insert_eq.
  - intros q Hq. split; [|done]. unfold content. simpl.
    destruct (names fs !! q) as [j|] eqn:Ej; [|done]. simpl. rewrite lookup_insert_ne; [done|].
    intros ->. destruct Hok as [Hinj _]. by apply Hq, (Hinj q tmp j).
Qed.

Lemma tmp_path_ne path : path +:+ ".tmp" ≠ path.
Proof. intros H. apply (f_equal String.length) in H. rewrite string_length_app in H. simpl in H. lia. Qed.

Lemma replace_visits path data fs :
  fs_ok fs →
  ∃ fs1 fs2 fs3, visits (replace_steps path data) fs = [fs; fs1; fs2; fs3]
    ∧ run (replace_steps path data) fs = (fs3, true)
    ∧ content fs1 path = content fs path ∧ content fs2 path = content fs path
    ∧ content fs3 path = Some data ∧ names fs3 !! (path +:+ ".tmp") = None.
Proof.
  intros Hok. set (tmp := path +:+ ".tmp"). pose proof (tmp_path_ne path) as Hne. fold tmp in Hne.
  unfold replace_steps. fold tmp. cbn [prog_bind act visits run].
  pose proof (open_trunc_spec tmp fs Hok) as Ho. destruct (open_trunc tmp fs) as [fs1 i].
  destruct Ho as (Hok1 & Hi & Hq1). cbn [fst snd].
  pose proof (write_fd_spec tmp i data fs1 Hok1 Hi) as (Hok2 & Hi2 & Hd & Hq2).
  destruct (write_fd i data fs1) as [fs2 u]. cbn [fst snd] in *.
  unfold rename. rewrite Hi2. cbn [fst snd visits run].
  eexists fs1, fs2, _. split; [done|]. split; [done|].
  destruct (Hq1 path) as [Hp1 _]; [done|]. destruct (Hq2 path) as [Hp2 _]; [done|].
  split; [done|]. split; [congruence|]. split.
  - unfold content in *. simpl. rewrite lookup_insert_eq. simpl. rewrite Hi2 in Hd. exact Hd.
  - simpl. rewrite lookup_insert_ne by done. apply lookup_delete_eq.
Qed.

(** ** Properties *)

(** With one writer the file is replaced as a whole: whenever another process
    looks, or the machine stops, it finds the old contents or the new ones, and
    in the end the new ones with no temporary file left. *)
Theorem single_writer_atomic path data fs :
  fs_ok fs →
  (∀ fs', fs' ∈ visits (replace_steps path data) fs →
     content fs' path = content fs path ∨ content fs' path = Some data)
  ∧ (let '(fs', ok) := run (replace_steps path data) fs in
     ok = true ∧ content fs' path = Some data ∧ names fs' !! (path +:+ ".tmp") = None).
Proof.
  intros Hok. destruct (replace_visits path data fs Hok) as (fs1 & fs2 & fs3 & Hv & -> & H1 & H2 & H3 & H4).
  split; [|done]. intros fs'. rewrite Hv, !elem_of_cons, elem_of_nil. naive_solver.
Qed.

(** The request loop and the heartbeat share the temporary name.  When the second
    opens it between the write and the rename of the first, a reader finds an
    empty file, and the second is told that its rename failed. *)
Theorem two_writers_tear d1 d2 old :
  let path := "/home/dev/.cache/claude-peers/current-4000.json" in
  let fs := mkInodeFs {[ path := 0%nat ]} {[ 0%nat := old ]} 1 in
  let pool := [replace_steps path d1; replace_steps path d2] in
  content (sched [0; 0; 1; 0]%nat (pool, fs)).2 path = Some ""
  ∧ (sched [0; 0; 1; 0; 1; 1; 1]%nat (pool, fs)).1 = [Ret true; Ret false].
Proof. vm_compute. done. Qed.

(** ** Witness *)
Lemma single_writer_atomic_witness :
  (run (replace_steps "s.json" "new") (mkInodeFs ∅ ∅ 0)).2 = true.
Proof.
  destruct (single_writer_atomic "s.json" "new" (mkInodeFs ∅ ∅ 0)) as [_ H].
  - split; [intros p q i H|intros p i H]; simpl in H; rewrite lookup_empty in H; discriminate H.
  - destruct (run (replace_steps "s.json" "new") (mkInodeFs ∅ ∅ 0)) as [fs' ok].
    destruct H as [H _]. exact H.
Defined.
