(* ===== verification/Mcp.v ===== *)
(** * The MCP protocol of a session ([fleet_mcp.go], the loop of [runServer])

    The handshake with its instructions, the list of tools with their schemas,
    the channel notifications, and the session as a sequence of turns: a line of
    input, a tick of the push loop, a tick of the heartbeat. *)

From S2P Require Import Prelude GoStrings GoTime Types Store Prog World Broker Client Json Memory.
From S2P Require Import Tools.

(** ** Constants *)
Definition mcpProtocolVersion : string := "2025-03-26".
Definition serverName : string := "claude-peers".
Definition serverVersion : string := "1.0.0".

Definition in_quotes (s : string) : string :=
  String (ascii_of_nat 34) s +:+ String (ascii_of_nat 34) "".

(** ** The tools *)
Definition string_property (description : string) : Json :=
  JObj [("type", JStr "string"); ("description", JStr description)].

(** A tool with the schema of its arguments. *)
Definition tool (name description : string) (properties : list (string * Json))
    (required : list string) : Json :=
  JObj [("name", JStr name); ("description", JStr description);
        ("inputSchema",
          JObj (("type", JStr "object") :: ("properties", JObj properties)
            :: match required with [] => [] | _ => [("required", JArr (JStr <$> required))] end))].

Definition mcpTools : list Json :=
  [tool "list_peers"
     "List other Claude Code instances across the network. Returns their ID, machine, working directory, git repo, and summary."
     [("scope",
        JObj [("type", JStr "string");
              ("enum", JArr (JStr <$> ["all"; "machine"; "directory"; "repo"]));
              ("description", JStr ("Scope of peer discovery. " +:+ in_quotes "all"
                 +:+ " = every peer on every machine. " +:+ in_quotes "machine"
                 +:+ " = only this machine. " +:+ in_quotes "directory"
                 +:+ " = same working directory. " +:+ in_quotes "repo" +:+ " = same git repository."))])]
     ["scope"];
   tool "send_message"
     "Send a message to another Claude Code session. Use the agent name (stable handle) when you know it; fall back to session ID for ephemeral peers. Agent-addressed messages queue if the recipient is offline and deliver on reconnect. Session-addressed messages drop if the session is gone."
     [("to", string_property "Agent name (preferred, stable across restarts) or session ID (for ephemeral peers). Agent names are listed by list_peers under the (agent) label.");
      ("message", string_property "The message to send")]
     ["to"; "message"];
   tool "set_summary"
     "Set a brief summary (1-2 sentences) of what you are currently working on. Visible to other Claude Code instances when they list peers."
     [("summary", string_property "A 1-2 sentence summary of your current work")]
     ["summary"];
   tool "check_messages"
     "Manually check for new messages. Normally messages push automatically via notifications/claude/channel with ACK; this tool is the fallback path."
     [] [];
   tool "claim_agent_name"
     "Claim a stable agent name for THIS session without restarting. Use this when the user tells you to call yourself something (e.g. 'you are jim'), or when you want an addressable stable handle. Names are globally unique while held -- if another session already holds the name, you get a 409 with the holder's info. A session can only claim once; after that, the name is stuck. Preferred over restarting with --as when the session is already mid-work."
     [("name", string_property "The agent name to claim (e.g. 'jim', 'caretaker'). Must be unique across the fleet.")]
     ["name"]].

(** The static part of the instructions, line by line. *)
Definition mcpInstructions : list string :=
  ["You are connected to the claude-peers network. Other Claude Code sessions across the fleet can see you and send you messages.";
   "";
   "IDENTITY:";
   "- Your identity on the network is your " +:+ in_quotes "agent name" +:+ " -- declared at startup via the --as flag, CLAUDE_PEERS_AGENT env var, or a .claude-peers-agent file in the working directory.";
   "- If you have no agent name, you are ephemeral: visible in list_peers but NOT addressable by name. You can still send messages.";
   "- Agent names are globally unique while held. Never change names mid-session -- identity is declared at startup.";
   "";
   "MESSAGING:";
   "- Push delivery: messages arrive as notifications/claude/channel with from_agent / from_session / message_id in the meta block. You don't need to poll on every prompt -- push + ack is reliable.";
   "- To reply to a notification, call send_message with to = from_agent (stable, preferred) or from_session (ephemeral fallback).";
   "- send_message to an offline agent name queues the message -- it delivers when that agent reconnects. Don't assume the recipient is online.";
   "- On new conversations: call check_messages ONCE to drain anything that came in before the MCP channel was up. After that, trust the push.";
   "";
   "TOOLS:";
   "- list_peers: Discover sessions on the network (scope: all/machine/directory/repo).";
   "- send_message(to, message): Send a message. " +:+ in_quotes "to" +:+ " is an agent name or session ID.";
   "- set_summary: Set a 1-2 sentence summary of your current work.";
   "- check_messages: Drain undelivered messages (fallback -- push is the normal path).";
   "- claim_agent_name(name): Claim a stable agent name for THIS session without restarting. Use when the user says " +:+ in_quotes "you are X" +:+ " or " +:+ in_quotes "call yourself X" +:+ ". Names are globally unique while held. A session can only claim once."].

(** ** The handshake *)
Definition initialize_result (instructions : string) : Json :=
  JObj [("protocolVersion", JStr mcpProtocolVersion);
        ("capabilities",
          JObj [("experimental", JObj [("claude/channel", JObj [])]); ("tools", JObj [])]);
        ("serverInfo", JObj [("name", JStr serverName); ("version", JStr serverVersion)]);
        ("instructions", JStr instructions)].

(** ** Channel notifications *)

(** [peerByID[id]]: the last session of the list with the id, or the zero
    value. *)
Definition channel_peer (id : string) (peers : list Peer) : option Peer :=
  find (λ p, String.eqb (peer_ID p) id) (reverse peers).

Definition channel_notification (peers : list Peer) (m : Message) : RpcMessage :=
  let from := channel_peer (msg_FromSession m) peers in
  let of_peer (f : Peer → string) := match from with Some p => f p | None => "" end in
  RpcNotification "notifications/claude/channel"
    (JObj [("content", JStr (msg_Text m));
           ("meta",
             JObj [("message_id", JStr (itoa (msg_ID m)));
                   ("from_agent", JStr (msg_FromAgent m));
                   ("from_session", JStr (msg_FromSession m));
                   ("from_machine", JStr (of_peer peer_Machine));
                   ("from_summary", JStr (of_peer peer_Summary));
                   ("from_cwd", JStr (of_peer peer_CWD));
                   ("sent_at", JStr (msg_SentAt m))])]).

(** ** The session *)

(** One turn: a decoded line of input, one that does not decode, or a tick. *)
Inductive Turn : Type :=
| TRequest (r : jsonrpcRequest ToolCall)
| TBadLine (e : string)
| TPush
| THeartbeat (now : string).

Section session.
Context {St : Type} {B : BrokerApi St}.
Context (quote : string → string) (here : Place) (profile : Profile).

Definition handleInitialize (id : option Json) (st : St) : St * RpcMessage :=
  let '(st1, context) := buildFleetContext st in
  (st1, RpcResult id (initialize_result (Join mcpInstructions nl +:+ context))).

Definition handleToolsList (id : option Json) : RpcMessage :=
  RpcResult id (JObj [("tools", JArr mcpTools)]).

(** The [switch] of the loop. *)
Definition handle_request (r : jsonrpcRequest ToolCall) (s : Session) (st : St)
  : St * (Session * list RpcMessage) :=
  if String.eqb (rpc_Method r) "initialize" then
    let '(st1, m) := handleInitialize (rpc_ID r) st in (st1, (s, [m]))
  else if String.eqb (rpc_Method r) "notifications/initialized" then (st, (s, []))
  else if String.eqb (rpc_Method r) "tools/list" then (st, (s, [handleToolsList (rpc_ID r)]))
  else if String.eqb (rpc_Method r) "tools/call" then
    let '(st1, (s1, a)) := handleToolCall quote here (rpc_Params r) s st in
    (st1, (s1, [tool_message (rpc_ID r) a]))
  else
    (st, (s, match rpc_ID r with
             | Some id => [RpcError (Some id) (-32601) ("Method not found: " +:+ rpc_Method r)]
             | None => []
             end)).

(** A tick of the push loop, with the notifications it writes: the listing is
    read again for the sender's machine, summary and directory. *)
Definition push_tick (s : Session) (st : St) : St * (Session * list RpcMessage) :=
  match api_peek (mkPollMessagesRequest (sn_id s)) st with
  | (st1, Err _) => (st1, (s, []))
  | (st1, Ok resp) =>
      match pollr_Messages resp with
      | [] => (st1, (s, []))
      | msgs =>
          let '(st2, r) := api_list all_peers st1 in
          let peers := match r with Ok l => l | Err _ => [] end in
          let '(pushed, out) := push_new (sn_pushed s) msgs in
          (st2, (mkSession (sn_id s) (sn_state s) pushed, channel_notification peers <$> out))
      end
  end.

(** [None] where the loop ends. *)
Definition take_turn (t : Turn) (s : Session) (st : St) : option (St * (Session * list RpcMessage)) :=
  match t with
  | TRequest r => Some (handle_request r s st)
  | TBadLine _ => None
  | TPush => Some (push_tick s st)
  | THeartbeat now => let '(st1, s1) := heartbeat_tick profile now s st in Some (st1, (s1, []))
  end.

(** The turns up to the end of the input; then the session unregisters. *)
Fixpoint session_loop (turns : list Turn) (s : Session) (st : St) : St * list RpcMessage :=
  match turns with
  | [] => ((api_unregister (mkUnregisterRequest (sn_id s)) st).1, [])
  | t :: rest =>
      match take_turn t s st with
      | None => ((api_unregister (mkUnregisterRequest (sn_id s)) st).1, [])
      | Some (st1, (s1, out)) =>
          let '(st2, out2) := session_loop rest s1 st1 in (st2, out ++ out2)
      end
  end.
End session.
