(* ===== verification/Transport.v ===== *)
(** * The MCP transport, byte by byte ([fleet_mcp.go])

    The lines of the standard input as [bufio.Scanner] cuts them, with its buffer
    of one mebibyte, the requests they decode to, and the lines that are written.
    The encoding of a message as JSON is a parameter: [json.Marshal] writes no
    newline, and what it writes is read back. *)

From S2P Require Import Prelude GoStrings Files GoTime Types Store Prog World Broker Client Json Memory Tools Mcp.

Definition newline : ascii := "010".
Definition carriage_return : ascii := "013".

(** ** The scanner *)

(** [scanner.Buffer(make([]byte, 1024*1024), 1024*1024)]. *)
Definition max_token : Z := 1024 * 1024.
Definition too_long : string := "bufio.Scanner: token too long".

Inductive Scan : Type :=
| ScanLine (line rest : string)
| ScanError (e : string)
| ScanEnd.

(** [dropCR] of [bufio.ScanLines]. *)
Fixpoint drop_cr (s : string) : string :=
  match s with
  | "" => ""
  | String c s' => if Ascii.eqb c carriage_return && String.eqb s' "" then "" else String c (drop_cr s')
  end.

(** [scanner.Scan] on what is left of the input.  A line fits together with its
    newline; a last line without one must leave room for the end to be seen. *)
Definition scan (s : string) : Scan :=
  match IndexByte s newline with
  | Some i =>
      if max_token <=? Z.of_nat i then ScanError too_long
      else ScanLine (drop_cr (str_take i s)) (str_drop (S i) s)
  | None =>
      if String.eqb s "" then ScanEnd
      else if max_token <=? Z.of_nat (String.length s) then ScanError too_long
      else ScanLine (drop_cr s) ""
  end.

Section transport.
(** [json.Unmarshal] of a line into a request, and [json.Marshal] of a message. *)
Context (unmarshal : string → result string (jsonrpcRequest ToolCall)) (marshal : Json → string).

(** [readRequest]: [None] at the end of the input. *)
Definition readRequest (s : string) : option (result string (jsonrpcRequest ToolCall) * string) :=
  match scan s with
  | ScanEnd => None
  | ScanError e => Some (Err e, "")
  | ScanLine line rest => Some (unmarshal line, rest)
  end.

(** The requests [runServer] reads; the loop ends at the first error. *)
Fixpoint read_turns_fuel (fuel : nat) (s : string) : list Turn :=
  match fuel with
  | O => []
  | S n =>
      match readRequest s with
      | None => []
      | Some (Err e, _) => [TBadLine e]
      | Some (Ok r, rest) => TRequest r :: read_turns_fuel n rest
      end
  end.
Definition read_turns (s : string) : list Turn := read_turns_fuel (S (String.length s)) s.

(** [writeResponse] and [writeNotification]: one call of [Fprintf] for each message. *)
Definition write_line (m : RpcMessage) : string := marshal (rpc_json m) +:+ nl.
Definition written (l : list RpcMessage) : string := foldr (λ m s, write_line m +:+ s) "" l.
End transport.

(** Lines as a client sends them. *)
Definition sent_lines (l : list string) : string := foldr (λ x s, x +:+ nl +:+ s) "" l.

(** What the loop makes of them: the requests up to the first line that is not
    one, then what comes after. *)
Fixpoint requests_of (unmarshal : string → result string (jsonrpcRequest ToolCall))
    (l : list string) (after : list Turn) : list Turn :=
  match l with
  | [] => after
  | x :: l' =>
      match unmarshal (drop_cr x) with
      | Err e => [TBadLine e]
      | Ok r => TRequest r :: requests_of unmarshal l' after
      end
  end.

(** ** Lemmas *)
Lemma IndexByte_app_none s t c :
  IndexByte s c = None → IndexByte (s +:+ t) c = (λ i, (String.length s + i)%nat) <$> IndexByte t c.
Proof.
  induction s as [|d s IH]; intros Hs; [change ("" +:+ t) with t; by destruct (IndexByte t c)|].
  rewrite string_app_cons. simpl in *. destruct (Ascii.eqb d c); [done|].
  destruct (IndexByte s c) eqn:E; [done|]. rewrite IH by done. by destruct (IndexByte t c).
Qed.

Lemma str_drop_length n s : String.length (str_drop n s) = (String.length s - n)%nat.
Proof. revert s. induction n; intros [|c s]; simpl; auto. Qed.

Lemma str_take_app p s : str_take (String.length p) (p +:+ s) = p.
Proof. induction p as [|c p IH]; [by destruct s|]. rewrite string_app_cons. simpl. by rewrite IH. Qed.

Lemma scan_line x s :
  IndexByte x newline = None → (Z.of_nat (String.length x) < max_token) →
  scan (x +:+ nl +:+ s) = ScanLine (drop_cr x) s.
Proof.
  intros Hx Hl. unfold scan. rewrite IndexByte_app_none by done.
  replace (IndexByte (nl +:+ s) newline) with (Some 0%nat) by reflexivity. cbn [fmap option_fmap option_map].
  rewrite Nat.add_0_r. destruct (Z.leb_spec max_token (Z.of_nat (String.length x))); [lia|].
  rewrite str_take_app. f_equal.
  replace (S (String.length x)) with (String.length (x +:+ nl)).
  - by rewrite <-string_app_assoc, str_drop_app.
  - rewrite string_length_app. unfold nl. simpl. lia.
Qed.

Lemma scan_long x s :
  IndexByte x newline = None → (max_token ≤ Z.of_nat (String.length x)) → scan (x +:+ s) = ScanError too_long.
Proof.
  intros Hx Hl. unfold scan. rewrite IndexByte_app_none by done.
  destruct (IndexByte s newline) as [i|]; cbn [fmap option_fmap option_map].
  - destruct (Z.leb_spec max_token (Z.of_nat (String.length x + i))); [done|lia].
  - destruct (String.eqb_spec (x +:+ s) "") as [E|_].
    + apply (f_equal String.length) in E. rewrite string_length_app in E. unfold max_token in Hl. simpl in E. lia.
    + rewrite string_length_app. destruct (Z.leb_spec max_token (Z.of_nat (String.length x + String.length s))); [done|lia].
Qed.

Lemma scan_shorter s line rest : scan s = ScanLine line rest → (String.length rest < String.length s)%nat.
Proof.
  unfold scan. destruct s as [|c s]; [done|]. destruct (IndexByte _ _) as [i|]; case_match; try done.
  - intros [= _ <-]. simpl. rewrite str_drop_length. lia.
  - case_match; [done|]. intros [= _ <-]. simpl. lia.
Qed.

Lemma sent_lines_app l1 l2 s : sent_lines (l1 ++ l2) +:+ s = sent_lines l1 +:+ (sent_lines l2 +:+ s).
Proof.
  induction l1 as [|x l1 IH]; [done|]. cbn [app]. unfold sent_lines in *. cbn [foldr].
  by rewrite !string_app_assoc, IH.
Qed.

Section reading.
Context (unmarshal : string → result string (jsonrpcRequest ToolCall)) (marshal : Json → string).

(** Every line read takes at least one byte, so the length of the input is enough. *)
Lemma read_turns_enough n s :
  (String.length s < n)%nat → read_turns_fuel unmarshal n s = read_turns unmarshal s.
Proof.
  unfold read_turns. intros Hn. assert (String.length s < S (String.length s))%nat as Hm by lia.
  revert Hn Hm. generalize (S (String.length s)) as m. revert s.
  induction n as [|n IH]; intros s [|m] Hn Hm; try lia. simpl. unfold readRequest.
  destruct (scan s) as [line rest| |] eqn:E; [|done|done].
  apply scan_shorter in E. destruct (unmarshal line); [f_equal; apply IH; lia|done].
Qed.

Lemma read_turns_line x s :
  IndexByte x newline = None → (Z.of_nat (String.length x) < max_token) →
  read_turns unmarshal (x +:+ nl +:+ s) = requests_of unmarshal [x] (read_turns unmarshal s).
Proof.
  intros Hx Hl. unfold read_turns at 1. cbn [read_turns_fuel requests_of]. unfold readRequest.
  rewrite scan_line by done. destruct (unmarshal (drop_cr x)); [|done]. f_equal. apply read_turns_enough.
  rewrite !string_length_app. unfold nl. simpl. lia.
Qed.

Lemma read_turns_long x s :
  IndexByte x newline = None → (max_token ≤ Z.of_nat (String.length x)) →
  read_turns unmarshal (x +:+ s) = [TBadLine too_long].
Proof. intros Hx Hl. unfold read_turns. cbn [read_turns_fuel]. unfold readRequest. by rewrite scan_long. Qed.

Definition a_line (x : string) : Prop := IndexByte x newline = None ∧ Z.of_nat (String.length x) < max_token.

(** C19: The session reads exactly the lines it is sent: however much input
    precedes and follows, each line below one mebibyte is decoded on its own, in
    order, without its line end, up to the first one that does not decode, at
    which the session stops reading.  A line of one mebibyte or more is never
    decoded, in part or whole: reading ends there, whatever follows. *)
Theorem input_comes_in_lines (lines : list string) (rest : string) :
  Forall a_line lines →
  read_turns unmarshal (sent_lines lines +:+ rest) = requests_of unmarshal lines (read_turns unmarshal rest) ∧
  (∀ x, IndexByte x newline = None → max_token ≤ Z.of_nat (String.length x) →
    read_turns unmarshal (sent_lines lines +:+ x +:+ rest) = requests_of unmarshal lines [TBadLine too_long]).
Proof.
  intros Hl. assert (∀ s, read_turns unmarshal (sent_lines lines +:+ s) =
    requests_of unmarshal lines (read_turns unmarshal s)) as H.
  { intros s. induction Hl as [|x l [Hx Hn] Hl IH]; [done|].
    replace (sent_lines (x :: l) +:+ s) with (x +:+ nl +:+ (sent_lines l +:+ s))
      by (unfold sent_lines; cbn [foldr]; by rewrite !string_app_assoc).
    rewrite read_turns_line by done. cbn [requests_of]. by rewrite IH. }
  split; [apply H|]. intros x Hx Hn. by rewrite H, read_turns_long.
Qed.

(** What a session writes is read back message by message: when the encoding
    of a value holds no newline, cutting the output at its newlines gives the
    encodings of the messages in the order they were written, and what is written
    next starts on a line of its own. *)
Theorem output_goes_out_in_lines (l : list RpcMessage) (s : string) :
  (∀ j, IndexByte (marshal j) newline = None) →
  Split (written marshal l +:+ s) newline = ((λ m, marshal (rpc_json m)) <$> l) ++ Split s newline.
Proof.
  intros Hm. induction l as [|m l IH]; [done|]. cbn [fmap list_fmap app]. rewrite <-IH.
  replace (written marshal (m :: l) +:+ s)
    with (marshal (rpc_json m) +:+ String newline (written marshal l +:+ s)).
  - apply Split_front, Hm.
  - unfold written, write_line. cbn [foldr]. by rewrite !string_app_assoc.
Qed.
End reading.

(** ** A session on two lines *)
Definition ping : jsonrpcRequest ToolCall := mkRpcRequest (Some (JNum 1)) "ping" (mkToolCall "" (λ _, "")).
Definition ping_line : string := "ping".
Definition demo_unmarshal (s : string) : result string (jsonrpcRequest ToolCall) :=
  if String.eqb s ping_line then Ok ping else Err "invalid character".

Lemma input_comes_in_lines_witness :
  read_turns demo_unmarshal (sent_lines [ping_line; ping_line +:+ String carriage_return ""; "nonsense"; ping_line] +:+ "")
  = [TRequest ping; TRequest ping; TBadLine "invalid character"].
Proof.
  refine (proj1 (input_comes_in_lines demo_unmarshal
    [ping_line; ping_line +:+ String carriage_return ""; "nonsense"; ping_line] "" _)).
  repeat constructor.
Defined.

Lemma output_goes_out_in_lines_witness :
  Split (written (λ _, "{}") [RpcResult (Some (JNum 1)) JNull; RpcNotification "m" JNull] +:+ "") newline
  = ["{}"; "{}"; ""].
Proof. refine (output_goes_out_in_lines (λ _, "{}") _ "" _). intros ?. reflexivity. Defined.
