(* ===== verification/Goroutines.v ===== *)
(** * The goroutines of a session ([runServer])

    The start of a session, its request loop, its push and heartbeat loops, the
    summary refresher, the fetch of the fleet memory and the deferred clean-up, as
    threads over the memory of the process: the session id ([sessionRef]), the
    set of pushed messages, the disk, the standard output. *)

From S2P Require Import Prelude GoStrings GoTime Types Store Prog World Broker Files Client Api.
From S2P Require Import StateFile Json Memory Tools Mcp Thread.

#[local] Open Scope thread_scope.

(** ** The memory of the process *)

(** [me_path] is [sessionStatePath]. *)
Record Mem : Type := mkMem {
  me_session : string;
  me_pushed : gset Z;
  me_path : string;
  me_disk : FileSys;
  me_out : list RpcMessage;
}.

Definition set_session_id (id : string) (m : Mem) : Mem :=
  mkMem id (me_pushed m) (me_path m) (me_disk m) (me_out m).
Definition set_path (path : string) (m : Mem) : Mem :=
  mkMem (me_session m) (me_pushed m) path (me_disk m) (me_out m).
Definition set_disk (fs : FileSys) (m : Mem) : Mem :=
  mkMem (me_session m) (me_pushed m) (me_path m) fs (me_out m).
Definition add_out (l : list RpcMessage) (m : Mem) : Mem :=
  mkMem (me_session m) (me_pushed m) (me_path m) (me_disk m) (me_out m ++ l).

(** How a goroutine ends: [Failed] is an error returned by [runServer]. *)
Inductive Outcome : Type := Finished | Failed | Panicked.

(** [session.Get], [session.Set], a line on the standard output, and a call of the
    file system. *)
Definition get_session : thread Mem string := local (λ m, (m, me_session m)).
Definition put_session (id : string) : thread Mem unit := local (λ m, (set_session_id id m, tt)).
Definition say (msg : RpcMessage) : thread Mem unit := local (λ m, (add_out [msg] m, tt)).
Definition disk {A} (f : io A) : thread Mem (result string A) :=
  local (λ m, let '(fs, r) := f (me_disk m) in (set_disk fs m, r)).
Definition ends (t : thread Mem unit) : thread Mem Outcome := _ ← t; Done Finished.

(** A failed listing is an empty one. *)
Definition list_all : thread Mem (list Peer) :=
  r ← call (OpList all_peers); Done (match r with Ok l => l | Err _ => [] end).

(** The push loop writes a notification unless the message has been pushed; it
    holds the lock of [pushedIDs] meanwhile, which nobody else takes. *)
Definition push_message (peers : list Peer) (msg : Message) (m : Mem) : Mem :=
  if bool_decide (msg_ID msg ∈ me_pushed m) then m
  else mkMem (me_session m) ({[ msg_ID msg ]} ∪ me_pushed m) (me_path m) (me_disk m)
         (me_out m ++ [channel_notification peers msg]).

Section goroutines.
Context {C : StateCodec} (quote : string → string) (here : Place) (profile : Profile).
Context (dir home : string).

(** ** The state file, one system call at a time *)
Definition t_replace (path data : string) : thread Mem bool :=
  let tmp := path +:+ ".tmp" in
  w ← disk (WriteFile tmp data 420);
  match w with
  | Err _ => Done false
  | Ok _ =>
      r ← disk (Rename tmp path);
      match r with
      | Err _ => _ ← disk (Remove tmp); Done false
      | Ok _ => Done true
      end
  end.

Definition t_write_state (state : SessionState) : thread Mem string :=
  if String.eqb dir "" then Done ""
  else
    r ← disk (MkdirAll dir);
    match r, marshal_state state with
    | Ok _, Ok data =>
        let path := path_join [dir; state_name (pf_parent profile)] in
        ok ← t_replace path data;
        Done (if ok : bool then path else "")
    | _, _ => Done ""
    end.

Definition t_update_name (name : string) : thread Mem unit :=
  path ← local (λ m, (m, me_path m));
  if String.eqb path "" then Done tt
  else
    r ← disk (ReadFile path);
    match r with
    | Err _ => Done tt
    | Ok data =>
        match unmarshal_state data with
        | Err _ => Done tt
        | Ok state =>
            match marshal_state (named_state name state) with
            | Err _ => Done tt
            | Ok out => _ ← t_replace path out; Done tt
            end
        end
    end.

(** ** Registration and the heartbeat *)
Definition t_register (verb retry : string) (req : RegisterRequest)
  : thread Mem (result string (string * string)) :=
  r1 ← call (OpRegister req);
  match r1 with
  | Err e => Done (Err (verb +:+ ": " +:+ e))
  | Ok reg =>
      if negb (regr_OK reg) && negb (String.eqb (reg_AgentName req) "") then
        r2 ← call (OpRegister (with_name req "" (reg_Summary req)));
        Done (match r2 with
              | Err e => Err (retry +:+ ": " +:+ e)
              | Ok reg2 => if regr_OK reg2 then Ok (regr_ID reg2, "")
                           else Err (verb +:+ " failed: " +:+ regr_Error reg2)
              end)
      else
        Done (if regr_OK reg then Ok (regr_ID reg, reg_AgentName req)
              else Err (verb +:+ " failed: " +:+ regr_Error reg))
  end.

(** The session is bound, then the file is written. *)
Definition t_start (now : string) : thread Mem Outcome :=
  r ← t_register "register"
        ("register (ephemeral fallback after " +:+ quoted_empty +:+ " collision)") (pf_request profile);
  match r with
  | Err _ => Done Failed
  | Ok (id, name) =>
      _ ← put_session id;
      path ← t_write_state (state_file profile id name now);
      _ ← local (λ m, (set_path path m, tt));
      Done Finished
  end.

Definition t_rebind (now : string) : thread Mem unit :=
  let req := pf_request profile in
  r ← t_register "re-register" "re-register ephemeral" (with_name req (reg_AgentName req) "");
  match r with
  | Err _ => Done tt
  | Ok (id, name) =>
      _ ← put_session id;
      _ ← t_write_state (state_file profile id name now);
      Done tt
  end.

Definition t_heartbeat (now : string) : thread Mem unit :=
  id ← get_session;
  r ← call (OpHeartbeat (mkHeartbeatRequest id));
  match r with
  | Err _ => Done tt
  | Ok resp =>
      if negb (hbr_OK resp) && String.eqb (hbr_Reason resp) HeartbeatReasonUnknownSession
      then t_rebind now else Done tt
  end.

(** ** The push loop, the summaries, the fleet memory *)
Definition t_push : thread Mem unit :=
  id ← get_session;
  r ← call (OpPeek (mkPollMessagesRequest id));
  match r with
  | Err _ => Done tt
  | Ok resp =>
      match pollr_Messages resp with
      | [] => Done tt
      | msgs =>
          peers ← list_all;
          each msgs (λ msg, local (λ m, (push_message peers msg m, tt)))
      end
  end.

Definition t_summary (summary : string) : thread Mem unit :=
  if String.eqb summary "" then Done tt
  else
    id ← get_session;
    _ ← call (OpSetSummary (mkSetSummaryRequest id summary));
    Done tt.

(** The body is written at once; without a home directory the code panics. *)
Definition t_sync : thread Mem Outcome :=
  r ← call OpMemory;
  local (λ m, match syncFleetMemory home r (me_disk m) with
              | Some fs => (set_disk fs m, Finished)
              | None => (m, Panicked)
              end).

(** ** The tools *)
Definition t_list_peers (scope : string) : thread Mem ToolAnswer :=
  id ← get_session;
  r ← call (OpList (mkListPeersRequest scope (if String.eqb scope "machine" then pl_Machine here else "")
               (pl_CWD here) (pl_GitRoot here) ""));
  Done (match r with
        | Err e => ToolFailure ("Error listing peers: " +:+ e)
        | Ok peers => ToolText (list_text id scope peers)
        end).

Definition t_send (to message : string) : thread Mem ToolAnswer :=
  id ← get_session;
  if String.eqb to "" then Done (ToolFailure "to is required (agent name or session id)")
  else
    peers ← list_all;
    r ← call (OpSend (send_request id to message peers));
    Done (match r with
          | Err e => ToolFailure ("Error sending message: " +:+ e)
          | Ok resp => if sendr_OK resp then ToolText (sent_text quote to resp)
                       else ToolFailure ("Failed to send: " +:+ sendr_Error resp)
          end).

Definition t_set_summary (summary : string) : thread Mem ToolAnswer :=
  id ← get_session;
  r ← call (OpSetSummary (mkSetSummaryRequest id summary));
  Done (match r with
        | Err e => ToolFailure ("Error setting summary: " +:+ e)
        | Ok _ => ToolText ("Summary updated: " +:+ quote summary)
        end).

Definition t_claim (name : string) : thread Mem ToolAnswer :=
  id ← get_session;
  if String.eqb name "" then Done (ToolFailure "name is required")
  else
    r ← call (OpClaim (mkClaimAgentRequest id name));
    match r with
    | Err e => Done (ToolFailure ("Error claiming agent name: " +:+ e))
    | Ok resp =>
        if claimr_OK resp then
          _ ← t_update_name name;
          Done (ToolText ("Claimed agent name: " +:+ name
                  +:+ ". Other sessions can now address this session as " +:+ quote name
                  +:+ " across restarts (as long as this session holds the name)."))
        else Done (ToolFailure (refused_claim quote name resp))
    end.

Definition t_check : thread Mem ToolAnswer :=
  id ← get_session;
  r ← call (OpPoll (mkPollMessagesRequest id));
  match r with
  | Err e => Done (ToolFailure ("Error checking messages: " +:+ e))
  | Ok resp =>
      match pollr_Messages resp with
      | [] => Done (ToolText "No new messages.")
      | msgs =>
          peers ← list_all;
          _ ← each msgs (λ msg, _ ← call (OpAck (mkAckMessageRequest id (msg_ID msg))); Done tt);
          Done (ToolText (messages_text peers msgs))
      end
  end.

Definition t_tool (c : ToolCall) : thread Mem ToolAnswer :=
  if String.eqb (call_Name c) "list_peers" then t_list_peers (call_Arg c "scope")
  else if String.eqb (call_Name c) "send_message" then t_send (call_Arg c "to") (call_Arg c "message")
  else if String.eqb (call_Name c) "set_summary" then t_set_summary (call_Arg c "summary")
  else if String.eqb (call_Name c) "claim_agent_name" then t_claim (call_Arg c "name")
  else if String.eqb (call_Name c) "check_messages" then t_check
  else Done (UnknownTool (call_Name c)).

(** ** The request loop *)
Definition t_context : thread Mem string :=
  ps ← call (OpList all_peers);
  es ← call (OpEvents 5);
  m ← call OpMemory;
  Done ((match ps with Ok (p :: l) => context_peers (p :: l) | _ => "" end)
        +:+ (match es with Ok (e :: l) => context_events (e :: l) | _ => "" end)
        +:+ (match m with Ok body => context_memory body | Err _ => "" end)).

Definition t_request (r : jsonrpcRequest ToolCall) : thread Mem unit :=
  if String.eqb (rpc_Method r) "initialize" then
    context ← t_context;
    say (RpcResult (rpc_ID r) (initialize_result (Join mcpInstructions nl +:+ context)))
  else if String.eqb (rpc_Method r) "notifications/initialized" then Done tt
  else if String.eqb (rpc_Method r) "tools/list" then say (handleToolsList (rpc_ID r))
  else if String.eqb (rpc_Method r) "tools/call" then
    a ← t_tool (rpc_Params r);
    say (tool_message (rpc_ID r) a)
  else
    match rpc_ID r with
    | Some id => say (RpcError (Some id) (-32601) ("Method not found: " +:+ rpc_Method r))
    | None => Done tt
    end.

(** The deferred clean-up; what [os.Remove] returns is dropped. *)
Definition t_leave : thread Mem unit :=
  id ← get_session;
  _ ← call (OpUnregister (mkUnregisterRequest id));
  local (λ m, (if String.eqb (me_path m) "" then m else set_disk (Remove (me_path m) (me_disk m)).1 m, tt)).
End goroutines.
