(* ===== verification/Turns.v ===== *)
(** * A session as a sequence of turns

    [Mcp] describes a session by turns over any [BrokerApi], [Goroutines] by
    threads whose steps others may come between.  A goroutine that nothing comes
    between does exactly what its turn does: the two descriptions of
    [fleet_server.go] agree. *)

From S2P Require Import Prelude GoStrings GoTime Types Store Prog World Broker Dispatch Demo Files.
From S2P Require Import Client Api StateFile Json Memory Tools Mcp Thread Goroutines.

#[local] Open Scope thread_scope.

(** ** Threads that make no calls *)
Fixpoint no_calls {M A} (t : thread M A) : Prop :=
  match t with
  | Done _ => True
  | Local f k => ∀ b, no_calls (k b)
  | Call _ _ => False
  end.

Lemma no_calls_bind {M A D} (t : thread M A) (c : A → thread M D) :
  no_calls t → (∀ a, no_calls (c a)) → no_calls (thread_bind t c).
Proof. intros Ht Hc. induction t as [a|D' f k IH|D' o k IH]; simpl in *; auto. Qed.

Lemma alone_no_calls {St} {B : BrokerApi St} {M A} (R : relation M) `{!PreOrder R} (t : thread M A) m (st : St) :
  no_calls t → locals R t → ∃ m' a, alone t m st = (st, (m', a)) ∧ R m m'.
Proof.
  revert m. induction t as [a|D f k IH|D o k IH]; intros m Hn Hl; simpl in *; [|..|done].
  - by exists m, a.
  - destruct Hl as [Hf Hk]. specialize (Hf m). destruct (f m) as [m1 b].
    destruct (IH b m1) as (m' & a & -> & Hr); [done..|]. exists m', a. split; [done|]. by etrans.
Qed.

(** ** The view of a process as a session *)
Definition view (m : Mem) (s : Session) : Prop :=
  me_session m = sn_id s ∧ me_pushed m = sn_pushed s.

(** The state file may have changed, and nothing else. *)
Definition same_view (m m' : Mem) : Prop :=
  me_session m' = me_session m ∧ me_pushed m' = me_pushed m ∧ me_out m' = me_out m.

#[export] Instance same_view_preorder : PreOrder same_view.
Proof.
  split; [done|]. intros m1 m2 m3 (H1 & H2 & H3) (H4 & H5 & H6). unfold same_view. by rewrite H4, H5, H6.
Qed.

Lemma disk_same_view {A} (f : io A) : locals same_view (disk f).
Proof. apply locals_local. intros m. by destruct (f (me_disk m)). Qed.

Ltac file_step :=
  lazymatch goal with
  | |- no_calls (thread_bind _ _) => apply no_calls_bind; [|intros ?]
  | |- no_calls (match ?x with _ => _ end) => destruct x
  | |- no_calls (disk _) => by intros ?
  | |- no_calls (local _) => by intros ?
  | |- no_calls (Done _) => exact I
  | |- locals _ (disk _) => apply disk_same_view
  | _ => first [locals_step|done]
  end.

Section turns.
Context {St : Type} {B : BrokerApi St} {C : StateCodec}.
Context (quote : string → string) (here : Place) (profile : Profile) (dir : string).

Lemma alone_write_state s m (st : St) :
  ∃ m' p, alone (t_write_state profile dir s) m st = (st, (m', p)) ∧ same_view m m'.
Proof. apply (alone_no_calls same_view); unfold t_write_state, t_replace; repeat file_step. Qed.

Lemma alone_update_name name m (st : St) :
  ∃ m' u, alone (t_update_name name) m st = (st, (m', u)) ∧ same_view m m'.
Proof. apply (alone_no_calls same_view); unfold t_update_name, t_replace; repeat file_step. Qed.

Lemma alone_register verb retry req m (st : St) :
  alone (t_register verb retry req) m st
  = ((register_fallback verb retry req st).1, (m, (register_fallback verb retry req st).2)).
Proof.
  unfold t_register, register_fallback. rewrite alone_bind, alone_call. cbn [call_api].
  destruct (api_register req st) as [st1 [reg|e]]; cbn [fst snd]; [|done].
  destruct (negb (regr_OK reg) && _); [|done]. rewrite alone_bind, alone_call. cbn [call_api].
  by destruct (api_register _ st1) as [st2 [reg2|e]].
Qed.

Lemma alone_list_all m (st : St) :
  alone list_all m st
  = ((api_list all_peers st).1, (m, match (api_list all_peers st).2 with Ok l => l | Err _ => [] end)).
Proof. unfold list_all. by rewrite alone_bind, alone_call. Qed.

(** What a thread does alone, compared with the result of its turn. *)
Definition plays {A} (t : thread Mem A) (m : Mem) (st : St) (out : list RpcMessage) (st' : St) (s' : Session)
  : Prop :=
  ∃ m' a, alone t m st = (st', (m', a)) ∧ view m' s' ∧ me_out m' = me_out m ++ out.

(** Nothing has been written and the session is the same. *)
Ltac stays := eexists _, _; split; [reflexivity|]; split; [done|by rewrite app_nil_r].

Lemma heartbeat_plays now m s (st : St) :
  view m s →
  plays (t_heartbeat profile dir now) m st [] (heartbeat_tick profile now s st).1 (heartbeat_tick profile now s st).2.
Proof.
  intros [Hid Hp]. unfold plays, t_heartbeat, heartbeat_tick, get_session.
  rewrite alone_bind, alone_local, alone_bind, alone_call. cbn [call_api]. rewrite Hid.
  destruct (api_heartbeat _ st) as [st1 [resp|e]]; cbn [fst snd];
    [|stays].
  destruct (negb (hbr_OK resp) && _); [|stays].
  unfold t_rebind, rebindToBroker. rewrite alone_bind, alone_register.
  destruct (register_fallback _ _ _ st1) as [st2 [[id name]|e]]; cbn [fst snd];
    [|stays].
  unfold put_session. rewrite alone_bind, alone_local, alone_bind.
  destruct (alone_write_state (state_file profile id name now) (set_session_id id m) st2)
    as (m' & p & -> & (H1 & H2 & H3)).
  eexists _, _. split; [done|]. cbn [sn_id sn_pushed]. rewrite app_nil_r. split; [|by rewrite H3].
  split; [by rewrite H1|]. by rewrite H2.
Qed.

Lemma push_new_cons pushed x msgs :
  push_new pushed (x :: msgs)
  = if bool_decide (msg_ID x ∈ pushed) then push_new pushed msgs
    else ((push_new ({[ msg_ID x ]} ∪ pushed) msgs).1, x :: (push_new ({[ msg_ID x ]} ∪ pushed) msgs).2).
Proof.
  assert (∀ (l : list Message) (p : gset Z) (out : list Message),
    foldl (λ acc m, if bool_decide (msg_ID m ∈ acc.1) then acc
      else ({[ msg_ID m ]} ∪ acc.1, acc.2 ++ [m])) (p, out) l
    = ((push_new p l).1, out ++ (push_new p l).2)) as Hfold.
  { unfold push_new. induction l as [|y l IH]; intros p out; simpl; [by rewrite app_nil_r|].
    case_bool_decide; [apply IH|]. rewrite IH, (IH _ [y]). simpl. by rewrite <-app_assoc. }
  unfold push_new at 1. simpl. case_bool_decide; rewrite Hfold; [by destruct (push_new _ _)|done].
Qed.

(** The loop over the messages is the fold of [push_new]. *)
Lemma push_each_plays peers msgs m s (st : St) :
  view m s →
  ∃ m' u, alone (each msgs (λ msg, local (λ m, (push_message peers msg m, tt)))) m st = (st, (m', u))
    ∧ me_session m' = sn_id s ∧ me_pushed m' = (push_new (sn_pushed s) msgs).1
    ∧ me_out m' = me_out m ++ (channel_notification peers <$> (push_new (sn_pushed s) msgs).2).
Proof.
  intros [Hid Hp]. revert m s Hid Hp. induction msgs as [|x msgs IH]; intros m s Hid Hp.
  - eexists _, _. split; [done|]. split; [done|]. split; [done|]. by rewrite app_nil_r.
  - cbn [each]. rewrite alone_bind, alone_local, push_new_cons. cbn [fst snd].
    unfold push_message at 2. rewrite Hp. case_bool_decide as Hin; [by apply (IH m s)|].
    destruct (IH (mkMem (me_session m) ({[ msg_ID x ]} ∪ sn_pushed s) (me_path m) (me_disk m)
        (me_out m ++ [channel_notification peers x]))
      (mkSession (sn_id s) (sn_state s) ({[ msg_ID x ]} ∪ sn_pushed s))) as (m' & u & -> & H1 & H2 & H3);
      [done|done|]. eexists _, _. split; [done|]. split; [done|]. split; [done|].
    rewrite H3. cbn [me_out sn_pushed]. by rewrite <-app_assoc.
Qed.

Lemma push_plays m s (st : St) :
  view m s → plays t_push m st (push_tick s st).2.2 (push_tick s st).1 (push_tick s st).2.1.
Proof.
  intros Hv. pose proof Hv as [Hid Hp]. unfold plays, t_push, push_tick, get_session.
  rewrite alone_bind, alone_local, alone_bind, alone_call. cbn [call_api]. rewrite Hid.
  destruct (api_peek _ st) as [st1 [resp|e]]; cbn [fst snd]; [|stays].
  destruct (pollr_Messages resp) as [|x msgs]; [stays|].
  rewrite alone_bind, alone_list_all. destruct (api_list all_peers st1) as [st2 r]. cbn [fst snd].
  destruct (push_each_plays (match r with Ok l => l | Err _ => [] end) (x :: msgs) m s st2 Hv)
    as (m' & u & -> & H1 & H2 & H3). destruct (push_new (sn_pushed s) (x :: msgs)) as [pushed out].
  eexists _, _. split; [done|]. done.
Qed.

(** ** The tools *)

Lemma list_answers s m (st : St) scope :
  view m s →
  alone (t_list_peers here scope) m st
  = ((call_list_peers here (sn_id s) scope st).1, (m, (call_list_peers here (sn_id s) scope st).2)).
Proof.
  intros [Hid _]. unfold t_list_peers, call_list_peers, get_session.
  rewrite alone_bind, alone_local, alone_bind, alone_call. cbn [call_api]. rewrite Hid.
  by destruct (api_list _ st) as [st1 [l|e]].
Qed.

Lemma send_answers s m (st : St) to msg :
  view m s →
  alone (t_send quote to msg) m st
  = ((call_send_message quote (sn_id s) to msg st).1, (m, (call_send_message quote (sn_id s) to msg st).2)).
Proof.
  intros [Hid _]. unfold t_send, call_send_message, send_to, get_session.
  rewrite alone_bind, alone_local. destruct (String.eqb to ""); [done|].
  rewrite alone_bind, alone_list_all. destruct (api_list _ st) as [st1 r]. cbn [fst snd].
  rewrite alone_bind, alone_call. cbn [call_api]. rewrite Hid. by destruct (api_send _ st1) as [st2 [resp|e]].
Qed.

Lemma summary_answers s m (st : St) text :
  view m s →
  alone (t_set_summary quote text) m st
  = ((call_set_summary quote (sn_id s) text st).1, (m, (call_set_summary quote (sn_id s) text st).2)).
Proof.
  intros [Hid _]. unfold t_set_summary, call_set_summary, get_session.
  rewrite alone_bind, alone_local, alone_bind, alone_call. cbn [call_api]. rewrite Hid.
  by destruct (api_set_summary _ st) as [st1 [[]|e]].
Qed.

Lemma acks_alone id msgs (m : Mem) (st : St) :
  alone (each msgs (λ msg, _ ← call (OpAck (mkAckMessageRequest id (msg_ID msg))); Done tt)) m st
  = (ack_all id msgs st, (m, tt)).
Proof.
  revert st. induction msgs as [|x msgs IH]; intros st; [done|]. cbn [each].
  rewrite alone_bind, alone_bind, alone_call. cbn [call_api alone]. rewrite IH. done.
Qed.

Lemma check_answers s m (st : St) :
  view m s →
  alone t_check m st
  = ((call_check_messages (sn_id s) st).1, (m, (call_check_messages (sn_id s) st).2)).
Proof.
  intros [Hid _]. unfold t_check, call_check_messages, get_session.
  rewrite alone_bind, alone_local, alone_bind, alone_call. cbn [call_api]. rewrite Hid.
  destruct (api_poll _ st) as [st1 [resp|e]]; cbn [fst snd]; [|done].
  destruct (pollr_Messages resp) as [|x msgs]; [done|].
  rewrite alone_bind, alone_list_all. destruct (api_list all_peers st1) as [st2 r]. cbn [fst snd].
  by rewrite alone_bind, acks_alone.
Qed.

Lemma tool_plays c s m (st : St) :
  view m s →
  let '(st', (s', a)) := handleToolCall quote here c s st in
  ∃ m', alone (t_tool quote here c) m st = (st', (m', a)) ∧ view m' s' ∧ me_out m' = me_out m.
Proof.
  intros Hv. unfold handleToolCall, t_tool.
  destruct (String.eqb (call_Name c) "list_peers").
  { rewrite (list_answers s) by done. destruct (call_list_peers _ _ _ st) as [st' a]. by exists m. }
  destruct (String.eqb (call_Name c) "send_message").
  { rewrite (send_answers s) by done. destruct (call_send_message _ _ _ _ st) as [st' a]. by exists m. }
  destruct (String.eqb (call_Name c) "set_summary").
  { rewrite (summary_answers s) by done. destruct (call_set_summary _ _ _ st) as [st' a]. by exists m. }
  destruct (String.eqb (call_Name c) "claim_agent_name").
  { pose proof Hv as [Hid Hp]. unfold t_claim, call_claim, get_session. rewrite alone_bind, alone_local.
    destruct (String.eqb (call_Arg c "name") ""); [by exists m|].
    rewrite alone_bind, alone_call. cbn [call_api]. rewrite Hid.
    destruct (api_claim _ st) as [st1 [resp|e]]; cbn [fst snd]; [|by exists m].
    destruct (claimr_OK resp); [|by exists m]. rewrite alone_bind.
    destruct (alone_update_name (call_Arg c "name") m st1) as (m' & u & -> & (H1 & H2 & H3)).
    exists m'. split; [done|]. split; [|done]. split; cbn; congruence. }
  destruct (String.eqb (call_Name c) "check_messages"); [|by exists m].
  rewrite (check_answers s) by done. destruct (call_check_messages _ st) as [st' a]. by exists m.
Qed.

Lemma context_alone (m : Mem) (st : St) :
  alone t_context m st = ((buildFleetContext st).1, (m, (buildFleetContext st).2)).
Proof.
  unfold t_context, buildFleetContext. rewrite alone_bind, alone_call. cbn [call_api].
  destruct (api_list all_peers st) as [st1 ps]. cbn [fst snd]. rewrite alone_bind, alone_call. cbn [call_api].
  destruct (api_events 5 st1) as [st2 es]. cbn [fst snd]. rewrite alone_bind, alone_call. cbn [call_api].
  by destruct (api_memory st2) as [st3 r].
Qed.

Lemma request_plays r s m (st : St) :
  view m s →
  plays (t_request quote here r) m st (handle_request quote here r s st).2.2
    (handle_request quote here r s st).1 (handle_request quote here r s st).2.1.
Proof.
  intros Hv. unfold plays, t_request, handle_request, handleInitialize.
  destruct (String.eqb (rpc_Method r) "initialize").
  { rewrite alone_bind, context_alone. destruct (buildFleetContext st) as [st1 context].
    eexists _, _. split; [reflexivity|]. done. }
  destruct (String.eqb (rpc_Method r) "notifications/initialized"); [stays|].
  destruct (String.eqb (rpc_Method r) "tools/list"); [eexists _, _; split; [reflexivity|]; done|].
  destruct (String.eqb (rpc_Method r) "tools/call").
  { rewrite alone_bind. pose proof (tool_plays (rpc_Params r) s m st Hv) as Ht.
    destruct (handleToolCall _ _ _ s st) as [st1 [s1 a]]. destruct Ht as (m' & -> & Hv' & Ho).
    eexists _, _. split; [reflexivity|]. split; [done|]. cbn [add_out me_out fst]. by rewrite Ho. }
  destruct (rpc_ID r); [eexists _, _; split; [reflexivity|]; done|stays].
Qed.

(** The goroutine that takes a turn; an undecodable line is no turn. *)
Definition turn_thread (t : Turn) : thread Mem Outcome :=
  match t with
  | TRequest r => ends (t_request quote here r)
  | TBadLine _ => Done Finished
  | TPush => ends t_push
  | THeartbeat now => ends (t_heartbeat profile dir now)
  end.

(** The goroutines of a session, when nothing comes between their steps, take the
    turns of the sequential description: from a process and a session with the same
    id and the same pushed messages, against any broker, they lead to the same
    state of the broker, write the same lines, and agree again. *)
Theorem goroutines_take_turns t s m (st : St) st' s' out :
  view m s → take_turn quote here profile t s st = Some (st', (s', out)) →
  ∃ m', alone (turn_thread t) m st = (st', (m', Finished)) ∧ view m' s' ∧ me_out m' = me_out m ++ out.
Proof.
  assert (∀ th st' s' out, plays th m st out st' s' →
    ∃ m', alone (ends th) m st = (st', (m', Finished)) ∧ view m' s' ∧ me_out m' = me_out m ++ out) as Hends.
  { intros th st1 s1 o1 (m' & [] & Ha & H). exists m'. unfold ends. by rewrite alone_bind, Ha. }
  intros Hv Ht. destruct t as [r|e| |now]; cbn [turn_thread take_turn] in *; [|done|..]; apply Hends.
  - injection Ht as Ht. pose proof (request_plays r s m st Hv) as H. by rewrite Ht in H.
  - injection Ht as Ht. pose proof (push_plays m s st Hv) as H. by rewrite Ht in H.
  - pose proof (heartbeat_plays now m s st Hv) as H.
    destruct (heartbeat_tick profile now s st) as [st1 s1]. by injection Ht as <- <- <-.
Qed.
End turns.

(** ** Witness *)
#[local] Existing Instance demo_env.
#[local] Existing Instance demo_state_codec.

Lemma goroutines_take_turns_witness :
  let s := mkSession "00000000" (state_file (mkProfile (join_as "planner") 4000) "00000000" "planner" "") ∅ in
  let m := mkMem "00000000" ∅ "" blank_disk [] in
  let w := after [join "planner"] in
  ∃ m', alone (turn_thread in_quotes (mkPlace "" "" "") (mkProfile (join_as "planner") 4000) "" TPush) m w
    = ((push_tick s w).1, (m', Finished)) ∧ me_out m' = [].
Proof.
  intros s m w.
  destruct (goroutines_take_turns in_quotes (mkPlace "" "" "") (mkProfile (join_as "planner") 4000) ""
    TPush s m w (push_tick s w).1 (push_tick s w).2.1 (push_tick s w).2.2) as (m' & Ha & _ & Ho);
    [done|cbn [take_turn]; by destruct (push_tick s w) as [? [? ?]]|].
  exists m'. split; [exact Ha|]. rewrite Ho. vm_compute. reflexivity.
Defined.
