(* ===== verification/Fleet.v ===== *)
(** * The whole fleet: sessions, their goroutines and the broker

    Any number of session processes, each with its goroutines, against one
    broker whose handlers run interleaved.  A call is on its way, being served,
    answered, lost, or given up by a caller that times out while the broker goes
    on with it; a process may crash at any time.  All of it refines the broker
    on its own: whatever the sessions do, the broker takes steps of [dispatch]. *)

From S2P Require Import Prelude GoStrings GoTime Types Store Prog World Broker Dispatch Files Client.
From S2P Require Import Api StateFile Json Memory Tools Mcp Thread Goroutines.

(** ** Goroutines in progress *)
Inductive goroutine : Type :=
| Running (t : thread Mem Outcome)
| Waiting {B : Type} (o : ApiOp B) (q : handler Response) (k : result string B → thread Mem Outcome).

(** The background goroutines of [runServer]. *)
Inductive Worker : Type := PushLoop | BeatLoop | Refresher | LateSummary | MemorySync.

#[export] Instance Worker_eq_dec : EqDecision Worker.
Proof. solve_decision. Defined.

Inductive Loop : Type := Idle | Busy (g : goroutine) | Stopped.

(** Those that [wg.Wait] waits for, and those that run once. *)
Definition waited (w : Worker) : bool := match w with PushLoop | BeatLoop => true | _ => false end.
Definition once_only (w : Worker) : bool := match w with LateSummary | MemorySync => true | _ => false end.

(** The main goroutine. *)
Inductive Job : Type := JobStart | JobRequest | JobLeave.
Inductive Main : Type :=
| Serving
| Doing (j : Job) (g : goroutine)
| Draining
| Exited
| Aborted
| Crashed.

Record Setup : Type := mkSetup {
  su_here : Place;
  su_profile : Profile;
  su_dir : string;
  su_home : string;
}.

(** A process; [pc_read] is what it has read from its standard input;
    [pc_interrupted] says that an interrupt has cancelled the context of [main]. *)
Record Process : Type := mkProcess {
  pc_setup : Setup;
  pc_mem : Mem;
  pc_read : list (jsonrpcRequest ToolCall);
  pc_main : Main;
  pc_workers : list (Worker * Loop);
  pc_interrupted : bool;
}.

(** The broker and the handlers nobody waits for any more, or that other
    programs wait for. *)
Record Side : Type := mkSide { sd_world : World; sd_pool : list (handler Response) }.

Definition flight (g : goroutine) : list (handler Response) :=
  match g with Running _ => [] | Waiting _ q _ => [q] end.
Definition loop_flight (l : Worker * Loop) : list (handler Response) :=
  match l.2 with Busy g => flight g | _ => [] end.
Definition main_flight (mn : Main) : list (handler Response) :=
  match mn with Doing _ g => flight g | _ => [] end.
Definition worker_flights (l : list (Worker * Loop)) : list (handler Response) :=
  concat (loop_flight <$> l).
Definition proc_flights (p : Process) : list (handler Response) :=
  main_flight (pc_main p) ++ worker_flights (pc_workers p).

Definition with_mem (p : Process) (m : Mem) (mn : Main) (l : list (Worker * Loop)) : Process :=
  mkProcess (pc_setup p) m (pc_read p) mn l (pc_interrupted p).
Definition reading (p : Process) (r : jsonrpcRequest ToolCall) (g : goroutine) : Process :=
  mkProcess (pc_setup p) (pc_mem p) (pc_read p ++ [r]) (Doing JobRequest g) (pc_workers p)
    (pc_interrupted p).
Definition interrupted (p : Process) : Process :=
  mkProcess (pc_setup p) (pc_mem p) (pc_read p) (pc_main p) (pc_workers p) true.

(** The process is gone; the broker goes on with what it was asked. *)
Definition dead (p : Process) (mn : Main) : Process :=
  with_mem p (pc_mem p) mn ((λ l, (l.1, Stopped)) <$> pc_workers p).
Definition orphaned (p : Process) (s : Side) : Side :=
  mkSide (sd_world s) (sd_pool s ++ proc_flights p).

Definition running (mn : Main) : bool :=
  match mn with Exited | Aborted | Crashed => false | _ => true end.
Definition started (mn : Main) : bool :=
  running mn && match mn with Doing JobStart _ => false | _ => true end.

(** ** Steps *)
Section steps.
Context {E : Env} {C : StateCodec}.

Inductive g_step : goroutine → Mem → Side → goroutine → Mem → Side → Prop :=
| g_local {B} (f : Mem → Mem * B) k m s :
    g_step (Running (Local f k)) m s (Running (k (f m).2)) (f m).1 s
| g_send {B} (o : ApiOp B) k m s :
    g_step (Running (Call o k)) m s (Waiting o (dispatch (request_of o)) k) m s
| g_lost {B} (o : ApiOp B) k e m s :
    g_step (Running (Call o k)) m s (Running (k (Err e))) m s
| g_serve {B D} (o : ApiOp B) (f : World → World * D) c k m w pool :
    g_step (Waiting o (Act f c) k) m (mkSide w pool)
      (Waiting o (c (f w).2) k) m (mkSide (f w).1 pool)
| g_answer {B} (o : ApiOp B) rs k m s :
    g_step (Waiting o (Ret rs) k) m s (Running (k (response_of o rs))) m s
| g_give_up {B} (o : ApiOp B) q k e m w pool :
    g_step (Waiting o q k) m (mkSide w pool) (Running (k (Err e))) m (mkSide w (pool ++ [q])).

(** The late summary is waited for only when there was none to register with. *)
Definition no_summary_yet (su : Setup) : bool :=
  String.eqb (reg_Summary (pf_request (su_profile su))) "".

(** What a worker does when its turn comes; time stamps and summaries are
    whatever they are. *)
Inductive ticks (su : Setup) : Worker → thread Mem Outcome → Prop :=
| tick_push : ticks su PushLoop (ends t_push)
| tick_beat now : ticks su BeatLoop (ends (t_heartbeat (su_profile su) (su_dir su) now))
| tick_refresh summary : ticks su Refresher (ends (t_summary summary))
| tick_late summary :
    no_summary_yet su = true → ticks su LateSummary (ends (t_summary summary))
| tick_sync : ticks su MemorySync (t_sync (su_home su)).

(** What [runServer] goes on with. *)
Definition goes_on (j : Job) (oc : Outcome) : Main :=
  match j, oc with
  | JobStart, Finished => Serving
  | JobStart, _ => Aborted
  | JobRequest, _ => Serving
  | JobLeave, _ => Exited
  end.

Definition all_stopped (l : list (Worker * Loop)) : Prop :=
  ∀ w lp, (w, lp) ∈ l → waited w = true → lp = Stopped.

(** The context of the two loops is done: [pollCancel], or an interrupt, which
    cancels the context it comes from.  The request loop does not look at it. *)
Definition cancelled (p : Process) : bool :=
  pc_interrupted p || match pc_main p with Draining => true | _ => false end.

Inductive p_step : Process → Side → Process → Side → Prop :=
| p_main p j g m' g' s s' :
    pc_main p = Doing j g → g_step g (pc_mem p) s g' m' s' →
    p_step p s (with_mem p m' (Doing j g') (pc_workers p)) s'
| p_done p j oc s :
    pc_main p = Doing j (Running (Done oc)) → running (goes_on j oc) = true →
    p_step p s (with_mem p (pc_mem p) (goes_on j oc) (pc_workers p)) s
| p_end p j oc s :
    pc_main p = Doing j (Running (Done oc)) → running (goes_on j oc) = false →
    p_step p s (dead p (goes_on j oc)) (orphaned p s)
| p_read p r s :
    pc_main p = Serving →
    p_step p s (reading p r (Running (ends (t_request env_quote (su_here (pc_setup p)) r)))) s
| p_eof p s :
    pc_main p = Serving → p_step p s (with_mem p (pc_mem p) Draining (pc_workers p)) s
| p_leave p s :
    pc_main p = Draining → all_stopped (pc_workers p) →
    p_step p s (with_mem p (pc_mem p) (Doing JobLeave (Running (ends t_leave))) (pc_workers p)) s
| p_tick p w t l1 l2 s :
    pc_workers p = l1 ++ (w, Idle) :: l2 → started (pc_main p) = true → ticks (pc_setup p) w t →
    p_step p s (with_mem p (pc_mem p) (pc_main p) (l1 ++ (w, Busy (Running t)) :: l2)) s
| p_worker p w g g' m' l1 l2 s s' :
    pc_workers p = l1 ++ (w, Busy g) :: l2 → g_step g (pc_mem p) s g' m' s' →
    p_step p s (with_mem p m' (pc_main p) (l1 ++ (w, Busy g') :: l2)) s'
| p_worker_done p w oc l1 l2 s :
    pc_workers p = l1 ++ (w, Busy (Running (Done oc))) :: l2 → oc ≠ Panicked →
    p_step p s (with_mem p (pc_mem p) (pc_main p)
                  (l1 ++ (w, if once_only w then Stopped else Idle) :: l2)) s
| p_stop p w l1 l2 s :
    pc_workers p = l1 ++ (w, Idle) :: l2 → waited w = true → started (pc_main p) = true →
    cancelled p = true →
    p_step p s (with_mem p (pc_mem p) (pc_main p) (l1 ++ (w, Stopped) :: l2)) s
| p_panic p w l1 l2 s :
    pc_workers p = l1 ++ (w, Busy (Running (Done Panicked))) :: l2 →
    p_step p s (dead p Crashed) (orphaned p s)
| p_crash p s :
    running (pc_main p) = true → p_step p s (dead p Crashed) (orphaned p s)
| p_interrupt p s : running (pc_main p) = true → p_step p s (interrupted p) s.

(** A process as it is started. *)
Definition launch (su : Setup) (fs : FileSys) (now : string) : Process :=
  mkProcess su (mkMem "" ∅ "" fs []) []
    (Doing JobStart (Running (t_start (su_profile su) (su_dir su) now)))
    ((λ w, (w, Idle)) <$> [PushLoop; BeatLoop; Refresher; LateSummary; MemorySync]) false.

Record Fleet : Type := mkFleet { fl_side : Side; fl_procs : list Process }.

Inductive fleet_step : Fleet → Fleet → Prop :=
| fleet_proc s s' p p' l1 l2 :
    p_step p s p' s' → fleet_step (mkFleet s (l1 ++ p :: l2)) (mkFleet s' (l1 ++ p' :: l2))
| fleet_launch s l su fs now : fleet_step (mkFleet s l) (mkFleet s (l ++ [launch su fs now]))
| fleet_other w pool w' pool' l :
    step dispatch (pool, w) (pool', w') →
    fleet_step (mkFleet (mkSide w pool) l) (mkFleet (mkSide w' pool') l).

Definition no_fleet : Fleet := mkFleet (mkSide new_world []) [].
Definition in_flight (f : Fleet) : list (handler Response) :=
  sd_pool (fl_side f) ++ concat (proc_flights <$> fl_procs f).
Definition fl_world (f : Fleet) : World := sd_world (fl_side f).

(** ** Refinement *)

(** The broker gets from one world and the handlers in progress to another, up
    to the order of the handlers. *)
Definition moves (l : list (handler Response)) (w : World) (l' : list (handler Response)) (w' : World)
  : Prop := ∀ P, P ≡ₚ l → ∃ P', steps dispatch (P, w) (P', w') ∧ P' ≡ₚ l'.

Lemma moves_perm l l' w : l ≡ₚ l' → moves l w l' w.
Proof. intros Hl P HP. exists P. split; [apply rtc_refl|]. by rewrite HP. Qed.

Lemma moves_trans l1 w1 l2 w2 l3 w3 : moves l1 w1 l2 w2 → moves l2 w2 l3 w3 → moves l1 w1 l3 w3.
Proof.
  intros H12 H23 P HP. destruct (H12 P HP) as (P2 & Hs2 & HP2).
  destruct (H23 P2 HP2) as (P3 & Hs3 & HP3). exists P3. split; [by etrans|done].
Qed.

Lemma perm_middle {A} (x : A) P l : P ≡ₚ x :: l → ∃ l1 l2, P = l1 ++ x :: l2 ∧ l1 ++ l2 ≡ₚ l.
Proof.
  intros HP. assert (x ∈ P) as (l1 & l2 & ->)%list_elem_of_split by (rewrite HP; by left).
  exists l1, l2. split; [done|]. apply (Permutation_cons_inv (a := x)). rewrite <-HP.
  apply Permutation_middle.
Qed.

Lemma moves_start rq l w : moves l w (dispatch rq :: l) w.
Proof.
  intros P HP. exists (P ++ [dispatch rq]). split; [apply rtc_once; constructor|].
  rewrite HP. symmetry. apply Permutation_cons_append.
Qed.

Lemma moves_act {D} (f : World → World * D) c l w :
  moves (Act f c :: l) w (c (f w).2 :: l) (f w).1.
Proof.
  intros P (l1 & l2 & -> & Hl)%perm_middle. exists (l1 ++ c (f w).2 :: l2).
  split; [apply rtc_once; constructor|]. by rewrite <-Hl, Permutation_middle.
Qed.

Lemma moves_done rs l w : moves (Ret rs :: l) w l w.
Proof.
  intros P (l1 & l2 & -> & Hl)%perm_middle. exists (l1 ++ l2).
  split; [apply rtc_once; constructor|]. done.
Qed.

Lemma moves_step P w P' w' l : step dispatch (P, w) (P', w') → moves (P ++ l) w (P' ++ l) w'.
Proof.
  intros H. inversion H; subst; simplify_eq.
  - eapply moves_trans; [apply moves_start|]. apply moves_perm. solve_Permutation.
  - eapply moves_trans; [apply moves_perm; by rewrite <-Permutation_middle|].
    eapply moves_trans; [apply moves_act|]. apply moves_perm. solve_Permutation.
  - eapply moves_trans; [apply moves_perm; by rewrite <-Permutation_middle|].
    apply (moves_done _ (_ ++ l)).
Qed.

(** A step of a goroutine, with whatever else is in progress. *)
Lemma g_step_moves g m s g' m' s' l :
  g_step g m s g' m' s' →
  moves (sd_pool s ++ flight g ++ l) (sd_world s) (sd_pool s' ++ flight g' ++ l) (sd_world s').
Proof.
  intros [D f k m0 s0|D o k m0 s0|D o k e m0 s0|D D' o f c k m0 w pool|D o rs k m0 s0|D o q k e m0 w pool];
    cbn [flight app sd_pool sd_world].
  - by apply moves_perm.
  - eapply moves_trans; [apply moves_start|]. apply moves_perm. by rewrite Permutation_middle.
  - by apply moves_perm.
  - eapply moves_trans; [apply moves_perm; by rewrite <-Permutation_middle|].
    eapply moves_trans; [apply moves_act|]. apply moves_perm. by rewrite Permutation_middle.
  - eapply moves_trans; [apply moves_perm; by rewrite <-Permutation_middle|]. apply moves_done.
  - apply moves_perm. by rewrite <-app_assoc.
Qed.

Lemma worker_flights_middle l1 x l2 :
  worker_flights (l1 ++ x :: l2) ≡ₚ loop_flight x ++ worker_flights (l1 ++ l2).
Proof.
  unfold worker_flights. rewrite !fmap_app, !concat_app, fmap_cons. simpl.
  by rewrite !app_assoc, (Permutation_app_comm (concat _) (loop_flight x)).
Qed.

Lemma dead_flights p mn : main_flight mn = [] → proc_flights (dead p mn) = [].
Proof.
  intros Hmn. unfold proc_flights, worker_flights. cbn [dead with_mem pc_main pc_workers].
  rewrite Hmn. simpl. induction (pc_workers p) as [|x l IH]; [done|]. exact IH.
Qed.

Lemma after_quiet j oc : main_flight (goes_on j oc) = [].
Proof. by destruct j, oc. Qed.

Lemma p_step_moves p s p' s' l :
  p_step p s p' s' →
  moves (sd_pool s ++ proc_flights p ++ l) (sd_world s) (sd_pool s' ++ proc_flights p' ++ l) (sd_world s').
Proof.
  assert (∀ p s mn, main_flight mn = [] →
    moves (sd_pool s ++ proc_flights p ++ l) (sd_world s)
      (sd_pool (orphaned p s) ++ proc_flights (dead p mn) ++ l) (sd_world (orphaned p s))) as Hdead.
  { intros p0 s0 mn Hmn. rewrite dead_flights by done. apply moves_perm. cbn [orphaned sd_pool app].
    by rewrite app_assoc. }
  intros Hs. destruct Hs; try (apply Hdead; first [done|apply after_quiet]); unfold proc_flights;
    cbn [with_mem reading interrupted pc_main pc_workers];
    repeat match goal with H : pc_main _ = _ |- _ => rewrite H end;
    repeat match goal with H : pc_workers _ = _ |- _ => rewrite H end;
    rewrite ?after_quiet; try (apply moves_perm; by rewrite ?worker_flights_middle).
  - rewrite <-!app_assoc. by apply (g_step_moves g (pc_mem p)) with (m' := m').
  - set (rest := main_flight (pc_main p) ++ worker_flights (l1 ++ l2) ++ l).
    eapply (moves_trans _ _ (sd_pool s ++ flight g ++ rest)).
    { apply moves_perm. rewrite worker_flights_middle. unfold rest. solve_Permutation. }
    eapply moves_trans; [by eapply g_step_moves|]. apply moves_perm.
    rewrite worker_flights_middle. unfold rest. solve_Permutation.
  - apply moves_perm. rewrite !worker_flights_middle. by destruct (once_only w).
Qed.

Lemma fleet_step_moves f f' :
  fleet_step f f' → moves (in_flight f) (fl_world f) (in_flight f') (fl_world f').
Proof.
  assert (∀ s p (l1 l2 : list Process), in_flight (mkFleet s (l1 ++ p :: l2))
    ≡ₚ sd_pool s ++ proc_flights p ++ concat (proc_flights <$> (l1 ++ l2))) as Hmid.
  { intros s p l1 l2. unfold in_flight. cbn [fl_side fl_procs].
    rewrite !fmap_app, !concat_app, fmap_cons. simpl.
    solve_Permutation. }
  intros [s s' p p' l1 l2 Hp|s l su fs now|w pool w' pool' l Hb].
  - eapply moves_trans; [apply moves_perm, Hmid|].
    eapply moves_trans; [by apply p_step_moves|]. apply moves_perm. by rewrite Hmid.
  - apply moves_perm. unfold in_flight. cbn [fl_side fl_procs].
    rewrite fmap_app, concat_app. cbn. by rewrite app_nil_r.
  - unfold in_flight, fl_world. cbn [fl_side fl_procs sd_pool sd_world]. by apply moves_step.
Qed.

Lemma fleet_steps_moves f f' :
  rtc fleet_step f f' → moves (in_flight f) (fl_world f) (in_flight f') (fl_world f').
Proof.
  induction 1 as [f|f1 f2 f3 Hs _ IH]; [by apply moves_perm|].
  eapply moves_trans; [by apply fleet_step_moves|done].
Qed.
End steps.
