(* ===== verification/FleetRun.v ===== *)
(** * Running the fleet

    An executable scheduler for the machine of [Fleet]: goroutines that run until
    they return, with every call delivered and answered, and commands that drive
    a process.  What it computes is a run of the machine. *)

From S2P Require Import Prelude GoStrings GoTime Types Store Prog World Broker Dispatch Demo Files.
From S2P Require Import Client Api StateFile Json Memory Tools Mcp Thread Goroutines Fleet.

Section run.
Context {E : Env} {C : StateCodec}.

(** ** One goroutine *)
Fixpoint settle (fuel : nat) (g : goroutine) (m : Mem) (s : Side) : goroutine * Mem * Side :=
  match fuel with
  | O => (g, m, s)
  | S n =>
      match g with
      | Running (Done _) => (g, m, s)
      | Running (Local f k) => let '(m', b) := f m in settle n (Running (k b)) m' s
      | Running (Call o k) => settle n (Waiting o (dispatch (request_of o)) k) m s
      | Waiting o (Ret rs) k => settle n (Running (k (response_of o rs))) m s
      | Waiting o (Act f c) k =>
          let '(w, b) := f (sd_world s) in settle n (Waiting o (c b) k) m (mkSide w (sd_pool s))
      end
  end.

Definition g_steps : relation (goroutine * Mem * Side) :=
  rtc (λ a b, g_step a.1.1 a.1.2 a.2 b.1.1 b.1.2 b.2).

Lemma settle_steps fuel g m s : g_steps (g, m, s) (settle fuel g m s).
Proof.
  revert g m s. induction fuel as [|n IH]; intros g m s; [apply rtc_refl|].
  destruct g as [[oc|D f k|D o k]|D o [rs|D' f c] k]; simpl; [apply rtc_refl|..].
  - destruct (f m) as [m' b] eqn:Ef. eapply rtc_l; [|apply IH]. simpl.
    change m' with (m', b).1. change b with (m', b).2 at 1. rewrite <-Ef. constructor.
  - eapply rtc_l; [|apply IH]. constructor.
  - eapply rtc_l; [|apply IH]. constructor.
  - destruct s as [w pool]. cbn [sd_world sd_pool]. destruct (f w) as [w' b] eqn:Ef.
    eapply rtc_l; [|apply IH]. simpl. change w' with (w', b).1. change b with (w', b).2 at 1.
    rewrite <-Ef. constructor.
Qed.

(** ** One process *)

(** The main goroutine takes at most [fuel] steps of its job; a line is read; the input ends; the
    clean-up begins; the [i]-th worker is woken, with the time or the summary it
    finds, and takes at most [fuel] steps; it gives up waiting for an answer; it
    stops; the process is interrupted. *)
Inductive Cmd : Type :=
| CmdMain (fuel : nat)
| CmdRead (r : jsonrpcRequest ToolCall)
| CmdEof
| CmdLeave
| CmdWake (i : nat) (text : string)
| CmdWork (i fuel : nat)
| CmdGiveUp (i : nat) (e : string)
| CmdStop (i : nat)
| CmdInterrupt.

Definition tick_thread (su : Setup) (w : Worker) (text : string) : thread Mem Outcome :=
  match w with
  | PushLoop => ends t_push
  | BeatLoop => ends (t_heartbeat (su_profile su) (su_dir su) text)
  | Refresher | LateSummary => ends (t_summary text)
  | MemorySync => t_sync (su_home su)
  end.

Definition may_tick (su : Setup) (w : Worker) : bool :=
  match w with LateSummary => no_summary_yet su | _ => true end.

Lemma may_tick_ticks su w text : may_tick su w = true → ticks su w (tick_thread su w text).
Proof. intros Hw. by destruct w; constructor. Qed.

Definition stoppedb (l : list (Worker * Loop)) : bool :=
  forallb (λ x : Worker * Loop, negb (waited x.1) || match x.2 with Stopped => true | _ => false end) l.

Definition p_exec (c : Cmd) (x : Process * Side) : Process * Side :=
  let '(p, s) := x in
  let ws := pc_workers p in
  match c with
  | CmdMain fuel =>
      match pc_main p with
      | Doing j g =>
          match settle fuel g (pc_mem p) s with
          | (Running (Done oc), m, s') =>
              let p' := with_mem p m (Doing j (Running (Done oc))) ws in
              if running (goes_on j oc) then (with_mem p m (goes_on j oc) ws, s')
              else (dead p' (goes_on j oc), orphaned p' s')
          | (g', m, s') => (with_mem p m (Doing j g') ws, s')
          end
      | _ => x
      end
  | CmdRead r =>
      match pc_main p with
      | Serving =>
          (reading p r (Running (ends (t_request env_quote (su_here (pc_setup p)) r))), s)
      | _ => x
      end
  | CmdEof => match pc_main p with Serving => (with_mem p (pc_mem p) Draining ws, s) | _ => x end
  | CmdLeave =>
      match pc_main p with
      | Draining =>
          if stoppedb ws then (with_mem p (pc_mem p) (Doing JobLeave (Running (ends t_leave))) ws, s) else x
      | _ => x
      end
  | CmdWake i text =>
      match ws !! i with
      | Some (w, Idle) =>
          if started (pc_main p) && may_tick (pc_setup p) w then
            (with_mem p (pc_mem p) (pc_main p)
               (<[i := (w, Busy (Running (tick_thread (pc_setup p) w text)))]> ws), s)
          else x
      | _ => x
      end
  | CmdWork i fuel =>
      match ws !! i with
      | Some (w, Busy g) =>
          let '(g', m, s') := settle fuel g (pc_mem p) s in
          match g' with
          | Running (Done Finished) =>
              (with_mem p m (pc_main p) (<[i := (w, if once_only w then Stopped else Idle)]> ws), s')
          | _ => (with_mem p m (pc_main p) (<[i := (w, Busy g')]> ws), s')
          end
      | _ => x
      end
  | CmdGiveUp i e =>
      match ws !! i with
      | Some (w, Busy (Waiting o q k)) =>
          (with_mem p (pc_mem p) (pc_main p) (<[i := (w, Busy (Running (k (Err e))))]> ws),
           mkSide (sd_world s) (sd_pool s ++ [q]))
      | _ => x
      end
  | CmdStop i =>
      match ws !! i with
      | Some (w, Idle) =>
          if waited w && started (pc_main p) && cancelled p
          then (with_mem p (pc_mem p) (pc_main p) (<[i := (w, Stopped)]> ws), s) else x
      | _ => x
      end
  | CmdInterrupt => if running (pc_main p) then (interrupted p, s) else x
  end.

Definition p_steps : relation (Process * Side) := rtc (λ a b, p_step a.1 a.2 b.1 b.2).

Lemma main_steps p j g m s g' m' s' :
  g_steps (g, m, s) (g', m', s') → pc_main p = Doing j g → pc_mem p = m →
  p_steps (p, s) (with_mem p m' (Doing j g') (pc_workers p), s').
Proof.
  remember (g, m, s) as a eqn:Ea. remember (g', m', s') as b eqn:Eb. intros H. revert p g m s Ea.
  induction H as [a|a1 [[g1 m1] s1] a3 Hs _ IH]; intros p g m s Ea Hm Hmem; subst.
  - simplify_eq. rewrite <-Hm. by destruct p; apply rtc_refl.
  - simpl in Hs. apply (rtc_l _ _ (with_mem p m1 (Doing j g1) (pc_workers p), s1)); [by eapply (p_main p j g)|].
    apply (IH eq_refl (with_mem p m1 (Doing j g1) (pc_workers p)) g1 m1 s1); done.
Qed.

Lemma split_at {A} (l : list A) i x :
  l !! i = Some x → ∃ l1 l2, l = l1 ++ x :: l2 ∧ ∀ y, <[i := y]> l = l1 ++ y :: l2.
Proof.
  intros Hi. exists (take i l), (drop (S i) l). split; [symmetry; by apply take_drop_middle|].
  intros y. apply insert_take_drop. by eapply lookup_lt_Some.
Qed.

Lemma worker_steps p w g m s g' m' s' l1 l2 :
  g_steps (g, m, s) (g', m', s') → pc_workers p = l1 ++ (w, Busy g) :: l2 → pc_mem p = m →
  p_steps (p, s) (with_mem p m' (pc_main p) (l1 ++ (w, Busy g') :: l2), s').
Proof.
  remember (g, m, s) as a eqn:Ea. remember (g', m', s') as b eqn:Eb. intros H. revert p g m s Ea.
  induction H as [a|a1 [[g1 m1] s1] a3 Hs _ IH]; intros p g m s Ea Hw Hmem; subst.
  - simplify_eq. rewrite <-Hw. by destruct p; apply rtc_refl.
  - simpl in Hs. apply (rtc_l _ _ (with_mem p m1 (pc_main p) (l1 ++ (w, Busy g1) :: l2), s1));
      [by eapply (p_worker p w g)|].
    apply (IH eq_refl (with_mem p m1 (pc_main p) (l1 ++ (w, Busy g1) :: l2)) g1 m1 s1); done.
Qed.

Lemma stoppedb_all l : stoppedb l = true → all_stopped l.
Proof.
  intros Hs w lp Hin Hw. unfold stoppedb in Hs. rewrite forallb_forall in Hs.
  specialize (Hs (w, lp)). rewrite <-list_elem_of_In in Hs. specialize (Hs Hin). simpl in Hs.
  rewrite Hw in Hs. by destruct lp.
Qed.

Lemma p_exec_steps c x : p_steps x (p_exec c x).
Proof.
  destruct x as [p s]. destruct c as [fuel|r| | |i text|i fuel|i e|i|]; simpl.
  - destruct (pc_main p) as [|j g| | | |] eqn:Em; try apply rtc_refl.
    pose proof (settle_steps fuel g (pc_mem p) s) as Hs.
    destruct (settle fuel g (pc_mem p) s) as [[g' m'] s'].
    apply (main_steps p j) in Hs; [|done|done].
    destruct g' as [[oc|D f k|D o k]|D o q k]; try exact Hs.
    destruct (running (goes_on j oc)) eqn:Er; (eapply rtc_r; [exact Hs|]); simpl.
    + apply (p_done (with_mem p m' _ _)); done.
    + apply p_end; done.
  - destruct (pc_main p) eqn:Em; try apply rtc_refl. apply rtc_once. by apply p_read.
  - destruct (pc_main p) eqn:Em; try apply rtc_refl. apply rtc_once. by apply p_eof.
  - destruct (pc_main p) eqn:Em; try apply rtc_refl. destruct (stoppedb _) eqn:Es; [|apply rtc_refl].
    apply rtc_once. apply p_leave; [done|]. by apply stoppedb_all.
  - destruct (pc_workers p !! i) as [[w [|g|]]|] eqn:Ei; try apply rtc_refl.
    destruct (started (pc_main p) && may_tick (pc_setup p) w) eqn:Est; [|apply rtc_refl].
    apply andb_true_iff in Est as [Est Hw].
    destruct (split_at _ _ _ Ei) as (l1 & l2 & Hl & Hins). rewrite Hins. apply rtc_once.
    apply p_tick; [done|done|]. by apply may_tick_ticks.
  - destruct (pc_workers p !! i) as [[w [|g|]]|] eqn:Ei; try apply rtc_refl.
    destruct (split_at _ _ _ Ei) as (l1 & l2 & Hl & Hins).
    pose proof (settle_steps fuel g (pc_mem p) s) as Hs.
    destruct (settle fuel g (pc_mem p) s) as [[g' m'] s'].
    apply (worker_steps p w _ _ _ _ _ _ l1 l2) in Hs; [|done|done].
    destruct g' as [[[]|D f k|D o k]|D o q k]; rewrite Hins; try exact Hs.
    eapply rtc_r; [exact Hs|]. by apply (p_worker_done (with_mem p m' _ _) w Finished).
  - destruct (pc_workers p !! i) as [[w [|[t|D o q k]|]]|] eqn:Ei; try apply rtc_refl.
    destruct (split_at _ _ _ Ei) as (l1 & l2 & Hl & Hins). rewrite Hins. apply rtc_once.
    destruct s as [w0 pool]. eapply (p_worker p w); [done|constructor].
  - destruct (pc_workers p !! i) as [[w [|g|]]|] eqn:Ei; try apply rtc_refl.
    destruct (waited w && started (pc_main p) && cancelled p) eqn:Ew; [|apply rtc_refl].
    apply andb_true_iff in Ew as [[Hw Hst]%andb_true_iff Hc].
    destruct (split_at _ _ _ Ei) as (l1 & l2 & Hl & Hins). rewrite Hins. apply rtc_once. by apply p_stop.
  - destruct (running (pc_main p)) eqn:Er; [|apply rtc_refl]. apply rtc_once. by apply p_interrupt.
Qed.

Definition p_run (cmds : list Cmd) (x : Process * Side) : Process * Side :=
  foldl (λ x c, p_exec c x) x cmds.

Lemma p_run_steps cmds x : p_steps x (p_run cmds x).
Proof.
  revert x. induction cmds as [|c cmds IH]; intros x; [apply rtc_refl|].
  etrans; [apply p_exec_steps|apply IH].
Qed.

Lemma p_steps_fleet x y : p_steps x y → rtc fleet_step (mkFleet x.2 [x.1]) (mkFleet y.2 [y.1]).
Proof.
  induction 1 as [y|y1 y2 y3 Hstep _ IH]; [apply rtc_refl|]. eapply rtc_l; [|exact IH].
  by apply (fleet_proc _ _ _ _ [] []).
Qed.

(** A process launched on a broker and driven by commands is a run of the fleet. *)
Lemma fleet_run su fs now w cmds x :
  p_run cmds (launch su fs now, mkSide w []) = x →
  rtc fleet_step (mkFleet (mkSide w []) []) (mkFleet x.2 [x.1]).
Proof.
  intros <-. eapply rtc_l; [apply (fleet_launch (mkSide w []) [] su fs now)|].
  apply (p_steps_fleet (launch su fs now, mkSide w [])), p_run_steps.
Qed.
End run.

(** ** A day of one session

    "planner" has sent "builder" a message.  A session registers as "builder", is
    asked for its tools, announces the message, is asked for its messages, and
    leaves when its input ends. *)
#[local] Existing Instance demo_env.
#[local] Existing Instance demo_state_codec.

Definition builder_setup : Setup :=
  mkSetup (mkPlace "/home/dev/project" "" "workstation") (mkProfile (join_as "builder") 4000)
    cache_dir "/home/dev".

Definition builder_mail : World := after [join "planner"; RqSend (send_agent "00000000" "builder" "please build")].

Definition list_tools : jsonrpcRequest ToolCall :=
  mkRpcRequest (Some (JNum 1)) "tools/list" (mkToolCall "" (λ _, "")).
Definition check_mail : jsonrpcRequest ToolCall :=
  mkRpcRequest (Some (JNum 2)) "tools/call" (mkToolCall "check_messages" (λ _, "")).

Definition builder_serves : list Cmd :=
  [CmdMain 100; CmdRead list_tools; CmdMain 100; CmdWake 0 ""; CmdWork 0 100; CmdRead check_mail; CmdMain 100].
Definition builder_leaves : list Cmd := [CmdEof; CmdStop 0; CmdStop 1; CmdLeave; CmdMain 100].

Definition served : Process * Side :=
  p_run builder_serves (launch builder_setup blank_disk "", mkSide builder_mail []).
Definition departed : Process * Side :=
  p_run (builder_serves ++ builder_leaves) (launch builder_setup blank_disk "", mkSide builder_mail []).

Lemma served_run : rtc fleet_step (mkFleet (mkSide builder_mail []) []) (mkFleet served.2 [served.1]).
Proof. exact (fleet_run builder_setup blank_disk "" builder_mail builder_serves served eq_refl). Qed.

Lemma departed_run : rtc fleet_step (mkFleet (mkSide builder_mail []) []) (mkFleet departed.2 [departed.1]).
Proof.
  exact (fleet_run builder_setup blank_disk "" builder_mail (builder_serves ++ builder_leaves) departed eq_refl).
Qed.
