(* ===== verification/McpSpec.v ===== *)
(** * What the MCP server answers

    One answer for each request that wants one, in order, whatever the
    background loops write in between; lines of the agreed shapes; a listing
    that has every session once and its own first; verdicts on messages that are
    those of the broker. *)

From S2P Require Import Prelude GoStrings GoTime Types Store Prog World Broker Dispatch Demo.
From S2P Require Import BrokerInv BrokerWp BrokerOps Lifecycle Mail Client ClientSpec Json Memory.
From S2P Require Import Tools Mcp.

(** ** Requests and answers *)

(** The id a request is answered under, if it is answered. *)
Definition answered_id (r : jsonrpcRequest ToolCall) : option (option Json) :=
  if String.eqb (rpc_Method r) "notifications/initialized" then None
  else if String.eqb (rpc_Method r) "initialize" || String.eqb (rpc_Method r) "tools/list"
          || String.eqb (rpc_Method r) "tools/call"
  then Some (rpc_ID r)
  else Some <$> rpc_ID r.

Definition answer_id (m : RpcMessage) : option (option Json) :=
  match m with
  | RpcResult id _ | RpcError id _ _ => Some id
  | RpcNotification _ _ => None
  end.

(** The requests before the first line that does not decode. *)
Fixpoint requests (turns : list Turn) : list (jsonrpcRequest ToolCall) :=
  match turns with
  | [] | TBadLine _ :: _ => []
  | TRequest r :: rest => r :: requests rest
  | _ :: rest => requests rest
  end.

(** ** Shapes *)
Definition block_schema : Schema := SObj [("type", SConst "text"); ("text", SStr)] [].
Definition tool_result_schema : Schema := SObj [("content", SArr block_schema)] [("isError", SBool)].
Definition tool_schema : Schema :=
  SObj [("name", SStr); ("description", SStr);
        ("inputSchema",
          SObj [("type", SConst "object"); ("properties", SMap SAny)] [("required", SArr SStr)])] [].
Definition initialize_schema : Schema :=
  SObj [("protocolVersion", SStr);
        ("capabilities",
          SObj [("experimental", SObj [("claude/channel", SMap SAny)] []); ("tools", SMap SAny)] []);
        ("serverInfo", SObj [("name", SStr); ("version", SStr)] []); ("instructions", SStr)] [].

(** The channel drops a notification whose [meta] holds anything but strings. *)
Definition channel_schema : Schema := SObj [("content", SStr); ("meta", SMap SStr)] [].

Definition line_schemas : list Schema :=
  [response_schema tool_result_schema; response_schema initialize_schema;
   response_schema (SObj [("tools", SArr tool_schema)] []); error_schema;
   notification_schema channel_schema].

Definition well_typed (m : RpcMessage) : bool := existsb (λ s, conforms s (rpc_json m)) line_schemas.

(** ** Lemmas on shapes *)
Lemma well_typed_by m s : s ∈ line_schemas → conforms s (rpc_json m) = true → well_typed m = true.
Proof. intros Hs Hc. apply existsb_true_iff. eauto. Qed.

Lemma tool_message_typed id a : well_typed (tool_message id a) = true.
Proof.
  destruct a as [text|text|name].
  - eapply (well_typed_by _ (response_schema tool_result_schema)); [by left|]. by apply response_conforms.
  - eapply (well_typed_by _ (response_schema tool_result_schema)); [by left|]. by apply response_conforms.
  - eapply (well_typed_by _ error_schema); [by do 3 right; left|]. apply error_conforms.
Qed.

Lemma channel_typed peers m : well_typed (channel_notification peers m) = true.
Proof.
  eapply (well_typed_by _ (notification_schema channel_schema)); [by do 4 right; left|].
  by apply notification_conforms.
Qed.

Lemma tools_list_typed id : well_typed (handleToolsList id) = true.
Proof.
  eapply (well_typed_by _ (response_schema (SObj [("tools", SArr tool_schema)] [])));
    [by do 2 right; left|]. apply response_conforms. vm_decide.
Qed.

Lemma initialize_typed id i : well_typed (RpcResult id (initialize_result i)) = true.
Proof.
  eapply (well_typed_by _ (response_schema initialize_schema)); [by right; left|].
  by apply response_conforms.
Qed.

Create HintDb mcp.
#[export] Hint Resolve tool_message_typed tools_list_typed initialize_typed channel_typed : mcp.

(** ** Lemmas on listings *)
Lemma self_index_lookup myID peers i :
  self_index myID peers = Some i → ∃ p, peers !! i = Some p ∧ peer_ID p = myID.
Proof.
  revert i. induction peers as [|p peers IH]; intros i; simpl; [done|].
  destruct (String.eqb_spec (peer_ID p) myID) as [Hp|].
  - intros [= <-]. by exists p.
  - destruct (self_index myID peers) as [j|]; [|done]. intros [= <-]. by apply IH.
Qed.

Lemma self_index_none myID peers : self_index myID peers = None ↔ myID ∉ peer_ID <$> peers.
Proof.
  induction peers as [|p peers IH]; [split; [intros _; apply not_elem_of_nil|done]|].
  csimpl. rewrite not_elem_of_cons. destruct (String.eqb_spec (peer_ID p) myID) as [->|Hne].
  - split; [done|]. by intros [].
  - destruct (self_index myID peers); simpl; split; try done.
    + intros [_ H]. by apply IH in H.
    + intros _. split; [congruence|]. by apply IH.
Qed.

(** The rows are the sessions of the list, each once; the session itself is the
    one that is marked, and comes first when it is there. *)
Lemma peer_rows_spec myID peers :
  NoDup (peer_ID <$> peers) →
  (peer_rows myID peers).*1 ≡ₚ peers
  ∧ Forall (λ r, r.2 = String.eqb (peer_ID r.1) myID) (peer_rows myID peers)
  ∧ (myID ∈ peer_ID <$> peers →
     ∃ self rest, peer_rows myID peers = (self, true) :: rest ∧ peer_ID self = myID).
Proof.
  assert (∀ l : list Peer, ((λ p, (p, false)) <$> l).*1 = l) as Hfst.
  { intros l. rewrite <-list_fmap_compose. apply list_fmap_id. }
  intros Hnd. unfold peer_rows. destruct (self_index myID peers) as [i|] eqn:Ei.
  - destruct (self_index_lookup myID peers i Ei) as (p & Hp & Hid). rewrite Hp. csimpl. rewrite Hfst.
    pose proof (take_drop_middle peers i p Hp) as Hsplit. split; [|split].
    + rewrite <-Hsplit at 3. apply Permutation_middle.
    + rewrite <-Hsplit in Hnd. rewrite fmap_app, fmap_cons in Hnd.
      apply NoDup_app in Hnd as (_ & Hdis & [Hni _]%NoDup_cons).
      constructor; [simpl; by rewrite Hid, String.eqb_refl|]. apply Forall_fmap, Forall_forall.
      intros q Hq. simpl. symmetry. apply String.eqb_neq. intros Heq.
      apply elem_of_app in Hq as [Hq|Hq].
      * apply (Hdis (peer_ID q)); [by apply list_elem_of_fmap_2|]. rewrite Heq, Hid. by left.
      * apply Hni. rewrite Hid, <-Heq. by apply list_elem_of_fmap_2.
    + intros _. by eexists _, _.
  - apply self_index_none in Ei. rewrite Hfst. split; [done|]. split; [|by intros ?].
    apply Forall_fmap, Forall_forall. intros q Hq. simpl. symmetry. apply String.eqb_neq.
    intros <-. apply Ei. by apply list_elem_of_fmap_2.
Qed.

(** The text of a listing, row by row. *)
Definition other_rows (ps : list Peer) : string := foldr (λ p s, writePeerRow p false +:+ s) "" ps.

Definition listing_heading (scope : string) (others : list Peer) : string :=
  match others with
  | [] => "Only this session is registered (scope: " +:+ scope +:+ ", no other peers)."
  | _ => "Found " +:+ itoa (Z.of_nat (S (length others))) +:+ " peer(s) (scope: " +:+ scope +:+ "):"
  end +:+ nl +:+ nl.

Lemma write_rows_others ps : write_rows ((λ p, (p, false)) <$> ps) = other_rows ps.
Proof. induction ps as [|p ps IH]; [done|]. unfold write_rows, other_rows in *. csimpl. by rewrite IH. Qed.

(** For a session that is in the list: itself first, marked, then the others. *)
Lemma list_text_self myID scope peers self rest :
  peer_rows myID peers = (self, true) :: ((λ p, (p, false)) <$> rest) →
  list_text myID scope peers
    = listing_heading scope rest +:+ writePeerRow self true +:+ other_rows rest.
Proof.
  intros Hrows. unfold list_text. destruct peers as [|p peers]; [done|].
  assert (length (p :: peers) = S (length rest)) as Hlen.
  { revert Hrows. unfold peer_rows. destruct (self_index myID (p :: peers)) as [i|] eqn:Ei.
    - destruct (self_index_lookup _ _ _ Ei) as (q & Hq & _). rewrite Hq. intros [= _ Hr].
      apply (f_equal length) in Hr. rewrite !length_fmap in Hr. rewrite <-Hr.
      rewrite <-(take_drop_middle _ _ _ Hq) at 1. rewrite !length_app. simpl. lia.
    - intros [=]. }
  rewrite Hrows. destruct peers as [|q peers].
  - destruct rest as [|r rest]; [|done]. revert Hrows. unfold peer_rows. simpl.
    destruct (String.eqb (peer_ID p) myID); simpl; intros [= <-].
    unfold listing_heading, other_rows. simpl. by autorewrite with gostr.
  - destruct rest as [|r rest]; [done|]. destruct (self_index myID (p :: q :: peers)) as [[|i]|] eqn:Ei.
    3: { unfold peer_rows in Hrows. rewrite Ei in Hrows. done. }
    all: unfold listing_heading; rewrite Hlen; unfold write_rows; cbn [foldr fst snd];
      fold (write_rows ((λ p, (p, false)) <$> r :: rest)); rewrite write_rows_others;
      by autorewrite with gostr.
Qed.

Lemma rows_of_member myID peers :
  NoDup (peer_ID <$> peers) → myID ∈ peer_ID <$> peers →
  ∃ self others, peer_rows myID peers = (self, true) :: ((λ p, (p, false)) <$> others)
    ∧ peer_ID self = myID ∧ Forall (λ p, peer_ID p ≠ myID) others ∧ self :: others ≡ₚ peers.
Proof.
  intros Hnd Hin. destruct (peer_rows_spec myID peers Hnd) as (Hperm & Hmark & Hfirst).
  destruct (Hfirst Hin) as (self & rest & Hrows & Hid). rewrite Hrows in Hperm, Hmark.
  apply Forall_cons in Hmark as [_ Hmark]. exists self, rest.*1.
  assert (NoDup (peer_ID <$> self :: rest.*1)) as Hnd'
    by (change (self :: rest.*1) with (((self, true) :: rest).*1); by rewrite Hperm).
  apply NoDup_cons in Hnd' as [Hni _].
  assert (Forall (λ p, peer_ID p ≠ myID) rest.*1) as Hne.
  { apply Forall_forall. intros p Hp Heq. apply Hni. rewrite Hid, <-Heq. by apply list_elem_of_fmap_2. }
  split_and!; [|done|done|done]. rewrite Hrows. f_equal. apply Forall_fmap in Hne.
  clear -Hmark Hne. induction rest as [|[p b] rest IH]; [done|]. csimpl.
  apply Forall_cons in Hmark as [Hb Hmark], Hne as [Hp Hne]. simpl in Hb, Hp.
  apply String.eqb_neq in Hp. rewrite Hp in Hb. subst b. f_equal. by apply IH.
Qed.

(** What a row shows. *)
Lemma row_shows p mine :
  Forall (λ part, occurs part (writePeerRow p mine))
    ([peer_ID p; peer_AgentName p; peer_Machine p; peer_CWD p; peer_Summary p; peer_LastSeen p]
     ++ if mine then ["  ← this session"] else []).
Proof.
  unfold writePeerRow. destruct mine; repeat apply Forall_cons_2; try apply Forall_nil_2.
  all: destruct (String.eqb_spec (peer_AgentName p) "") as [Ha|]; [rewrite ?Ha|].
  all: destruct (String.eqb_spec (peer_Summary p) "") as [Hs|]; [rewrite ?Hs|]; find_part.
Qed.

(** ** Properties *)
Section mcp.
Context {St : Type} {B : BrokerApi St}.
Context (quote : string → string) (here : Place) (profile : Profile).

Lemma session_loop_turn t turns s st st1 s1 out :
  take_turn quote here profile t s st = Some (st1, (s1, out)) →
  (session_loop quote here profile (t :: turns) s st).2
  = out ++ (session_loop quote here profile turns s1 st1).2.
Proof.
  intros Ht. cbn [session_loop]. rewrite Ht.
  by destruct (session_loop quote here profile turns s1 st1).
Qed.

(** What a turn writes. *)
Definition turn_output (t : Turn) (s : Session) (st : St) : list RpcMessage :=
  match take_turn quote here profile t s st with Some (_, (_, out)) => out | None => [] end.

Lemma push_output s st : ∃ peers msgs, turn_output TPush s st = channel_notification peers <$> msgs.
Proof.
  unfold turn_output. cbn [take_turn]. unfold push_tick.
  destruct (api_peek _ st) as [st1 [resp|e]]; [|by exists [], []].
  destruct (pollr_Messages resp) as [|m msgs]; [by exists [], []|].
  destruct (api_list _ st1) as [st2 r]. destruct (push_new _ _) as [pushed out]. eauto.
Qed.

Lemma heartbeat_output now s st : turn_output (THeartbeat now) s st = [].
Proof. unfold turn_output. cbn [take_turn]. by destruct (heartbeat_tick profile now s st). Qed.

Lemma request_answers r s st :
  omap answer_id (turn_output (TRequest r) s st)
  = match answered_id r with Some id => [id] | None => [] end.
Proof.
  unfold turn_output. cbn [take_turn]. unfold handle_request, handleInitialize, answered_id.
  destruct (buildFleetContext st) as [st0 context].
  destruct (handleToolCall quote here (rpc_Params r) s st) as [st1 [s1 a]].
  destruct (String.eqb_spec (rpc_Method r) "notifications/initialized") as [->|_]; [done|].
  destruct (String.eqb (rpc_Method r) "initialize"); [done|].
  destruct (String.eqb (rpc_Method r) "tools/list"); [done|].
  destruct (String.eqb (rpc_Method r) "tools/call"); [by destruct a|]. by destruct (rpc_ID r).
Qed.

Lemma request_typed r s st : Forall (λ m, well_typed m = true) (turn_output (TRequest r) s st).
Proof.
  unfold turn_output. cbn [take_turn]. unfold handle_request, handleInitialize.
  destruct (buildFleetContext st) as [st0 context].
  destruct (handleToolCall quote here (rpc_Params r) s st) as [st1 [s1 a]].
  repeat case_match; simplify_eq/=; repeat constructor; auto with mcp.
Qed.

(** A turn that is taken continues the loop in some state. *)
Lemma session_loop_view t turns s st :
  (∃ e, t = TBadLine e)
  ∨ (∀ e, t ≠ TBadLine e)
    ∧ ∃ s1 st1, (session_loop quote here profile (t :: turns) s st).2
        = turn_output t s st ++ (session_loop quote here profile turns s1 st1).2.
Proof.
  destruct t as [r|e| |now]; [|by left; exists e|..]; right; (split; [done|]); unfold turn_output.
  - destruct (take_turn quote here profile (TRequest r) s st) as [[st1 [s1 out]]|] eqn:Et; [|done].
    exists s1, st1. by apply session_loop_turn.
  - destruct (take_turn quote here profile TPush s st) as [[st1 [s1 out]]|] eqn:Et; [|done].
    exists s1, st1. by apply session_loop_turn.
  - destruct (take_turn quote here profile (THeartbeat now) s st) as [[st1 [s1 out]]|] eqn:Et.
    + exists s1, st1. by apply session_loop_turn.
    + cbn [take_turn] in Et. by destruct (heartbeat_tick profile now s st).
Qed.

(** C18: Every request that wants an answer gets one, under its id and in the order
    of the requests, whatever pushes and heartbeats come in between; nothing
    else is answered. *)
Theorem every_request_answered turns s st :
  omap answer_id (session_loop quote here profile turns s st).2 = omap answered_id (requests turns).
Proof.
  revert s st. induction turns as [|t turns IH]; intros s st; [done|].
  destruct (session_loop_view t turns s st) as [[e ->]|(Hbad & s1 & st1 & ->)]; [done|].
  rewrite omap_app, IH. destruct t as [r|e| |now]; cbn [requests].
  - rewrite request_answers. simpl. by destruct (answered_id r).
  - by destruct (Hbad e).
  - destruct (push_output s st) as (peers & msgs & ->). by induction msgs.
  - by rewrite heartbeat_output.
Qed.

(** C33: Every line written has one of the agreed shapes: a tool result with text
    blocks, the handshake, the list of tools, an error, or a channel notification
    whose meta values are all strings. *)
Theorem lines_well_typed turns s st :
  Forall (λ m, well_typed m = true) (session_loop quote here profile turns s st).2.
Proof.
  revert s st. induction turns as [|t turns IH]; intros s st; [constructor|].
  destruct (session_loop_view t turns s st) as [[e ->]|(Hbad & s1 & st1 & ->)]; [constructor|].
  apply Forall_app. split; [|apply IH]. destruct t as [r|e| |now].
  - apply request_typed.
  - constructor.
  - destruct (push_output s st) as (peers & msgs & ->). apply Forall_fmap, Forall_forall.
    intros m _. apply channel_typed.
  - by rewrite heartbeat_output.
Qed.

Definition tool_names : list string :=
  ["list_peers"; "send_message"; "set_summary"; "check_messages"; "claim_agent_name"].

Lemma handled_known call s st :
  (handleToolCall quote here call s st).2.2 = UnknownTool (call_Name call)
  ↔ call_Name call ∉ tool_names.
Proof.
  unfold handleToolCall, tool_names. rewrite !elem_of_cons, elem_of_nil.
  destruct (String.eqb_spec (call_Name call) "list_peers") as [He|H1].
  { unfold call_list_peers. destruct (api_list _ st) as [st1 [ps|e]]; simpl; split; (done || tauto). }
  destruct (String.eqb_spec (call_Name call) "send_message") as [He|H2].
  { unfold call_send_message. destruct (String.eqb _ ""); [split; (done || tauto)|].
    destruct (send_to _ _ _ st) as [st1 [resp|e]]; [destruct (sendr_OK resp)|]; simpl;
      split; (done || tauto). }
  destruct (String.eqb_spec (call_Name call) "set_summary") as [He|H3].
  { unfold call_set_summary. destruct (api_set_summary _ st) as [st1 [[]|e]]; simpl;
      split; (done || tauto). }
  destruct (String.eqb_spec (call_Name call) "claim_agent_name") as [He|H4].
  { unfold call_claim. destruct (String.eqb _ ""); [split; (done || tauto)|].
    destruct (api_claim _ st) as [st1 [resp|e]]; [destruct (claimr_OK resp)|]; simpl;
      split; (done || tauto). }
  destruct (String.eqb_spec (call_Name call) "check_messages") as [He|H5].
  { unfold call_check_messages. destruct (api_poll _ st) as [st1 [resp|e]];
      [destruct (pollr_Messages resp); [|destruct (api_list _ st1)]|]; simpl; split; (done || tauto). }
  simpl. split; [tauto|done].
Qed.

(** The tools that are listed are those that are handled: a call is refused as
    unknown exactly when the list does not have its name. *)
Theorem listed_tools_are_handled call s st :
  (handleToolCall quote here call s st).2.2 = UnknownTool (call_Name call)
  ↔ Some (JStr (call_Name call)) ∉ jfield "name" <$> mcpTools.
Proof.
  rewrite handled_known. apply not_iff_compat.
  assert (jfield "name" <$> mcpTools = (Some ∘ JStr) <$> tool_names) as -> by done.
  rewrite list_elem_of_fmap. split; [intros Hn; by exists (call_Name call)|].
  by intros (x & [= ->] & Hx).
Qed.
End mcp.

(** ** Against the broker *)
Section broker.
Context {E : Env} (Hok : no_faults) (quote : string → string) (here : Place).

(** C34: [list_peers] at scope "all" tells the truth: the text it answers with
    is a heading, the row of the asking session, marked as its own, and the
    rows of all other sessions of the broker, unmarked, each once; and every
    row shows the session's id, name, machine, directory, summary and time. *)
Theorem list_peers_shows_everyone myID w :
  NoDup (pr_id <$> peers (w_db w)) → session_exists myID (w_db w) = true →
  ∃ w' self others,
    call_list_peers here myID "all" w
      = (w', ToolText (listing_heading "all" others +:+ writePeerRow self true +:+ other_rows others))
    ∧ w_db w' = w_db w
    ∧ self :: others ≡ₚ row_peer <$> peers (w_db w)
    ∧ peer_ID self = myID ∧ Forall (λ p, peer_ID p ≠ myID) others
    ∧ ∀ p mine, Forall (λ part, occurs part (writePeerRow p mine))
        ([peer_ID p; peer_AgentName p; peer_Machine p; peer_CWD p; peer_Summary p; peer_LastSeen p]
         ++ if mine then ["  ← this session"] else []).
Proof.
  intros Hnd Hx. set (ps := row_peer <$> peers (w_db w)). unfold call_list_peers. cbn [api_list broker_api].
  destruct (direct_list_all Hok "" (pl_CWD here) (pl_GitRoot here) w) as (w' & Hl & Hdb & _).
  change (String.eqb "all" "machine") with false. cbv iota. rewrite Hl. fold ps.
  assert (NoDup (peer_ID <$> ps)) as Hnd' by (unfold ps; by rewrite <-list_fmap_compose).
  destruct (rows_of_member myID ps Hnd') as (self & others & Hrows & Hid & Hne & Hperm).
  { unfold session_exists in Hx. apply existsb_true_iff in Hx as (r & Hr & He%String.eqb_eq).
    unfold ps. rewrite <-list_fmap_compose. apply list_elem_of_fmap. exists r. by rewrite <-He. }
  exists w', self, others. rewrite (list_text_self _ _ _ _ _ Hrows).
  split_and!; [done..|]. intros p mine. apply row_shows.
Qed.

(** The text of a send is the truth about the name: online when a session holds
    it, offline when one has held it before, and a warning when none ever did. *)
Theorem send_reports_route myID to msg w :
  to ≠ "" → msg_seq (w_db w) < max_int64 →
  targets_session to (row_peer <$> peers (w_db w)) = false →
  (∀ h, select_holder to (w_db w) = Some h → pr_id h ≠ "") →
  ∃ w' r, call_send_message quote myID to msg w = (w', ToolText (sent_text quote to r))
    ∧ sendr_DeliveryStatus r =
        match select_holder to (w_db w) with
        | Some _ => DeliveryStatusBound
        | None => if name_seen to (w_db w) then DeliveryStatusQueuedOffline
                  else DeliveryStatusQueuedUnknown
        end.
Proof.
  intros Hne Hseq Ht Hid. unfold call_send_message. apply String.eqb_neq in Hne as Hne'. rewrite Hne'.
  unfold send_to. cbn [api_list api_send broker_api].
  destruct (direct_list Hok w) as (w1 & -> & Hdb & _). cbv beta iota.
  unfold send_request. rewrite Ht. cbn [andb].
  set (req := mkSendMessageRequest myID to "" msg).
  assert (∃ a s q, route req (w_db w1) = Some (a, s, q,
    match select_holder to (w_db w) with
    | Some _ => DeliveryStatusBound
    | None => if name_seen to (w_db w) then DeliveryStatusQueuedOffline
              else DeliveryStatusQueuedUnknown
    end)) as (a & s & q & Hr).
  { unfold route, req. cbn [send_ToAgent send_ToSession]. rewrite Hne', Hdb. simpl.
    destruct (select_holder to (w_db w)) as [h|] eqn:Eh; [|eauto].
    specialize (Hid h eq_refl). apply String.eqb_neq in Hid. rewrite Hid. eauto. }
  destruct (direct_send Hok req w1 a s q _ ltac:(by rewrite Hdb) Hr) as (w' & now & -> & _).
  by eexists w', _.
Qed.

(** The notifications of a push tick are those of the messages the push loop
    takes, and nothing else changes. *)
Theorem push_tick_refines_push {St : Type} {B : BrokerApi St} s (st : St) :
  ∃ peers, push_tick s st
    = (let '(st', (s', out)) := pollAndPush s st in (st', (s', channel_notification peers <$> out))).
Proof.
  unfold push_tick, pollAndPush. destruct (api_peek _ st) as [st1 [resp|e]]; [|by exists []].
  destruct (pollr_Messages resp) as [|m msgs]; [by exists []|].
  destruct (api_list _ st1) as [st2 r]. exists (match r with Ok l => l | Err _ => [] end).
  by destruct (push_new _ _).
Qed.

(** The tool shows the messages that [check_messages] returns, to the same
    effect on the broker. *)
Theorem tool_shows_checked {St : Type} {B : BrokerApi St} myID (st : St) :
  (call_check_messages myID st).1 = (check_messages myID st).1
  ∧ match (check_messages myID st).2 with
    | Ok [] => (call_check_messages myID st).2 = ToolText "No new messages."
    | Ok msgs => ∃ peers, (call_check_messages myID st).2 = ToolText (messages_text peers msgs)
    | Err e => (call_check_messages myID st).2 = ToolFailure e
    end.
Proof.
  unfold call_check_messages, check_messages. destruct (api_poll _ st) as [st1 [resp|e]]; [|done].
  destruct (pollr_Messages resp) as [|m msgs]; [done|]. destruct (api_list _ st1) as [st2 r].
  split; [done|]. by eexists.
Qed.
End broker.

(** ** Witnesses *)
#[local] Existing Instance demo_env.

Definition workshop : Place := mkPlace "/home/dev/project" "" "workstation".

Lemma list_peers_shows_everyone_witness :
  ∃ w' self others text, call_list_peers workshop "00000001" "all" demo_two_mails = (w', ToolText text)
    ∧ peer_ID self = "00000001" ∧ (peer_ID <$> others) = ["00000000"]
    ∧ occurs (writePeerRow self true) text.
Proof.
  destruct (list_peers_shows_everyone demo_no_faults workshop "00000001" demo_two_mails)
    as (w' & self & others & Hc & _ & Hperm & Hid & _ & _); [vm_decide|vm_compute; done|].
  exists w', self, others. eexists. split_and!; [exact Hc|exact Hid| |find_part].
  apply (fmap_Permutation peer_ID) in Hperm. rewrite fmap_cons, Hid in Hperm.
  assert (peer_ID <$> (row_peer <$> peers (w_db demo_two_mails)) ≡ₚ ["00000001"; "00000000"]) as Hps
    by (vm_compute; constructor).
  rewrite Hps in Hperm. apply Permutation_cons_inv in Hperm. by apply Permutation_singleton_r in Hperm.
Defined.

Lemma send_reports_route_witness :
  ∃ w' r, call_send_message in_quotes "00000000" "bilder" "typo" demo_two_mails
      = (w', ToolText (sent_text in_quotes "bilder" r))
    ∧ sendr_DeliveryStatus r = DeliveryStatusQueuedUnknown.
Proof.
  destruct (send_reports_route demo_no_faults in_quotes "00000000" "bilder" "typo" demo_two_mails)
    as (w' & r & Heq & Hr); [done|vm_compute; done|vm_compute; done| |].
  - intros h. assert (select_holder "bilder" (w_db demo_two_mails) = None) as -> by (vm_compute; done).
    done.
  - exists w', r. split; [exact Heq|]. rewrite Hr. vm_compute. reflexivity.
Defined.

(** A session without a configured name claims "jim" and is forgotten by the
    broker; it comes back without the name, although nobody holds it. *)
Definition nameless_profile : Profile := mkProfile (join_as "") 4000.
Definition nameless_session : Session :=
  mkSession "00000000" (state_file nameless_profile "00000000" "" "") ∅.

Theorem rebind_forgets_claimed_name :
  let w0 := after [join ""] in
  let '(w1, (s1, _)) := call_claim (λ s, s) "jim" nameless_session w0 in
  let w2 := (run (@unregister demo_env (mkUnregisterRequest "00000000")) w1).1 in
  let '(w3, s3) := heartbeat_tick nameless_profile "" s1 w2 in
  st_AgentName (sn_state s1) = "jim" ∧ st_AgentName (sn_state s3) = ""
  ∧ session_exists (sn_id s3) (w_db w3) = true ∧ select_holder "jim" (w_db w3) = None.
Proof. vm_compute. by repeat split. Qed.
