(* ===== verification/Conversation.v ===== *)
(** * A message from one session to another

    The tools of two sessions put together over the broker: what one session is
    told when it sends, what the other announces and shows, and what is left. *)

From S2P Require Import Prelude GoStrings GoTime Types Store Prog World Broker Dispatch Demo.
From S2P Require Import BrokerInv BrokerWp BrokerOps Lifecycle Mail Sessions Files Client ClientSpec.
From S2P Require Import StateFile Json Memory Tools Mcp McpSpec.

(** ** Texts *)
Lemma message_occurs peers m : occurs (msg_Text m) (message_text peers m).
Proof. unfold message_text. do 9 apply occurs_right. apply occurs_left, occurs_refl. Qed.

Lemma messages_occur peers m msgs : m ∈ msgs → occurs (msg_Text m) (messages_text peers msgs).
Proof.
  intros Hm. unfold messages_text. do 4 apply occurs_right. induction Hm as [m msgs|m x msgs _ IH]; simpl.
  - apply occurs_left, message_occurs.
  - apply occurs_right, IH.
Qed.

Section conversation.
Context {E : Env} (Hok : no_faults) (quote : string → string).

(** A send to a name that a live session holds. *)
Lemma send_bound h from to msg w :
  to ≠ "" → msgs_inv (w_db w) → 0 ≤ msg_seq (w_db w) < max_int64 → targets_session to (row_peer <$> peers (w_db w)) = false →
  select_holder to (w_db w) = Some h → pr_id h ≠ "" →
  ∃ w' row, send_to from to msg w
      = (w', Ok (mkSendMessageResponse true (msg_seq (w_db w) + 1) false DeliveryStatusBound ""))
    ∧ row ∈ messages (w_db w') ∧ m_id row = msg_seq (w_db w) + 1 ∧ m_text row = msg
    ∧ m_from_session row = from ∧ m_to_session row = pr_id h ∧ m_delivered_at row = None
    ∧ msgs_inv (w_db w').
Proof.
  intros Hne%String.eqb_neq Hinv Hseq Ht Hh Hid%String.eqb_neq. unfold send_to.
  cbn [api_list api_send broker_api].
  destruct (direct_list Hok w) as (w1 & -> & Hdb & _). cbv beta iota.
  unfold send_request. rewrite Ht. cbn [andb]. set (req := mkSendMessageRequest from to "" msg).
  assert (route req (w_db w1) = Some (to, pr_id h, false, DeliveryStatusBound)) as Hr.
  { unfold route, req. cbn [send_ToAgent send_ToSession]. by rewrite Hne, Hdb, Hh, Hid. }
  destruct (direct_send Hok req w1 _ _ _ _ ltac:(rewrite Hdb; lia) Hr) as (w' & now & Hd & Hcore).
  pose proof (stored_elem _ _ _ _ _ _ Hcore) as Hin. rewrite Hdb in Hd, Hin.
  eexists w', _. split; [exact Hd|]. split; [exact Hin|]. split_and!; try done.
  eapply same_core_msgs_inv; [exact Hcore|]. rewrite Hdb. apply stored_msgs_inv; [done|lia].
Qed.

(** The push loop announces what is in the mailbox and was not announced before. *)
Lemma push_announces s w m :
  msgs_inv (w_db w) → m ∈ mailbox (sn_id s) (w_db w) → msg_ID m ∉ sn_pushed s →
  ∃ w' s' peers out, push_tick s w = (w', (s', out)) ∧ channel_notification peers m ∈ out
    ∧ w_db w' = w_db w ∧ sn_id s' = sn_id s.
Proof.
  intros Hinv Hm Hnew. destruct (push_tick_refines_push s w) as (peers & ->).
  destruct (push_once Hok s w Hinv) as (w' & s' & -> & Hdb & Hid & _). exists w', s', peers.
  eexists. split; [done|]. split; [|done]. apply list_elem_of_fmap_2, elem_of_bfilter.
  split; [|done]. unfold unpushed. by rewrite bool_decide_eq_false_2.
Qed.

Definition tool_request (id : Json) (c : ToolCall) : jsonrpcRequest ToolCall :=
  mkRpcRequest (Some id) "tools/call" c.

Lemma handle_send call id place s w w' r :
  call_Name call = "send_message" → call_Arg call "to" ≠ "" →
  send_to (sn_id s) (call_Arg call "to") (call_Arg call "message") w = (w', Ok r) → sendr_OK r = true →
  handle_request quote place (tool_request id call) s w
  = (w', (s, [tool_message (Some id) (ToolText (sent_text quote (call_Arg call "to") r))])).
Proof.
  intros Hc Hne%String.eqb_neq Hs Hr. unfold handle_request, tool_request, handleToolCall, call_send_message.
  cbn [rpc_Method rpc_Params rpc_ID String.eqb Ascii.eqb Bool.eqb]. rewrite Hc.
  cbn [String.eqb Ascii.eqb Bool.eqb]. by rewrite Hne, Hs, Hr.
Qed.

(** The answer of [check_messages]. *)
Lemma handle_check call id place s w w' msgs :
  call_Name call = "check_messages" → check_messages (sn_id s) w = (w', Ok msgs) →
  ∃ peers, handle_request quote place (tool_request id call) s w
    = (w', (s, [tool_message (Some id) (ToolText
        (match msgs with [] => "No new messages." | _ => messages_text peers msgs end))])).
Proof.
  intros Hc Hm. pose proof (tool_shows_checked (sn_id s) w) as [Hw Ha]. rewrite Hm in Hw, Ha.
  cbn [fst snd] in Hw, Ha.
  assert (∃ peers, (call_check_messages (sn_id s) w).2
    = ToolText (match msgs with [] => "No new messages." | _ => messages_text peers msgs end)) as [peers Ht]
    by (destruct msgs; [by exists []|exact Ha]).
  exists peers. unfold handle_request, tool_request, handleToolCall.
  cbn [rpc_Method rpc_Params rpc_ID String.eqb Ascii.eqb Bool.eqb]. rewrite Hc.
  cbn [String.eqb Ascii.eqb Bool.eqb]. destruct (call_check_messages (sn_id s) w) as [w2 a].
  cbn [fst snd] in Hw, Ht. by subst.
Qed.

(** C4: A message sent to a name that is held reaches whoever holds it: the sender
    is told that it is bound for delivery; the holder's next push announces it,
    with its sender; the holder's next [check_messages] shows its text; from then
    on it is settled, and asking again shows nothing. *)
Theorem message_reaches_its_reader h sender reader place place' id id' id'' call check w :
  msgs_inv (w_db w) → 0 ≤ msg_seq (w_db w) < max_int64 →
  call_Name call = "send_message" → call_Name check = "check_messages" →
  let to := call_Arg call "to" in
  to ≠ "" → targets_session to (row_peer <$> peers (w_db w)) = false →
  select_holder to (w_db w) = Some h → pr_id h = sn_id reader → sn_id reader ≠ "" →
  msg_seq (w_db w) + 1 ∉ sn_pushed reader →
  ∃ w1 w2 w3 w4 reader' peers m out text,
    handle_request quote place (tool_request id call) sender w
      = (w1, (sender, [tool_message (Some id) (ToolText ("Message sent to " +:+ to
           +:+ " (recipient is online, message is bound for delivery)."))]))
    ∧ msg_ID m = msg_seq (w_db w) + 1 ∧ msg_Text m = call_Arg call "message"
    ∧ msg_FromSession m = sn_id sender
    ∧ push_tick reader w1 = (w2, (reader', out)) ∧ channel_notification peers m ∈ out
    ∧ handle_request quote place' (tool_request id' check) reader' w2
      = (w3, (reader', [tool_message (Some id') (ToolText text)]))
    ∧ occurs (msg_Text m) text
    ∧ phase (msg_ID m) (w_db w3) = Settled (sn_id reader)
    ∧ handle_request quote place' (tool_request id'' check) reader' w3
      = (w4, (reader', [tool_message (Some id'') (ToolText "No new messages.")])).
Proof.
  intros Hinv Hseq Hcall Hcheck to Hne Ht Hh Hid Hnid Hnew.
  destruct (send_bound h (sn_id sender) to (call_Arg call "message") w)
    as (w1 & row & Hs & Hin & Hrid & Htext & Hfrom & Hto & Hdel & Hinv1); [done..|by rewrite Hid|].
  assert (row_message row ∈ mailbox (sn_id reader) (w_db w1)) as Hm.
  { apply elem_of_mailbox; [done|]. unfold is_pending, to_session_is. by rewrite Hdel, Hto, Hid, String.eqb_refl. }
  destruct (push_announces reader w1 (row_message row)) as (w2 & reader' & peers & out & Hp & Hann & Hdb2 & Hid2);
    [done|done|by cbn; rewrite Hrid|].
  destruct (check_settles_what_it_shows Hok (sn_id reader) w2) as (w3 & Hc & Hph & Hmb & Hinv3); [by rewrite Hdb2|].
  rewrite Hdb2 in Hc, Hph. rewrite <-Hid2 in Hc.
  destruct (handle_check check id' place' reader' w2 w3 _ Hcheck Hc) as [ps Hshow].
  destruct (check_settles_what_it_shows Hok (sn_id reader) w3) as (w4 & Hc4 & _); [done|].
  rewrite Hmb, <-Hid2 in Hc4. destruct (handle_check check id'' place' reader' w3 w4 _ Hcheck Hc4) as [ps' Hnone].
  eexists w1, w2, w3, w4, reader', peers, (row_message row), out, _. split.
  { by rewrite (handle_send call id place sender w w1 _ Hcall Hne Hs eq_refl). }
  split; [exact Hrid|]. split; [done|]. split; [done|]. split; [exact Hp|]. split; [done|]. split; [exact Hshow|].
  split; [|split; [|exact Hnone]].
  - rewrite Hid2. destruct (mailbox (sn_id reader) (w_db w1)) as [|x l] eqn:El; [by apply elem_of_nil in Hm|].
    by apply messages_occur.
  - rewrite Hph, bool_decide_eq_true_2; [done|]. by apply list_elem_of_fmap_2.
Qed.
End conversation.

(** ** Witness: "planner" writes to "builder" *)
#[local] Existing Instance demo_env.

Definition write_to_builder : ToolCall :=
  mkToolCall "send_message" (λ k, if String.eqb k "to" then "builder" else "please build").
Definition check_call : ToolCall := mkToolCall "check_messages" (λ _, "").
Definition session_as (id name : string) : Session :=
  mkSession id (state_file builder_profile id name "") ∅.

Lemma message_reaches_its_reader_witness :
  ∃ w3 reader' text w2,
    handle_request env_quote workshop (tool_request (JNum 2) check_call) reader' w2
      = (w3, (reader', [tool_message (Some (JNum 2)) (ToolText text)]))
    ∧ occurs "please build" text ∧ phase 1 (w_db w3) = Settled "00000001".
Proof.
  destruct (message_reaches_its_reader demo_no_faults env_quote
      (new_row (join_as "builder") "00000001" "2026-01-01T00:00:01.5Z")
      (session_as "00000000" "planner") (session_as "00000001" "builder") workshop workshop
      (JNum 1) (JNum 2) (JNum 3) write_to_builder check_call (after [join "planner"; join "builder"]))
    as (w1 & w2 & w3 & w4 & r' & ps & m & out & text & Hs & Hi & Ht & _ & Hp & Hann & Hc & Ho & Hph & _).
  - apply after_msgs_inv.
  - vm_compute. by split.
  - reflexivity.
  - reflexivity.
  - discriminate.
  - vm_compute. reflexivity.
  - vm_compute. reflexivity.
  - reflexivity.
  - discriminate.
  - apply not_elem_of_empty.
  - exists w3, r', text, w2. split; [exact Hc|]. rewrite Ht in Ho. split; [exact Ho|].
    rewrite Hi in Hph. exact Hph.
Defined.
