(* ===== verification/FleetSpec.v ===== *)
(** * What the fleet guarantees

    Theorems on the machine of [Fleet], for every interleaving of the goroutines
    of every session, every loss and delay of calls, every crash and every failure
    of the database: the broker keeps its promises; a session answers its requests
    in order and announces no message twice; a session whose input ends comes to
    its end and takes its state file with it. *)

From S2P Require Import Prelude GoStrings GoTime Types Store Prog World Broker Dispatch Demo.
From S2P Require Import BrokerInv Lifecycle Files Client Api StateFile Json Memory Tools Mcp Thread.
From S2P Require Import Goroutines McpSpec Fleet FleetRun.

#[local] Open Scope thread_scope.

(** ** The broker under the fleet *)
Section refinement.
Context {E : Env} {C : StateCodec}.

(** A broker that nothing has called yet. *)
Definition quiet (w : World) : Fleet := mkFleet (mkSide w []) [].

(** Whatever any number of sessions do with their goroutines, whatever calls are
    lost, given up or answered late, and whenever processes crash, the broker
    only ever does what its own handlers do: it reaches its state by steps of
    [dispatch], with the handlers in progress that the fleet is waiting for or has
    abandoned.  So the database stays well-formed and every message follows its
    life. *)
Theorem fleet_refines_broker w f :
  db_inv (w_db w) → rtc fleet_step (quiet w) f →
  (∃ pool, pool ≡ₚ in_flight f ∧ steps dispatch ([], w) (pool, fl_world f))
  ∧ db_inv (w_db (fl_world f))
  ∧ ∀ i, rtc life (phase i (w_db w)) (phase i (w_db (fl_world f))).
Proof.
  intros Hinv Hf. destruct (fleet_steps_moves _ _ Hf []) as (pool & Hs & Hp); [done|].
  split; [by exists pool|]. cbn [quiet fl_world fl_side sd_world] in Hs.
  split; [|intros i]; by apply (steps_life_run 0 w pool _ Hs) || apply (steps_life_run i w pool _ Hs).
Qed.
End refinement.

(** ** Invariants of processes *)
Section invariants.
Context {E : Env} {C : StateCodec}.

(** What holds of every process launched and is kept by its steps holds of every
    process of every fleet. *)
Lemma fleet_invariant (I : Process → Prop) w f :
  (∀ su fs now, I (launch su fs now)) → (∀ p s p' s', p_step p s p' s' → I p → I p') →
  rtc fleet_step (quiet w) f → Forall I (fl_procs f).
Proof.
  intros Hl Hs Hf. assert (Forall I (fl_procs (quiet w))) as H0 by constructor. revert H0.
  induction Hf as [f|f1 f2 f3 Hstep _ IH]; [done|]. intros H1. apply IH.
  destruct Hstep as [s s' p p' l1 l2 Hp|s l su fs now|w0 pool w' pool' l Hb]; cbn [fl_procs] in *.
  - apply Forall_app in H1 as [H1 [Hpp H2]%Forall_cons]. apply Forall_app. split; [done|].
    constructor; [|done]. by eapply Hs.
  - apply Forall_app. split; [done|]. by repeat constructor.
  - done.
Qed.

(** A property of threads and answers that a goroutine has when its threads have
    it, and that its steps keep. *)
Definition g_locals (R : relation Mem) (g : goroutine) : Prop :=
  match g with Running t => locals R t | Waiting _ _ k => ∀ r, locals R (k r) end.

Lemma g_step_locals R g m s g' m' s' :
  g_step g m s g' m' s' → g_locals R g → g_locals R g' ∧ (m' = m ∨ R m m').
Proof.
  intros [D f k m0 s0|D o k m0 s0|D o k e m0 s0|D D' o f c k m0 w pool|D o rs k m0 s0|D o q k e m0 w pool];
    simpl; auto.
  intros [Hf Hk]. auto.
Qed.

Definition g_owes {X} (log : Mem → list X) (l : list X) (g : goroutine) : Prop :=
  match g with Running t => owes log l t | Waiting _ _ k => ∀ r, owes log l (k r) end.

Lemma g_step_owes {X} (log : Mem → list X) l g m s g' m' s' :
  g_step g m s g' m' s' → g_owes log l g →
  ∃ now later, l = now ++ later ∧ log m' = log m ++ now ∧ g_owes log later g'.
Proof.
  intros [D f k m0 s0|D o k m0 s0|D o k e m0 s0|D D' o f c k m0 w pool|D o rs k m0 s0|D o q k e m0 w pool];
    simpl; try (intros Ho; exists [], l; rewrite app_nil_r; by auto).
  intros (now & later & -> & Hf & Hk). exists now, later. auto.
Qed.

(** Every goroutine of a process. *)
Definition goroutines (p : Process) : list goroutine :=
  (match pc_main p with Doing _ g => [g] | _ => [] end)
  ++ omap (λ l : Worker * Loop, match l.2 with Busy g => Some g | _ => None end) (pc_workers p).
End invariants.

(** ** What the goroutines write *)

(** The ids under which answers have been written, and the messages that have
    been announced. *)
Definition answers (m : Mem) : list (option Json) := omap answer_id (me_out m).

Definition announced_id (msg : RpcMessage) : option Json :=
  match msg with RpcNotification _ p => jfield "meta" p ≫= jfield "message_id" | _ => None end.
Definition announced (m : Mem) : list Json := omap announced_id (me_out m).

(** The id a request is answered under. *)
Definition asked (r : jsonrpcRequest ToolCall) : list (option Json) :=
  match answered_id r with Some id => [id] | None => [] end.

Definition keeps_out (m m' : Mem) : Prop := me_out m' = me_out m ∧ me_pushed m' = me_pushed m.

Lemma owes_keeps {A} (t : thread Mem A) : locals keeps_out t → owes answers [] t.
Proof.
  induction t as [a|D f k IH|D o k IH]; simpl; [done|..].
  - intros [Hf Hk]. exists [], []. split; [done|]. split; [|by auto].
    intros m. unfold answers. destruct (Hf m) as [-> _]. by rewrite app_nil_r.
  - auto.
Qed.

Lemma disk_keeps {A} (f : io A) : locals keeps_out (disk f).
Proof. apply locals_local. intros m. by destruct (f (me_disk m)). Qed.

Ltac keeps_step :=
  first [locals_step | simple apply disk_keeps | split; reflexivity].

Lemma push_owes : owes answers [] (ends t_push).
Proof.
  unfold ends, t_push, get_session, list_all. rewrite <-(app_nil_r []). apply owes_bind; [|done].
  apply owes_quiet; [apply owes_local; intros m; by rewrite app_nil_r|]. intros id.
  apply owes_quiet; [apply owes_call|]. intros [resp|]; [|done].
  destruct (pollr_Messages resp) as [|msg msgs]; [done|].
  apply owes_quiet; [apply owes_quiet; [apply owes_call|done]|]. intros peers.
  apply owes_each. intros x. apply owes_local. intros m. unfold answers, push_message. simpl.
  rewrite app_nil_r. case_bool_decide; [done|]. cbn [me_out]. by rewrite omap_app, app_nil_r.
Qed.

(** No message is announced twice. *)
Definition announced_once (m : Mem) : Prop :=
  ∃ ids, announced m = (JStr ∘ itoa) <$> ids ∧ NoDup ids ∧ ∀ i, i ∈ ids → i ∈ me_pushed m.
Definition keeps_once (m m' : Mem) : Prop := announced_once m → announced_once m'.

Lemma keeps_out_once {A} (t : thread Mem A) : locals keeps_out t → locals keeps_once t.
Proof.
  induction t as [a|D f k IH|D o k IH]; simpl; auto. intros [Hf Hk]. split; [|auto].
  intros m (ids & Ha & Hnd & Hp). exists ids. destruct (Hf m) as [Ho Hpu]. rewrite Hpu.
  split; [|done]. rewrite <-Ha. unfold announced. by rewrite Ho.
Qed.

Lemma push_message_once peers msg m : keeps_once m (push_message peers msg m).
Proof.
  intros (ids & Ha & Hnd & Hp). unfold push_message. case_bool_decide as Hin; [by exists ids|].
  exists (ids ++ [msg_ID msg]). split; [|split].
  - unfold announced in *. cbn [me_out]. by rewrite omap_app, Ha, fmap_app.
  - apply NoDup_app. split; [done|]. split; [|apply NoDup_singleton].
    intros x Hx Hx'. apply list_elem_of_singleton in Hx' as ->. by apply Hin, Hp.
  - intros i. cbn [me_pushed]. rewrite elem_of_app, list_elem_of_singleton. set_solver.
Qed.

Lemma push_once_only : locals keeps_once (ends t_push).
Proof.
  unfold ends, t_push, get_session, list_all.
  repeat locals_step; first [exact (λ H, H)|apply push_message_once].
Qed.

Section goroutines.
Context {C : StateCodec} (quote : string → string) (here : Place) (profile : Profile).
Context (dir home : string).

Lemma write_state_keeps s : locals keeps_out (t_write_state profile dir s).
Proof. unfold t_write_state, t_replace. repeat keeps_step. Qed.

Lemma update_name_keeps name : locals keeps_out (t_update_name name).
Proof. unfold t_update_name, t_replace. repeat keeps_step. Qed.

Lemma register_keeps verb retry req : locals keeps_out (t_register verb retry req).
Proof. unfold t_register. repeat keeps_step. Qed.

Lemma tool_keeps c : locals keeps_out (t_tool quote here c).
Proof.
  unfold t_tool, t_list_peers, t_send, t_set_summary, t_claim, t_check, list_all, get_session.
  repeat first [simple apply update_name_keeps|keeps_step].
Qed.

Lemma context_keeps : locals keeps_out t_context.
Proof. unfold t_context. repeat keeps_step. Qed.

Lemma heartbeat_keeps now : locals keeps_out (t_heartbeat profile dir now).
Proof.
  unfold t_heartbeat, t_rebind, get_session, put_session.
  repeat first [simple apply register_keeps|simple apply write_state_keeps|keeps_step].
Qed.

Lemma start_keeps now : locals keeps_out (t_start profile dir now).
Proof.
  unfold t_start, put_session. repeat first [simple apply register_keeps|simple apply write_state_keeps|keeps_step].
Qed.

Lemma summary_keeps text : locals keeps_out (t_summary text).
Proof. unfold t_summary, get_session. repeat keeps_step. Qed.

Lemma sync_keeps : locals keeps_out (t_sync home).
Proof. unfold t_sync. repeat keeps_step. by destruct (syncFleetMemory _ _ _). Qed.

Lemma leave_keeps : locals keeps_out t_leave.
Proof. unfold t_leave, get_session. repeat keeps_step. by destruct (String.eqb _ ""). Qed.

Lemma ends_keeps t : locals keeps_out t → locals keeps_out (ends t).
Proof. intros Ht. by apply locals_bind. Qed.

(** A request is answered once, under its id, or not at all. *)
Lemma say_owes msg l : omap answer_id [msg] = l → owes answers l (say msg).
Proof.
  intros <-. apply owes_local. intros m. unfold answers. cbn [fst add_out me_out]. by rewrite omap_app.
Qed.

Lemma request_owes r : owes answers (asked r) (ends (t_request quote here r)).
Proof.
  unfold ends. rewrite <-(app_nil_r (asked r)). apply owes_bind; [|done].
  unfold t_request, asked, answered_id.
  destruct (String.eqb_spec (rpc_Method r) "notifications/initialized") as [->|_]; [done|].
  destruct (String.eqb (rpc_Method r) "initialize"); cbn [orb].
  { apply owes_quiet; [apply owes_keeps, context_keeps|]. intros c. by apply say_owes. }
  destruct (String.eqb (rpc_Method r) "tools/list"); cbn [orb]; [by apply say_owes|].
  destruct (String.eqb (rpc_Method r) "tools/call").
  { apply owes_quiet; [apply owes_keeps, tool_keeps|]. intros []; by apply say_owes. }
  destruct (rpc_ID r); [by apply say_owes|done].
Qed.

Lemma request_once r : locals keeps_once (ends (t_request quote here r)).
Proof.
  assert (∀ msg, announced_id msg = None → locals keeps_once (say msg)) as Hsay.
  { intros msg Hmsg. apply locals_local. intros m (ids & Ha & H). exists ids. split; [|done].
    unfold announced in *. cbn [fst add_out me_out]. rewrite omap_app, Ha. simpl. rewrite Hmsg.
    by rewrite app_nil_r. }
  unfold ends, t_request. apply locals_bind; [|done]. repeat case_match; try done.
  - apply locals_bind; [apply keeps_out_once, context_keeps|]. intros c. by apply Hsay.
  - by apply Hsay.
  - apply locals_bind; [apply keeps_out_once, tool_keeps|]. intros []; by apply Hsay.
  - by apply Hsay.
Qed.
End goroutines.

(** ** A session answers in order *)
Section orderly.
Context {E : Env} {C : StateCodec}.

(** A property of every busy worker. *)
Definition workers_ok (I : Worker → goroutine → Prop) (l : list (Worker * Loop)) : Prop :=
  Forall (λ x, match x.2 with Busy g => I x.1 g | _ => True end) l.

Lemma workers_ok_middle I l1 x l2 :
  workers_ok I (l1 ++ x :: l2)
  ↔ workers_ok I (l1 ++ l2) ∧ match x.2 with Busy g => I x.1 g | _ => True end.
Proof. unfold workers_ok. rewrite !Forall_app, Forall_cons. tauto. Qed.

Lemma workers_ok_dead I l : workers_ok I ((λ x : Worker * Loop, (x.1, Stopped)) <$> l).
Proof. apply Forall_fmap, Forall_forall. done. Qed.

Lemma workers_ok_idle I l : workers_ok I ((λ w, (w, Idle)) <$> l).
Proof. apply Forall_fmap, Forall_forall. done. Qed.

(** A goroutine that answers nothing and announces nothing twice. *)
Definition calm (g : goroutine) : Prop := g_owes answers [] g ∧ g_locals keeps_once g.

Lemma ticks_calm su w t : ticks su w t → calm (Running t).
Proof.
  intros [|now|text|text|].
  - split; [apply push_owes|apply push_once_only].
  - split; [apply owes_keeps|apply keeps_out_once]; apply ends_keeps, heartbeat_keeps.
  - split; [apply owes_keeps|apply keeps_out_once]; apply ends_keeps, summary_keeps.
  - split; [apply owes_keeps|apply keeps_out_once]; apply ends_keeps, summary_keeps.
  - split; [apply owes_keeps|apply keeps_out_once]; apply sync_keeps.
Qed.

(** [pending] is the answer the main goroutine has yet to write. *)
Definition main_owes (pending : list (option Json)) (mn : Main) : Prop :=
  match mn with
  | Doing _ g => g_owes answers pending g ∧ g_locals keeps_once g
  | Crashed => True
  | _ => pending = []
  end.

Definition orderly (p : Process) : Prop :=
  (∃ pending, answers (pc_mem p) ++ pending = concat (asked <$> pc_read p)
     ∧ (length pending ≤ 1)%nat ∧ main_owes pending (pc_main p))
  ∧ workers_ok (λ _, calm) (pc_workers p) ∧ announced_once (pc_mem p).

Lemma asked_length r : (length (asked r) ≤ 1)%nat.
Proof. unfold asked. destruct (answered_id r); simpl; lia. Qed.

Lemma launch_orderly su fs now : orderly (launch su fs now).
Proof.
  split; [|split].
  - exists []. split; [done|]. split; [simpl; lia|].
    split; [apply owes_keeps|apply keeps_out_once]; apply start_keeps.
  - apply workers_ok_idle.
  - exists []. split; [done|]. split; [constructor|]. intros i Hi. by apply elem_of_nil in Hi.
Qed.

(** The main goroutine has no answer to write once it is done with its job. *)
Lemma main_owes_done pending j oc :
  main_owes pending (Doing j (Running (Done oc))) → pending = [].
Proof. by intros [H _]. Qed.

Lemma main_owes_after pending j oc :
  main_owes pending (Doing j (Running (Done oc))) → main_owes pending (goes_on j oc).
Proof. intros ->%main_owes_done. by destruct j, oc. Qed.

Lemma g_step_calm g m s g' m' s' :
  g_step g m s g' m' s' → calm g → calm g' ∧ answers m' = answers m ∧ (announced_once m → announced_once m').
Proof.
  intros Hs [Ho Hl]. destruct (g_step_owes _ _ _ _ _ _ _ _ Hs Ho) as (now & later & Hnil & Ha & Ho').
  symmetry in Hnil. apply app_nil in Hnil as [-> ->].
  destruct (g_step_locals _ _ _ _ _ _ _ Hs Hl) as [Hl' Hm]. split; [done|]. rewrite app_nil_r in Ha.
  split; [done|]. by destruct Hm as [->|Hm].
Qed.

Lemma p_step_orderly p s p' s' : p_step p s p' s' → orderly p → orderly p'.
Proof.
  intros Hs [(pending & Ha & Hl & Hm) [Hw Hn]].
  destruct Hs as [p j g m' g' s s' Hmn Hg|p j oc s Hmn Hr|p j oc s Hmn Hr|p r s Hmn|p s Hmn
    |p s Hmn Hst|p w t l1 l2 s Hws Hst Ht|p w g g' m' l1 l2 s s' Hws Hg|p w oc l1 l2 s Hws Hoc
    |p w l1 l2 s Hws Hwt Hst Hca|p w l1 l2 s Hws|p s Hr|p s Hr];
    unfold orderly; cbn [with_mem dead reading interrupted pc_mem pc_read pc_main pc_workers];
    try (rewrite Hmn in Hm); try (rewrite Hws in Hw; apply workers_ok_middle in Hw as [Hw Hx]).
  - destruct Hm as [Ho Hlo]. destruct (g_step_owes _ _ _ _ _ _ _ _ Hg Ho) as (now & later & -> & Ha' & Ho').
    destruct (g_step_locals _ _ _ _ _ _ _ Hg Hlo) as [Hlo' Hm']. split; [|split; [done|]].
    + exists later. rewrite Ha', <-app_assoc. split; [done|]. rewrite length_app in Hl. split; [lia|done].
    + destruct Hm' as [->|Hm']; [done|by apply Hm'].
  - split; [|done]. exists pending. split; [done|]. split; [done|]. by apply main_owes_after.
  - split; [|split; [apply workers_ok_dead|done]]. exists pending. split; [done|]. split; [done|].
    by apply main_owes_after.
  - simpl in Hm. subst pending. rewrite app_nil_r in Ha. split; [|done]. exists (asked r).
    rewrite fmap_app, concat_app, <-Ha. cbn. rewrite app_nil_r. split; [done|]. split; [apply asked_length|].
    split; [apply request_owes|apply request_once].
  - split; [|done]. by exists pending.
  - simpl in Hm. subst pending. split; [|done]. exists []. split; [done|]. split; [done|].
    split; [apply owes_keeps|apply keeps_out_once]; apply ends_keeps, leave_keeps.
  - split; [by exists pending|]. split; [|done]. apply workers_ok_middle. split; [done|].
    by eapply ticks_calm.
  - destruct (g_step_calm _ _ _ _ _ _ Hg Hx) as (Hc & Heq & Hn'). split; [exists pending; by rewrite Heq|].
    split; [|by apply Hn']. by apply workers_ok_middle.
  - split; [by exists pending|]. split; [|done]. apply workers_ok_middle. split; [done|].
    by destruct (once_only w).
  - split; [by exists pending|]. split; [|done]. by apply workers_ok_middle.
  - split; [by exists pending|]. split; [apply workers_ok_dead|done].
  - split; [by exists pending|]. split; [apply workers_ok_dead|done].
  - split; [by exists pending|]. by split.
Qed.

(** C7: In every session, however its goroutines and those of the others interleave,
    the answers written so far are those of the requests read, each under its id
    and in order; at most the last one is missing, and only while that request is
    being handled or when the process was killed.  And no message is announced
    twice. *)
Theorem session_answers_in_order w f p :
  rtc fleet_step (quiet w) f → p ∈ fl_procs f →
  (∃ pending, answers (pc_mem p) ++ pending = concat (asked <$> pc_read p)
     ∧ (length pending ≤ 1)%nat
     ∧ (pending = [] ∨ pc_main p = Crashed ∨ ∃ j g, pc_main p = Doing j g))
  ∧ NoDup (announced (pc_mem p)).
Proof.
  intros Hf Hp. assert (Forall orderly (fl_procs f)) as Hall
    by (by eapply fleet_invariant; [apply launch_orderly|apply p_step_orderly|]).
  rewrite Forall_forall in Hall. destruct (Hall p Hp) as [(pending & Ha & Hl & Hm) [_ (ids & Hids & Hnd & _)]].
  split.
  - exists pending. split; [done|]. split; [done|]. destruct (pc_main p); eauto.
  - rewrite Hids. apply NoDup_fmap_2; [|done]. intros x y [= Heq]. by apply itoa_inj.
Qed.
End orderly.

(** ** Witnesses *)
#[local] Existing Instance demo_env.
#[local] Existing Instance demo_state_codec.

Lemma fleet_refines_broker_witness :
  db_inv (w_db (fl_world (mkFleet served.2 [served.1])))
  ∧ rtc life (phase 1 (w_db builder_mail)) (phase 1 (w_db (fl_world (mkFleet served.2 [served.1])))).
Proof.
  destruct (fleet_refines_broker builder_mail (mkFleet served.2 [served.1])) as (_ & Hi & Hl);
    [apply after_db_inv|exact served_run|]. split; [exact Hi|apply Hl].
Defined.

(** Two requests were read, and one message announced before it was shown. *)
Lemma session_answers_in_order_witness :
  concat (asked <$> pc_read served.1) = [Some (JNum 1); Some (JNum 2)]
  ∧ announced (pc_mem served.1) = [JStr "1"]
  ∧ (∃ pending, answers (pc_mem served.1) ++ pending = concat (asked <$> pc_read served.1))
  ∧ NoDup (announced (pc_mem served.1)).
Proof.
  destruct (session_answers_in_order builder_mail (mkFleet served.2 [served.1]) served.1)
    as ((pending & Ha & _) & Hnd); [exact served_run|by left|].
  split; [vm_compute; reflexivity|]. split; [vm_compute; reflexivity|]. split; [by exists pending|exact Hnd].
Defined.
