(* ===== verification/Calls.v ===== *)
(** * What a session asks of the broker

    Which operations of the broker each goroutine of a session calls, in whatever
    order and whatever it is answered; and what follows for the messages: only
    the [check_messages] tool consumes them, announcing them does not
    ([fleet_server.go], the push loop). *)

From S2P Require Import Prelude GoStrings GoTime Types Store Prog World Broker Dispatch Demo.
From S2P Require Import BrokerInv BrokerWp BrokerOps Lifecycle Files Client Api StateFile Json Memory Tools Mcp Thread.
From S2P Require Import Goroutines McpSpec Fleet FleetRun FleetSpec.

#[local] Open Scope thread_scope.

(** ** The calls of a thread *)
Fixpoint calls_only {M A} (P : Request → bool) (t : thread M A) : Prop :=
  match t with
  | Done _ => True
  | Local f k => ∀ b, calls_only P (k b)
  | Call o k => P (request_of o) = true ∧ ∀ r, calls_only P (k r)
  end.

Lemma calls_bind {M A D} P (t : thread M A) (c : A → thread M D) :
  calls_only P t → (∀ a, calls_only P (c a)) → calls_only P (thread_bind t c).
Proof. intros Ht Hc. induction t as [a|B f k IH|B o k IH]; simpl in *; [apply Hc|auto|naive_solver]. Qed.

Lemma calls_local {M B} P (f : M → M * B) : calls_only P (local f).
Proof. done. Qed.

Lemma calls_call {M B} P (o : ApiOp B) : P (request_of o) = true → calls_only (M := M) P (call o).
Proof. by split. Qed.

Lemma calls_each {M A} P (l : list A) (body : A → thread M unit) :
  (∀ x, calls_only P (body x)) → calls_only P (each l body).
Proof. intros Hb. induction l as [|x l IH]; [done|]. by apply calls_bind; [apply Hb|]. Qed.

Lemma calls_mono {M A} (P Q : Request → bool) (t : thread M A) :
  (∀ rq, P rq = true → Q rq = true) → calls_only P t → calls_only Q t.
Proof. intros HPQ. induction t as [a|B f k IH|B o k IH]; simpl; [done|auto|]. intros [Ho Hk]. auto. Qed.

Ltac calls_step :=
  lazymatch goal with
  | |- calls_only _ (thread_bind _ _) => apply calls_bind; [|intros ?]
  | |- calls_only _ (local _) => apply calls_local
  | |- calls_only _ (disk _) => apply calls_local
  | |- calls_only _ (call _) => apply calls_call; reflexivity
  | |- calls_only _ (each _ _) => apply calls_each; intros ?
  | |- calls_only _ (Done _) => exact I
  | |- calls_only _ (match ?x with _ => _ end) => destruct x
  | |- calls_only _ (let '_ := ?x in _) => destruct x
  end.

(** ** The calls of each goroutine *)

(** The operations that put a session into the registry, or keep it there. *)
Definition keeps_alive (rq : Request) : bool :=
  match rq with RqRegister _ | RqHeartbeat _ => true | _ => false end.

(** The operations that mark messages as delivered or acknowledged. *)
Definition consumes (rq : Request) : bool :=
  match rq with RqPoll _ | RqAck _ => true | _ => false end.

Definition push_calls (rq : Request) : bool :=
  match rq with RqPeek _ | RqListPeers _ => true | _ => false end.
Definition summary_calls (rq : Request) : bool :=
  match rq with RqSetSummary _ => true | _ => false end.
Definition sync_calls (rq : Request) : bool := match rq with RqGetMemory => true | _ => false end.
Definition leave_calls (rq : Request) : bool := match rq with RqUnregister _ => true | _ => false end.

(** The tools and the context of the handshake. *)
Definition tool_calls (rq : Request) : bool :=
  match rq with
  | RqListPeers _ | RqSend _ | RqSetSummary _ | RqClaim _ | RqEvents _ | RqGetMemory => true
  | _ => consumes rq
  end.

(** The request that asks for the messages. *)
Definition asks_for_mail (r : jsonrpcRequest ToolCall) : bool :=
  String.eqb (rpc_Method r) "tools/call" && String.eqb (call_Name (rpc_Params r)) "check_messages".

Section goroutines.
Context {C : StateCodec} (quote : string → string) (here : Place) (profile : Profile).
Context (dir home : string).

Lemma replace_calls P path data : calls_only P (t_replace path data).
Proof. unfold t_replace. repeat calls_step. Qed.

Lemma write_state_calls P s : calls_only P (t_write_state profile dir s).
Proof. unfold t_write_state. repeat first [simple apply replace_calls|calls_step]. Qed.

Lemma update_name_calls P name : calls_only P (t_update_name name).
Proof. unfold t_update_name. repeat first [simple apply replace_calls|calls_step]. Qed.

Lemma register_calls verb retry req : calls_only keeps_alive (t_register verb retry req).
Proof. unfold t_register. repeat calls_step. Qed.

Lemma start_calls now : calls_only keeps_alive (t_start profile dir now).
Proof.
  unfold t_start, put_session.
  repeat first [simple apply register_calls|simple apply write_state_calls|calls_step].
Qed.

Lemma beat_calls now : calls_only keeps_alive (ends (t_heartbeat profile dir now)).
Proof.
  unfold ends, t_heartbeat, t_rebind, get_session, put_session.
  repeat first [simple apply register_calls|simple apply write_state_calls|calls_step].
Qed.

Lemma pushing_calls : calls_only push_calls (ends t_push).
Proof. unfold ends, t_push, get_session, list_all. repeat calls_step. Qed.

Lemma summarising_calls text : calls_only summary_calls (ends (t_summary text)).
Proof. unfold ends, t_summary, get_session. repeat calls_step. Qed.

Lemma syncing_calls : calls_only sync_calls (t_sync home).
Proof. unfold t_sync. repeat calls_step. Qed.

Lemma leaving_calls : calls_only leave_calls (ends t_leave).
Proof. unfold ends, t_leave, get_session. repeat calls_step. Qed.

Lemma tool_only_calls c : calls_only tool_calls (t_tool quote here c).
Proof.
  unfold t_tool, t_list_peers, t_send, t_set_summary, t_claim, t_check, list_all, get_session.
  repeat first [simple apply update_name_calls|calls_step].
Qed.

Lemma request_calls r : calls_only tool_calls (ends (t_request quote here r)).
Proof.
  unfold ends, t_request, t_context, say. repeat first [simple apply tool_only_calls|calls_step].
Qed.

(** Asked for anything else, the request loop consumes nothing. *)
Lemma quiet_request_calls r :
  asks_for_mail r = false → calls_only (λ rq, negb (consumes rq)) (ends (t_request quote here r)).
Proof.
  unfold asks_for_mail, ends, t_request. intros Hr. apply calls_bind; [|done].
  destruct (String.eqb (rpc_Method r) "tools/call").
  - cbn [andb] in Hr. unfold t_tool. rewrite Hr.
    unfold t_context, say, t_list_peers, t_send, t_set_summary, t_claim, list_all, get_session.
    repeat first [simple apply update_name_calls|calls_step].
  - unfold t_context, say. repeat calls_step.
Qed.
End goroutines.

(** ** Goroutines in progress *)
Section progress.
Context {E : Env} {C : StateCodec}.

Definition g_calls (P : Request → bool) (g : goroutine) : Prop :=
  match g with
  | Running t => calls_only P t
  | Waiting o _ k => P (request_of o) = true ∧ ∀ r, calls_only P (k r)
  end.

Lemma g_step_calls P g m s g' m' s' : g_step g m s g' m' s' → g_calls P g → g_calls P g'.
Proof.
  intros [D f k m0 s0|D o k m0 s0|D o k e m0 s0|D D' o f c k m0 w pool|D o rs k m0 s0|D o q k e m0 w pool];
    simpl; naive_solver.
Qed.

(** *** Consuming messages *)

(** The handlers a goroutine waits for keep [R], and the rest of it calls only [P]. *)
Definition g_keeps (R : relation World) (P : Request → bool) (g : goroutine) : Prop :=
  match g with
  | Running t => calls_only P t
  | Waiting _ q k => all_acts R q ∧ ∀ r, calls_only P (k r)
  end.

Lemma g_step_keeps R `{!Reflexive R} P g m s g' m' s' :
  (∀ rq, P rq = true → all_acts R (dispatch rq)) →
  g_step g m s g' m' s' → g_keeps R P g → Forall (all_acts R) (sd_pool s) →
  g_keeps R P g' ∧ Forall (all_acts R) (sd_pool s') ∧ R (sd_world s) (sd_world s').
Proof.
  intros HP [D f k m0 s0|D o k m0 s0|D o k e m0 s0|D D' o f c k m0 w pool|D o rs k m0 s0|D o q k e m0 w pool];
    simpl.
  - done.
  - intros [Ho Hk] Hpool. split; [|done]. split; [by apply HP|done].
  - naive_solver.
  - intros [[Hf Hc] Hk] Hpool. split; [by split|]. split; [done|apply Hf].
  - naive_solver.
  - intros [Hq Hk] Hpool. split; [apply Hk|]. split; [|done].
    apply Forall_app. split; [done|by repeat constructor].
Qed.

Lemma g_keeps_flight R P g : g_keeps R P g → Forall (all_acts R) (flight g).
Proof. destruct g as [t|B o q k]; [constructor|]. intros [Hq _]. by repeat constructor. Qed.
End progress.

(** ** Announcing consumes nothing *)

(** A message has been marked delivered or acknowledged. *)
Definition consumed (i : Z) (db : DB) : Prop :=
  ∃ m, m ∈ messages db ∧ m_id m = i ∧ (is_Some (m_delivered_at m) ∨ is_Some (m_ack_at m)).

Definition consumes_none (db db' : DB) : Prop := ∀ i, consumed i db' → consumed i db.

#[export] Instance consumes_none_preorder : PreOrder consumes_none.
Proof. split; [by intros db i|]. intros db1 db2 db3 H1 H2 i Hi. by apply H1, H2. Qed.

Lemma consumes_none_update P f db :
  (∀ m, P m = true → m_id (f m) = m_id m
        ∧ (is_Some (m_delivered_at (f m)) ∨ is_Some (m_ack_at (f m)) →
           is_Some (m_delivered_at m) ∨ is_Some (m_ack_at m))) →
  consumes_none db (set_messages db (update_where P f (messages db))).
Proof.
  intros Hf i (m' & Hm & Hi & Hc). simpl in Hm. unfold update_where in Hm.
  apply list_elem_of_fmap in Hm as (m & -> & Hm).
  destruct (P m) eqn:HP; [|by exists m]. destruct (Hf m HP) as [Hid Hs].
  exists m. split; [done|]. split; [congruence|auto].
Qed.

Lemma consumes_none_delete P db : consumes_none db (set_messages db (delete_where P (messages db))).
Proof. intros i (m & [_ Hm]%elem_of_delete_where & H). by exists m. Qed.

Lemma consumes_none_same db db' : messages db' = messages db → consumes_none db db'.
Proof. intros Heq i. unfold consumed. by rewrite Heq. Qed.

(** Polling and acknowledging apart, no statement consumes a message. *)
Lemma issued_consumes_none rq f : consumes rq = false → issued rq f → respects consumes_none f.
Proof.
  intros Hrq Hf db db' n Heq.
  destruct Hf; try discriminate Hrq; try (injection Heq as <- <-; first
    [ by apply consumes_none_same | apply consumes_none_delete
    | apply consumes_none_update; intros m _; split; [done|]; simpl; naive_solver ]; fail).
  - unfold insert_peer in Heq. destruct (_ || _)%bool; [done|]. injection Heq as <- <-.
    by apply consumes_none_same.
  - unfold insert_name_seen in Heq. destruct (_ !! _); injection Heq as <- <-; by apply consumes_none_same.
  - unfold insert_message in Heq. destruct (_ <=? _); [done|]. injection Heq as <- <-.
    intros i (m & Hm & Hi & Hc). simpl in Hm. apply elem_of_app in Hm as [Hm|Hm]; [by exists m|].
    apply list_elem_of_singleton in Hm as ->. simpl in Hc. destruct Hc as [[? [=]]|[? [=]]].
  - unfold update_agent_name in Heq. destruct (_ && _ && _)%bool; [done|]. injection Heq as <- <-.
    by apply consumes_none_same.
  - unfold insert_name_seen in Heq. destruct (_ !! _); injection Heq as <- <-; by apply consumes_none_same.
  - unfold insert_event in Heq. destruct (_ <=? _); [done|]. injection Heq as <- <-.
    by apply consumes_none_same.
Qed.

Section announcing.
Context {E : Env} {C : StateCodec}.

(** The fleet, with other programs that call only operations of [P]. *)
Inductive fleet_step_with (P : Request → bool) : Fleet → Fleet → Prop :=
| with_proc s s' p p' l1 l2 :
    p_step p s p' s' → fleet_step_with P (mkFleet s (l1 ++ p :: l2)) (mkFleet s' (l1 ++ p' :: l2))
| with_launch s l su fs now :
    fleet_step_with P (mkFleet s l) (mkFleet s (l ++ [launch su fs now]))
| with_other w pool w' pool' l :
    step (λ rq : {rq | P rq = true}, dispatch (`rq)) (pool, w) (pool', w') →
    fleet_step_with P (mkFleet (mkSide w pool) l) (mkFleet (mkSide w' pool') l).

Abbreviation harmless_rq := (λ rq, negb (consumes rq)).
Abbreviation keeps_unread := (on_db consumes_none).

Lemma harmless_acts rq : harmless_rq rq = true → all_acts keeps_unread (dispatch rq).
Proof.
  intros Hrq%negb_true_iff. apply dispatch_acts; [typeclasses eauto|].
  intros f. by apply issued_consumes_none.
Qed.

Definition harmless (g : goroutine) : Prop := g_keeps keeps_unread harmless_rq g.

Definition harmless_process (p : Process) : Prop :=
  (match pc_main p with Doing _ g => harmless g | _ => True end)
  ∧ workers_ok (λ _, harmless) (pc_workers p).

Definition unasked (p : Process) : Prop := Forall (λ r, asks_for_mail r = false) (pc_read p).

Lemma only_harmless (P : Request → bool) (t : thread Mem Outcome) :
  (∀ rq, P rq = true → consumes rq = false) → calls_only P t → harmless (Running t).
Proof. intros HP. apply calls_mono. intros rq Hrq. by rewrite HP. Qed.

Lemma ticks_harmless su w t : ticks su w t → harmless (Running t).
Proof.
  intros [|now|text|text|]; eapply only_harmless;
    first [apply pushing_calls|apply beat_calls|apply summarising_calls|apply syncing_calls|idtac];
    by intros [].
Qed.

Lemma launch_harmless su fs now : harmless_process (launch su fs now).
Proof.
  split; [|apply workers_ok_idle]. eapply only_harmless; [|apply start_calls]. by intros [].
Qed.

Lemma harmless_flights p : harmless_process p → Forall (all_acts keeps_unread) (proc_flights p).
Proof.
  intros [Hm Hw]. unfold proc_flights. apply Forall_app. split.
  - destruct (pc_main p); try apply Forall_nil_2. by eapply g_keeps_flight.
  - unfold worker_flights. apply Forall_concat, Forall_fmap. eapply Forall_impl; [exact Hw|].
    intros [w [|g|]] Hg; try apply Forall_nil_2. by apply (g_keeps_flight _ harmless_rq).
Qed.

(** What a step of a session that is not asked for messages does. *)
Definition side_ok (s : Side) : Prop := Forall (all_acts keeps_unread) (sd_pool s).

Lemma p_step_reads p s p' s' : p_step p s p' s' → pc_read p `prefix_of` pc_read p'.
Proof. intros []; simpl; try done. by apply prefix_app_r. Qed.

Lemma p_step_harmless p s p' s' :
  p_step p s p' s' → unasked p' → harmless_process p → side_ok s →
  harmless_process p' ∧ side_ok s' ∧ keeps_unread (sd_world s) (sd_world s').
Proof.
  intros Hs Hu Hp Hside. pose proof Hp as [Hm Hw].
  assert (∀ p mn, (match mn with Doing _ _ => False | _ => True end) → harmless_process (dead p mn)) as Hdead.
  { intros p0 mn Hmn. split; [by destruct mn|apply workers_ok_dead]. }
  assert (side_ok (orphaned p s)) as Horph by (apply Forall_app; split; [done|by apply harmless_flights]).
  destruct Hs as [p j g m' g' s s' Hmn Hg|p j oc s Hmn Hr|p j oc s Hmn Hr|p r s Hmn|p s Hmn
    |p s Hmn Hst|p w t l1 l2 s Hws Hst Hti|p w g g' m' l1 l2 s s' Hws Hg|p w oc l1 l2 s Hws Hoc
    |p w l1 l2 s Hws Hwt Hst Hca|p w l1 l2 s Hws|p s Hr|p s Hr];
    try (split; [by apply Hdead|by split]);
    unfold harmless_process; cbn [with_mem reading interrupted pc_main pc_workers];
    try (rewrite Hmn in Hm); try (rewrite Hws in Hw; apply workers_ok_middle in Hw as [Hw Hx]).
  - destruct (g_step_keeps keeps_unread _ _ _ _ _ _ _ harmless_acts Hg Hm Hside) as (? & ? & ?). done.
  - split; [|done]. split; [by destruct j, oc|done].
  - split; [|by split]. apply Hdead. by destruct j, oc.
  - split; [|done]. split; [|done]. apply quiet_request_calls.
    unfold unasked in Hu. cbn [reading pc_read] in Hu. by apply Forall_app in Hu as [_ [? _]%Forall_cons].
  - done.
  - split; [|done]. split; [|done]. eapply only_harmless; [|apply leaving_calls]. by intros [].
  - split; [|done]. split; [done|]. apply workers_ok_middle. split; [done|]. by eapply ticks_harmless.
  - destruct (g_step_keeps keeps_unread _ _ _ _ _ _ _ harmless_acts Hg Hx Hside) as (? & ? & ?).
    split; [|done]. split; [done|]. by apply workers_ok_middle.
  - split; [|done]. split; [done|]. apply workers_ok_middle. split; [done|]. by destruct (once_only w).
  - split; [|done]. split; [done|]. by apply workers_ok_middle.
  - done.
Qed.

Definition harmless_fleet (w : World) (f : Fleet) : Prop :=
  Forall unasked (fl_procs f) →
  Forall harmless_process (fl_procs f) ∧ side_ok (fl_side f) ∧ keeps_unread w (fl_world f).

Lemma fleet_step_harmless w f f' :
  fleet_step_with harmless_rq f f' → harmless_fleet w f → harmless_fleet w f'.
Proof.
  intros [s s' p p' l1 l2 Hp|s l su fs now|w0 pool w' pool' l Hb] Hf Hu; cbn [fl_procs fl_side] in *.
  - apply Forall_app in Hu as [Hu1 [Hup Hu2]%Forall_cons].
    assert (unasked p) as Hup0.
    { unfold unasked in *. destruct (p_step_reads _ _ _ _ Hp) as [l Hl]. rewrite Hl in Hup.
      by apply Forall_app in Hup as [? _]. }
    destruct Hf as (H1 & H2 & H3); [apply Forall_app; split; [done|by constructor]|].
    cbn [fl_procs fl_side] in *. apply Forall_app in H1 as [H1 [Hpp H1']%Forall_cons].
    destruct (p_step_harmless _ _ _ _ Hp Hup Hpp H2) as (Hp' & Hs' & Hw').
    split; [apply Forall_app; split; [done|by constructor]|]. split; [done|]. by etrans.
  - apply Forall_app in Hu as [Hu _]. destruct (Hf Hu) as (H1 & H2 & H3). split; [|done].
    apply Forall_app. split; [done|]. apply Forall_singleton, launch_harmless.
  - destruct (Hf Hu) as (H1 & H2 & H3). split; [done|].
    destruct (step_all_acts _ keeps_unread _ _ (λ rq, harmless_acts _ (proj2_sig rq)) Hb H2) as [Hw Hpool].
    split; [done|]. by etrans.
Qed.

(** A message that nobody has read, or that is not there. *)
Definition unread (p : Phase) : bool :=
  match p with Unsent | Lifecycle.Waiting _ | Gone => true | _ => false end.

Lemma consumed_phase i db : msgs_inv db → consumed i db ↔ unread (phase i db) = false.
Proof.
  intros Hinv. split.
  - intros (m & Hm & <- & Hc). rewrite phase_of_elem by done. unfold row_phase.
    destruct (m_delivered_at m), (m_ack_at m); simpl; try done. by destruct Hc as [[? [=]]|[? [=]]].
  - unfold phase. destruct (find _ _) as [m|] eqn:Ef; [|by destruct (_ && _)].
    apply find_some_elem in Ef as [Hm Hi]. unfold has_msg_id in Hi. zify_bool.
    intros Hu. exists m. split; [done|]. split; [done|]. unfold row_phase in Hu.
    destruct (m_delivered_at m), (m_ack_at m); simpl in Hu; try done; eauto.
Qed.

Lemma fleet_with_step P f f' : fleet_step_with P f f' → fleet_step f f'.
Proof.
  intros [s s' p p' l1 l2 Hp|s l su fs now|w pool w' pool' l Hb]; [by constructor..|]. constructor.
  inversion Hb; subst; simplify_eq; constructor.
Qed.

(** C3: Announcing a message does not consume it.  As long as no session is asked
    for its messages with [check_messages], and the other programs neither poll
    nor acknowledge, no message is marked delivered or acknowledged, however many
    sessions announce it, however often and however their goroutines interleave,
    whatever calls are lost and whenever processes crash: what nobody had read is
    still unread. *)
Theorem announcing_consumes_nothing w f i :
  db_inv (w_db w) → rtc (fleet_step_with (λ rq, negb (consumes rq))) (quiet w) f →
  (∀ p r, p ∈ fl_procs f → r ∈ pc_read p → asks_for_mail r = false) →
  unread (phase i (w_db w)) = true → unread (phase i (w_db (fl_world f))) = true.
Proof.
  intros Hinv Hf Hasked Hu.
  assert (harmless_fleet w f) as Hh.
  { revert Hf. clear. apply (rtc_ind_r (harmless_fleet w)).
    - intros _. split; [constructor|]. split; [constructor|]. cbn. reflexivity.
    - intros f1 f2 _ Hs. by apply fleet_step_harmless. }
  destruct Hh as (_ & _ & Hc).
  { apply Forall_forall. intros p Hp. apply Forall_forall. intros r. by apply Hasked. }
  assert (db_inv (w_db (fl_world f))) as Hinv'.
  { assert (rtc fleet_step (quiet w) f) as Hf' by (eapply rtc_subrel; [apply fleet_with_step|exact Hf]).
    destruct (fleet_steps_moves _ _ Hf' []) as (pool & Hs & _); [done|].
    by apply (steps_life_run i w pool _ Hs). }
  apply not_false_iff_true. intros Hn.
  apply consumed_phase in Hn; [|by apply db_inv_msgs]. apply Hc in Hn.
  apply consumed_phase in Hn; [|by apply db_inv_msgs]. congruence.
Qed.
End announcing.

Section run.
Context {E : Env} {C : StateCodec}.

Lemma p_steps_with P x y :
  p_steps x y → rtc (fleet_step_with P) (mkFleet x.2 [x.1]) (mkFleet y.2 [y.1]).
Proof.
  induction 1 as [y|y1 y2 y3 Hstep _ IH]; [apply rtc_refl|]. eapply rtc_l; [|exact IH].
  by apply (with_proc P _ _ _ _ [] []).
Qed.

Lemma fleet_run_with P su fs now w cmds x :
  p_run cmds (launch su fs now, mkSide w []) = x →
  rtc (fleet_step_with P) (quiet w) (mkFleet x.2 [x.1]).
Proof.
  intros <-. eapply rtc_l; [apply (with_launch P (mkSide w []) [] su fs now)|].
  apply (p_steps_with P (launch su fs now, mkSide w [])), p_run_steps.
Qed.
End run.

(** ** Witness *)
#[local] Existing Instance demo_env.
#[local] Existing Instance demo_state_codec.

(** "builder" starts, lists its tools and announces the message of "planner". *)
Definition announcing : list Cmd :=
  [CmdMain 100; CmdRead list_tools; CmdMain 100; CmdWake 0 ""; CmdWork 0 100].
Definition informed : Process * Side :=
  p_run announcing (launch builder_setup blank_disk "", mkSide builder_mail []).

Lemma informed_run P :
  rtc (fleet_step_with P) (quiet builder_mail) (mkFleet informed.2 [informed.1]).
Proof. unfold informed. by eapply fleet_run_with. Qed.

Lemma announcing_consumes_nothing_witness :
  announced (pc_mem informed.1) = [JStr "1"]
  ∧ unread (phase 1 (w_db (fl_world (mkFleet informed.2 [informed.1])))) = true.
Proof.
  split; [vm_compute; reflexivity|].
  apply (announcing_consumes_nothing builder_mail (mkFleet informed.2 [informed.1]) 1).
  - apply after_db_inv.
  - apply informed_run.
  - intros p r Hp Hr. apply list_elem_of_singleton in Hp as ->.
    assert (pc_read informed.1 = [list_tools]) as Heq by (vm_compute; reflexivity).
    rewrite Heq in Hr. apply list_elem_of_singleton in Hr as ->. vm_compute. reflexivity.
  - vm_compute. reflexivity.
Defined.
