(* ===== verification/FleetExit.v ===== *)
(** * The end of a session

    A session whose input has ended stops its push and heartbeat loops, waits for
    them, unregisters and removes its state file; nothing brings the file back,
    and nothing keeps the session from ending. *)

From S2P Require Import Prelude GoStrings GoTime Types Store Prog World Broker Dispatch Demo.
From S2P Require Import Files Client Api StateFile Json Memory Tools Mcp Thread Goroutines Fleet FleetRun FleetSpec.

#[local] Open Scope thread_scope.

(** ** The state file *)

(** [sessionStatePath] once it is set. *)
Definition path_of (su : Setup) : string := path_join [su_dir su; state_name (pf_parent (su_profile su))].
Definition path_ok (su : Setup) (m : Mem) : Prop := me_path m = "" ∨ me_path m = path_of su.
(** Unless the operating system refuses to remove it. *)
Definition file_gone (m : Mem) : Prop :=
  me_path m ≠ "" → remove_fault (me_disk m) (me_path m) = None → files (me_disk m) !! me_path m = None.

Definition keeps_path (m m' : Mem) : Prop := me_path m' = me_path m.
Definition keeps_path_ok (su : Setup) (m m' : Mem) : Prop := path_ok su m → path_ok su m'.
Definition keeps_gone (su : Setup) (m m' : Mem) : Prop := path_ok su m → file_gone m → file_gone m'.

Lemma disk_path {A} (f : io A) : locals keeps_path (disk f).
Proof. apply locals_local. intros m. by destruct (f (me_disk m)). Qed.

Ltac path_step :=
  first [locals_step | simple apply disk_path | reflexivity].

Lemma keeps_path_weaken {A} su (t : thread Mem A) : locals keeps_path t → locals (keeps_path_ok su) t.
Proof. apply locals_mono. intros m m' Hm. unfold keeps_path_ok, path_ok. by rewrite Hm. Qed.

Section goroutines.
Context {C : StateCodec} (quote : string → string) (su : Setup).

Lemma write_state_path s :
  locals keeps_path (t_write_state (su_profile su) (su_dir su) s)
  ∧ returns (λ p, p = "" ∨ p = path_of su) (t_write_state (su_profile su) (su_dir su) s).
Proof.
  unfold t_write_state, t_replace. split.
  - repeat path_step.
  - destruct (String.eqb (su_dir su) ""); [by left|]. intros [fs|e]; [|by left]. cbn.
    destruct (marshal_state s) as [data|e]; [|by left]. intros [u|e]; [|by left]. cbn.
    intros [u'|e]; [by right|]. intros b. by left.
Qed.

Lemma register_path verb retry req : locals keeps_path (t_register verb retry req).
Proof. unfold t_register. repeat path_step. Qed.

Lemma start_path now : locals (keeps_path_ok su) (t_start (su_profile su) (su_dir su) now).
Proof.
  unfold t_start, put_session. apply locals_bind; [apply keeps_path_weaken, register_path|].
  intros [[id name]|e]; [|done]. apply locals_bind; [apply keeps_path_weaken; by repeat path_step|].
  intros []. destruct (write_state_path (state_file (su_profile su) id name now)) as [Hl Hr].
  eapply locals_bind_returns; [apply keeps_path_weaken, Hl|exact Hr|]. intros p Hp.
  apply locals_bind; [|done]. apply locals_local. intros m _. exact Hp.
Qed.

Lemma heartbeat_path now : locals keeps_path (t_heartbeat (su_profile su) (su_dir su) now).
Proof.
  unfold t_heartbeat, t_rebind, get_session, put_session.
  repeat first [simple apply register_path|simple apply (proj1 (write_state_path _))|path_step].
Qed.

Lemma tool_path c : locals keeps_path (t_tool quote (su_here su) c).
Proof.
  unfold t_tool, t_list_peers, t_send, t_set_summary, t_claim, t_check, t_update_name, t_replace, list_all,
    get_session.
  repeat path_step.
Qed.

Lemma request_path r : locals keeps_path (ends (t_request quote (su_here su) r)).
Proof.
  unfold ends, t_request, t_context, say. apply locals_bind; [|done].
  repeat first [simple apply tool_path|path_step].
Qed.

Lemma leave_path : locals keeps_path (ends t_leave).
Proof. unfold ends, t_leave, get_session. repeat path_step. by destruct (String.eqb _ ""). Qed.

(** The clean-up ends by taking the file away. *)
Lemma leave_attains : attains (λ _, True) file_gone (ends t_leave).
Proof.
  right. intros id r. left. intros m _. split; [|by eexists]. cbn [fst].
  destruct (String.eqb_spec (me_path m) "") as [He|He]; [by intros Hne|].
  cbn [set_disk me_disk me_path]. intros _ Hr. apply Remove_gone.
  by destruct (Remove_touches (me_path m) (me_disk m)) as (_ & _ & _ & _ & _ & <- & _).
Qed.

(** What still runs then leaves it alone: the files of the memory directory end
    in another letter. *)
Lemma sync_touches body fs fs' :
  syncFleetMemory (su_home su) body fs = Some fs' →
  touches (λ q, ∃ d f, plain_name (f +:+ "d") = true ∧ q = path_join [d; f +:+ "d"]) fs fs'.
Proof.
  set (P := λ q, ∃ d f, plain_name (f +:+ "d") = true ∧ q = path_join [d; f +:+ "d"]).
  assert (∀ d f data fs0, plain_name (f +:+ "d") = true →
    touches P fs0 (WriteFile (path_join [d; f +:+ "d"]) data 420 fs0).1) as Hw.
  { intros d f data fs0 Hf. eapply touches_mono; [|apply WriteFile_touches]. intros q <-. by exists d, f. }
  assert (∀ d data, touches P fs (store_memory d data fs)) as Hstore.
  { intros d data. unfold store_memory, updateMemoryIndex. etrans; [by apply (Hw d "fleet-activity.m")|].
    destruct (Contains _ _); [done|]. by apply (Hw d "MEMORY.m"). }
  unfold syncFleetMemory. destruct body as [[|c data]|e]; [by intros [= <-]| |by intros [= <-]].
  destruct (claudeMemoryDir _) as [d|]; [|done]. intros [= <-]. apply Hstore.
Qed.

Lemma sync_file body fs fs' dir ppid :
  syncFleetMemory (su_home su) body fs = Some fs' →
  files fs' !! path_join [dir; state_name ppid] = files fs !! path_join [dir; state_name ppid]
  ∧ remove_fault fs' = remove_fault fs.
Proof.
  intros (_ & _ & _ & _ & _ & Hr & Hf)%sync_touches. split; [|done]. apply Hf.
  intros (d & f & Hpl & Heq). rewrite (path_join_plain d) in Heq by done.
  rewrite <-string_app_assoc in Heq. by eapply (state_path_ends dir ppid _ "d"%char).
Qed.

Lemma background_file w t :
  ticks su w t → waited w = false → locals (keeps_gone su) t.
Proof.
  intros [|now|text|text|] Hw; try discriminate Hw;
    try (unfold ends, t_summary, get_session; repeat locals_step; by intros ??).
  unfold t_sync. apply locals_bind; [apply locals_call|]. intros r. apply locals_local.
  intros m Hp Hg. destruct (syncFleetMemory _ _ _) as [fs|] eqn:Es; [|done].
  intros Hne. cbn [fst set_disk me_path me_disk] in *. destruct Hp as [Hp|Hp]; [done|].
  destruct (sync_file _ _ _ (su_dir su) (pf_parent (su_profile su)) Es) as [Hf Hrm].
  rewrite Hp, Hrm. unfold path_of in *. rewrite Hf. rewrite <-Hp. by apply Hg.
Qed.

Lemma ticks_path w t : ticks su w t → locals (keeps_path_ok su) t.
Proof.
  intros [|now|text|text|]; apply keeps_path_weaken.
  - unfold ends, t_push, get_session, list_all. repeat locals_step; try reflexivity.
    unfold push_message. by case_bool_decide.
  - apply locals_bind; [apply heartbeat_path|done].
  - unfold ends, t_summary, get_session. by repeat path_step.
  - unfold ends, t_summary, get_session. by repeat path_step.
  - unfold t_sync. repeat path_step. by destruct (syncFleetMemory _ _ _).
Qed.
End goroutines.

(** ** The invariant *)
Section tidy.
Context {E : Env} {C : StateCodec}.

Definition g_attains (g : goroutine) : Prop :=
  match g with
  | Running t => attains (λ _, True) file_gone t
  | Waiting _ _ k => ∀ r, attains (λ _, True) file_gone (k r)
  end.

Definition no_busy : list (Worker * Loop) → Prop := workers_ok (λ _ _, False).

(** The main goroutine, as far as the file is concerned. *)
Definition main_tidy (p : Process) : Prop :=
  match pc_main p with
  | Doing JobLeave g =>
      all_stopped (pc_workers p)
      ∧ (g_attains g ∨ file_gone (pc_mem p) ∧ ∃ oc, g = Running (Done oc))
  | Exited => no_busy (pc_workers p) ∧ file_gone (pc_mem p)
  | Aborted | Crashed => no_busy (pc_workers p)
  | _ => True
  end.

Definition tidy (p : Process) : Prop :=
  let su := pc_setup p in
  path_ok su (pc_mem p)
  ∧ (match pc_main p with Doing _ g => g_locals (keeps_path_ok su) g | _ => True end)
  ∧ workers_ok (λ w g, g_locals (keeps_path_ok su) g
      ∧ (waited w = false → g_locals (keeps_gone su) g)) (pc_workers p)
  ∧ main_tidy p.

Lemma g_step_attains g m s g' m' s' :
  g_step g m s g' m' s' → g_attains g → g_attains g' ∨ file_gone m' ∧ ∃ oc, g' = Running (Done oc).
Proof.
  intros [D f k m0 s0|D o k m0 s0|D o k e m0 s0|D D' o f c k m0 w pool|D o rs k m0 s0|D o q k e m0 w pool];
    simpl; auto.
  intros [Hl|Hk]; [right|by auto]. destruct (Hl m0 I) as [Hg [a Ha]]. split; [done|]. exists a. by rewrite Ha.
Qed.

Lemma g_step_path su g m s g' m' s' :
  g_step g m s g' m' s' → g_locals (keeps_path_ok su) g → path_ok su m →
  g_locals (keeps_path_ok su) g' ∧ path_ok su m'.
Proof.
  intros Hs Hl Hp. destruct (g_step_locals _ _ _ _ _ _ _ Hs Hl) as [Hl' [->|Hm]]; auto.
Qed.

Lemma no_busy_middle l1 w g l2 : ¬ no_busy (l1 ++ (w, Busy g) :: l2).
Proof. intros H. by apply workers_ok_middle in H as [_ H]. Qed.

Lemma all_stopped_middle l1 w lp l2 :
  all_stopped (l1 ++ (w, lp) :: l2) ↔ all_stopped (l1 ++ l2) ∧ (waited w = true → lp = Stopped).
Proof.
  unfold all_stopped. split.
  - intros H. split; [|apply H; set_solver]. intros w' lp' Hin. apply H. set_solver.
  - intros [H1 H2] w' lp' Hin. apply elem_of_app in Hin as [Hin|[[= -> ->]|Hin]%elem_of_cons]; [|done|];
      apply H1; set_solver.
Qed.

Lemma launch_tidy su fs now : tidy (launch su fs now).
Proof.
  split; [by left|]. split; [apply start_path|]. split; [apply workers_ok_idle|]. done.
Qed.

(** A worker's step, as far as the main goroutine is concerned. *)
Lemma main_tidy_worker p m' lp lp' l1 w l2 :
  pc_workers p = l1 ++ (w, lp) :: l2 → (lp = Idle → started (pc_main p) = true) → lp ≠ Stopped →
  (waited w = false → file_gone (pc_mem p) → file_gone m') →
  main_tidy p → main_tidy (with_mem p m' (pc_main p) (l1 ++ (w, lp') :: l2)).
Proof.
  intros Hws Hidle Hne Hg. unfold main_tidy. cbn [with_mem pc_main pc_workers pc_mem]. rewrite Hws.
  assert (no_busy (l1 ++ (w, lp) :: l2) → running (pc_main p) = false → False) as Hno.
  { intros Hb Hr. destruct lp as [|g|]; [|by apply no_busy_middle in Hb|done].
    specialize (Hidle eq_refl). unfold started in Hidle. by rewrite Hr in Hidle. }
  destruct (pc_main p) as [|[] g| | | |] eqn:Em; try done.
  - intros [Hst%all_stopped_middle Hat]. destruct Hst as [Hst Hw].
    assert (waited w = false) as Hwt by (destruct (waited w); [by specialize (Hw eq_refl)|done]).
    split; [apply all_stopped_middle; by rewrite Hwt|].
    destruct Hat as [Hat|[Hgone Hoc]]; [by left|right]. by auto.
  - intros [Hb Hf]. by destruct Hno.
  - intros Hb. by destruct Hno.
  - intros Hb. by destruct Hno.
Qed.

Lemma p_step_tidy p s p' s' : p_step p s p' s' → tidy p → tidy p'.
Proof.
  intros Hs (Hp & Hm & Hw & Ht).
  destruct Hs as [p j g m' g' s s' Hmn Hg|p j oc s Hmn Hr|p j oc s Hmn Hr|p r s Hmn|p s Hmn
    |p s Hmn Hst|p w t l1 l2 s Hws Hst Hti|p w g g' m' l1 l2 s s' Hws Hg|p w oc l1 l2 s Hws Hoc
    |p w l1 l2 s Hws Hwt Hst Hca|p w l1 l2 s Hws|p s Hr|p s Hr];
    unfold tidy; cbn [with_mem dead reading interrupted pc_setup pc_mem pc_read pc_main pc_workers];
    try (rewrite Hmn in Hm); try (rewrite Hws in Hw; apply workers_ok_middle in Hw as [Hw Hx]).
  - destruct (g_step_path _ _ _ _ _ _ _ Hg Hm Hp) as [Hm' Hp']. split; [done|]. split; [done|]. split; [done|].
    unfold main_tidy in *. cbn [with_mem pc_main pc_workers pc_mem]. rewrite Hmn in Ht. destruct j; [done..|].
    destruct Ht as [Hst [Ha|[_ [oc ->]]]]; [|inversion Hg]. split; [done|]. by eapply g_step_attains.
  - split; [done|]. split; [by destruct j, oc|]. split; [done|]. by destruct j, oc.
  - split; [done|]. split; [by destruct j, oc|]. split; [apply workers_ok_dead|].
    unfold main_tidy in *. cbn [with_mem dead pc_main pc_workers pc_mem]. rewrite Hmn in Ht.
    destruct j, oc; try done; try apply workers_ok_dead;
      (split; [apply workers_ok_dead|]; by destruct Ht as [_ [[]|[Hf _]]]).
  - split; [done|]. split; [apply keeps_path_weaken, request_path|]. done.
  - done.
  - split; [done|]. split; [apply keeps_path_weaken, leave_path|]. split; [done|]. split; [done|].
    left. apply leave_attains.
  - split; [done|]. split; [done|]. split.
    + apply workers_ok_middle. split; [done|]. split; [by eapply ticks_path|].
      intros Hwt. by eapply background_file.
    + apply (main_tidy_worker p _ Idle _ l1 w l2); done.
  - destruct Hx as [Hx1 Hx2]. destruct (g_step_path _ _ _ _ _ _ _ Hg Hx1 Hp) as [Hx1' Hp'].
    split; [done|]. split; [done|]. split.
    + apply workers_ok_middle. split; [done|]. split; [done|]. intros Hwt.
      by apply (g_step_locals _ _ _ _ _ _ _ Hg (Hx2 Hwt)).
    + apply (main_tidy_worker p _ (Busy g) _ l1 w l2); try done. intros Hwt Hgone.
      destruct (g_step_locals _ _ _ _ _ _ _ Hg (Hx2 Hwt)) as [_ [->|Hk]]; auto.
  - split; [done|]. split; [done|]. split.
    + apply workers_ok_middle. split; [done|]. by destruct (once_only w).
    + apply (main_tidy_worker p _ (Busy (Running (Done oc))) _ l1 w l2); done.
  - split; [done|]. split; [done|]. split; [by apply workers_ok_middle|].
    by apply (main_tidy_worker p _ Idle _ l1 w l2).
  - split; [done|]. split; [done|]. split; [apply workers_ok_dead|]. apply workers_ok_dead.
  - split; [done|]. split; [done|]. split; [apply workers_ok_dead|]. apply workers_ok_dead.
  - by split_and!.
Qed.

(** C10: A session that has come to its end has taken its state file with it,
    unless the operating system refuses to remove that file: however its
    goroutines and those of the others interleave, and in whatever state a
    heartbeat was interrupted, nothing is left at the path it was told, and
    nothing brings the file back. *)
Theorem exit_removes_state_file w f p :
  rtc fleet_step (quiet w) f → p ∈ fl_procs f → pc_main p = Exited → me_path (pc_mem p) ≠ "" →
  me_path (pc_mem p) = path_of (pc_setup p)
  ∧ (remove_fault (me_disk (pc_mem p)) (path_of (pc_setup p)) = None →
     files (me_disk (pc_mem p)) !! path_of (pc_setup p) = None).
Proof.
  intros Hf Hp He Hne. assert (Forall tidy (fl_procs f)) as Hall
    by (by eapply fleet_invariant; [apply launch_tidy|apply p_step_tidy|]).
  rewrite Forall_forall in Hall. destruct (Hall p Hp) as (Hpath & _ & _ & Ht).
  unfold main_tidy in Ht. rewrite He in Ht. destruct Ht as [_ Hgone].
  destruct Hpath as [Hpath|Hpath]; [done|]. split; [done|]. rewrite <-Hpath. intros Hr. by apply Hgone.
Qed.
End tidy.

(** ** The session ends *)
Section ending.
Context {E : Env} {C : StateCodec}.

(** The steps a process takes by itself: those of [p_step] but for a line on
    its input, a tick, an interrupt and a kill, which come from outside. *)
Inductive work_left : Process * Side → Process * Side → Prop :=
| left_main p j g m' g' s s' :
    pc_main p = Doing j g → g_step g (pc_mem p) s g' m' s' →
    work_left (p, s) (with_mem p m' (Doing j g') (pc_workers p), s')
| left_done p j oc s :
    pc_main p = Doing j (Running (Done oc)) → running (goes_on j oc) = true →
    work_left (p, s) (with_mem p (pc_mem p) (goes_on j oc) (pc_workers p), s)
| left_end p j oc s :
    pc_main p = Doing j (Running (Done oc)) → running (goes_on j oc) = false →
    work_left (p, s) (dead p (goes_on j oc), orphaned p s)
| left_eof p s :
    pc_main p = Serving → work_left (p, s) (with_mem p (pc_mem p) Draining (pc_workers p), s)
| left_leave p s :
    pc_main p = Draining → all_stopped (pc_workers p) →
    work_left (p, s) (with_mem p (pc_mem p) (Doing JobLeave (Running (ends t_leave))) (pc_workers p), s)
| left_worker p w g g' m' l1 l2 s s' :
    pc_workers p = l1 ++ (w, Busy g) :: l2 → g_step g (pc_mem p) s g' m' s' →
    work_left (p, s) (with_mem p m' (pc_main p) (l1 ++ (w, Busy g') :: l2), s')
| left_worker_done p w oc l1 l2 s :
    pc_workers p = l1 ++ (w, Busy (Running (Done oc))) :: l2 → oc ≠ Panicked →
    work_left (p, s) (with_mem p (pc_mem p) (pc_main p)
                        (l1 ++ (w, if once_only w then Stopped else Idle) :: l2), s)
| left_stop p w l1 l2 s :
    pc_workers p = l1 ++ (w, Idle) :: l2 → waited w = true → pc_main p = Draining →
    work_left (p, s) (with_mem p (pc_mem p) (pc_main p) (l1 ++ (w, Stopped) :: l2), s)
| left_panic p w l1 l2 s :
    running (pc_main p) = true → pc_workers p = l1 ++ (w, Busy (Running (Done Panicked))) :: l2 →
    work_left (p, s) (dead p Crashed, orphaned p s).

Lemma work_left_step c c' : work_left c c' → p_step c.1 c.2 c'.1 c'.2.
Proof.
  intros [p j g m' g' s s' Hm Hg|p j oc s Hm Hr|p j oc s Hm Hr|p s Hm|p s Hm Hst
    |p w g g' m' l1 l2 s s' Hw Hg|p w oc l1 l2 s Hw Hoc|p w l1 l2 s Hw Hwt Hm|p w l1 l2 s Hr Hw].
  - by eapply p_main.
  - by apply p_done.
  - by apply p_end.
  - by apply p_eof.
  - by apply p_leave.
  - by eapply p_worker.
  - by eapply p_worker_done.
  - eapply p_stop; [done..|simpl; by rewrite Hm|]. unfold cancelled. simpl. by rewrite Hm, orb_true_r.
  - by eapply p_panic.
Qed.

(** What may be left of a goroutine after one of its steps. *)
Definition g_rest (g g' : goroutine) : Prop :=
  match g with
  | Running (Done _) => False
  | Running (Local f k) => ∃ b, g' = Running (k b)
  | Running (Call o k) => g' = Waiting o (dispatch (request_of o)) k ∨ ∃ r, g' = Running (k r)
  | Waiting o (Ret rs) k => ∃ r, g' = Running (k r)
  | Waiting o (Act f c) k => (∃ b, g' = Waiting o (c b) k) ∨ ∃ r, g' = Running (k r)
  end.

Lemma g_step_rest g m s g' m' s' : g_step g m s g' m' s' → g_rest g g'.
Proof.
  intros [D f k m0 s0|D o k m0 s0|D o k e m0 s0|D D' o f c k m0 w pool|D o rs k m0 s0|D o q k e m0 w pool];
    simpl; eauto. destruct q; eauto.
Qed.

Lemma waiting_sn {B} (o : ApiOp B) k q :
  (∀ r, sn g_rest (Running (k r))) → sn g_rest (Waiting o q k).
Proof.
  intros Hk. induction q as [rs|D f c IH]; constructor; simpl.
  - intros g' [r ->]. apply Hk.
  - intros g' [[b ->]|[r ->]]; [apply IH|apply Hk].
Qed.

Lemma running_sn t : sn g_rest (Running t).
Proof.
  induction t as [a|D f k IH|D o k IH]; constructor; simpl; [done|..].
  - intros g' [b ->]. apply IH.
  - intros g' [->|[r ->]]; [by apply waiting_sn|apply IH].
Qed.

Lemma goroutine_sn g : sn g_rest g.
Proof. destruct g as [t|B o q k]; [apply running_sn|]. apply waiting_sn. intros r. apply running_sn. Qed.

(** Workers stop, the main goroutine goes from phase to phase. *)
Definition loop_rest (l l' : Worker * Loop) : Prop :=
  match l.2, l'.2 with
  | Busy g, Busy g' => g_rest g g'
  | Busy _, _ | Idle, Stopped => True
  | _, _ => False
  end.

Lemma loop_sn l : sn loop_rest l.
Proof.
  assert (∀ w, sn loop_rest (w, Stopped)) as Hs by (intros w; constructor; by intros [w' []]).
  assert (∀ w, sn loop_rest (w, Idle)) as Hi
    by (intros w; constructor; intros [w' []]; unfold loop_rest; simpl; try done; intros; apply Hs).
  destruct l as [w [|g|]]; [apply Hi| |apply Hs]. revert w.
  induction (goroutine_sn g) as [g _ IH]. intros w. constructor.
  intros [w' [|g'|]]; unfold loop_rest; simpl; [intros; apply Hi| |intros; apply Hs]. intros Hr. by apply IH.
Qed.

Inductive one_of {A} (R : relation A) : relation (list A) :=
| one_here x y l : R x y → one_of R (x :: l) (y :: l)
| one_later x l l' : one_of R l l' → one_of R (x :: l) (x :: l').

Lemma one_of_middle {A} (R : relation A) l1 x y l2 : R x y → one_of R (l1 ++ x :: l2) (l1 ++ y :: l2).
Proof. intros H. induction l1; by constructor. Qed.

Lemma one_of_sn {A} (R : relation A) l : (∀ x, sn R x) → sn (one_of R) l.
Proof.
  intros HR. induction l as [|x l IH]; [constructor; inversion 1|]. revert l IH.
  induction (HR x) as [x _ IHx]. intros l Hl. induction Hl as [l Hl IHl]. constructor.
  apply Acc_intro in Hl. intros l' Ho. inversion Ho; subst; auto.
Qed.

Definition main_rest (mn mn' : Main) : Prop :=
  match mn, mn' with
  | Doing j g, Doing j' g' => j = j' ∧ g_rest g g'
  | Doing JobStart _, (Serving | Aborted) | Doing JobRequest _, Serving | Serving, Draining
  | Draining, Doing JobLeave _ | Doing JobLeave _, Exited => True
  | (Serving | Doing _ _ | Draining), Crashed => True
  | _, _ => False
  end.

Lemma job_sn j :
  (∀ g mn', main_rest (Doing j g) mn' → (∃ g', mn' = Doing j g' ∧ g_rest g g') ∨ sn main_rest mn') →
  ∀ g, sn main_rest (Doing j g).
Proof.
  intros Hj g. induction (goroutine_sn g) as [g _ IH]. constructor. intros mn' Hr.
  destruct (Hj g mn' Hr) as [(g' & -> & Hg)|Hsn]; [by apply IH|exact Hsn].
Qed.

Ltac next_phase :=
  intros [|[] g'| | | |] Hr; simpl in Hr;
  first [contradiction|assumption|auto].

Lemma main_sn mn : sn main_rest mn.
Proof.
  assert (sn main_rest Exited) as He by (constructor; intros mn' []).
  assert (sn main_rest Aborted) as Ha by (constructor; intros mn' []).
  assert (sn main_rest Crashed) as Hc by (constructor; intros mn' []).
  assert (∀ g, sn main_rest (Doing JobLeave g)) as Hl.
  { apply job_sn. intros g [|j' g'| | | |] Hr; simpl in Hr;
      first [contradiction|right; assumption|destruct Hr as [<- Hr]; left; by exists g']. }
  assert (sn main_rest Draining) as Hd by (constructor; next_phase).
  assert (sn main_rest Serving) as Hs by (constructor; next_phase).
  destruct mn as [|[] g| | | |]; [exact Hs| | |apply Hl|exact Hd|exact He|exact Ha|exact Hc];
    revert g; apply job_sn; intros g [|j' g'| | | |] Hr; simpl in Hr;
    first [contradiction|right; assumption|destruct Hr as [<- Hr]; left; by exists g'].
Qed.

Definition progress (p p' : Process) : Prop :=
  main_rest (pc_main p) (pc_main p')
  ∨ pc_main p' = pc_main p ∧ one_of loop_rest (pc_workers p) (pc_workers p').

Lemma progress_sn p : sn progress p.
Proof.
  cut (∀ mn ws p, pc_main p = mn → pc_workers p = ws → sn progress p); [by eauto|]. clear p.
  intros mn. induction (main_sn mn) as [mn _ IHm]. intros ws.
  induction (one_of_sn loop_rest ws loop_sn) as [ws _ IHw]. intros p <- <-. constructor.
  intros p' Hp. destruct (Hp : progress p p') as [Hm|[Hm Hw]]; [by eapply IHm|by eapply IHw].
Qed.

Lemma work_left_progress c c' : work_left c c' → progress c.1 c'.1.
Proof.
  intros [p j g m' g' s s' Hm Hg|p j oc s Hm Hr|p j oc s Hm Hr|p s Hm|p s Hm Hst
    |p w g g' m' l1 l2 s s' Hw Hg|p w oc l1 l2 s Hw Hoc|p w l1 l2 s Hw Hwt Hm|p w l1 l2 s Hr Hw];
    unfold progress; simpl; rewrite ?Hm, ?Hw; simpl.
  - left. destruct j; (split; [done|]); by eapply g_step_rest.
  - left. by destruct j, oc.
  - left. by destruct j, oc.
  - by left.
  - by left.
  - right. split; [done|]. apply one_of_middle. by eapply g_step_rest.
  - right. split; [done|]. apply one_of_middle. by destruct (once_only w).
  - right. split; [done|]. by apply one_of_middle.
  - left. by destruct (pc_main p) as [|[] ?| | | |].
Qed.

Lemma work_left_sn c : sn work_left c.
Proof.
  destruct c as [p s]. revert s. induction (progress_sn p) as [p _ IH]. intros s. constructor.
  intros [p' s'] Hw. apply IH. exact (work_left_progress _ _ Hw).
Qed.

(** A goroutine is done or can go on. *)
Lemma goroutine_can g :
  (∃ oc, g = Running (Done oc)) ∨ ∀ m s, ∃ g' m' s', g_step g m s g' m' s'.
Proof.
  destruct g as [[oc|D f k|D o k]|D o [rs|D' f c] k]; [left; by exists oc|right..]; intros m [w pool];
    eexists _, _, _; constructor.
Qed.

(** The loops that are waited for end by returning. *)
Definition g_finishes (g : goroutine) : Prop :=
  match g with
  | Running t => returns (eq Finished) t
  | Waiting _ _ k => ∀ r, returns (eq Finished) (k r)
  end.

Definition punctual (p : Process) : Prop :=
  workers_ok (λ w g, waited w = true → g_finishes g) (pc_workers p).

Lemma ends_finishes (t : thread Mem unit) : returns (eq Finished) (ends t).
Proof. apply (returns_bind (λ _, True)); [|done]. by induction t; simpl. Qed.

Lemma g_step_finishes g m s g' m' s' : g_step g m s g' m' s' → g_finishes g → g_finishes g'.
Proof.
  intros [D f k m0 s0|D o k m0 s0|D o k e m0 s0|D D' o f c k m0 w pool|D o rs k m0 s0|D o q k e m0 w pool];
    simpl; auto.
Qed.

Lemma p_step_punctual p s p' s' : p_step p s p' s' → punctual p → punctual p'.
Proof.
  unfold punctual. intros Hs Hw.
  destruct Hs as [p j g m' g' s s' Hmn Hg|p j oc s Hmn Hr|p j oc s Hmn Hr|p r s Hmn|p s Hmn
    |p s Hmn Hst|p w t l1 l2 s Hws Hst Hti|p w g g' m' l1 l2 s s' Hws Hg|p w oc l1 l2 s Hws Hoc
    |p w l1 l2 s Hws Hwt Hst Hca|p w l1 l2 s Hws|p s Hr|p s Hr];
    cbn [with_mem dead reading interrupted pc_workers]; try apply workers_ok_dead; try done;
    rewrite Hws in Hw; apply workers_ok_middle in Hw as [Hw Hx]; apply workers_ok_middle; (split; [done|]).
  - simpl. intros Hwt. destruct Hti; try done; apply ends_finishes.
  - simpl. intros Hwt. by eapply g_step_finishes; [exact Hg|apply Hx].
  - by destruct (once_only w).
  - done.
Qed.

Lemma all_stopped_or l :
  all_stopped l ∨ ∃ l1 w lp l2, l = l1 ++ (w, lp) :: l2 ∧ waited w = true ∧ lp ≠ Stopped.
Proof.
  induction l as [|[w lp] l [IH|(l1 & w' & lp' & l2 & -> & H)]].
  - left. intros w lp Hin. by apply elem_of_nil in Hin.
  - destruct (waited w) eqn:Ew; [destruct lp as [|g|]|].
    + right. by exists [], w, Idle, l.
    + right. by exists [], w, (Busy g), l.
    + left. by apply (all_stopped_middle []).
    + left. apply (all_stopped_middle []). split; [done|]. by rewrite Ew.
  - right. by exists ((w, lp) :: l1), w', lp', l2.
Qed.

(** A process that has not ended can work. *)
Lemma work_left_can p s : punctual p → running (pc_main p) = true → ∃ c, work_left (p, s) c.
Proof.
  intros Hp Hr. destruct (pc_main p) as [|j g| | | |] eqn:Em; try discriminate Hr.
  - eexists. by apply left_eof.
  - destruct (goroutine_can g) as [[oc ->]|Hg].
    + destruct (running (goes_on j oc)) eqn:Er; eexists; [by eapply left_done|by eapply left_end].
    + destruct (Hg (pc_mem p) s) as (g' & m' & s' & Hs). eexists. by eapply left_main.
  - destruct (all_stopped_or (pc_workers p)) as [Hst|(l1 & w & lp & l2 & Hw & Hwt & Hlp)].
    + eexists. by apply left_leave.
    + destruct lp as [|g|]; [eexists; by eapply left_stop| |done].
      destruct (goroutine_can g) as [[oc ->]|Hg].
      * eexists. eapply left_worker_done; [exact Hw|]. unfold punctual in Hp. rewrite Hw in Hp.
        apply workers_ok_middle in Hp as [_ Hx]. by rewrite <-(Hx Hwt : Finished = oc).
      * destruct (Hg (pc_mem p) s) as (g' & m' & s' & Hs). eexists. by eapply left_worker.
Qed.

(** *** Panics *)

(** Only the fetch of the fleet memory panics, for want of a home directory. *)
Definition homeless (su : Setup) : Prop := claudeMemoryDir (su_home su) = None.

Definition g_panics (Q : Prop) (g : goroutine) : Prop :=
  match g with
  | Running t => yields (λ oc, oc = Panicked → Q) t
  | Waiting _ _ k => ∀ r, yields (λ oc, oc = Panicked → Q) (k r)
  end.

Definition panics_homeless (p : Process) : Prop :=
  workers_ok (λ _, g_panics (homeless (pc_setup p))) (pc_workers p).

Lemma g_step_panics Q g m s g' m' s' : g_step g m s g' m' s' → g_panics Q g → g_panics Q g'.
Proof.
  intros [D f k m0 s0|D o k m0 s0|D o k e m0 s0|D D' o f c k m0 w pool|D o rs k m0 s0|D o q k e m0 w pool];
    simpl; auto.
Qed.

Lemma ticks_panics su w t : ticks su w t → g_panics (homeless su) (Running t).
Proof.
  assert (∀ t : thread Mem unit, yields (λ oc, oc = Panicked → homeless su) (ends t)) as He.
  { intros t0. apply returns_yields. eapply (returns_bind (λ _, True)); [by induction t0; simpl|]. done. }
  intros [|now|text|text|]; try apply He. intros r m. simpl. unfold syncFleetMemory, homeless.
  destruct r as [[|c data]|e]; [done| |done]. by destruct (claudeMemoryDir _).
Qed.

Lemma p_step_panics p s p' s' : p_step p s p' s' → panics_homeless p → panics_homeless p'.
Proof.
  unfold panics_homeless. intros Hs Hw.
  destruct Hs as [p j g m' g' s s' Hmn Hg|p j oc s Hmn Hr|p j oc s Hmn Hr|p r s Hmn|p s Hmn
    |p s Hmn Hst|p w t l1 l2 s Hws Hst Hti|p w g g' m' l1 l2 s s' Hws Hg|p w oc l1 l2 s Hws Hoc
    |p w l1 l2 s Hws Hwt Hst Hca|p w l1 l2 s Hws|p s Hr|p s Hr];
    cbn [with_mem dead reading interrupted pc_workers pc_setup]; try apply workers_ok_dead; try done;
    rewrite Hws in Hw; apply workers_ok_middle in Hw as [Hw Hx]; apply workers_ok_middle; (split; [done|]).
  - by eapply ticks_panics.
  - by eapply g_step_panics.
  - by destruct (once_only w).
  - done.
Qed.

(** *** The orderly end *)

(** The session is up and has not begun its clean-up. *)
Definition up (mn : Main) : bool :=
  match mn with Serving | Draining | Doing JobRequest _ => true | _ => false end.

(** The clean-up begins: both loops have stopped, and it is all to be done. *)
Definition cleaning_up (p : Process) : Prop :=
  pc_main p = Doing JobLeave (Running (ends t_leave)) ∧ all_stopped (pc_workers p).

(** Where the work of a session that is up leads. *)
Definition underway (a c : Process * Side) : Prop :=
  up (pc_main c.1) = true
  ∨ (∃ b, rtc work_left a b ∧ cleaning_up b.1 ∧ rtc work_left b c
       ∧ ((∃ g, pc_main c.1 = Doing JobLeave g) ∨ pc_main c.1 = Exited))
  ∨ pc_main c.1 = Crashed ∧ homeless (pc_setup c.1).

Lemma work_left_underway a c c' :
  rtc work_left a c → work_left c c' → panics_homeless c.1 → underway a c → underway a c'.
Proof.
  intros Hac Hs Hp Hu. assert (work_left c c') as Hs' by done. revert Hac Hp Hu Hs'. unfold underway.
  destruct Hs as [p j g m' g' s s' Hm Hg|p j oc s Hm Hr|p j oc s Hm Hr|p s Hm|p s Hm Hst
    |p w g g' m' l1 l2 s s' Hw Hg|p w oc l1 l2 s Hw Hoc|p w l1 l2 s Hw Hwt Hm|p w l1 l2 s Hr Hw];
    simpl; intros Hac Hp Hu Hs'.
  8, 7, 6: destruct Hu as [Hu|[(b & Hab & Hb & Hbc & Hd)|Hu]];
    [by left|right; left; exists b; do 2 (split; [done|]); split; [by eapply rtc_r|done]|by right; right].
  - destruct Hu as [Hu|[(b & Hab & Hb & Hbc & Hd)|[Hu _]]]; [left|right; left|congruence].
    + rewrite Hm in Hu. by destruct j.
    + exists b. do 2 (split; [done|]). split; [by eapply rtc_r|].
      left. rewrite Hm in Hd. destruct Hd as [[g0 [= -> _]]|[=]]. by eexists.
  - destruct Hu as [Hu|[(b & Hab & Hb & Hbc & Hd)|[Hu _]]]; [left|exfalso|congruence].
    + rewrite Hm in Hu. by destruct j, oc.
    + rewrite Hm in Hd. destruct Hd as [[g0 [= -> _]]|[=]]. done.
  - destruct Hu as [Hu|[(b & Hab & Hb & Hbc & Hd)|[Hu _]]]; [exfalso|right; left|congruence].
    + rewrite Hm in Hu. by destruct j, oc.
    + exists b. do 2 (split; [done|]). split; [by eapply rtc_r|]. right.
      rewrite Hm in Hd. destruct Hd as [[g0 [= -> _]]|[=]]. done.
  - by left.
  - right; left. eexists. split; [by eapply rtc_r|]. split; [done|]. split; [apply rtc_refl|].
    left. by eexists.
  - right; right. split; [done|]. unfold panics_homeless in Hp. simpl in Hp. rewrite Hw in Hp.
    apply workers_ok_middle in Hp as [_ Hp]. by apply Hp.
Qed.

End ending.

(** ** Witnesses *)
#[local] Existing Instance demo_env.
#[local] Existing Instance demo_state_codec.

Lemma exit_removes_state_file_witness :
  is_Some (files (me_disk (pc_mem served.1)) !! path_of builder_setup)
  ∧ files (me_disk (pc_mem departed.1)) !! path_of builder_setup = None.
Proof.
  split; [vm_compute; by eexists|].
  destruct (exit_removes_state_file builder_mail (mkFleet departed.2 [departed.1]) departed.1) as [_ H];
    [exact departed_run|by left|vm_compute; reflexivity|vm_compute; discriminate|].
  apply H. vm_compute. reflexivity.
Defined.

