(* ===== verification/FleetRaces.v ===== *)
(** * Losses between a session and the broker

    Runs in which a session does not get what its code means it to get: a name
    lost to a reply that never came, a state file that outlives its session. *)

From S2P Require Import Prelude GoStrings GoTime Types Store Prog World Broker Dispatch Demo Files.
From S2P Require Import Client Api StateFile Json Memory Tools Mcp Thread Goroutines Turns Fleet FleetRun.

#[local] Open Scope thread_scope.

(** ** Lemmas *)
Section races.
Context {E : Env} {C : StateCodec}.

Lemma fleet_others l c c' :
  steps dispatch c c' → rtc fleet_step (mkFleet (mkSide c.2 c.1) l) (mkFleet (mkSide c'.2 c'.1) l).
Proof.
  induction 1 as [c|[p1 w1] [p2 w2] c3 Hs _ IH]; [apply rtc_refl|]. eapply rtc_l; [|exact IH]. by constructor.
Qed.

(** A request of another program, served at once. *)
Lemma other_request rq w l :
  rtc fleet_step (mkFleet (mkSide w []) l) (mkFleet (mkSide (run (dispatch rq) w).1 []) l).
Proof.
  apply (fleet_others l ([], w) ([], (run (dispatch rq) w).1)).
  eapply rtc_l; [apply step_start|]. eapply rtc_r; [apply (steps_run _ [])|]. apply (step_done _ [] []).
Qed.

(** A process goes on after another program's request has been served. *)
Definition after_request (rq : Request) (cmds : list Cmd) (x : Process * Side) : Process * Side :=
  p_run cmds (x.1, mkSide (run (dispatch rq) (sd_world x.2)).1 []).

Lemma after_request_run f rq cmds x :
  sd_pool x.2 = [] → rtc fleet_step f (mkFleet x.2 [x.1]) →
  rtc fleet_step f (mkFleet (after_request rq cmds x).2 [(after_request rq cmds x).1]).
Proof.
  destruct x as [p [w pool]]. simpl. intros -> Hf. etrans; [exact Hf|]. etrans; [apply (other_request rq)|].
  apply (p_steps_fleet (p, mkSide (run (dispatch rq) w).1 [])), p_run_steps.
Qed.
End races.

(** ** A name lost to its own ghost *)
#[local] Existing Instance demo_env.
#[local] Existing Instance demo_state_codec.

(** "builder" registers; its row is removed, as after a restart or a gap in the
    network; its heartbeat notices and registers again, but the answer is late and
    the call is given up; the next heartbeat tries once more. *)
Definition started_builder : Process * Side :=
  p_run [CmdMain 100] (launch builder_setup blank_disk "", mkSide new_world []).
Definition two_heartbeats : list Cmd :=
  [CmdWake 1 ""; CmdWork 1 10; CmdGiveUp 1 "context deadline exceeded"; CmdWork 1 100;
   CmdWake 1 ""; CmdWork 1 100].
Definition ghosted : Process * Side :=
  after_request (RqUnregister (mkUnregisterRequest "00000000")) two_heartbeats started_builder.

(** A registration whose answer is lost takes the session's own name away from it:
    nobody else has ever asked for the name, yet the session ends up without it,
    while a row that no process knows of holds it. *)
Theorem lost_reply_costs_name :
  ∃ f p, rtc fleet_step no_fleet f ∧ fl_procs f = [p] ∧ started (pc_main p) = true
    ∧ reg_AgentName (pf_request (su_profile (pc_setup p))) = "builder"
    ∧ select_agent_name (me_session (pc_mem p)) (w_db (fl_world f)) = Some ""
    ∧ ∃ ghost, pr_id <$> select_holder "builder" (w_db (fl_world f)) = Some ghost
        ∧ ghost ≠ me_session (pc_mem p).
Proof.
  exists (mkFleet ghosted.2 [ghosted.1]), ghosted.1. split.
  - apply (after_request_run no_fleet (RqUnregister (mkUnregisterRequest "00000000")) two_heartbeats
      started_builder); [vm_compute; reflexivity|].
    exact (fleet_run builder_setup blank_disk "" new_world [CmdMain 100] started_builder eq_refl).
  - split; [done|]. split; [vm_compute; reflexivity|]. split; [vm_compute; reflexivity|].
    split; [vm_compute; reflexivity|]. exists "00000001". split; [vm_compute; reflexivity|].
    vm_compute. discriminate.
Qed.

(** ** A file that outlives its session *)
Section leftover.
Context {St : Type} {B : BrokerApi St} {C : StateCodec} {CL : StateCodecLaws C}.

(** The path is taken from the first write alone: when that failed and the rebind
    of a heartbeat writes the file later, the session leaves it behind. *)
Theorem rebound_file_is_left_behind profile dir now m (st : St) st1 id name :
  let path := path_join [dir; state_name (pf_parent profile)] in
  me_path m = "" → dir ≠ "" → mkdir_fault (me_disk m) dir = None →
  write_fault (me_disk m) (path +:+ ".tmp") = None → rename_fault (me_disk m) path = None →
  register_fallback "re-register" "re-register ephemeral"
    (with_name (pf_request profile) (reg_AgentName (pf_request profile)) "") st = (st1, Ok (id, name)) →
  let '(_, (m', _)) := alone (_ ← t_rebind profile dir now; t_leave) m st in
  is_Some (files (me_disk m') !! path).
Proof.
  intros path Hp Hdir%String.eqb_neq Hmk Hw Hr Hreg. rewrite alone_bind. unfold t_rebind.
  rewrite alone_bind, alone_register, Hreg. cbn [fst snd].
  unfold put_session, t_write_state. rewrite alone_bind, alone_local, Hdir.
  unfold disk. rewrite alone_bind, alone_bind, alone_local. cbn [set_session_id me_disk MkdirAll].
  rewrite Hmk. destruct (state_roundtrip (state_file profile id name now)) as (data & -> & _).
  fold path. unfold t_replace, disk. rewrite !alone_bind, alone_local. cbn [set_disk me_disk].
  rewrite WriteFile_ok by done. rewrite alone_bind, alone_local. cbn [set_disk me_disk].
  unfold Rename, put_file. cbn [rename_fault files set_files]. rewrite Hr, lookup_insert_eq.
  cbn [alone fst snd]. unfold t_leave, get_session. rewrite alone_bind, alone_local, alone_bind, alone_call.
  rewrite alone_local. cbn [set_disk set_session_id me_path]. rewrite Hp.
  cbn [String.eqb set_disk me_disk files set_files]. rewrite lookup_insert_eq. by eexists.
Qed.
End leftover.

(** ** A file that belongs to the successor

    The server is restarted under the same parent, and the old one leaves after
    the new one has started. *)
Definition parent_profile : Profile := mkProfile (join_as "builder") 4000.
Definition a_session (fs : FileSys) (w : World) : World * (Mem * Outcome) :=
  alone (t_start parent_profile cache_dir "") (mkMem "" ∅ "" fs []) w.

(** The file is named after the parent alone: the old session takes away the file
    of the new one, which lives on without it. *)
Theorem successor_loses_its_file :
  let '(w1, (old, _)) := a_session blank_disk new_world in
  let '(w2, (new, _)) := a_session (me_disk old) w1 in
  let '(w3, (gone, _)) := alone t_leave (set_disk (me_disk new) old) w2 in
  me_path new = me_path old ∧ is_Some (files (me_disk new) !! me_path new)
  ∧ files (me_disk gone) !! me_path new = None
  ∧ session_exists (me_session new) (w_db w3) = true ∧ me_session new ≠ me_session old.
Proof. vm_compute. split_and!; try done; by eexists. Qed.

(** ** Witness *)
Lemma rebound_file_is_left_behind_witness :
  let profile := su_profile builder_setup in
  let t := _ ← t_rebind profile cache_dir ""; t_leave in
  is_Some (files (me_disk (alone t (mkMem "00000009" ∅ "" blank_disk []) builder_mail).2.1)
             !! path_join [cache_dir; state_name 4000]).
Proof.
  intros profile t.
  destruct (register_fallback "re-register" "re-register ephemeral"
    (with_name (pf_request profile) (reg_AgentName (pf_request profile)) "") builder_mail)
    as [st1 [[id name]|e]] eqn:Er; [|exfalso; vm_compute in Er; discriminate Er].
  pose proof (rebound_file_is_left_behind (CL := demo_state_laws) profile cache_dir ""
    (mkMem "00000009" ∅ "" blank_disk []) builder_mail st1 id name eq_refl) as H.
  fold t in H. destruct (alone t (mkMem "00000009" ∅ "" blank_disk []) builder_mail) as [st2 [m' u]].
  apply H; first [exact Er|vm_compute; (discriminate || reflexivity)].
Defined.
