(* ===== verification/FleetInterrupt.v ===== *)
(** * A session that is interrupted

    The context of [main] ends with an interrupt, and with it the push loop and
    the heartbeat; the request loop waits on the standard input and goes on. *)

From S2P Require Import Prelude GoStrings GoTime Types Store Prog World Broker Dispatch Demo Files.
From S2P Require Import Client Api StateFile Json Memory Tools Mcp Thread Goroutines McpSpec Fleet FleetRun.
From S2P Require Import FleetSpec Calls FleetExit FleetRaces.

#[local] Open Scope thread_scope.

(** ** Only the start and the two loops bind the session and announce *)
Definition keeps_still (m m' : Mem) : Prop :=
  me_session m' = me_session m ∧ announced m' = announced m.

Lemma disk_still {A} (f : io A) : locals keeps_still (disk f).
Proof. apply locals_local. intros m. by destruct (f (me_disk m)). Qed.

Lemma say_still msg : announced_id msg = None → locals keeps_still (say msg).
Proof.
  intros Hmsg. apply locals_local. intros m. split; [done|]. unfold announced. cbn [fst add_out me_out].
  rewrite omap_app. simpl. by rewrite Hmsg, app_nil_r.
Qed.

Ltac still_step :=
  first [locals_step | simple apply disk_still | simple apply say_still; reflexivity | by split].

(** What a goroutine does besides: it leaves the session as it is and the
    broker's registry alone. *)
Definition still (g : goroutine) : Prop :=
  g_locals keeps_still g ∧ g_calls (λ rq, negb (keeps_alive rq)) g.

Section goroutines.
Context {C : StateCodec} (quote : string → string) (here : Place).

Lemma not_alive (P : Request → bool) (t : thread Mem Outcome) :
  (∀ rq, P rq = true → keeps_alive rq = false) → calls_only P t →
  calls_only (λ rq, negb (keeps_alive rq)) t.
Proof. intros HP. apply calls_mono. intros rq Hrq. by rewrite HP. Qed.

Lemma request_still r : still (Running (ends (t_request quote here r))).
Proof.
  split; [|by apply (not_alive tool_calls); [intros []|exact (request_calls quote here r)]].
  cbn [g_locals]. unfold ends, t_request. apply locals_bind; [|done].
  unfold t_context, t_tool, t_list_peers, t_send, t_set_summary, t_claim, t_check,
    t_update_name, t_replace, list_all, get_session.
  repeat first [still_step | match goal with |- locals _ (say (tool_message _ ?a)) => destruct a end].
Qed.

Lemma leave_still : still (Running (ends t_leave)).
Proof.
  split; [|by apply (not_alive leave_calls); [intros []|exact leaving_calls]].
  cbn [g_locals]. unfold ends, t_leave, get_session. repeat still_step. by destruct (String.eqb _ "").
Qed.

Lemma ticks_still su w t : ticks su w t → waited w = false → still (Running t).
Proof.
  intros [|now|text|text|] Hw; try discriminate Hw;
    split; cbn [g_locals g_calls]; unfold ends, t_summary, t_sync, get_session;
    repeat first [still_step|calls_step]; by destruct (syncFleetMemory _ _ _).
Qed.
End goroutines.

Section deaf.
Context {E : Env} {C : StateCodec}.

Lemma g_step_still g m s g' m' s' :
  g_step g m s g' m' s' → still g → still g' ∧ keeps_still m m'.
Proof.
  intros Hs [Hl Hc]. destruct (g_step_locals _ _ _ _ _ _ _ Hs Hl) as [Hl' Hm].
  split; [split; [done|by eapply g_step_calls]|]. by destruct Hm as [->|Hm].
Qed.

(** What the main goroutine and the background ones may do once the session runs. *)
Definition bound (p : Process) : Prop :=
  (match pc_main p with
   | Doing JobStart _ => True
   | Doing _ g => still g
   | _ => True
   end)
  ∧ workers_ok (λ w g, waited w = false → still g) (pc_workers p).

Lemma p_step_bound p s p' s' : p_step p s p' s' → bound p → bound p'.
Proof.
  intros Hs [Hm Hw].
  destruct Hs as [p j g m' g' s s' Hmn Hg|p j oc s Hmn Hr|p j oc s Hmn Hr|p r s Hmn|p s Hmn
    |p s Hmn Hst|p w t l1 l2 s Hws Hst Hti|p w g g' m' l1 l2 s s' Hws Hg|p w oc l1 l2 s Hws Hoc
    |p w l1 l2 s Hws Hwt Hst Hca|p w l1 l2 s Hws|p s Hr|p s Hr];
    unfold bound; cbn [with_mem dead reading interrupted pc_main pc_workers];
    try (rewrite Hmn in Hm); try (rewrite Hws in Hw; apply workers_ok_middle in Hw as [Hw Hx]).
  - split; [|done]. destruct j; [done|..]; by apply (g_step_still _ _ _ _ _ _ Hg Hm).
  - split; [|done]. by destruct j, oc.
  - split; [by destruct j, oc|apply workers_ok_dead].
  - split; [apply request_still|done].
  - done.
  - split; [apply leave_still|done].
  - split; [done|]. apply workers_ok_middle. split; [done|]. intros Hwt. by eapply ticks_still.
  - split; [done|]. apply workers_ok_middle. split; [done|]. intros Hwt.
    by apply (g_step_still _ _ _ _ _ _ Hg (Hx Hwt)).
  - split; [done|]. apply workers_ok_middle. split; [done|]. by destruct (once_only w).
  - split; [done|]. by apply workers_ok_middle.
  - split; [done|apply workers_ok_dead].
  - split; [done|apply workers_ok_dead].
  - by split.
Qed.

Lemma launch_bound su fs now : bound (launch su fs now).
Proof. split; [done|apply workers_ok_idle]. Qed.

(** Past its start, and with both loops stopped. *)
Definition silenced (p : Process) : Prop :=
  all_stopped (pc_workers p) ∧ match pc_main p with Doing JobStart _ => False | _ => True end.

(** Up, interrupted, and both loops have seen it. *)
Definition deaf (p : Process) : Prop :=
  up (pc_main p) = true ∧ pc_interrupted p = true ∧ all_stopped (pc_workers p).

Lemma deaf_silenced p : deaf p → silenced p.
Proof. intros (Hu & _ & Hst). split; [done|]. by destruct (pc_main p) as [|[] ?| | | |]. Qed.

Lemma all_stopped_dead l : all_stopped ((λ x : Worker * Loop, (x.1, Stopped)) <$> l).
Proof. intros w lp ([w' lp'] & [= -> ->] & _)%list_elem_of_fmap. done. Qed.

Lemma p_step_silenced p s p' s' :
  p_step p s p' s' → bound p → silenced p → silenced p' ∧ keeps_still (pc_mem p) (pc_mem p').
Proof.
  intros Hs [Hm Hw] [Hst Hmain]. unfold silenced.
  destruct Hs as [p j g m' g' s s' Hmn Hg|p j oc s Hmn Hr|p j oc s Hmn Hr|p r s Hmn|p s Hmn
    |p s Hmn Hst'|p w t l1 l2 s Hws Hst' Hti|p w g g' m' l1 l2 s s' Hws Hg|p w oc l1 l2 s Hws Hoc
    |p w l1 l2 s Hws Hwt Hst' Hca|p w l1 l2 s Hws|p s Hr|p s Hr];
    cbn [with_mem dead reading interrupted pc_main pc_workers pc_mem];
    try (rewrite Hmn in Hm, Hmain);
    try (rewrite Hws in Hw, Hst; apply workers_ok_middle in Hw as [Hw Hx];
         apply all_stopped_middle in Hst as [Hst Hlp]).
  - destruct j; [done|..]; (split; [done|]); by apply (g_step_still _ _ _ _ _ _ Hg Hm).
  - split; [|done]. split; [done|]. by destruct j, oc.
  - split; [|done]. split; [apply all_stopped_dead|]. by destruct j, oc.
  - done.
  - done.
  - done.
  - split; [|done]. split; [|done]. apply all_stopped_middle. split; [done|].
    intros Hwt. by specialize (Hlp Hwt).
  - assert (waited w = false) as Hwt by (destruct (waited w); [by specialize (Hlp eq_refl)|done]).
    split; [split; [|done]; apply all_stopped_middle; by rewrite Hwt|].
    by apply (g_step_still _ _ _ _ _ _ Hg (Hx Hwt)).
  - assert (waited w = false) as Hwt by (destruct (waited w); [by specialize (Hlp eq_refl)|done]).
    split; [|done]. split; [|done]. apply all_stopped_middle. by rewrite Hwt.
  - split; [|done]. split; [|done]. by apply all_stopped_middle.
  - split; [|done]. split; [apply all_stopped_dead|done].
  - split; [|done]. split; [apply all_stopped_dead|done].
  - done.
Qed.

Lemma fleet_step_silenced f f' i p :
  fleet_step f f' → Forall bound (fl_procs f) → fl_procs f !! i = Some p → silenced p →
  Forall bound (fl_procs f')
  ∧ ∃ p', fl_procs f' !! i = Some p' ∧ silenced p' ∧ keeps_still (pc_mem p) (pc_mem p').
Proof.
  intros [s s' q q' l1 l2 Hp|s l su fs now|w pool w' pool' l Hb] Hb' Hi Hd; cbn [fl_procs] in *.
  - apply Forall_app in Hb' as [H1 [Hq H2]%Forall_cons]. split.
    { apply Forall_app. split; [done|]. constructor; [by eapply p_step_bound|done]. }
    destruct (decide (i = length l1)) as [->|Hne].
    + rewrite list_lookup_middle in Hi by done. injection Hi as ->.
      exists q'. rewrite list_lookup_middle by done. split; [done|]. by eapply p_step_silenced.
    + exists p. split; [|done]. rewrite <-Hi. destruct (decide (i < length l1)%nat).
      * by rewrite !lookup_app_l.
      * rewrite !lookup_app_r by lia. by destruct (i - length l1)%nat eqn:Ei; [lia|].
  - split; [apply Forall_app; split; [done|]; repeat constructor|]. exists p.
    split; [by apply lookup_app_l_Some|done].
  - split; [done|]. by exists p.
Qed.

Lemma fleet_steps_silenced f f' i p :
  rtc fleet_step f f' → Forall bound (fl_procs f) → fl_procs f !! i = Some p → silenced p →
  Forall bound (fl_procs f')
  ∧ ∃ p', fl_procs f' !! i = Some p' ∧ silenced p' ∧ keeps_still (pc_mem p) (pc_mem p').
Proof.
  intros Hf. revert p. induction Hf as [f|f1 f2 f3 Hs _ IH]; intros p Hb Hi Hd.
  { split; [done|]. exists p. do 2 (split; [done|]). by split. }
  destruct (fleet_step_silenced _ _ _ _ Hs Hb Hi Hd) as (Hb2 & p2 & Hi2 & Hd2 & Hk2).
  destruct (IH p2 Hb2 Hi2 Hd2) as (Hb3 & p3 & Hi3 & Hd3 & Hk3). split; [done|]. exists p3.
  split; [done|]. split; [done|]. destruct Hk2, Hk3. split; congruence.
Qed.

(** Whatever such a process is in the middle of keeps still. *)
Lemma silenced_still p : bound p → silenced p → Forall still (goroutines p).
Proof.
  intros [Hm Hw] [Hst Hmain]. unfold goroutines. apply Forall_app. split.
  - destruct (pc_main p) as [|[] g| | | |]; try apply Forall_nil_2; [done|apply Forall_singleton; exact Hm..].
  - apply Forall_forall. intros g ([w lp] & Hin & Hg)%list_elem_of_omap. simpl in Hg.
    destruct lp as [|g'|]; try discriminate Hg. injection Hg as ->.
    unfold workers_ok in Hw. rewrite Forall_forall in Hw. apply (Hw _ Hin). simpl.
    destruct (waited w) eqn:Ew; [|done]. by specialize (Hst _ _ Hin Ew).
Qed.

(** ** A session goes on answering *)

(** A goroutine can run to its end. *)
Lemma goroutine_ends g m s : ∃ oc m' s', g_steps (g, m, s) (Running (Done oc), m', s').
Proof.
  revert m s. induction (goroutine_sn g) as [g _ IH]. intros m s.
  destruct (goroutine_can g) as [[oc ->]|Hg]; [exists oc, m, s; apply rtc_refl|].
  destruct (Hg m s) as (g1 & m1 & s1 & Hs).
  destruct (IH g1 (g_step_rest _ _ _ _ _ _ Hs) m1 s1) as (oc & m2 & s2 & Hr).
  exists oc, m2, s2. eapply rtc_l; [|exact Hr]. exact Hs.
Qed.

Lemma p_steps_inv (I : Process → Prop) x y :
  (∀ p s p' s', p_step p s p' s' → I p → I p') → p_steps x y → I x.1 → I y.1.
Proof. intros HI. induction 1 as [x|x y z Hs _ IH]; [done|]. intros Hx. by eapply IH, HI. Qed.

(** A session that serves can read a request and answer it. *)
Lemma serving_answers p s r :
  orderly p → pc_main p = Serving →
  ∃ p' s', p_steps (p, s) (p', s') ∧ pc_main p' = Serving ∧ pc_read p' = pc_read p ++ [r]
    ∧ answers (pc_mem p') = answers (pc_mem p) ++ asked r.
Proof.
  intros Ho Hm. set (g := Running (ends (t_request env_quote (su_here (pc_setup p)) r))).
  destruct (goroutine_ends g (pc_mem p) s) as (oc & m' & s' & Hg).
  eapply (main_steps (reading p r g) JobRequest) in Hg; [|done|done].
  set (p1 := with_mem (reading p r g) m' (Doing JobRequest (Running (Done oc))) (pc_workers (reading p r g))) in *.
  exists (with_mem p1 m' Serving (pc_workers p1)), s'.
  assert (p_steps (p, s) (with_mem p1 m' Serving (pc_workers p1), s')) as Hrun.
  { apply (rtc_l _ _ (reading p r g, s)); [by apply p_read|]. eapply rtc_r; [exact Hg|]. apply (p_done p1 JobRequest oc s'); done. }
  split; [done|]. split; [done|]. split; [done|].
  destruct (p_steps_inv orderly _ _ p_step_orderly Hrun Ho) as [(pend' & Ha' & _ & Hp') _].
  destruct Ho as [(pend & Ha & _ & Hp) _]. rewrite Hm in Hp. simpl in Hp, Hp', Ha'. subst pend pend'.
  rewrite app_nil_r in Ha, Ha'. change (answers m' = answers (pc_mem p) ++ asked r).
  rewrite Ha', Ha. rewrite fmap_app, concat_app. cbn. by rewrite app_nil_r.
Qed.

(** C15: An interrupt does not end a session, it makes it deaf.  A session that is
    up stays up when it is interrupted.  Once both loops have seen the interrupt,
    it still answers whatever it is asked; but whatever happens from then on, it
    keeps the id it has, though the broker may have forgotten it, announces no
    message any more, and nothing it is doing or will do is a heartbeat or a
    registration. *)
Theorem interrupted_session_is_deaf w f i p :
  rtc fleet_step (quiet w) f → fl_procs f !! i = Some p → up (pc_main p) = true →
  (∀ s, p_step p s (interrupted p) s ∧ up (pc_main (interrupted p)) = true)
  ∧ (deaf p →
     (pc_main p = Serving → ∀ r s, ∃ p' s', p_steps (p, s) (p', s') ∧ pc_main p' = Serving
        ∧ pc_read p' = pc_read p ++ [r] ∧ answers (pc_mem p') = answers (pc_mem p) ++ asked r)
     ∧ ∀ f', rtc fleet_step f f' →
         ∃ p', fl_procs f' !! i = Some p' ∧ me_session (pc_mem p') = me_session (pc_mem p)
           ∧ announced (pc_mem p') = announced (pc_mem p)
           ∧ Forall (g_calls (λ rq, negb (keeps_alive rq))) (goroutines p')).
Proof.
  intros Hf Hi Hu. split.
  { intros s. split; [|done]. apply p_interrupt. by destruct (pc_main p) as [|[] ?| | | |]. }
  intros Hd. assert (Forall bound (fl_procs f)) as Hb
    by (by eapply fleet_invariant; [apply launch_bound|apply p_step_bound|]).
  assert (Forall orderly (fl_procs f)) as Ho
    by (by eapply fleet_invariant; [apply launch_orderly|apply p_step_orderly|]).
  split.
  - intros Hm r s. apply serving_answers; [|done]. rewrite Forall_forall in Ho.
    by eapply Ho, list_elem_of_lookup_2.
  - intros f' Hf'.
    destruct (fleet_steps_silenced _ _ _ _ Hf' Hb Hi (deaf_silenced _ Hd)) as (Hb' & p' & Hi' & Hs' & Hk).
    exists p'. destruct Hk as [Hk1 Hk2]. split; [done|]. split; [done|]. split; [done|].
    assert (bound p') as Hbp by (rewrite Forall_forall in Hb'; by eapply Hb', list_elem_of_lookup_2).
    eapply Forall_impl; [by apply silenced_still|]. by intros g [_ Hg].
Qed.
End deaf.

(** ** An interrupted session, swept and asked for its mail

    "builder" is interrupted, its loops stop, the broker sweeps it; "planner" sends
    it a message, and the session is asked for its messages. *)
#[local] Existing Instance demo_env.
#[local] Existing Instance demo_state_codec.

Definition interrupted_builder : Process * Side :=
  p_run [CmdInterrupt; CmdStop 0; CmdStop 1] started_builder.
Definition forgotten : Process * Side :=
  after_request (RqUnregister (mkUnregisterRequest "00000000")) [] interrupted_builder.
Definition asked_for_mail : Process * Side :=
  after_request (RqSend (send_agent "00000000" "builder" "please build")) [CmdRead check_mail; CmdMain 100] forgotten.

Lemma interrupted_builder_run :
  rtc fleet_step (quiet new_world) (mkFleet interrupted_builder.2 [interrupted_builder.1]).
Proof.
  etrans; [exact (fleet_run builder_setup blank_disk "" new_world [CmdMain 100] started_builder eq_refl)|].
  apply p_steps_fleet, p_run_steps.
Qed.

Lemma interrupted_builder_deaf : deaf interrupted_builder.1.
Proof.
  split; [vm_compute; reflexivity|]. split; [vm_compute; reflexivity|].
  apply stoppedb_all. vm_compute. reflexivity.
Qed.

Lemma asked_for_mail_run :
  rtc fleet_step (mkFleet interrupted_builder.2 [interrupted_builder.1])
    (mkFleet asked_for_mail.2 [asked_for_mail.1]).
Proof.
  apply after_request_run; [vm_compute; reflexivity|].
  apply after_request_run; [vm_compute; reflexivity|apply rtc_refl].
Qed.

Lemma lookup_only {A} (x y : A) : [x] !! 0%nat = Some y → y = x.
Proof. by intros [= ->]. Qed.

(** It still serves, is told that there is no mail, and does not come back, while
    the message waits for its name. *)
Lemma interrupted_session_is_deaf_witness :
  pc_main asked_for_mail.1 = Serving
  ∧ me_out (pc_mem asked_for_mail.1) = [tool_message (Some (JNum 2)) (ToolText "No new messages.")]
  ∧ map m_to_agent (messages (w_db (sd_world asked_for_mail.2))) = ["builder"]
  ∧ peers (w_db (sd_world asked_for_mail.2)) = []
  ∧ me_session (pc_mem asked_for_mail.1) = me_session (pc_mem interrupted_builder.1).
Proof.
  split; [vm_compute; reflexivity|]. split; [vm_compute; reflexivity|]. split; [vm_compute; reflexivity|].
  split; [vm_compute; reflexivity|].
  destruct (interrupted_session_is_deaf new_world _ 0 interrupted_builder.1 interrupted_builder_run eq_refl)
    as [_ H]; [vm_compute; reflexivity|].
  destruct (H interrupted_builder_deaf) as [_ Hlater].
  destruct (Hlater (mkFleet asked_for_mail.2 [asked_for_mail.1]) asked_for_mail_run) as (p' & Hp & Hs & _).
  apply lookup_only in Hp. subst p'. exact Hs.
Defined.
