(* ===== verification/Prologue.v ===== *)
(** * How a session is set up ([runServer], first half)

    What [runServer] does before it registers: it makes sure of a broker, checks
    its identity without insisting on it, reads its token, and gathers who and
    where it is and what it is working on.  The result is the process of [Fleet]
    that registers.  The answers of git, ps, the language models and the network
    are arguments. *)

From S2P Require Import Prelude GoStrings GoTime Base64 Ucan DemoJwt UcanSpec RateLimiter Types Store.
From S2P Require Import Prog World Broker Dispatch Demo Server ServerSpec Files Config KeyFiles Commands.
From S2P Require Import Identity Summary Client Api StateFile Json Memory Tools Mcp Thread Goroutines Fleet FleetRun.

(** ** What a session finds around it *)
Record Surroundings : Type := mkSurroundings {
  (** [os.Executable], the start of a broker, the probes of [/health]. *)
  sr_exe : result string string;
  sr_started : result string unit;
  sr_alive : nat → bool;
  (** A random nonce, the broker's answers to challenges. *)
  sr_nonce : result string string;
  sr_challenge : challenge_call;
  (** The working directory, as text and as a path; the home directory as a
      path; the agent files; the [--as] flag. *)
  sr_cwd : string;
  sr_dir : path;
  sr_home : option path;
  sr_agent_files : path → option string;
  sr_flag : string;
  (** What the git commands and ps print. *)
  sr_toplevel : result string string;
  sr_abbrev : result string string;
  sr_diff : string;
  sr_log : string;
  sr_ps : result string string;
  (** The claude program, the key in the settings, the language model; whether
      there is a summary before five seconds have passed. *)
  sr_cli : string → option string;
  sr_settings_key : string;
  sr_llm : string → string * string * string → result string (list string);
  sr_in_time : bool;
  sr_pid : Z;
  sr_ppid : Z;
}.

Definition gitRoot (toplevel : result string string) : string := git_line toplevel.
Definition gitBranch (abbrev : result string string) : string := git_line abbrev.

Section prologue.
Context {J : Jwt} {D : Ed25519} {K : KeyCodec} {M : Machine} {C : StateCodec}.

(** The summary of the working directory, and what is known of it in time. *)
Definition summary_of (c : Config) (sr : Surroundings) : string :=
  generateSummary (sr_cwd sr) (gitRoot (sr_toplevel sr)) (gitBranch (sr_abbrev sr))
    (recentFiles (sr_diff sr) (sr_log sr) 10) (sr_cli sr) mc_getenv (sr_settings_key sr) c (sr_llm sr).
Definition initialSummary (c : Config) (sr : Surroundings) : string :=
  if sr_in_time sr then summary_of c sr else "".

Definition agent_name (sr : Surroundings) : string :=
  resolveAgentName (sr_flag sr) (mc_getenv "CLAUDE_PEERS_AGENT") (sr_agent_files sr) (sr_dir sr) (sr_home sr).

Definition registerReq (c : Config) (sr : Surroundings) : RegisterRequest :=
  let root := gitRoot (sr_toplevel sr) in
  mkRegisterRequest (agent_name sr) (sr_pid sr) (cfg_MachineName c) (sr_cwd sr) root (getTTY (sr_ps sr))
    (autoProject (sr_cwd sr) root mc_home (path_base root)) (gitBranch (sr_abbrev sr)) (initialSummary c sr).

Definition session_setup (c : Config) (sr : Surroundings) : Setup :=
  mkSetup (mkPlace (sr_cwd sr) (gitRoot (sr_toplevel sr)) (cfg_MachineName c))
    (mkProfile (registerReq c sr) (sr_ppid sr))
    (sessionStateDir (mc_getenv "XDG_CACHE_HOME") (if non_empty mc_home then Some mc_home else None)) mc_home.

Definition identity_log (r : result string Verdict) : string :=
  match r with
  | Err e => "WARNING: " +:+ e
  | Ok (Skipped w) => "Warning: " +:+ w
  | Ok Verified => "Broker identity verified (challenge-response OK)"
  end.

(** The lines of the log up to the registration. *)
Definition prologue_log (c : Config) (sr : Surroundings) (fs : FileSys) : list string :=
  [identity_log (verifyBrokerIdentity (sr_nonce sr) (sr_challenge sr) fs)]
  ++ (if String.eqb (loadAuthToken fs) "" then
        ["WARNING: no auth token found -- broker requests will be unauthenticated"] else [])
  ++ [if String.eqb (agent_name sr) "" then "Agent: <ephemeral>" else "Agent: " +:+ agent_name sr;
      "CWD: " +:+ sr_cwd sr; "Broker: " +:+ cfg_BrokerURL c]
  ++ (if sr_in_time sr then [] else ["Auto-summary timed out"]).

(** The token every later call bears, the process that registers, and the log. *)
Definition runServer (c : Config) (sr : Surroundings) (now : string) (fs : FileSys)
  : result string (string * Process * list string) :=
  match (ensureBroker (cfg_BrokerURL c) (sr_exe sr) (sr_started sr) (sr_alive sr)).2 with
  | Err e => Err e
  | Ok _ => Ok (loadAuthToken fs, launch (session_setup c sr) fs now, prologue_log c sr fs)
  end.
End prologue.

(** ** Properties *)

(** The same surroundings with another broker in the place of the real one. *)
Definition answered_by (challenge : challenge_call) (sr : Surroundings) : Surroundings :=
  mkSurroundings (sr_exe sr) (sr_started sr) (sr_alive sr) (sr_nonce sr) challenge (sr_cwd sr) (sr_dir sr)
    (sr_home sr) (sr_agent_files sr) (sr_flag sr) (sr_toplevel sr) (sr_abbrev sr) (sr_diff sr) (sr_log sr)
    (sr_ps sr) (sr_cli sr) (sr_settings_key sr) (sr_llm sr) (sr_in_time sr) (sr_pid sr) (sr_ppid sr).

Section properties.
Context {J : Jwt} {D : Ed25519} {K : KeyCodec} {M : Machine} {C : StateCodec}.

(** Whoever answers the challenge, and whatever the answer, the session registers
    with it and bears its token: only the log tells the difference.  What stops a
    session is a broker that cannot be reached. *)
Theorem identity_only_warns challenge c sr now fs :
  match runServer c (answered_by challenge sr) now fs with
  | Ok (token, p, log) =>
      ∃ log', runServer c sr now fs = Ok (token, p, log') ∧ token = loadAuthToken fs
  | Err e =>
      runServer c sr now fs = Err e
      ∧ (ensureBroker (cfg_BrokerURL c) (sr_exe sr) (sr_started sr) (sr_alive sr)).2 = Err e
  end.
Proof.
  unfold runServer. cbn [answered_by sr_exe sr_started sr_alive].
  destruct (ensureBroker _ _ _ _).2 eqn:E; [|done]. by eexists.
Qed.
End properties.

(** ** From an agent file to an announced message *)
#[local] Existing Instances demo_env demo_jwt demo_state_codec.

#[local] Instance demo_ed25519 : @Ed25519 demo_jwt := {|
  ed_sign k m := Public k;
  ed_verify pub m sig := String.eqb sig pub;
|}.
#[local] Instance here : Machine := {|
  mc_home := "/home/dev"; mc_getenv _ := ""; mc_hostname := "workstation";
  mc_local_time t := formatRFC3339 t; mc_marshal c := Ok ""; mc_issue_error _ := "";
|}.

(** A session in [~/project], below a home directory with an agent file; no git
    repository, no language model, no terminal. *)
Definition builder_around : Surroundings :=
  mkSurroundings (Err "") (Err "") (λ _, true) (Ok "nonce") (λ _, Err "timeout")
    "/home/dev/project" ["home"; "dev"; "project"] (Some ["home"; "dev"])
    (λ d, if bool_decide (d = ["home"; "dev"]) then Some ("builder" +:+ nl) else None) ""
    (Err "exit status 128") (Err "exit status 128") "" "" (Ok "?") (λ _, None) "" (λ _ _, Err "") true 77 4000.

Definition builder_started : result string (string * Process * list string) :=
  runServer demo_config builder_around "" blank_disk.

(** It registers under the name in the file, and the message that was waiting for
    that name is announced. *)
Example agent_file_to_mail :
  match builder_started with
  | Ok (_, p, log) =>
      let '(p', s) := p_run [CmdMain 100; CmdWake 0 ""; CmdWork 0 100] (p, mkSide builder_mail []) in
      map pr_agent_name (peers (w_db (sd_world s))) = ["planner"; "builder"]
      ∧ List.length (me_out (pc_mem p')) = 1%nat
      ∧ log = ["Warning: no root.pub found, skipping broker verification";
               "WARNING: no auth token found -- broker requests will be unauthenticated";
               "Agent: builder"; "CWD: /home/dev/project"; "Broker: " +:+ cfg_BrokerURL demo_config]
  | Err _ => False
  end.
Proof. vm_compute. repeat split. Qed.
