(* ===== verification/Console.v ===== *)
(** * The commands for a person ([main.go])

    [status], [peers], [send], [kill-broker] and [reauth-fleet]: what they ask of
    the broker and the lines they print.  The answer of [GET /health] and the
    output of other programs are arguments. *)

From S2P Require Import Prelude GoStrings GoTime Types Store Prog World Broker Dispatch Demo.
From S2P Require Import BrokerWp BrokerOps Files Config Client ClientSpec Cli Commands.

(** ** Listings *)
Definition printPeerLine (p : Peer) (indent : string) : list string :=
  [if String.eqb (peer_AgentName p) "" then
     indent +:+ "session " +:+ peer_ID p +:+ " on " +:+ peer_Machine p +:+ " (ephemeral)  " +:+ peer_CWD p
   else
     indent +:+ peer_AgentName p +:+ " (agent) on " +:+ peer_Machine p +:+ " [session " +:+ peer_ID p
       +:+ "]  " +:+ peer_CWD p]
  ++ (if String.eqb (peer_Summary p) "" then [] else [indent +:+ "  " +:+ peer_Summary p])
  ++ [indent +:+ "  Last seen: " +:+ peer_LastSeen p].

Definition print_peers (indent : string) (peers : list Peer) : list string :=
  concat ((λ p, printPeerLine p indent) <$> peers).

Section console.
Context {St : Type} {B : BrokerApi St}.

Definition not_reachable (url : string) : list string := ["Broker at " +:+ url +:+ " is not reachable."].

Definition cliStatus (url : string) (health : result string HealthResponse) (st : St) : St * list string :=
  match health with
  | Err _ => (st, not_reachable url)
  | Ok h =>
      let head := ["Broker: " +:+ health_Status h +:+ " (" +:+ itoa (health_Peers h) +:+ " peer(s), host: "
                     +:+ health_Machine h +:+ ")"; "URL: " +:+ url] in
      if 0 <? health_Peers h then
        let '(st1, r) := api_list all_peers st in
        let peers := match r with Ok l => l | Err _ => [] end in
        (st1, head ++ [""; "Peers:"] ++ print_peers "  " peers)
      else (st, head)
  end.

Definition cliPeers (url : string) (st : St) : St * list string :=
  match api_list all_peers st with
  | (st1, Err _) => (st1, not_reachable url)
  | (st1, Ok []) => (st1, ["No peers registered."])
  | (st1, Ok peers) => (st1, print_peers "" peers)
  end.

(** ** [send] *)

(** [quote] is [%q]. *)
Definition cli_sent_text (quote : string → string) (to : string) (resp : SendMessageResponse) : string :=
  match sendr_DeliveryStatus resp with
  | DeliveryStatusBound => "Message sent to " +:+ to +:+ " (recipient is online)."
  | DeliveryStatusQueuedOffline =>
      "Agent " +:+ quote to +:+ " is offline. Message queued -- will deliver when that agent reconnects."
  | DeliveryStatusQueuedUnknown =>
      "WARNING: no session has ever claimed agent name " +:+ quote to
      +:+ " on this broker. Message queued but may sit indefinitely if the name is wrong. Run `claude-peers peers` to verify."
  | NoStatus =>
      if sendr_Queued resp then
        "Message queued for agent " +:+ quote to
        +:+ " (no live session holds it right now -- will deliver on reconnect)."
      else "Message sent to " +:+ to
  end.

Definition cliSend (quote : string → string) (to msg : string) (st : St) : St * Outcome :=
  match send_to "cli" to msg st with
  | (st1, Err e) => (st1, mkOutcome [] ["Error: " +:+ e] 1)
  | (st1, Ok resp) =>
      if sendr_OK resp then (st1, mkOutcome [cli_sent_text quote to resp] [] 0)
      else (st1, mkOutcome [] ["Failed: " +:+ sendr_Error resp] 1)
  end.
End console.

(** ** [kill-broker] *)

(** The port of the address the broker listens on. *)
Definition kill_port (listen : string) : string :=
  let port := TrimPrefix listen "0.0.0.0:" in
  if Contains port ":" then List.last (Split port ":") "" else port.

(** [lsof] is what the program printed for a port.  The processes that are
    killed, and the lines printed. *)
Definition cliKillBroker (health : result string HealthResponse) (listen : string)
    (lsof : string → result string string) : list string * list string :=
  match health with
  | Err _ => ([], ["Broker is not running."])
  | Ok h =>
      let head := "Broker has " +:+ itoa (health_Peers h) +:+ " peer(s). Shutting down..." in
      match lsof (":" +:+ kill_port listen) with
      | Err _ => ([], [head; "Could not find broker process."])
      | Ok out =>
          (List.filter non_empty (Split (TrimSpace out) (ascii_of_nat 10)), [head; "Broker stopped."])
      end
  end.

(** ** Programs started for others *)

(** The process becomes another program, or ends. *)
Inductive Wrapped : Type :=
| Replaced (path : string) (argv env : list string)
| Ended (o : Outcome).

(** [found] is the answer of [exec.LookPath]; [exec] is the error of
    [syscall.Exec], which does not return otherwise. *)
Definition runClaudeWrapped (found : result string string) (environ : list string)
    (exec : string → list string → list string → option string) (userArgs : list string) : Wrapped :=
  match found with
  | Err _ =>
      Ended (mkOutcome []
        ["claude-peers run: 'claude' binary not found in PATH.";
         "  Install Claude Code or ensure it's on your PATH, then re-run."] 1)
  | Ok execPath =>
      let '(argv, envOverrides) := buildRunArgv userArgs in
      let env := environ ++ envOverrides in
      match exec execPath argv env with
      | None => Replaced execPath argv env
      | Some e => Ended (mkOutcome [] ["claude-peers run: exec " +:+ execPath +:+ " failed: " +:+ e] 1)
      end
  end.

(** Output and error of a program that is given so much time. *)
Abbreviation program_run := (Z → list string → string * option string).

(** The lines logged. *)
Definition sendEmail (run : program_run) (to subject body : string) : list string :=
  match run (30 * Second) ["resend-email"; "-m"; body; to; subject] with
  | (out, Some e) => ["[email] send failed: " +:+ e +:+ ": " +:+ out]
  | (_, None) => []
  end.

Definition sshRun (run : program_run) (target command : string) : string * option string :=
  run (15 * Second) ["ssh"; "-o"; "ConnectTimeout=5"; "-o"; "StrictHostKeyChecking=no"; "-o"; "BatchMode=yes";
                     target; command].

Definition cliReauthFleet : list string :=
  ["reauth-fleet: Configure SSH targets in your SSH config.";
   "For each machine:";
   "  1. scp <machine>:~/.config/claude-peers/identity.pub /tmp/machine.pub";
   "  2. claude-peers issue-token /tmp/machine.pub peer-session";
   "  3. ssh <machine> 'claude-peers save-token <jwt>'"].

(** ** Lemmas *)
Lemma Contains_byte s (c : ascii) : Contains s (String c "") = false → IndexByte s c = None.
Proof.
  induction s as [|d s IH]; [done|]. cbn [Contains IndexByte]. intros H.
  apply orb_false_iff in H as [Hp Hs]. cbn [HasPrefix] in Hp.
  destruct (Ascii.eqb_spec d c) as [->|]; [|by rewrite (IH Hs)].
  rewrite Ascii.eqb_refl in Hp. by destruct s.
Qed.

Lemma last_Split s c f : IndexByte f c = None → List.last (Split (s +:+ String c f) c) "" = f.
Proof. intros Hf. rewrite Split_app_byte by done. apply last_last. Qed.

Lemma print_peers_elem indent p peers line :
  p ∈ peers → line ∈ printPeerLine p indent → line ∈ print_peers indent peers.
Proof.
  intros Hp Hl. unfold print_peers. apply list_elem_of_In, in_concat.
  exists (printPeerLine p indent). split; [|by apply list_elem_of_In].
  apply list_elem_of_In, list_elem_of_fmap. by exists p.
Qed.

(** ** Properties *)

(** [kill-broker] asks for the port of the listening address, whatever the host
    is: a name, a number, a bracketed IPv6 address or nothing. *)
Theorem kill_port_of_address host port :
  IndexByte port ":" = None → kill_port (host +:+ ":" +:+ port) = port.
Proof.
  intros Hp. unfold kill_port, TrimPrefix. change (":" +:+ port) with (String ":" port).
  pose proof (last_Split host ":" port Hp) as Hlast.
  destruct (HasPrefix (host +:+ String ":" port) "0.0.0.0:") eqn:E.
  - apply HasPrefix_inv in E. set (rest := str_drop _ _) in *. rewrite E in Hlast.
    change ("0.0.0.0:" +:+ rest) with ("0.0.0.0" +:+ String ":" rest) in Hlast.
    rewrite Split_front in Hlast by done. destruct (Contains rest ":") eqn:Ec.
    + pose proof (Split_nonempty rest ":") as Hne. by destruct (Split rest ":").
    + apply Contains_byte in Ec. by rewrite Split_no_byte in Hlast.
  - change (String ":" port) with (":" +:+ port) in *. by rewrite Contains_refl_app.
Qed.

Section broker.
Context {E : Env} (Hok : no_faults).

(** [peers] prints every session of the broker, and [status] too. *)
Theorem console_lists_everyone url h w r line :
  r ∈ peers (w_db w) → 0 < health_Peers h →
  (line ∈ printPeerLine (row_peer r) "" → line ∈ (cliPeers url w).2)
  ∧ (line ∈ printPeerLine (row_peer r) "  " → line ∈ (cliStatus url (Ok h) w).2).
Proof.
  intros Hr Hh. apply (list_elem_of_fmap_2 row_peer) in Hr. unfold cliPeers, cliStatus.
  rewrite (proj2 (Z.ltb_lt _ _) Hh). cbn [api_list broker_api].
  destruct (direct_list Hok w) as (w' & -> & _).
  split; intros Hl.
  - destruct (row_peer <$> peers (w_db w)) as [|p ps] eqn:Ep; [by apply elem_of_nil in Hr|].
    by eapply print_peers_elem.
  - cbn [snd]. apply elem_of_app; right. apply elem_of_app; right.
    by eapply print_peers_elem.
Qed.
End broker.

(** ** Witnesses *)
Lemma kill_port_of_address_witness : kill_port ("[::1]" +:+ ":" +:+ "7899") = "7899".
Proof. apply (kill_port_of_address "[::1]" "7899"). reflexivity. Defined.

Lemma console_lists_everyone_witness :
  "    Last seen: 2026-01-01T00:00:00Z" ∈ (cliStatus (B := @broker_api demo_env) "" (Ok (mkHealthResponse "ok" 1 "hub"))
                                          (after [join "planner"])).2.
Proof.
  destruct (peers (w_db (after [join "planner"]))) as [|r l] eqn:Er; [vm_compute in Er; discriminate Er|].
  destruct (@console_lists_everyone demo_env demo_no_faults "" (mkHealthResponse "ok" 1 "hub")
              (after [join "planner"]) r "    Last seen: 2026-01-01T00:00:00Z") as [_ H].
  - rewrite Er. left.
  - reflexivity.
  - apply H. vm_compute in Er. injection Er as <- <-. vm_compute. right. left.
Defined.

(** ** [run] *)

(** [run] replaces the process with the program found, with the environment it was
    given before whatever it adds, or ends with status 1 and a line that says why. *)
Theorem run_replaces_or_fails found environ exec args :
  match runClaudeWrapped found environ exec args with
  | Replaced path argv env =>
      found = Ok path ∧ exec path argv env = None ∧ (argv, drop (length environ) env) = buildRunArgv args
      ∧ take (length environ) env = environ
  | Ended o => oc_exit o = 1 ∧ oc_stdout o = [] ∧ oc_stderr o ≠ []
  end.
Proof.
  unfold runClaudeWrapped. destruct found as [path|e]; [|done].
  destruct (buildRunArgv args) as [argv env] eqn:Eb. destruct (exec _ _ _) eqn:Ee; [done|].
  rewrite drop_app_length, take_app_length. done.
Qed.
