(* ===== verification/Nkeys.v ===== *)
(** * The keys of a machine for NATS ([fleet_nats_auth.go])

    Drawing a key pair, saving its seed and making a connection option of it.
    The nkeys library is a class: a pair has a seed, a public key and signs; its
    law is that a pair is found again from its seed. *)

From S2P Require Import Prelude GoStrings GoTime Ttl Base64 Ucan DemoJwt Files Config KeyFiles Cli Commands.

Class Nkeys : Type := {
  nk_pair : Type;
  nk_FromSeed : string → result string nk_pair;
  nk_Seed : nk_pair → result string string;
  nk_PublicKey : nk_pair → result string string;
  nk_Sign : nk_pair → string → result string string;
}.

(** Seeds are base 32. *)
Class NkeysLaws (N : Nkeys) : Prop := {
  seed_found k s : nk_Seed k = Ok s → nk_FromSeed s = Ok k;
  seed_plain k s : nk_Seed k = Ok s → s ≠ "" ∧ str_all is_plain s = true;
}.

(** What [nats.Options] is given. *)
Record NkeyOption : Type := mkNkeyOption {
  no_Nkey : string;
  no_SignatureCB : string → result string string;
}.

Section nkeys.
Context {N : Nkeys}.

(** [user] is what [nkeys.CreateUser] returns. *)
Definition generateNKeySeed (user : result string nk_pair) : result string (string * string) :=
  match user with
  | Err e => Err ("create nkey user: " +:+ e)
  | Ok kp =>
      match nk_Seed kp, nk_PublicKey kp with
      | Err e, _ => Err ("get seed: " +:+ e)
      | Ok _, Err e => Err ("get public key: " +:+ e)
      | Ok seed, Ok pub => Ok (seed, pub)
      end
  end.

(** The callback finds the pair again each time. *)
Definition nkeyOptionFromSeed (seed : string) : result string NkeyOption :=
  match nk_FromSeed seed with
  | Err e => Err ("nkey from seed: " +:+ e)
  | Ok kp =>
      match nk_PublicKey kp with
      | Err e => Err ("nkey public key: " +:+ e)
      | Ok pub =>
          Ok (mkNkeyOption pub (λ nonce,
                match nk_FromSeed seed with Err e => Err e | Ok kp2 => nk_Sign kp2 nonce end))
      end
  end.

(** ** Properties *)
Context {L : NkeysLaws N} {M : Machine}.

Lemma cliGenerateNKey_saved seed pub fs fs' out err :
  cliGenerateNKey (Ok (seed, pub)) fs = (fs', mkOutcome out err 0) →
  ("  Public key: " +:+ pub) ∈ out
  ∧ ∃ fs1, fs1 = (MkdirAll configDir fs).1 ∧ fs' = put_file (in_config nkeyFile) seed mode_0600 fs1.
Proof.
  unfold cliGenerateNKey, ignoring, or_die, saveNKeySeed, lift, die. cbn [fst snd].
  destruct (WriteFile _ _ _ _) as [fs2 [[]|e]] eqn:Ew; [|done].
  apply WriteFile_inv in Ew. intros [= <- <- _]. split; [set_solver|]. eexists. split; [done|]. exact Ew.
Qed.

Lemma MkdirAll_read dir fs : read_fault (MkdirAll dir fs).1 = read_fault fs.
Proof. unfold MkdirAll. by destruct (mkdir_fault fs dir). Qed.

(** C23: After [generate-nkey] has ended well, a machine that can read its files and
    has no seed file of its own choice connects with the key that was printed: the
    seed it finds is that of the pair that was drawn, the option names the public
    key of the pair, which is the one on the screen, and signs every nonce as the
    pair does.  So a server that was given the printed key accepts the machine. *)
Theorem generated_key_authenticates user c fs fs' out err :
  cliGenerateNKey (generateNKeySeed user) fs = (fs', mkOutcome out err 0) →
  read_fault fs (in_config nkeyFile) = None → cfg_NatsNKeySeed c = "" →
  ∃ kp seed opt, user = Ok kp ∧ nk_Seed kp = Ok seed
    ∧ natsAuthOption c configDir fs' = Some (NKeyAuth seed)
    ∧ nkeyOptionFromSeed seed = Ok opt
    ∧ nk_PublicKey kp = Ok (no_Nkey opt)
    ∧ ("  Public key: " +:+ no_Nkey opt) ∈ out
    ∧ ∀ nonce, no_SignatureCB opt nonce = nk_Sign kp nonce.
Proof.
  intros Hc Hr Hn. destruct (generateNKeySeed user) as [[seed pub]|e] eqn:Hg; [|done].
  apply cliGenerateNKey_saved in Hc as (Hout & fs1 & -> & ->).
  unfold generateNKeySeed in Hg. destruct user as [kp|e]; [|done].
  destruct (nk_Seed kp) as [s|e] eqn:Es; [|done]. destruct (nk_PublicKey kp) as [p|e] eqn:Ep; [|done].
  injection Hg as -> ->. pose proof (seed_plain kp seed Es) as [Hne Hpl].
  exists kp, seed. eexists. split; [done|]. split; [done|]. split.
  - unfold natsAuthOption, loadNKeySeed. rewrite Hn. cbn [non_empty String.eqb negb].
    unfold mbind, io_bind. fold (in_config nkeyFile).
    rewrite (readable _ _ seed) by (apply holds_put; by rewrite MkdirAll_read).
    cbn [snd mret io_ret]. rewrite TrimSpace_printable by done.
    by rewrite (proj2 (non_empty_true seed) Hne).
  - unfold nkeyOptionFromSeed. rewrite (seed_found kp seed Es), Ep. by split_and!.
Qed.
End nkeys.

(** ** Witness: a pair is its seed *)
#[local] Instance demo_nkeys : Nkeys := {|
  nk_pair := string;
  nk_FromSeed s := if String.eqb s "SUAKEY" then Ok s else Err "invalid seed";
  nk_Seed k := if String.eqb k "SUAKEY" then Ok k else Err "invalid seed";
  nk_PublicKey k := Ok "UAKEY";
  nk_Sign k nonce := Ok (k +:+ nonce);
|}.
#[local] Instance demo_nkeys_laws : NkeysLaws demo_nkeys.
Proof.
  split; intros k s; cbn [nk_Seed nk_FromSeed demo_nkeys]; destruct (String.eqb_spec k "SUAKEY") as [->|];
    try done; by intros [= <-].
Qed.
#[local] Instance nats_machine : Machine := demo_machine "hub".

Lemma generated_key_authenticates_witness :
  ∃ opt, nkeyOptionFromSeed "SUAKEY" = Ok opt ∧ no_Nkey opt = "UAKEY"
    ∧ no_SignatureCB opt "nonce" = Ok "SUAKEYnonce".
Proof.
  destruct (generated_key_authenticates (N := demo_nkeys) (Ok "SUAKEY") demo_config blank_disk _ _ _
    eq_refl eq_refl eq_refl) as (kp & seed & opt & [= <-] & [= <-] & _ & Ho & [= Hn] & _ & Hs).
  exists opt. split; [exact Ho|]. split; [by rewrite <-Hn|]. by rewrite Hs.
Defined.
