(* ===== verification/Bootstrap.v ===== *)
(** * Setting a fleet up, end to end

    What the commands of [Commands] leave on disk, and that they fit together
    and with the broker: the token issued for a new machine is the one its
    sessions present, and the broker accepts it for exactly the role. *)

From S2P Require Import Prelude GoStrings GoTime Ttl Base64 Ucan DemoJwt UcanSpec Files Config.
From S2P Require Import KeyFiles Cli Commands RateLimiter Types Store Prog World Broker Dispatch Demo.
From S2P Require Import Server ServerSpec Startup.

(** ** A file system that answers *)
Definition healthy (fs : FileSys) : Prop :=
  (∀ p, write_fault fs p = None) ∧ (∀ p, read_fault fs p = None) ∧ (∀ d, mkdir_fault fs d = None).

Lemma healthy_put path data perm fs : healthy fs → healthy (put_file path data perm fs).
Proof. done. Qed.

Lemma or_die_ok {A} text (m : io A) k fs fs' a : m fs = (fs', Ok a) → or_die text m k fs = k a fs'.
Proof. unfold or_die. by intros ->. Qed.

Lemma WriteFile_healthy path data perm fs :
  healthy fs → WriteFile path data perm fs = (put_file path data perm fs, Ok tt).
Proof. intros [Hw _]. by apply WriteFile_ok. Qed.

(** A path outside the files of the configuration directory. *)
Definition outside_config {M : Machine} (path : string) : Prop :=
  ∀ f, f ∈ dir_files → path ≠ in_config f.

Create HintDb files.
#[export] Hint Resolve healthy_put : files.

Section setup.
Context {J : Jwt} {L : JwtLaws J} {C : KeyCodec} {CL : KeyCodecLaws C}.

Lemma SavePublicKey_healthy pub path fs :
  healthy fs → String.length pub = PublicKeySize →
  ∃ data, SavePublicKey pub path fs = (put_file path data mode_0644 fs, Ok tt) ∧ public_file pub data.
Proof.
  intros Hh Hl. destruct (pkix_roundtrip pub Hl) as (der & Hm & Hp).
  exists (EncodeToMemory "PUBLIC KEY" der). split.
  - unfold SavePublicKey, wrap, lift, mbind, io_bind. rewrite Hm. by apply WriteFile_healthy.
  - unfold public_file, parse_public. by rewrite pem_roundtrip, Hp.
Qed.

Lemma SaveKeyPair_healthy k dir fs :
  healthy fs →
  ∃ data data', private_file k data ∧ public_file (Public k) data'
    ∧ SaveKeyPair (mkKeyPair k (Public k)) dir fs
      = (put_file (path_join [dir; publicKeyFile]) data' mode_0644
           (put_file (path_join [dir; privateKeyFile]) data mode_0600 fs), Ok tt).
Proof.
  intros Hh. destruct (pkcs8_roundtrip k) as (der & Hm & Hp).
  destruct (pkix_roundtrip (Public k) (public_length k)) as (der' & Hm' & Hp').
  exists (EncodeToMemory "PRIVATE KEY" der), (EncodeToMemory "PUBLIC KEY" der').
  split; [|split].
  - unfold private_file, parse_private. by rewrite pem_roundtrip, Hp.
  - unfold public_file, parse_public. by rewrite pem_roundtrip, Hp'.
  - unfold SaveKeyPair, wrap, lift, mbind, io_bind. cbn [kp_PrivateKey kp_PublicKey].
    rewrite Hm, Hm', !WriteFile_healthy; auto with files.
Qed.

Section machine.
Context {M : Machine} (plain_env : mc_getenv "CLAUDE_PEERS_CONFIG" = "").
Context (marshal_total : ∀ c, is_ok (mc_marshal c) = true).

Lemma configPath_default : configPath = in_config "config.json".
Proof. unfold configPath. by rewrite plain_env. Qed.

Lemma write_and_report_healthy c fs :
  healthy fs →
  ∃ data, write_and_report c fs
    = (put_file (in_config "config.json") data mode_0644 fs, mkOutcome (init_report c) [] 0).
Proof.
  intros Hh. pose proof (marshal_total c) as Hm. destruct (mc_marshal c) as [data|] eqn:E; [|done].
  exists data. unfold write_and_report. erewrite or_die_ok; [done|].
  unfold writeConfig, MkdirAll, lift, mbind, io_bind. destruct Hh as (Hw & Hr & Hd).
  rewrite Hd, E, configPath_default. by apply WriteFile_ok.
Qed.

(** *** The broker's machine *)

(** What the broker's commands find on disk: its key pair, the public key for
    the fleet, and the root token, which is also its own. *)
Record broker_home (fs : FileSys) (k : PrivateKey) (root : string) : Prop := {
  home_private : ∃ d, holds fs (in_config privateKeyFile) d ∧ private_file k d;
  home_public : ∃ d, holds fs (in_config publicKeyFile) d ∧ public_file (Public k) d;
  home_root_pub : ∃ d, holds fs (in_config rootPubKeyFile) d ∧ public_file (Public k) d;
  home_root : holds fs (in_config rootTokenFile) root;
  home_token : holds fs (in_config tokenFile) root;
  home_trim : TrimSpace root = root;
}.

Lemma home_LoadKeyPair fs k root :
  broker_home fs k root → LoadKeyPair configDir fs = (fs, Ok (mkKeyPair k (Public k))).
Proof. intros [(d & Hd & Hk) (d' & Hd' & Hk') _ _ _ _]. by eapply LoadKeyPair_holds. Qed.

Lemma home_LoadRootToken fs k root :
  broker_home fs k root → LoadRootToken configDir fs = (fs, Ok root).
Proof. intros [_ _ _ Hr _ Ht]. rewrite (LoadRootToken_holds _ _ _ Hr). by rewrite Ht. Qed.

Lemma broker_home_put fs k root path data perm :
  broker_home fs k root → outside_config path → broker_home (put_file path data perm fs) k root.
Proof.
  intros [(d1 & H1 & K1) (d2 & H2 & K2) (d3 & H3 & K3) H4 H5 Ht] Hout. split; try done;
    [exists d1|exists d2|exists d3|idtac|idtac]; try (split; [|done]);
    (apply holds_put_ne; [|done]); apply Hout; vm_decide.
Qed.

Lemma init_broker_home now k fs :
  healthy fs → datable now year →
  ∃ fs' root, cliInit now (Ok k) ["broker"] fs
      = (fs', mkOutcome (init_report (init_config "broker" "0.0.0.0:7899" "http://127.0.0.1:7899")) [] 0)
    ∧ healthy fs' ∧ broker_home fs' k root
    ∧ ParseUnverified root = Ok (key_claims k (Public k) now year AllCapabilities "").
Proof.
  intros Hh Hd.
  assert (plain_caps AllCapabilities) as Hplain by (apply plain_caps_decide; vm_decide).
  destruct (key_claims_signed k (Public k) now year AllCapabilities "" Hplain Hd eq_refl)
    as (root & Hs & Hu & _).
  destruct (SaveKeyPair_healthy k configDir fs Hh) as (d1 & d2 & Hd1 & Hd2 & Hsave).
  set (fs1 := put_file _ d2 _ _) in Hsave.
  assert (healthy fs1) as Hh1 by done.
  destruct (SavePublicKey_healthy (Public k) (in_config rootPubKeyFile) fs1 Hh1 (public_length k))
    as (d3 & Hpub & Hd3).
  set (fs2 := put_file _ d3 _ _) in Hpub.
  set (fs3 := put_file (in_config rootTokenFile) root mode_0600 fs2).
  set (fs4 := put_file (in_config tokenFile) root mode_0600 fs3).
  destruct (write_and_report_healthy (init_config "broker" "0.0.0.0:7899" "http://127.0.0.1:7899") fs4)
    as (d4 & Hw); [done|].
  set (fs5 := put_file _ d4 _ _) in Hw. exists fs5, root.
  split; [|split; [done|split; [|exact Hu]]].
  - match goal with |- _ = ?r => change (init_broker now (Ok k) fs = r) end.
    unfold init_broker. cbv zeta.
    erewrite or_die_ok by reflexivity. erewrite or_die_ok by exact Hsave.
    erewrite or_die_ok by exact Hpub.
    assert (MintRootToken now k AllCapabilities year = Ok root) as Hmint by exact Hs.
    erewrite or_die_ok by (unfold lift; cbn [kp_PrivateKey]; by rewrite Hmint).
    erewrite or_die_ok by (by apply WriteFile_healthy).
    erewrite or_die_ok by (by apply WriteFile_healthy). exact Hw.
  - pose proof (TrimSpace_token k _ root Hs) as Htrim.
    assert (∀ p, read_fault fs p = None) as Hr by apply Hh.
    split; [exists d1; split; [|done]|exists d2; split; [|done]|exists d3; split; [|done]|..|done].
    + do 5 (apply holds_put_ne; [apart|]). apply holds_put, Hr.
    + do 4 (apply holds_put_ne; [apart|]). apply holds_put, Hr.
    + do 3 (apply holds_put_ne; [apart|]). apply holds_put, Hr.
    + do 2 (apply holds_put_ne; [apart|]). apply holds_put, Hr.
    + apply holds_put_ne; [apart|]. apply holds_put, Hr.
Qed.

(** *** The client's machine *)
Lemma init_client_home now k url fs :
  healthy fs →
  ∃ fs' data, cliInit now (Ok k) ["client"; url] fs
      = (fs', mkOutcome (init_report (init_config "client" "127.0.0.1:7899" url)) [] 0)
    ∧ healthy fs' ∧ LoadKeyPair configDir fs' = (fs', Ok (mkKeyPair k (Public k)))
    ∧ holds fs' (in_config publicKeyFile) data ∧ public_file (Public k) data.
Proof.
  intros Hh. destruct (SaveKeyPair_healthy k configDir fs Hh) as (d1 & d2 & Hd1 & Hd2 & Hsave).
  set (fs1 := put_file _ d2 _ _) in Hsave.
  destruct (write_and_report_healthy (init_config "client" "127.0.0.1:7899" url) fs1)
    as (d3 & Hw); [done|].
  set (fs2 := put_file _ d3 _ _) in Hw. assert (∀ p, read_fault fs p = None) as Hr by apply Hh.
  assert (holds fs2 (in_config publicKeyFile) d2) as Hpub.
  { apply holds_put_ne; [apart|]. apply holds_put, Hr. }
  exists fs2, d2. split; [|split; [done|split; [|by split]]].
  - match goal with |- _ = ?r => change (init_client (Ok k) url fs = r) end.
    unfold init_client. cbv zeta. erewrite or_die_ok by reflexivity.
    erewrite or_die_ok by exact Hsave. exact Hw.
  - eapply LoadKeyPair_holds; [|exact Hd1|exact Hpub|exact Hd2].
    do 2 (apply holds_put_ne; [apart|]). apply holds_put, Hr.
Qed.

Lemma save_token_kept now k c tok fs :
  healthy fs → SignedString k c = Ok tok → mc_getenv "CLAUDE_PEERS_TOKEN" = "" →
  loadAuthToken (cliSaveToken now [tok] fs).1 = tok.
Proof.
  intros Hh Hs Henv. unfold cliSaveToken. erewrite or_die_ok by (by apply WriteFile_healthy).
  cbn [finish fst]. unfold loadAuthToken. rewrite Henv. simpl (non_empty "").
  rewrite (LoadToken_holds _ _ tok); [by eapply TrimSpace_token|]. apply holds_put, Hh.
Qed.

(** *** Issuing *)
Definition not_ttl (a : string) : Prop := String.eqb a "--ttl" = false ∧ HasPrefix a "--ttl=" = false.

Lemma role_not_ttl role caps : role_capabilities role = Some caps → not_ttl role.
Proof.
  unfold role_capabilities.
  intros H. repeat case_match; simplify_eq;
    match goal with E : String.eqb role _ = true |- _ => apply String.eqb_eq in E as -> end; by split.
Qed.

Lemma role_plain role caps :
  role_capabilities role = Some caps → plain_caps caps ∧ capSet caps ⊆ capSet AllCapabilities.
Proof.
  unfold role_capabilities. intros H. repeat case_match; simplify_eq;
    (split; [apply plain_caps_decide|]; vm_decide).
Qed.

Lemma issue_args dttl path role :
  not_ttl path → not_ttl role →
  parseIssueTokenArgs dttl [path; role]
  = Ok (mkIssueTokenArgs [path; role] (defaultChildTTL dttl) false).
Proof.
  intros [H1 H2] [H3 H4]. unfold parseIssueTokenArgs. cbn [issue_loop]. rewrite H1, H2. cbn [issue_loop].
  by rewrite H3, H4.
Qed.

(** The broker's machine issues a token signed by its key, for the role, with
    the root token as its proof. *)
Lemma issue_token_healthy now dttl path role caps k root rc pub fs :
  broker_home fs k root → ParseUnverified root = Ok rc →
  capSet (cl_Capabilities rc) = capSet AllCapabilities →
  role_capabilities role = Some caps → not_ttl path →
  LoadPublicKey path fs = (fs, Ok pub) → datable now (defaultChildTTL dttl) →
  ∃ tok audit, cliIssueToken now dttl [path; role] fs = (fs, mkOutcome [tok] [audit] 0)
    ∧ let c := key_claims k pub now (defaultChildTTL dttl) caps (TokenHash root) in
      SignedString k c = Ok tok
      ∧ ∀ now', now' ≤ now + defaultChildTTL dttl →
        ParseWithClaims (WithLeeway (30 * Second)) now' tok issuer_key = Ok c.
Proof.
  intros Hhome Hrc Hall Hrole Hpath Hpub Hd.
  destruct (role_plain role caps Hrole) as [Hplain Hsub].
  destruct (key_claims_signed k pub now (defaultChildTTL dttl) caps (TokenHash root) Hplain Hd
    (EncodeToString_ascii _)) as (tok & Hs & _ & Hp).
  assert (MintToken now k pub caps (defaultChildTTL dttl) root = Ok tok) as Hmint.
  { unfold MintToken. rewrite Hrc. rewrite <-Hall in Hsub. apply first_outside_none in Hsub.
    by rewrite Hsub. }
  eexists tok, _. split; [|split; [exact Hs|]].
  - unfold cliIssueToken. rewrite issue_args by (done || by eapply role_not_ttl).
    cbn [it_positional it_ttl it_ttlFromFlag]. rewrite Hrole.
    erewrite or_die_ok by (by eapply home_LoadKeyPair).
    erewrite or_die_ok by (unfold load_parent; by rewrite (home_LoadRootToken _ _ _ Hhome)).
    erewrite or_die_ok by exact Hpub.
    erewrite or_die_ok by (unfold lift; cbn [kp_PrivateKey]; by rewrite Hmint). reflexivity.
  - intros now' Hnow. apply Hp. pose proof (date_range (now + defaultChildTTL dttl)).
    unfold Second in *. lia.
Qed.
End machine.

(** ** The broker that is started there *)

(** What its handlers and its start read from the configuration directory;
    [payload] decodes the middle of a token, [sign] is [ed25519.Sign]. *)
Definition server_env_of {M : Machine} (dttl : string) (payload : string → option (string * list string))
    (sign : PrivateKey → string → string) (fs : FileSys) : ServerEnv := {|
  se_keypair := snd (LoadKeyPair configDir fs);
  se_root_token := snd (loadBrokerRootToken (LoadRootToken configDir fs).2 (LoadToken configDir fs).2
                          payload true);
  se_default_ttl := dttl;
  se_machine := mc_hostname;
  se_sign := sign;
|}.

Lemma started_validator {M : Machine} dttl payload sign fs k root tf now d :
  broker_home fs k root →
  open_validator (S := server_env_of dttl payload sign fs) tf now d
  = Some (RegisterToken now
      (restart_validator now (Public k) (tf_load tf) (mkPersister (dk_tokens d) (tf_saves tf)))
      root AllCapabilities).
Proof.
  intros Hhome. unfold open_validator. cbn [se_keypair se_root_token server_env_of].
  by rewrite (home_LoadKeyPair _ _ _ Hhome), (home_LoadRootToken _ _ _ Hhome).
Qed.

(** A token with a proof is refused by a validator that knows no parents. *)
Lemma lone_validator_refuses now rootPub tok c :
  ParseUnverified tok = Ok c → cl_Proof c ≠ "" →
  ∃ e, (Validate now (NewTokenValidator rootPub) tok).2 = Err e.
Proof.
  intros Hc Hp. destruct (Validate_cases now (NewTokenValidator rootPub) tok)
    as [(c' & Hparse & Hcheck & _)|[e ->]]; [|by exists e].
  apply parse_sound in Hparse as (Hu & _). rewrite Hc in Hu. injection Hu as <-.
  apply check_claims_ok in Hcheck as [_ [[? _]|(_ & cs & Hk & _)]]; [done|].
  simpl in Hk. by rewrite lookup_empty in Hk.
Qed.

(** ** Properties *)

(** C11: Setting a machine up works end to end.  A broker is initialised, a client
    is initialised, the client's public key is copied to the broker, a token is
    issued for a role and saved on the client: then the client presents that
    token, and every broker started in that directory accepts it for its whole
    lifetime, for the client's key and with exactly the capabilities of the
    role. *)
Theorem fleet_bootstrap {MB MC : Machine} kb kc t0 t1 t2 dttl url role caps path fb fc
    payload sign :
  @mc_getenv MB "CLAUDE_PEERS_CONFIG" = "" → @mc_getenv MC "CLAUDE_PEERS_CONFIG" = "" →
  @mc_getenv MC "CLAUDE_PEERS_TOKEN" = "" →
  (∀ c, is_ok (@mc_marshal MB c) = true) → (∀ c, is_ok (@mc_marshal MC c) = true) →
  healthy fb → healthy fc → datable t0 year → datable t1 (defaultChildTTL dttl) →
  role_capabilities role = Some caps → not_ttl path → @outside_config MB path →
  ∃ fb1 ob fc1 oc data tok audit,
    cliInit (M := MB) t0 (Ok kb) ["broker"] fb = (fb1, ob) ∧ oc_exit ob = 0
    ∧ cliInit (M := MC) t0 (Ok kc) ["client"; url] fc = (fc1, oc) ∧ oc_exit oc = 0
    ∧ holds fc1 (@in_config MC publicKeyFile) data
    ∧ let fb2 := put_file path data mode_0644 fb1 in
      cliIssueToken (M := MB) t1 dttl [path; role] fb2 = (fb2, mkOutcome [tok] [audit] 0)
      ∧ loadAuthToken (M := MC) (cliSaveToken (M := MC) t2 [tok] fc1).1 = tok
      ∧ ∀ tf now now' d, now' ≤ t1 + defaultChildTTL dttl →
        ∃ v c, open_validator (S := server_env_of (M := MB) dttl payload sign fb2) tf now d = Some v
          ∧ (Validate now' v tok).2 = Ok c ∧ cl_Audience c = [pubKeyToString (Public kc)]
          ∧ ∀ r, HasCapability c r = true ↔ r ∈ capSet caps.
Proof.
  intros HeB HeC HtC HmB HmC Hfb Hfc Hd0 Hd1 Hrole Hpath Hout.
  destruct (init_broker_home (M := MB) HeB HmB t0 kb fb Hfb Hd0)
    as (fb1 & root & Hib & Hfb1 & Hhome & Hroot).
  destruct (init_client_home (M := MC) HeC HmC t0 kc url fc Hfc)
    as (fc1 & data & Hic & Hfc1 & _ & Hdata & Hpub).
  assert (broker_home (M := MB) (put_file path data mode_0644 fb1) kb root) as Hhome2
    by by apply broker_home_put.
  destruct (issue_token_healthy (M := MB) t1 dttl path role caps kb root _ (Public kc)
    (put_file path data mode_0644 fb1) Hhome2 Hroot eq_refl Hrole Hpath) as (tok & audit & Hissue & Hs & Hp);
    [|done|].
  { eapply LoadPublicKey_holds; [|exact Hpub]. apply holds_put, Hfb1. }
  eexists fb1, _, fc1, _, data, tok, audit. do 2 (split; [eassumption|split; [reflexivity|]]).
  split; [exact Hdata|]. split; [exact Hissue|]. split; [by eapply save_token_kept|].
  intros tf now now' d Hnow.
  eexists _, _. split; [by apply started_validator|]. unfold Validate. rewrite (Hp now' Hnow).
  set (v := RegisterToken _ _ _ _).
  assert (check_claims v (key_claims kb (Public kc) t1 (defaultChildTTL dttl) caps (TokenHash root))
    = Ok tt) as ->; [|split; [done|split; [done|intros r; apply HasCapability_spec]]].
  apply check_claims_ok. split; [done|]. right. split; [apply TokenHash_nonempty|].
  exists (capSet AllCapabilities). split; [|by eapply role_plain].
  unfold v, RegisterToken. by rewrite remember_known, lookup_insert_eq.
Qed.

(** The validation of [save-token] cannot succeed for a token that was issued
    to a machine: the parent is looked for in the file the token has just
    replaced, so that every delegated token is reported as failing. *)
Theorem save_token_never_validates {M : Machine} now tok c rootPub fs :
  healthy fs → TrimSpace tok = tok → ParseUnverified tok = Ok c → cl_Proof c ≠ "" →
  (LoadPublicKey (in_config rootPubKeyFile) (put_file (in_config tokenFile) tok mode_0600 fs)).2 = Ok rootPub →
  ∃ e, oc_stdout (cliSaveToken now [tok] fs).2
       = [saved_line; "WARNING: token validation failed: " +:+ e].
Proof.
  intros Hh Ht Hc Hp Hpub. unfold cliSaveToken. erewrite or_die_ok by (by apply WriteFile_healthy).
  cbn [finish snd oc_stdout]. unfold save_token_report.
  change (path_join [configDir; tokenFile]) with (in_config tokenFile). rewrite Hpub.
  unfold save_token_validator. rewrite (LoadToken_holds _ _ tok) by (apply holds_put, Hh).
  cbn [snd]. rewrite Ht, String.eqb_refl.
  destruct (lone_validator_refuses now rootPub tok c Hc Hp) as [e ->]. by exists e.
Qed.

(** After a refresh the new expiry is never printed for a machine's token: the
    validator that should read it knows no parent. *)
Theorem refresh_never_reports_expiry {M : Machine} now tok c fs :
  holds fs (in_config tokenFile) tok → TrimSpace tok = tok → ParseUnverified tok = Ok c →
  cl_Proof c ≠ "" → refresh_report now fs = [].
Proof.
  intros Hh Ht Hc Hp. unfold refresh_report. rewrite (LoadToken_holds _ _ tok Hh), Ht. cbn [snd].
  destruct (LoadPublicKey _ fs) as [? [pub|e]]; [|done]. cbn [snd].
  by destruct (lone_validator_refuses now pub tok c Hc Hp) as [e ->].
Qed.

(** [--as] takes effect wherever it stands, in either form, and leaves the
    command as if it were not there. *)
Theorem global_flag_anywhere pre post name :
  Forall not_as pre → Forall not_as post →
  main_command (pre ++ "--as" :: name :: post)
  = (λ cmd, (cmd.1, name)) <$> main_command (pre ++ post)
  ∧ main_command (pre ++ ("--as=" +:+ name) :: post)
    = (λ cmd, (cmd.1, name)) <$> main_command (pre ++ post).
Proof.
  intros Hpre Hpost. unfold main_command. rewrite !parseGlobalFlags_pre by done.
  rewrite (parseGlobalFlags_plain "" post) by done.
  assert (∀ r, r = Some (post, name) →
    match match r with Some (out, o) => Some (pre ++ out, o) | None => None end with
    | None => None
    | Some (_ :: cmd :: args, agent) => Some (sub_command cmd args, agent)
    | Some (_, agent) => Some (CUsage, agent)
    end = (λ cmd, (cmd.1, name)) <$>
      match Some (pre ++ post, "") with
      | None => None
      | Some (_ :: cmd :: args, agent) => Some (sub_command cmd args, agent)
      | Some (_, agent) => Some (CUsage, agent)
      end) as Hgen.
  { intros r ->. by destruct (pre ++ post) as [|? [|? ?]]. }
  split; apply Hgen.
  - cbn [parseGlobalFlags]. by apply parseGlobalFlags_plain.
  - rewrite parseGlobalFlags_inline. by apply parseGlobalFlags_plain.
Qed.
End setup.

(** ** Witnesses *)
#[local] Existing Instances demo_jwt demo_jwt_laws.

Definition hub : Machine := demo_machine "hub".
Definition laptop : Machine := demo_machine "laptop".

Lemma fleet_bootstrap_witness :
  ∃ fb2 tok v c, open_validator (S := server_env_of (M := hub) "24h" (λ _, None) (λ k _, Public k) fb2)
      no_token_faults (day0 + Hour) (disk_of empty_db ∅) = Some v
    ∧ (Validate (day0 + 3 * Hour) v tok).2 = Ok c ∧ HasCapability c "msg/send" = true
    ∧ HasCapability c "nats/subscribe" = false.
Proof.
  destruct (fleet_bootstrap (MB := hub) (MC := laptop) root_key machine_key day0 (day0 + Hour)
    (day0 + 2 * Hour) "24h" "http://hub:7899" "peer-session" PeerSessionCapabilities
    "/tmp/laptop.pub" blank_disk blank_disk (λ _, None) (λ k _, Public k))
    as (fb1 & ob & fc1 & oc & data & tok & audit & _ & _ & _ & _ & _ & _ & _ & H).
  - done.
  - done.
  - done.
  - done.
  - done.
  - done.
  - done.
  - split; split; vm_compute; done.
  - split; split; vm_compute; done.
  - vm_decide.
  - by split.
  - intros f Hf. unfold dir_files in Hf. rewrite !elem_of_cons, elem_of_nil in Hf.
    destruct Hf as [->|[->|[->|[->|[->|[->|[->|[]]]]]]]]; vm_compute; discriminate.
  - destruct (H no_token_faults (day0 + Hour) (day0 + 3 * Hour) (disk_of empty_db ∅)) as (v & c & Hv & Hc & _ & Hcap).
    + vm_compute. discriminate.
    + eexists _, tok, v, c. split; [exact Hv|]. split; [exact Hc|]. split.
      * apply Hcap. vm_decide.
      * apply not_true_iff_false. rewrite Hcap. vm_compute. intros Hin. set_solver.
Defined.

(** The laptop has the broker's public key and is given a token for the command
    line, which is a valid one. *)
Definition laptop_disk : FileSys :=
  (SavePublicKey (Public root_key) (@in_config laptop rootPubKeyFile) blank_disk).1.

#[local] Typeclasses Opaque demo_child laptop_disk claims_of.

Lemma save_token_never_validates_witness :
  ∃ e, oc_stdout (cliSaveToken (M := laptop) (day0 + Hour) [demo_child] laptop_disk).2
       = [@saved_line laptop; "WARNING: token validation failed: " +:+ e].
Proof.
  apply (save_token_never_validates (M := laptop) (day0 + Hour) demo_child (claims_of demo_child)
    (Public root_key)).
  - split; [done|split; done].
  - vm_decide.
  - vm_decide.
  - vm_decide.
  - vm_decide.
Defined.

Lemma refresh_never_reports_expiry_witness :
  refresh_report (M := laptop) (day0 + Hour)
    (put_file (@in_config laptop tokenFile) demo_child mode_0600 laptop_disk) = [].
Proof.
  apply (refresh_never_reports_expiry (M := laptop) (day0 + Hour) demo_child (claims_of demo_child)).
  - by apply holds_put.
  - vm_decide.
  - vm_decide.
  - vm_decide.
Defined.

Lemma global_flag_anywhere_witness :
  main_command ["claude-peers"; "send"; "--as"; "planner"; "builder"; "hello"; "there"]
  = Some (CSend "builder" "hello there", "planner").
Proof.
  destruct (global_flag_anywhere ["claude-peers"; "send"] ["builder"; "hello"; "there"] "planner")
    as [H _]; [repeat constructor..|]. exact H.
Defined.
